(** * Qubic key utilities: KangarooTwelve and the FourQ signature stack

    A shallow embedding of [qubic-cli/K12AndKeyUtil.h].  Machine words are
    integers of [Z] with the wrap-around of [unsigned long long] written
    out; a field element [felm_t] is the pair of its two 64-bit words, low
    word first, as in the C arrays. *)

From Stdlib Require Import ZArith NArith Nnat List Lia Bool Znumtheory Zpow_facts.
From Stdlib Require Strings.Byte.
From Stdlib Require Zmod.ZmodInv.
From Stdlib Require NsatzTactic.
Import ListNotations.
Local Open Scope Z_scope.

(** ** 64-bit words *)

Module Word.

Definition UINT64_MAX : Z := 0xFFFFFFFFFFFFFFFF.

(** Reduction of an integer to [unsigned long long]: its 64 low bits in
    two's complement. *)
Definition u64 (z : Z) : Z := Z.land z UINT64_MAX.

(** Reduction of an integer to [unsigned __int128]. *)
Definition u128 (z : Z) : Z := Z.land z 0xFFFFFFFFFFFFFFFFFFFFFFFFFFFFFFFF.

Definition is_u64 (z : Z) : Prop := 0 <= z < 2 ^ 64.

(** [~a] on a 64-bit word. *)
Definition not64 (a : Z) : Z := Z.lxor a UINT64_MAX.

(** [a << n] and [a >> n] on 64-bit words, for [0 <= n < 64]. *)
Definition shl64 (a n : Z) : Z := u64 (Z.shiftl a n).
Definition shr64 (a n : Z) : Z := Z.shiftr a n.

(** [_subborrow_u64(b_in, src1, src2, &diff)]: the pair (borrow, diff).
    The addition [src2 + (b_in != 0 ? 1 : 0)] is itself a 64-bit one. *)
Definition _subborrow_u64 (b_in src1 src2 : Z) : Z * Z :=
  let s := u64 (src2 + (if b_in =? 0 then 0 else 1)) in
  ((if src1 <? s then 1 else 0), u64 (src1 - s)).

(** [_addcarry_u64(b_in, src1, src2, &sum)]: the pair (carry, sum). *)
Definition _addcarry_u64 (b_in src1 src2 : Z) : Z * Z :=
  let s := u64 (src2 + (if b_in =? 0 then 0 else 1)) in
  ((if UINT64_MAX - src1 <? s then 1 else 0), u64 (src1 + s)).

(** [_umul128(a, b, &hi)]: the pair (hi, lo) of the 128-bit product. *)
Definition _umul128 (a b : Z) : Z * Z :=
  let v := u128 (a * b) in
  (Z.shiftr v 64, u64 v).

(** [__shiftleft128(Low, High, Shift)]: high word of [(High:Low) << Shift]. *)
Definition __shiftleft128 (LowPart HighPart Shift : Z) : Z :=
  let a := Z.lor (Z.shiftl HighPart 64) LowPart in
  let a := u128 (Z.shiftl a Shift) in
  Z.land (Z.shiftr a 64) 0xFFFFFFFFFFFFFFFF.

(** [__shiftright128(Low, High, Shift)]: low word of [(High:Low) >> Shift]. *)
Definition __shiftright128 (LowPart HighPart Shift : Z) : Z :=
  let a := Z.lor (Z.shiftl HighPart 64) LowPart in
  let a := Z.shiftr a Shift in
  Z.land a 0xFFFFFFFFFFFFFFFF.

End Word.
Import Word.

(** ** Arithmetic in GF(p), p = 2^127 - 1 *)

Definition felm_t : Type := Z * Z.

Definition p1271 : Z := 2 ^ 127 - 1.

(** The integer held by the two words of a field element. *)
Definition fval (a : felm_t) : Z := fst a + 2 ^ 64 * snd a.

(** Both words are 64-bit words. *)
Definition felm_ok (a : felm_t) : Prop := is_u64 (fst a) /\ is_u64 (snd a).

Definition mod1271 (a : felm_t) : felm_t :=
  let '(a0, a1) := a in
  let '(b, a0) := _subborrow_u64 0 a0 0xFFFFFFFFFFFFFFFF in
  let '(_, a1) := _subborrow_u64 b a1 0x7FFFFFFFFFFFFFFF in
  let mask := u64 (0 - shr64 a1 63) in
  let '(c, a0) := _addcarry_u64 0 a0 mask in
  let '(_, a1) := _addcarry_u64 c a1 (Z.land 0x7FFFFFFFFFFFFFFF mask) in
  (a0, a1).

Definition fpadd1271 (a b : felm_t) : felm_t :=
  let '(a0, a1) := a in
  let '(b0, b1) := b in
  let '(c, c0) := _addcarry_u64 0 a0 b0 in
  let '(_, c1) := _addcarry_u64 c a1 b1 in
  let '(c, c0) := _addcarry_u64 0 c0 (shr64 c1 63) in
  let '(_, c1) := _addcarry_u64 c (Z.land c1 0x7FFFFFFFFFFFFFFF) 0 in
  (c0, c1).

Definition fpsub1271 (a b : felm_t) : felm_t :=
  let '(a0, a1) := a in
  let '(b0, b1) := b in
  let '(c, c0) := _subborrow_u64 0 a0 b0 in
  let '(_, c1) := _subborrow_u64 c a1 b1 in
  let '(c, c0) := _subborrow_u64 0 c0 (shr64 c1 63) in
  let '(_, c1) := _subborrow_u64 c (Z.land c1 0x7FFFFFFFFFFFFFFF) 0 in
  (c0, c1).

Definition fpneg1271 (a : felm_t) : felm_t :=
  let '(a0, a1) := a in
  (not64 a0, u64 (0x7FFFFFFFFFFFFFFF - a1)).

Definition fpmul1271 (a b : felm_t) : felm_t :=
  let '(a0, a1) := a in
  let '(b0, b1) := b in
  let '(tt3_0, tt1_0) := _umul128 a0 b0 in
  let '(tt2_1, tt2_0) := _umul128 a0 b1 in
  let '(c, tt2_0) := _addcarry_u64 0 tt2_0 tt3_0 in
  let '(_, tt2_1) := _addcarry_u64 c tt2_1 0 in
  let '(tt3_1, tt3_0) := _umul128 a1 b0 in
  let '(c, tt2_0) := _addcarry_u64 0 tt2_0 tt3_0 in
  let '(_, tt2_1) := _addcarry_u64 c tt2_1 tt3_1 in
  let '(tt3_1, tt3_0) := _umul128 a1 b1 in
  let tt3_1 := __shiftleft128 tt3_0 tt3_1 1 in
  let '(c, tt3_0) :=
    _addcarry_u64 0 (__shiftright128 tt2_0 tt2_1 63) (shl64 tt3_0 1) in
  let '(_, tt3_1) := _addcarry_u64 c (shr64 tt2_1 63) tt3_1 in
  let '(c, tt1_0) := _addcarry_u64 0 tt1_0 tt3_0 in
  let '(_, tt1_1) := _addcarry_u64 c (Z.land tt2_0 0x7FFFFFFFFFFFFFFF) tt3_1 in
  let '(c, c0) := _addcarry_u64 0 tt1_0 (shr64 tt1_1 63) in
  let '(_, c1) := _addcarry_u64 c (Z.land tt1_1 0x7FFFFFFFFFFFFFFF) 0 in
  (c0, c1).

Definition fpsqr1271 (a : felm_t) : felm_t :=
  let '(a0, a1) := a in
  let '(tt3_0, tt1_0) := _umul128 a0 a0 in
  let '(tt2_1, tt2_0) := _umul128 a0 a1 in
  let '(c, tt3_0) := _addcarry_u64 0 tt2_0 tt3_0 in
  let '(_, tt3_1) := _addcarry_u64 c tt2_1 0 in
  let '(c, tt2_0) := _addcarry_u64 0 tt2_0 tt3_0 in
  let '(_, tt2_1) := _addcarry_u64 c tt2_1 tt3_1 in
  let '(tt3_1, tt3_0) := _umul128 a1 a1 in
  let tt3_1 := __shiftleft128 tt3_0 tt3_1 1 in
  let '(c, tt3_0) :=
    _addcarry_u64 0 (__shiftright128 tt2_0 tt2_1 63) (shl64 tt3_0 1) in
  let '(_, tt3_1) := _addcarry_u64 c (shr64 tt2_1 63) tt3_1 in
  let '(c, tt1_0) := _addcarry_u64 0 tt1_0 tt3_0 in
  let '(_, tt1_1) := _addcarry_u64 c (Z.land tt2_0 0x7FFFFFFFFFFFFFFF) tt3_1 in
  let '(c, c0) := _addcarry_u64 0 tt1_0 (shr64 tt1_1 63) in
  let '(_, c1) := _addcarry_u64 c (Z.land tt1_1 0x7FFFFFFFFFFFFFFF) 0 in
  (c0, c1).

(** [for (i = 0; i < n; i++) fpsqr1271(t, t)]. *)
Fixpoint fpsqr1271_n (n : nat) (t : felm_t) : felm_t :=
  match n with
  | O => t
  | S n' => fpsqr1271_n n' (fpsqr1271 t)
  end.

Definition fpexp1251 (a : felm_t) : felm_t :=
  let t2 := fpsqr1271 a in
  let t2 := fpmul1271 a t2 in
  let t3 := fpsqr1271 t2 in
  let t3 := fpsqr1271 t3 in
  let t3 := fpmul1271 t2 t3 in
  let t4 := fpsqr1271 t3 in
  let t4 := fpsqr1271 t4 in
  let t4 := fpsqr1271 t4 in
  let t4 := fpsqr1271 t4 in
  let t4 := fpmul1271 t3 t4 in
  let t5 := fpsqr1271 t4 in
  let t5 := fpsqr1271_n 7 t5 in
  let t5 := fpmul1271 t4 t5 in
  let t2 := fpsqr1271 t5 in
  let t2 := fpsqr1271_n 15 t2 in
  let t2 := fpmul1271 t5 t2 in
  let t1 := fpsqr1271 t2 in
  let t1 := fpsqr1271_n 31 t1 in
  let t1 := fpmul1271 t2 t1 in
  let t1 := fpsqr1271_n 32 t1 in
  let t1 := fpmul1271 t1 t2 in
  let t1 := fpsqr1271_n 16 t1 in
  let t1 := fpmul1271 t5 t1 in
  let t1 := fpsqr1271_n 8 t1 in
  let t1 := fpmul1271 t4 t1 in
  let t1 := fpsqr1271_n 4 t1 in
  let t1 := fpmul1271 t3 t1 in
  let t1 := fpsqr1271 t1 in
  fpmul1271 a t1.

(** One half of [fp2div1271]: division by two of one GF(p) component. *)
Definition fpdiv1271 (a : felm_t) : felm_t :=
  let '(a0, a1) := a in
  let mask := u64 (0 - Z.land 1 a0) in
  let '(c, temp0) := _addcarry_u64 0 a0 mask in
  let '(_, temp1) := _addcarry_u64 c a1 (shr64 mask 1) in
  (__shiftright128 temp0 temp1 1, shr64 temp1 1).


(** ** Ranges of field elements *)

(** A 127-bit field element: the value lies in [0, p], with [p] itself a
    second representation of zero. *)
Definition fe127 (a : felm_t) : Prop :=
  is_u64 (fst a) /\ 0 <= snd a < 2 ^ 63.

(** A canonical field element: the value lies in [0, p). *)
Definition fcanon (a : felm_t) : Prop :=
  felm_ok a /\ fval a < p1271.

(** A loosely reduced element in the sense of the specification: two
    64-bit words holding a value in [0, 2p). *)
Definition floose (a : felm_t) : Prop :=
  felm_ok a /\ fval a < 2 * p1271.

(** Congruence modulo p. *)
Definition eqp (x y : Z) : Prop := x mod p1271 = y mod p1271.

(** Trial division: none of [d], [d + 1], ..., [d + fuel - 1] divides [n]. *)
Fixpoint no_divisor (fuel : nat) (n d : Z) : bool :=
  match fuel with
  | O => true
  | S fuel' => negb (n mod d =? 0) && no_divisor fuel' n (d + 1)
  end.

(** [x] is a 127-bit representation of the power [a ^ e]. *)
Definition is_pow (a : Z) (e : N) (x : felm_t) : Prop :=
  fe127 x /\ eqp (fval x) (a ^ Z.of_N e).

(** ** Arithmetic in GF(p^2) *)

Definition f2elm_t : Type := felm_t * felm_t.

Definition fp2div1271 (a : f2elm_t) : f2elm_t :=
  (fpdiv1271 (fst a), fpdiv1271 (snd a)).

Definition fp2neg1271 (a : f2elm_t) : f2elm_t :=
  (fpneg1271 (fst a), fpneg1271 (snd a)).

Definition fp2sqr1271 (a : f2elm_t) : f2elm_t :=
  let '(a0, a1) := a in
  let t1 := fpadd1271 a0 a1 in
  let t2 := fpsub1271 a0 a1 in
  let t3 := fpmul1271 a0 a1 in
  let c0 := fpmul1271 t1 t2 in
  let c1 := fpadd1271 t3 t3 in
  (c0, c1).

Definition fp2mul1271 (a b : f2elm_t) : f2elm_t :=
  let '(a0, a1) := a in
  let '(b0, b1) := b in
  let t1 := fpmul1271 a0 b0 in
  let t2 := fpmul1271 a1 b1 in
  let t3 := fpadd1271 a0 a1 in
  let t4 := fpadd1271 b0 b1 in
  let c0 := fpsub1271 t1 t2 in
  let t3 := fpmul1271 t3 t4 in
  let t3 := fpsub1271 t3 t1 in
  let c1 := fpsub1271 t3 t2 in
  (c0, c1).

Definition fp2add1271 (a b : f2elm_t) : f2elm_t :=
  (fpadd1271 (fst a) (fst b), fpadd1271 (snd a) (snd b)).

Definition fp2sub1271 (a b : f2elm_t) : f2elm_t :=
  (fpsub1271 (fst a) (fst b), fpsub1271 (snd a) (snd b)).

(** [fp2addsub1271(a, b, c)] overwrites [a] with [2a] and sets [c = 2a - b];
    the pair returned is (new [a], [c]). *)
Definition fp2addsub1271 (a b : f2elm_t) : f2elm_t * f2elm_t :=
  let a := fp2add1271 a a in
  (a, fp2sub1271 a b).

(** A four-word constant read as an element of GF(p^2). *)
Definition f2_of_words (w0 w1 w2 w3 : Z) : f2elm_t := ((w0, w1), (w2, w3)).

Definition f2_one : f2elm_t := f2_of_words 1 0 0 0.
Definition f2_zero : f2elm_t := f2_of_words 0 0 0 0.

(** ** Curve constants *)

Definition CURVE_ORDER_0 : Z := 0x2FB2540EC7768CE7.
Definition CURVE_ORDER_1 : Z := 0xDFBD004DFE0F7999.
Definition CURVE_ORDER_2 : Z := 0xF05397829CBC14E5.
Definition CURVE_ORDER_3 : Z := 0x0029CBC14E5E0A72.
Definition MONTGOMERY_SMALL_R_PRIME_0 : Z := 0xE12FE5F079BC3929.
Definition MONTGOMERY_SMALL_R_PRIME_1 : Z := 0xD75E78B8D1FCDCF3.
Definition MONTGOMERY_SMALL_R_PRIME_2 : Z := 0xBCE409ED76B5DB21.
Definition MONTGOMERY_SMALL_R_PRIME_3 : Z := 0xF32702FDAFC1C074.

Definition B11 : Z := 0xF6F900D81F5F5E6A.
Definition B12 : Z := 0x1363E862C22A2DA0.
Definition B13 : Z := 0xF8BD9FCE1337FCF1.
Definition B14 : Z := 0x084F739986B9E651.
Definition B21 : Z := 0xE2B6A4157B033D2C.
Definition B22 : Z := 0x0000000000000001.
Definition B23 : Z := 0xFFFFFFFFFFFFFFFF.
Definition B24 : Z := 0xDA243A43722E9830.
Definition B31 : Z := 0xE85452E2DCE0FCFE.
Definition B32 : Z := 0xFD3BDEE51C7725AF.
Definition B33 : Z := 0x2E4D21C98927C49F.
Definition B34 : Z := 0xF56190BB3FD13269.
Definition B41 : Z := 0xEC91CBF56EF737C1.
Definition B42 : Z := 0xCEDD20D23C1F00CE.
Definition B43 : Z := 0x068A49F02AA8A9B5.
Definition B44 : Z := 0x18D5087896DE0AEA.
Definition C1 : Z := 0x72482C5251A4559C.
Definition C2 : Z := 0x59F95B0ADD276F6C.
Definition C3 : Z := 0x7DD2D17C4625FA78.
Definition C4 : Z := 0x6BC57DEF56CE8877.

Definition PARAMETER_d : f2elm_t :=
  f2_of_words 0x0000000000000142 0x00000000000000E4 0xB3821488F1FC0C8D 0x5E472F846657E0FC.

(** A 256-bit scalar: four 64-bit words, least significant first. *)
Definition scalar_t : Type := list Z.

Definition curve_order : scalar_t :=
  [CURVE_ORDER_0; CURVE_ORDER_1; CURVE_ORDER_2; CURVE_ORDER_3].
Definition Montgomery_Rprime : scalar_t :=
  [0xC81DB8795FF3D621; 0x173EA5AAEA6B387D; 0x3D01B7C72136F61C; 0x0006A5F16AC8F9D3].
Definition ONE : scalar_t := [1; 0; 0; 0].

Definition ctau1 : f2elm_t := f2_of_words 0x74DCD57CEBCE74C3 0x1964DE2C3AFAD20C 0x12 0x0C.
Definition ctaudual1 : f2elm_t := f2_of_words 0x9ECAA6D9DECDF034 0x4AA740EB23058652 0x11 0x7FFFFFFFFFFFFFF4.
Definition cphi0 : f2elm_t := f2_of_words 0xFFFFFFFFFFFFFFF7 0x05 0x4F65536CEF66F81A 0x2553A0759182C329.
Definition cphi1 : f2elm_t := f2_of_words 0x07 0x05 0x334D90E9E28296F9 0x62C8CAA0C50C62CF.
Definition cphi2 : f2elm_t := f2_of_words 0x15 0x0F 0x2C2CB7154F1DF391 0x78DF262B6C9B5C98.
Definition cphi3 : f2elm_t := f2_of_words 0x03 0x02 0x92440457A7962EA4 0x5084C6491D76342A.
Definition cphi4 : f2elm_t := f2_of_words 0x03 0x03 0xA1098C923AEC6855 0x12440457A7962EA4.
Definition cphi5 : f2elm_t := f2_of_words 0x0F 0x0A 0x669B21D3C5052DF3 0x459195418A18C59E.
Definition cphi6 : f2elm_t := f2_of_words 0x18 0x12 0xCD3643A78A0A5BE7 0x0B232A8314318B3C.
Definition cphi7 : f2elm_t := f2_of_words 0x23 0x18 0x66C183035F48781A 0x3963BC1C99E2EA1A.
Definition cphi8 : f2elm_t := f2_of_words 0xF0 0xAA 0x44E251582B5D0EF0 0x1F529F860316CBE5.
Definition cphi9 : f2elm_t := f2_of_words 0xBEF 0x870 0x14D3E48976E2505 0xFD52E9CFE00375B.
Definition cpsi1 : f2elm_t := f2_of_words 0xEDF07F4767E346EF 0x2AF99E9A83D54A02 0x13A 0xDE.
Definition cpsi2 : f2elm_t := f2_of_words 0x143 0xE4 0x4C7DEB770E03F372 0x21B8D07B99A81F03.
Definition cpsi3 : f2elm_t := f2_of_words 0x09 0x06 0x3A6E6ABE75E73A61 0x4CB26F161D7D6906.
Definition cpsi4 : f2elm_t := f2_of_words 0xFFFFFFFFFFFFFFF6 0x7FFFFFFFFFFFFFF9 0xC59195418A18C59E 0x334D90E9E28296F9.

Definition ell1 : scalar_t := [0x259686E09D1A7D4F; 0xF75682ACE6A6BD66; 0xFC5BB5C5EA2BE5DF; 0x07].
Definition ell2 : scalar_t := [0xD1BA1D84DD627AFB; 0x2BD235580F468D8D; 0x8FD4B04CAA6C0F8A; 0x03].
Definition ell3 : scalar_t := [0x9B291A33678C203C; 0xC42BD6C965DCA902; 0xD038BF8D0BFFBAF6; 0x00].
Definition ell4 : scalar_t := [0x12E5666B77E7FDC0; 0x81CBDC3714983D82; 0x1B073877A22D8410; 0x03].

(** ** Point representations *)

(** Affine point (x, y). *)
Record point_affine : Type := mk_point {
  a_x : f2elm_t;
  a_y : f2elm_t
}.
Definition point_t : Type := point_affine.

(** Extended coordinates (X, Y, Z, Ta, Tb). *)
Record point_extproj : Type := mk_extproj {
  e_x : f2elm_t;
  e_y : f2elm_t;
  e_z : f2elm_t;
  e_ta : f2elm_t;
  e_tb : f2elm_t
}.
Definition point_extproj_t : Type := point_extproj.

(** Precomputed extended coordinates (X+Y, Y-X, 2Z, 2dT). *)
Record point_extproj_precomp : Type := mk_extproj_precomp {
  ep_xy : f2elm_t;
  ep_yx : f2elm_t;
  ep_z2 : f2elm_t;
  ep_t2 : f2elm_t
}.
Definition point_extproj_precomp_t : Type := point_extproj_precomp.

(** Precomputed extended affine coordinates (x+y, y-x, 2dt). *)
Record point_precomp : Type := mk_precomp {
  p_xy : f2elm_t;
  p_yx : f2elm_t;
  p_t2 : f2elm_t
}.
Definition point_precomp_t : Type := point_precomp.

(** ** Curve point algebra *)

Definition eccnorm (P : point_extproj_t) : point_t :=
  let '(z0, z1) := e_z P in
  let t1_0 := fpsqr1271 z0 in
  let t1_1 := fpsqr1271 z1 in
  let t1_0 := fpadd1271 t1_0 t1_1 in
  let t1_1 := fpexp1251 t1_0 in
  let t1_1 := fpsqr1271 t1_1 in
  let t1_1 := fpsqr1271 t1_1 in
  let t1_0 := fpmul1271 t1_0 t1_1 in
  let z1 := fpneg1271 z1 in
  let z0 := fpmul1271 z0 t1_0 in
  let z1 := fpmul1271 z1 t1_0 in
  let qx := fp2mul1271 (e_x P) (z0, z1) in
  let qy := fp2mul1271 (e_y P) (z0, z1) in
  mk_point (mod1271 (fst qx), mod1271 (snd qx))
           (mod1271 (fst qy), mod1271 (snd qy)).

Definition R1_to_R2 (P : point_extproj_t) : point_extproj_precomp_t :=
  let t := fp2add1271 (e_ta P) (e_ta P) in
  let qxy := fp2add1271 (e_x P) (e_y P) in
  let qyx := fp2sub1271 (e_y P) (e_x P) in
  let t := fp2mul1271 t (e_tb P) in
  let qz2 := fp2add1271 (e_z P) (e_z P) in
  let t := fp2mul1271 t PARAMETER_d in
  mk_extproj_precomp qxy qyx qz2 t.

Definition R1_to_R3 (P : point_extproj_t) : point_extproj_precomp_t :=
  let qxy := fp2add1271 (e_x P) (e_y P) in
  let qyx := fp2sub1271 (e_y P) (e_x P) in
  let t := fp2mul1271 (e_ta P) (e_tb P) in
  mk_extproj_precomp qxy qyx (e_z P) t.

(** [R2_to_R4(P, Q)] writes [Q->x], [Q->y], [Q->z] and leaves [Q->ta],
    [Q->tb] as they were. *)
Definition R2_to_R4 (P : point_extproj_precomp_t) (Q : point_extproj_t)
  : point_extproj_t :=
  mk_extproj (fp2sub1271 (ep_xy P) (ep_yx P))
             (fp2add1271 (ep_xy P) (ep_yx P))
             (ep_z2 P) (e_ta Q) (e_tb Q).

Definition eccdouble (P : point_extproj_t) : point_extproj_t :=
  let t1 := fp2sqr1271 (e_x P) in
  let t2 := fp2sqr1271 (e_y P) in
  let px := fp2add1271 (e_x P) (e_y P) in
  let ptb := fp2add1271 t1 t2 in
  let t1 := fp2sub1271 t2 t1 in
  let pta := fp2sqr1271 px in
  let t2 := fp2sqr1271 (e_z P) in
  let pta := fp2sub1271 pta ptb in
  let t2 := snd (fp2addsub1271 t2 t1) in
  let py := fp2mul1271 t1 ptb in
  let px := fp2mul1271 t2 pta in
  let pz := fp2mul1271 t1 t2 in
  mk_extproj px py pz pta ptb.

Definition eccadd_core (P Q : point_extproj_precomp_t) : point_extproj_t :=
  let rz := fp2mul1271 (ep_t2 P) (ep_t2 Q) in
  let t1 := fp2mul1271 (ep_z2 P) (ep_z2 Q) in
  let rx := fp2mul1271 (ep_xy P) (ep_xy Q) in
  let ry := fp2mul1271 (ep_yx P) (ep_yx Q) in
  let t2 := fp2sub1271 t1 rz in
  let t1 := fp2add1271 t1 rz in
  let rtb := fp2sub1271 rx ry in
  let rta := fp2add1271 rx ry in
  let rx := fp2mul1271 rtb t2 in
  let rz := fp2mul1271 t1 t2 in
  let ry := fp2mul1271 rta t1 in
  mk_extproj rx ry rz rta rtb.

Definition eccadd (Q : point_extproj_precomp_t) (P : point_extproj_t)
  : point_extproj_t :=
  let R := R1_to_R3 P in
  eccadd_core Q R.

Definition point_setup (P : point_t) : point_extproj_t :=
  mk_extproj (a_x P) (a_y P) f2_one (a_x P) (a_y P).

(** The test [!(w0 | w1) || !((w0 + 1) | (w1 + 1))] on one component. *)
Definition is_zero_or_ones (t : felm_t) : bool :=
  (Z.lor (fst t) (snd t) =? 0)
  || (Z.lor (u64 (fst t + 1)) (u64 (snd t + 1)) =? 0).

Definition ecc_point_validate (P : point_extproj_t) : bool :=
  let t1 := fp2sqr1271 (e_y P) in
  let t2 := fp2sqr1271 (e_x P) in
  let t3 := fp2sub1271 t1 t2 in
  let t1 := fp2mul1271 t1 t2 in
  let t2 := fp2mul1271 t1 PARAMETER_d in
  let t1 := f2_one in
  let t2 := fp2add1271 t2 t1 in
  let t1 := fp2sub1271 t3 t2 in
  is_zero_or_ones (fst t1) && is_zero_or_ones (snd t1).

Definition eccmadd (Q : point_precomp_t) (P : point_extproj_t)
  : point_extproj_t :=
  let pta := fp2mul1271 (e_ta P) (e_tb P) in
  let t1 := fp2add1271 (e_z P) (e_z P) in
  let pta := fp2mul1271 pta (p_t2 Q) in
  let pz := fp2add1271 (e_x P) (e_y P) in
  let ptb := fp2sub1271 (e_y P) (e_x P) in
  let t2 := fp2sub1271 t1 pta in
  let t1 := fp2add1271 t1 pta in
  let pta := fp2mul1271 (p_xy Q) pz in
  let px := fp2mul1271 (p_yx Q) ptb in
  let pz := fp2mul1271 t1 t2 in
  let ptb := fp2sub1271 pta px in
  let pta := fp2add1271 pta px in
  let px := fp2mul1271 ptb t2 in
  let py := fp2mul1271 pta t1 in
  mk_extproj px py pz pta ptb.

(** ** Bytes and words *)

Definition Z_of_byte (b : Byte.byte) : Z := Z.of_N (Byte.to_N b).

Definition byte_of_Z (z : Z) : Byte.byte :=
  match Byte.of_N (Z.to_N (z mod 256)) with
  | Some b => b
  | None => Byte.x00
  end.

(** The little-endian integer held by a byte string. *)
Fixpoint le_int (bs : list Byte.byte) : Z :=
  match bs with
  | [] => 0
  | b :: bs' => Z_of_byte b + 256 * le_int bs'
  end.

(** The [n] low bytes of an integer, least significant first. *)
Fixpoint le_bytes (n : nat) (z : Z) : list Byte.byte :=
  match n with
  | O => []
  | S n' => byte_of_Z z :: le_bytes n' (z / 256)
  end.

(** Bytes [off .. off + len - 1] of a buffer. *)
Definition sub_bytes (bs : list Byte.byte) (off len : nat) : list Byte.byte :=
  firstn len (skipn off bs).

(** The 64-bit word at word index [i] of a byte buffer read as an array of
    [unsigned long long]. *)
Definition word_at (bs : list Byte.byte) (i : nat) : Z :=
  le_int (sub_bytes bs (8 * i)%nat 8%nat).

(** The byte at index [i] of a buffer, as an integer. *)
Definition byte_at (bs : list Byte.byte) (i : nat) : Z :=
  Z_of_byte (nth i bs Byte.x00).

(** The bytes of a sequence of 64-bit words. *)
Definition bytes_of_words (ws : list Z) : list Byte.byte :=
  flat_map (le_bytes 8) ws.

(** The first [n] 64-bit words of a byte buffer. *)
Definition words_of_bytes (n : nat) (bs : list Byte.byte) : list Z :=
  map (word_at bs) (seq 0 n).

(** ** Point encoding and decoding *)

Definition encode (P : point_t) : list Byte.byte :=
  let '((x00, x01), (x10, x11)) := a_x P in
  let '((y00, y01), (y10, y11)) := a_y P in
  let temp1 := shl64 (Z.land x11 0x4000000000000000) 1 in
  let temp2 := shl64 (Z.land x01 0x4000000000000000) 1 in
  let w3 :=
    if (x00 =? 0) && (x01 =? 0) then Z.lor y11 temp1 else Z.lor y11 temp2 in
  bytes_of_words [y00; y01; y10; w3].

(** [for (i = 0; i < n; i++) ...] is [fpsqr1271_n]; a field element is
    zero when both of its words are. *)
Definition felm_is_zero (t : felm_t) : bool := (fst t =? 0) && (snd t =? 0).

(** [decode] returns [None] where the C function returns [false]. *)
Definition decode (Pencoded : list Byte.byte) : option point_t :=
  let y00 := word_at Pencoded 0 in
  let y01 := word_at Pencoded 1 in
  let y10 := word_at Pencoded 2 in
  let y11 := Z.land (word_at Pencoded 3) 0x7FFFFFFFFFFFFFFF in
  let Py : f2elm_t := ((y00, y01), (y10, y11)) in
  let u := fp2sqr1271 Py in
  let v := fp2mul1271 u PARAMETER_d in
  let u := fp2sub1271 u f2_one in
  let v := fp2add1271 v f2_one in
  let t0 := fpsqr1271 (fst v) in
  let t1 := fpsqr1271 (snd v) in
  let t0 := fpadd1271 t0 t1 in
  let t1 := fpmul1271 (fst u) (fst v) in
  let t2 := fpmul1271 (snd u) (snd v) in
  let t1 := fpadd1271 t1 t2 in
  let t2 := fpmul1271 (snd u) (fst v) in
  let t3 := fpmul1271 (fst u) (snd v) in
  let t2 := fpsub1271 t2 t3 in
  let t3 := fpsqr1271 t1 in
  let t4 := fpsqr1271 t2 in
  let t3 := fpadd1271 t3 t4 in
  let t3 := fpsqr1271_n 125 t3 in
  let t := fpadd1271 t1 t3 in
  let t := mod1271 t in
  let t := if felm_is_zero t then fpsub1271 t1 t3 else t in
  let t := fpadd1271 t t in
  let t3 := fpsqr1271 t0 in
  let t3 := fpmul1271 t0 t3 in
  let t3 := fpmul1271 t t3 in
  let r := fpexp1251 t3 in
  let t3 := fpmul1271 t0 r in
  let x0 := fpmul1271 t t3 in
  let t1 := fpsqr1271 x0 in
  let t1 := fpmul1271 t0 t1 in
  let x0 := fpdiv1271 x0 in
  let x1 := fpmul1271 t2 t3 in
  let t := fpsub1271 t t1 in
  let t := mod1271 t in
  let '(x0, x1) := if negb (felm_is_zero t) then (x1, x0) else (x0, x1) in
  let x0 := mod1271 x0 in
  let sign := Z.shiftr (byte_at Pencoded 31) 7 in
  let sel := if felm_is_zero x0 then x1 else x0 in
  let Px : f2elm_t :=
    if negb (sign =? Z.shiftr (snd sel) 62)
    then fp2neg1271 (x0, x1) else (x0, x1) in
  let R := point_setup (mk_point Px Py) in
  if ecc_point_validate R then Some (mk_point Px Py)
  else
    let rx1 := fpneg1271 (snd (e_x R)) in
    let R := mk_extproj (fst (e_x R), rx1) (e_y R) (e_z R) (e_ta R) (e_tb R) in
    if ecc_point_validate R then Some (mk_point (fst Px, rx1) Py)
    else None.

(** ** The Keccak-p[1600, 12] permutation *)

Definition ROL64 (a offset : Z) : Z :=
  Z.lxor (shl64 a offset) (shr64 a (64 - offset)).

Definition KeccakF1600RoundConstant0 : Z := 0x000000008000808b.
Definition KeccakF1600RoundConstant1 : Z := 0x800000000000008b.
Definition KeccakF1600RoundConstant2 : Z := 0x8000000000008089.
Definition KeccakF1600RoundConstant3 : Z := 0x8000000000008003.
Definition KeccakF1600RoundConstant4 : Z := 0x8000000000008002.
Definition KeccakF1600RoundConstant5 : Z := 0x8000000000000080.
Definition KeccakF1600RoundConstant6 : Z := 0x000000000000800a.
Definition KeccakF1600RoundConstant7 : Z := 0x800000008000000a.
Definition KeccakF1600RoundConstant8 : Z := 0x8000000080008081.
Definition KeccakF1600RoundConstant9 : Z := 0x8000000000008080.
Definition KeccakF1600RoundConstant10 : Z := 0x0000000080000001.

(** The 25 lanes held in local variables by [declareABCDE]. *)
Record lanes : Type := mkLanes {
  l_ba : Z; l_be : Z; l_bi : Z; l_bo : Z; l_bu : Z;
  l_ga : Z; l_ge : Z; l_gi : Z; l_go : Z; l_gu : Z;
  l_ka : Z; l_ke : Z; l_ki : Z; l_ko : Z; l_ku : Z;
  l_ma : Z; l_me : Z; l_mi : Z; l_mo : Z; l_mu : Z;
  l_sa : Z; l_se : Z; l_si : Z; l_so : Z; l_su : Z
}.

(** The column parities [Ca, Ce, Ci, Co, Cu]. *)
Definition cols : Type := (Z * Z * Z * Z * Z)%type.

Definition thetaRhoPiChiIotaPrepareTheta (rc : Z) (A : lanes) (C : cols)
  : lanes * cols :=
  let '(Ca, Ce, Ci, Co, Cu) := C in
  let Aba := l_ba A in
  let Abe := l_be A in
  let Abi := l_bi A in
  let Abo := l_bo A in
  let Abu := l_bu A in
  let Aga := l_ga A in
  let Age := l_ge A in
  let Agi := l_gi A in
  let Ago := l_go A in
  let Agu := l_gu A in
  let Aka := l_ka A in
  let Ake := l_ke A in
  let Aki := l_ki A in
  let Ako := l_ko A in
  let Aku := l_ku A in
  let Ama := l_ma A in
  let Ame := l_me A in
  let Ami := l_mi A in
  let Amo := l_mo A in
  let Amu := l_mu A in
  let Asa := l_sa A in
  let Ase := l_se A in
  let Asi := l_si A in
  let Aso := l_so A in
  let Asu := l_su A in
  let Da := Z.lxor Cu (ROL64 Ce 1) in
  let De := Z.lxor Ca (ROL64 Ci 1) in
  let Di := Z.lxor Ce (ROL64 Co 1) in
  let Do := Z.lxor Ci (ROL64 Cu 1) in
  let Du := Z.lxor Co (ROL64 Ca 1) in
  let Aba := Z.lxor Aba Da in
  let Bba := Aba in
  let Age := Z.lxor Age De in
  let Bbe := ROL64 Age 44 in
  let Aki := Z.lxor Aki Di in
  let Bbi := ROL64 Aki 43 in
  let Amo := Z.lxor Amo Do in
  let Bbo := ROL64 Amo 21 in
  let Asu := Z.lxor Asu Du in
  let Bbu := ROL64 Asu 14 in
  let Eba := Z.lxor Bba (Z.land (not64 Bbe) Bbi) in
  let Eba := Z.lxor Eba rc in
  let Ca := Eba in
  let Ebe := Z.lxor Bbe (Z.land (not64 Bbi) Bbo) in
  let Ce := Ebe in
  let Ebi := Z.lxor Bbi (Z.land (not64 Bbo) Bbu) in
  let Ci := Ebi in
  let Ebo := Z.lxor Bbo (Z.land (not64 Bbu) Bba) in
  let Co := Ebo in
  let Ebu := Z.lxor Bbu (Z.land (not64 Bba) Bbe) in
  let Cu := Ebu in
  let Abo := Z.lxor Abo Do in
  let Bga := ROL64 Abo 28 in
  let Agu := Z.lxor Agu Du in
  let Bge := ROL64 Agu 20 in
  let Aka := Z.lxor Aka Da in
  let Bgi := ROL64 Aka 3 in
  let Ame := Z.lxor Ame De in
  let Bgo := ROL64 Ame 45 in
  let Asi := Z.lxor Asi Di in
  let Bgu := ROL64 Asi 61 in
  let Ega := Z.lxor Bga (Z.land (not64 Bge) Bgi) in
  let Ca := Z.lxor Ca Ega in
  let Ege := Z.lxor Bge (Z.land (not64 Bgi) Bgo) in
  let Ce := Z.lxor Ce Ege in
  let Egi := Z.lxor Bgi (Z.land (not64 Bgo) Bgu) in
  let Ci := Z.lxor Ci Egi in
  let Ego := Z.lxor Bgo (Z.land (not64 Bgu) Bga) in
  let Co := Z.lxor Co Ego in
  let Egu := Z.lxor Bgu (Z.land (not64 Bga) Bge) in
  let Cu := Z.lxor Cu Egu in
  let Abe := Z.lxor Abe De in
  let Bka := ROL64 Abe 1 in
  let Agi := Z.lxor Agi Di in
  let Bke := ROL64 Agi 6 in
  let Ako := Z.lxor Ako Do in
  let Bki := ROL64 Ako 25 in
  let Amu := Z.lxor Amu Du in
  let Bko := ROL64 Amu 8 in
  let Asa := Z.lxor Asa Da in
  let Bku := ROL64 Asa 18 in
  let Eka := Z.lxor Bka (Z.land (not64 Bke) Bki) in
  let Ca := Z.lxor Ca Eka in
  let Eke := Z.lxor Bke (Z.land (not64 Bki) Bko) in
  let Ce := Z.lxor Ce Eke in
  let Eki := Z.lxor Bki (Z.land (not64 Bko) Bku) in
  let Ci := Z.lxor Ci Eki in
  let Eko := Z.lxor Bko (Z.land (not64 Bku) Bka) in
  let Co := Z.lxor Co Eko in
  let Eku := Z.lxor Bku (Z.land (not64 Bka) Bke) in
  let Cu := Z.lxor Cu Eku in
  let Abu := Z.lxor Abu Du in
  let Bma := ROL64 Abu 27 in
  let Aga := Z.lxor Aga Da in
  let Bme := ROL64 Aga 36 in
  let Ake := Z.lxor Ake De in
  let Bmi := ROL64 Ake 10 in
  let Ami := Z.lxor Ami Di in
  let Bmo := ROL64 Ami 15 in
  let Aso := Z.lxor Aso Do in
  let Bmu := ROL64 Aso 56 in
  let Ema := Z.lxor Bma (Z.land (not64 Bme) Bmi) in
  let Ca := Z.lxor Ca Ema in
  let Eme := Z.lxor Bme (Z.land (not64 Bmi) Bmo) in
  let Ce := Z.lxor Ce Eme in
  let Emi := Z.lxor Bmi (Z.land (not64 Bmo) Bmu) in
  let Ci := Z.lxor Ci Emi in
  let Emo := Z.lxor Bmo (Z.land (not64 Bmu) Bma) in
  let Co := Z.lxor Co Emo in
  let Emu := Z.lxor Bmu (Z.land (not64 Bma) Bme) in
  let Cu := Z.lxor Cu Emu in
  let Abi := Z.lxor Abi Di in
  let Bsa := ROL64 Abi 62 in
  let Ago := Z.lxor Ago Do in
  let Bse := ROL64 Ago 55 in
  let Aku := Z.lxor Aku Du in
  let Bsi := ROL64 Aku 39 in
  let Ama := Z.lxor Ama Da in
  let Bso := ROL64 Ama 41 in
  let Ase := Z.lxor Ase De in
  let Bsu := ROL64 Ase 2 in
  let Esa := Z.lxor Bsa (Z.land (not64 Bse) Bsi) in
  let Ca := Z.lxor Ca Esa in
  let Ese := Z.lxor Bse (Z.land (not64 Bsi) Bso) in
  let Ce := Z.lxor Ce Ese in
  let Esi := Z.lxor Bsi (Z.land (not64 Bso) Bsu) in
  let Ci := Z.lxor Ci Esi in
  let Eso := Z.lxor Bso (Z.land (not64 Bsu) Bsa) in
  let Co := Z.lxor Co Eso in
  let Esu := Z.lxor Bsu (Z.land (not64 Bsa) Bse) in
  let Cu := Z.lxor Cu Esu in
  (mkLanes Eba Ebe Ebi Ebo Ebu Ega Ege Egi Ego Egu Eka Eke Eki Eko Eku Ema Eme Emi Emo Emu Esa Ese Esi Eso Esu,
   (Ca, Ce, Ci, Co, Cu)).

(** The last round, written out in [rounds12] after the eleven macro
    rounds; it reads the lanes [E] and writes the lanes [A]. *)
Definition lastRound (E : lanes) (C : cols) : lanes :=
  let '(Ca, Ce, Ci, Co, Cu) := C in
  let Eba := l_ba E in
  let Ebe := l_be E in
  let Ebi := l_bi E in
  let Ebo := l_bo E in
  let Ebu := l_bu E in
  let Ega := l_ga E in
  let Ege := l_ge E in
  let Egi := l_gi E in
  let Ego := l_go E in
  let Egu := l_gu E in
  let Eka := l_ka E in
  let Eke := l_ke E in
  let Eki := l_ki E in
  let Eko := l_ko E in
  let Eku := l_ku E in
  let Ema := l_ma E in
  let Eme := l_me E in
  let Emi := l_mi E in
  let Emo := l_mo E in
  let Emu := l_mu E in
  let Esa := l_sa E in
  let Ese := l_se E in
  let Esi := l_si E in
  let Eso := l_so E in
  let Esu := l_su E in
  let Da := Z.lxor Cu (ROL64 Ce 1) in
  let De := Z.lxor Ca (ROL64 Ci 1) in
  let Di := Z.lxor Ce (ROL64 Co 1) in
  let Do := Z.lxor Ci (ROL64 Cu 1) in
  let Du := Z.lxor Co (ROL64 Ca 1) in
  let Eba := Z.lxor Eba Da in
  let Bba := Eba in
  let Ege := Z.lxor Ege De in
  let Bbe := ROL64 Ege 44 in
  let Eki := Z.lxor Eki Di in
  let Bbi := ROL64 Eki 43 in
  let Emo := Z.lxor Emo Do in
  let Bbo := ROL64 Emo 21 in
  let Esu := Z.lxor Esu Du in
  let Bbu := ROL64 Esu 14 in
  let Aba := Z.lxor Bba (Z.land (not64 Bbe) Bbi) in
  let Aba := Z.lxor Aba 0x8000000080008008 in
  let Abe := Z.lxor Bbe (Z.land (not64 Bbi) Bbo) in
  let Abi := Z.lxor Bbi (Z.land (not64 Bbo) Bbu) in
  let Abo := Z.lxor Bbo (Z.land (not64 Bbu) Bba) in
  let Abu := Z.lxor Bbu (Z.land (not64 Bba) Bbe) in
  let Ebo := Z.lxor Ebo Do in
  let Bga := ROL64 Ebo 28 in
  let Egu := Z.lxor Egu Du in
  let Bge := ROL64 Egu 20 in
  let Eka := Z.lxor Eka Da in
  let Bgi := ROL64 Eka 3 in
  let Eme := Z.lxor Eme De in
  let Bgo := ROL64 Eme 45 in
  let Esi := Z.lxor Esi Di in
  let Bgu := ROL64 Esi 61 in
  let Aga := Z.lxor Bga (Z.land (not64 Bge) Bgi) in
  let Age := Z.lxor Bge (Z.land (not64 Bgi) Bgo) in
  let Agi := Z.lxor Bgi (Z.land (not64 Bgo) Bgu) in
  let Ago := Z.lxor Bgo (Z.land (not64 Bgu) Bga) in
  let Agu := Z.lxor Bgu (Z.land (not64 Bga) Bge) in
  let Ebe := Z.lxor Ebe De in
  let Bka := ROL64 Ebe 1 in
  let Egi := Z.lxor Egi Di in
  let Bke := ROL64 Egi 6 in
  let Eko := Z.lxor Eko Do in
  let Bki := ROL64 Eko 25 in
  let Emu := Z.lxor Emu Du in
  let Bko := ROL64 Emu 8 in
  let Esa := Z.lxor Esa Da in
  let Bku := ROL64 Esa 18 in
  let Aka := Z.lxor Bka (Z.land (not64 Bke) Bki) in
  let Ake := Z.lxor Bke (Z.land (not64 Bki) Bko) in
  let Aki := Z.lxor Bki (Z.land (not64 Bko) Bku) in
  let Ako := Z.lxor Bko (Z.land (not64 Bku) Bka) in
  let Aku := Z.lxor Bku (Z.land (not64 Bka) Bke) in
  let Ebu := Z.lxor Ebu Du in
  let Bma := ROL64 Ebu 27 in
  let Ega := Z.lxor Ega Da in
  let Bme := ROL64 Ega 36 in
  let Eke := Z.lxor Eke De in
  let Bmi := ROL64 Eke 10 in
  let Emi := Z.lxor Emi Di in
  let Bmo := ROL64 Emi 15 in
  let Eso := Z.lxor Eso Do in
  let Bmu := ROL64 Eso 56 in
  let Ama := Z.lxor Bma (Z.land (not64 Bme) Bmi) in
  let Ame := Z.lxor Bme (Z.land (not64 Bmi) Bmo) in
  let Ami := Z.lxor Bmi (Z.land (not64 Bmo) Bmu) in
  let Amo := Z.lxor Bmo (Z.land (not64 Bmu) Bma) in
  let Amu := Z.lxor Bmu (Z.land (not64 Bma) Bme) in
  let Ebi := Z.lxor Ebi Di in
  let Bsa := ROL64 Ebi 62 in
  let Ego := Z.lxor Ego Do in
  let Bse := ROL64 Ego 55 in
  let Eku := Z.lxor Eku Du in
  let Bsi := ROL64 Eku 39 in
  let Ema := Z.lxor Ema Da in
  let Bso := ROL64 Ema 41 in
  let Ese := Z.lxor Ese De in
  let Bsu := ROL64 Ese 2 in
  let Asa := Z.lxor Bsa (Z.land (not64 Bse) Bsi) in
  let Ase := Z.lxor Bse (Z.land (not64 Bsi) Bso) in
  let Asi := Z.lxor Bsi (Z.land (not64 Bso) Bsu) in
  let Aso := Z.lxor Bso (Z.land (not64 Bsu) Bsa) in
  let Asu := Z.lxor Bsu (Z.land (not64 Bsa) Bse) in
  mkLanes Aba Abe Abi Abo Abu Aga Age Agi Ago Agu Aka Ake Aki Ako Aku Ama Ame Ami Amo Amu Asa Ase Asi Aso Asu.

(** The state of a sponge is its 25 lanes, lane [i] holding the bytes
    [8i .. 8i+7] of [state] in little-endian order. *)
Definition copyFromState (state : list Z) : lanes :=
  let s i := nth i state 0 in
  mkLanes (s 0%nat) (s 1%nat) (s 2%nat) (s 3%nat) (s 4%nat)
          (s 5%nat) (s 6%nat) (s 7%nat) (s 8%nat) (s 9%nat)
          (s 10%nat) (s 11%nat) (s 12%nat) (s 13%nat) (s 14%nat)
          (s 15%nat) (s 16%nat) (s 17%nat) (s 18%nat) (s 19%nat)
          (s 20%nat) (s 21%nat) (s 22%nat) (s 23%nat) (s 24%nat).

Definition copyToState (A : lanes) : list Z :=
  [l_ba A; l_be A; l_bi A; l_bo A; l_bu A;
   l_ga A; l_ge A; l_gi A; l_go A; l_gu A;
   l_ka A; l_ke A; l_ki A; l_ko A; l_ku A;
   l_ma A; l_me A; l_mi A; l_mo A; l_mu A;
   l_sa A; l_se A; l_si A; l_so A; l_su A].

Definition rounds12 (A : lanes) : lanes :=
  let Ca := Z.lxor (Z.lxor (Z.lxor (Z.lxor (l_ba A) (l_ga A)) (l_ka A)) (l_ma A)) (l_sa A) in
  let Ce := Z.lxor (Z.lxor (Z.lxor (Z.lxor (l_be A) (l_ge A)) (l_ke A)) (l_me A)) (l_se A) in
  let Ci := Z.lxor (Z.lxor (Z.lxor (Z.lxor (l_bi A) (l_gi A)) (l_ki A)) (l_mi A)) (l_si A) in
  let Co := Z.lxor (Z.lxor (Z.lxor (Z.lxor (l_bo A) (l_go A)) (l_ko A)) (l_mo A)) (l_so A) in
  let Cu := Z.lxor (Z.lxor (Z.lxor (Z.lxor (l_bu A) (l_gu A)) (l_ku A)) (l_mu A)) (l_su A) in
  let '(E, C) := thetaRhoPiChiIotaPrepareTheta KeccakF1600RoundConstant0 A (Ca, Ce, Ci, Co, Cu) in
  let '(A, C) := thetaRhoPiChiIotaPrepareTheta KeccakF1600RoundConstant1 E C in
  let '(E, C) := thetaRhoPiChiIotaPrepareTheta KeccakF1600RoundConstant2 A C in
  let '(A, C) := thetaRhoPiChiIotaPrepareTheta KeccakF1600RoundConstant3 E C in
  let '(E, C) := thetaRhoPiChiIotaPrepareTheta KeccakF1600RoundConstant4 A C in
  let '(A, C) := thetaRhoPiChiIotaPrepareTheta KeccakF1600RoundConstant5 E C in
  let '(E, C) := thetaRhoPiChiIotaPrepareTheta KeccakF1600RoundConstant6 A C in
  let '(A, C) := thetaRhoPiChiIotaPrepareTheta KeccakF1600RoundConstant7 E C in
  let '(E, C) := thetaRhoPiChiIotaPrepareTheta KeccakF1600RoundConstant8 A C in
  let '(A, C) := thetaRhoPiChiIotaPrepareTheta KeccakF1600RoundConstant9 E C in
  let '(E, C) := thetaRhoPiChiIotaPrepareTheta KeccakF1600RoundConstant10 A C in
  lastRound E C.

Definition KeccakP1600_Permute_12rounds (state : list Z) : list Z :=
  copyToState (rounds12 (copyFromState state)).

(** ** KangarooTwelve *)

Definition K12_security : Z := 128.
Definition K12_capacity : Z := 2 * K12_security.
Definition K12_capacityInBytes : Z := K12_capacity / 8.
Definition K12_rateInBytes : Z := (1600 - K12_capacity) / 8.
Definition K12_chunkSize : Z := 8192.
Definition K12_suffixLeaf : Z := 0x0B.

Record KangarooTwelve_F : Type := mkF {
  state : list Z;
  byteIOIndex : Z
}.

(** [memset(&node, 0, sizeof(KangarooTwelve_F))]. *)
Definition zero_state : list Z := repeat 0 25.
Definition zero_node : KangarooTwelve_F := mkF zero_state 0.

(** [((unsigned long long* )state)[j] ^= v]. *)
Fixpoint xor_lane (st : list Z) (j : nat) (v : Z) : list Z :=
  match st, j with
  | [], _ => []
  | w :: st', O => Z.lxor w v :: st'
  | w :: st', S j' => w :: xor_lane st' j' v
  end.

(** [state[i] ^= b] on the byte view of the state. *)
Definition xor_byte (st : list Z) (i : Z) (b : Z) : list Z :=
  xor_lane st (Z.to_nat (i / 8)) (Z.shiftl b (8 * (i mod 8))).

(** The bytes of the state ([memcpy] out of [state]). *)
Definition state_bytes (st : list Z) : list Byte.byte := bytes_of_words st.

(** The inner loop of the fast path: while at least one full block of
    [K12_rateInBytes] bytes is left, XOR its 21 lanes into the first 21
    lanes and permute.  Returns the lanes and the data left. *)
Fixpoint absorb_full_blocks (fuel : nat) (A : lanes) (data : list Byte.byte)
  : lanes * list Byte.byte :=
  match fuel with
  | O => (A, data)
  | S fuel' =>
    if K12_rateInBytes <=? Z.of_nat (length data) then
      let d i := word_at data i in
      let A := mkLanes
        (Z.lxor (l_ba A) (d 0%nat)) (Z.lxor (l_be A) (d 1%nat))
        (Z.lxor (l_bi A) (d 2%nat)) (Z.lxor (l_bo A) (d 3%nat))
        (Z.lxor (l_bu A) (d 4%nat)) (Z.lxor (l_ga A) (d 5%nat))
        (Z.lxor (l_ge A) (d 6%nat)) (Z.lxor (l_gi A) (d 7%nat))
        (Z.lxor (l_go A) (d 8%nat)) (Z.lxor (l_gu A) (d 9%nat))
        (Z.lxor (l_ka A) (d 10%nat)) (Z.lxor (l_ke A) (d 11%nat))
        (Z.lxor (l_ki A) (d 12%nat)) (Z.lxor (l_ko A) (d 13%nat))
        (Z.lxor (l_ku A) (d 14%nat)) (Z.lxor (l_ma A) (d 15%nat))
        (Z.lxor (l_me A) (d 16%nat)) (Z.lxor (l_mi A) (d 17%nat))
        (Z.lxor (l_mo A) (d 18%nat)) (Z.lxor (l_mu A) (d 19%nat))
        (Z.lxor (l_sa A) (d 20%nat))
        (l_se A) (l_si A) (l_so A) (l_su A) in
      let A := rounds12 A in
      absorb_full_blocks fuel' A (skipn (Z.to_nat K12_rateInBytes) data)
    else (A, data)
  end.

(** The partial block with [byteIOIndex = 0]: the loops unrolled by 8, 4, 2
    and 1 lanes XOR the [partialBlock >> 3] whole lanes of the data in order;
    the [partialBlock & 7] bytes left are XORed as one shorter lane. *)
Fixpoint xor_whole_lanes (n : nat) (j : nat) (st : list Z)
  (data : list Byte.byte) : list Z :=
  match n with
  | O => st
  | S n' => xor_whole_lanes n' (S j) (xor_lane st j (word_at data j)) data
  end.

Definition absorb_aligned (st : list Z) (data : list Byte.byte)
  (partialBlock : Z) : list Z :=
  let nl := Z.to_nat (Z.shiftr partialBlock 3) in
  let st := xor_whole_lanes nl 0 st data in
  if negb (Z.land partialBlock 7 =? 0) then
    let lane :=
      le_int (sub_bytes data (Z.to_nat (Z.land partialBlock 0xFFFFFFF8))
                             (Z.to_nat (Z.land partialBlock 7))) in
    xor_lane st nl lane
  else st.

(** The partial block with [byteIOIndex <> 0]: lane by lane from
    [_lanePosition], the first one starting at [_offsetInLane]. *)
Fixpoint absorb_unaligned (fuel : nat) (st : list Z) (sizeLeft : Z)
  (lanePosition : nat) (offsetInLane : Z) (curData : list Byte.byte)
  : list Z :=
  match fuel with
  | O => st
  | S fuel' =>
    if 0 <? sizeLeft then
      let bytesInLane := 8 - offsetInLane in
      let bytesInLane := if sizeLeft <? bytesInLane then sizeLeft else bytesInLane in
      let st :=
        if negb (bytesInLane =? 0) then
          let lane := le_int (firstn (Z.to_nat bytesInLane) curData) in
          xor_lane st lanePosition (shl64 lane (Z.shiftl offsetInLane 3))
        else st in
      absorb_unaligned fuel' st (sizeLeft - bytesInLane) (S lanePosition) 0
                       (skipn (Z.to_nat bytesInLane) curData)
    else st
  end.

(** One turn of the outer [while (i < dataByteLen)] loop on the data left. *)
Definition Absorb_step (instance : KangarooTwelve_F) (data : list Byte.byte)
  : KangarooTwelve_F * list Byte.byte :=
  let left := Z.of_nat (length data) in
  if (byteIOIndex instance =? 0) && (K12_rateInBytes <=? left) then
    let '(A, data) :=
      absorb_full_blocks (length data) (copyFromState (state instance)) data in
    (mkF (copyToState A) (byteIOIndex instance), data)
  else
    let partialBlock :=
      if K12_rateInBytes <? left + byteIOIndex instance
      then (K12_rateInBytes - byteIOIndex instance) mod 256
      else left mod 256 in
    let st :=
      if byteIOIndex instance =? 0
      then absorb_aligned (state instance) data partialBlock
      else absorb_unaligned (Z.to_nat partialBlock) (state instance) partialBlock
             (Z.to_nat (Z.shiftr (byteIOIndex instance) 3))
             (Z.land (byteIOIndex instance) 7) data in
    let data := skipn (Z.to_nat partialBlock) data in
    let idx := (byteIOIndex instance + partialBlock) mod 256 in
    if idx =? K12_rateInBytes
    then (mkF (KeccakP1600_Permute_12rounds st) 0, data)
    else (mkF st idx, data).

Fixpoint Absorb_loop (fuel : nat) (instance : KangarooTwelve_F)
  (data : list Byte.byte) : KangarooTwelve_F :=
  match fuel with
  | O => instance
  | S fuel' =>
    match data with
    | [] => instance
    | _ :: _ =>
      let '(instance, data) := Absorb_step instance data in
      Absorb_loop fuel' instance data
    end
  end.

(** Every turn of the loop consumes at least one byte, so [length data]
    turns are enough. *)
Definition KangarooTwelve_F_Absorb (instance : KangarooTwelve_F)
  (data : list Byte.byte) : KangarooTwelve_F :=
  Absorb_loop (length data) instance data.

(** The first [K12_capacityInBytes] bytes of a state. *)
Definition capacity_bytes (st : list Z) : list Byte.byte :=
  firstn (Z.to_nat K12_capacityInBytes) (state_bytes st).

(** [state[idx] ^= 0x03], then the increment of [byteIOIndex] with its
    rounding up to the next lane. *)
Definition close_first_chunk (finalNode : KangarooTwelve_F) : KangarooTwelve_F :=
  let st := xor_byte (state finalNode) (byteIOIndex finalNode) 0x03 in
  let idx := (byteIOIndex finalNode + 1) mod 256 in
  if idx =? K12_rateInBytes
  then mkF (KeccakP1600_Permute_12rounds st) 0
  else mkF st (Z.land (idx + 7) (Z.lnot 7)).

(** A leaf: suffix [K12_suffixLeaf], padding bit, permutation; its first
    [K12_capacityInBytes] bytes are absorbed by the final node.  Returns the
    final node and the state of the queue node. *)
Definition close_leaf (finalNode queueNode : KangarooTwelve_F)
  : KangarooTwelve_F * list Z :=
  let st := xor_byte (state queueNode) (byteIOIndex queueNode) K12_suffixLeaf in
  let st := xor_byte st (K12_rateInBytes - 1) 0x80 in
  let st := KeccakP1600_Permute_12rounds st in
  (KangarooTwelve_F_Absorb finalNode (capacity_bytes st), st).

(** The loop [while (inputByteLen > 0)] over the chunks after the first.
    The state carried is (finalNode, queueNode, blockNumber,
    queueAbsorbedLen). *)
Fixpoint chunk_loop (fuel : nat) (finalNode queueNode : KangarooTwelve_F)
  (blockNumber queueAbsorbedLen : Z) (input : list Byte.byte)
  : KangarooTwelve_F * KangarooTwelve_F * Z * Z :=
  match fuel with
  | O => (finalNode, queueNode, blockNumber, queueAbsorbedLen)
  | S fuel' =>
    let inputByteLen := Z.of_nat (length input) in
    if 0 <? inputByteLen then
      let len := if inputByteLen <? K12_chunkSize then inputByteLen else K12_chunkSize in
      let queueNode :=
        KangarooTwelve_F_Absorb zero_node (firstn (Z.to_nat len) input) in
      let input := skipn (Z.to_nat len) input in
      if len =? K12_chunkSize then
        let '(finalNode, qst) := close_leaf finalNode queueNode in
        chunk_loop fuel' finalNode (mkF qst K12_capacityInBytes)
                   (blockNumber + 1) queueAbsorbedLen input
      else
        chunk_loop fuel' finalNode queueNode blockNumber len input
    else (finalNode, queueNode, blockNumber, queueAbsorbedLen)
  end.

(** The encoding of the number of leaves absorbed at the end of the final
    node: [n] big-endian bytes of [blockNumber], then [n], 0xFF, 0xFF. *)
Fixpoint count_bytes (fuel : nat) (v : Z) (n : Z) : Z :=
  match fuel with
  | O => n
  | S fuel' =>
    if negb (v =? 0) && (n <? 8) then count_bytes fuel' (Z.shiftr v 8) (n + 1)
    else n
  end.

Definition encbuf (blockNumber : Z) : list Byte.byte :=
  let n := count_bytes 8 blockNumber 0 in
  map (fun i => byte_of_Z (Z.shiftr blockNumber (8 * (n - Z.of_nat i))))
      (seq 1 (Z.to_nat n))
  ++ [byte_of_Z n; byte_of_Z 0xFF; byte_of_Z 0xFF].

Definition KangarooTwelve (input : list Byte.byte) (outputByteLen : nat)
  : list Byte.byte :=
  let inputByteLen := Z.of_nat (length input) in
  let finalNode := zero_node in
  let len := if K12_chunkSize <? inputByteLen then K12_chunkSize else inputByteLen in
  let finalNode := KangarooTwelve_F_Absorb finalNode (firstn (Z.to_nat len) input) in
  let input := skipn (Z.to_nat len) input in
  let inputByteLen := inputByteLen - len in
  let '(finalNode, queueNode, blockNumber, queueAbsorbedLen) :=
    if (len =? K12_chunkSize) && negb (inputByteLen =? 0) then
      let finalNode := close_first_chunk finalNode in
      let '(finalNode, queueNode, blockNumber, queueAbsorbedLen) :=
        chunk_loop (length input) finalNode zero_node 1 0 input in
      if negb (queueAbsorbedLen =? 0) then
        let qidx := (byteIOIndex queueNode + 1) mod 256 in
        let queueNode :=
          if qidx =? K12_rateInBytes
          then mkF (KeccakP1600_Permute_12rounds (state queueNode)) 0
          else mkF (state queueNode) qidx in
        let queueAbsorbedLen := queueAbsorbedLen + 1 in
        if queueAbsorbedLen =? K12_chunkSize then
          let '(finalNode, qst) := close_leaf finalNode queueNode in
          (finalNode, mkF qst K12_capacityInBytes, blockNumber + 1, 0)
        else (finalNode, queueNode, blockNumber, queueAbsorbedLen)
      else (finalNode, mkF zero_state 1, blockNumber, 1)
    else if len =? K12_chunkSize then
      let finalNode := close_first_chunk finalNode in
      (finalNode, mkF zero_state 1, 1, 1)
    else
      let idx := (byteIOIndex finalNode + 1) mod 256 in
      let finalNode :=
        if idx =? K12_rateInBytes
        then mkF (xor_byte (KeccakP1600_Permute_12rounds (state finalNode)) 0 0x07) idx
        else mkF (xor_byte (state finalNode) idx 0x07) idx in
      (finalNode, zero_node, 0, 0) in
  let finalNode :=
    if negb (blockNumber =? 0) then
      let '(finalNode, blockNumber) :=
        if negb (queueAbsorbedLen =? 0) then
          (fst (close_leaf finalNode queueNode), blockNumber + 1)
        else (finalNode, blockNumber) in
      let blockNumber := blockNumber - 1 in
      let finalNode := KangarooTwelve_F_Absorb finalNode (encbuf blockNumber) in
      mkF (xor_byte (state finalNode) (byteIOIndex finalNode) 0x06)
          (byteIOIndex finalNode)
    else finalNode in
  let st := xor_byte (state finalNode) (K12_rateInBytes - 1) 0x80 in
  let st := KeccakP1600_Permute_12rounds st in
  firstn outputByteLen (state_bytes st).

(** ** Scalar arithmetic modulo the group order *)

(** Word [i] of a scalar. *)
Definition sw (a : scalar_t) (i : nat) : Z := nth i a 0.

(** The integer held by a sequence of 64-bit words, least significant
    first. *)
Fixpoint words_val (ws : list Z) : Z :=
  match ws with
  | [] => 0
  | w :: ws' => w + 2 ^ 64 * words_val ws'
  end.

(** [multiply(a, b, c)]: the eight words of the product of two four-word
    integers.  In [f(..., _umul128(x, y, &uv), ...) + uv] the product is
    formed before its high word [uv] is read. *)
Definition multiply (a b : scalar_t) : list Z :=
  let a0 := sw a 0 in let a1 := sw a 1 in let a2 := sw a 2 in let a3 := sw a 3 in
  let b0 := sw b 0 in let b1 := sw b 1 in let b2 := sw b 2 in let b3 := sw b 3 in
  let '(u, c0) := _umul128 a0 b0 in
  let '(uv, lo) := _umul128 a0 b1 in
  let '(cy, c1) := _addcarry_u64 0 lo u in
  let u := u64 (cy + uv) in
  let '(uv, lo) := _umul128 a0 b2 in
  let '(cy, c2) := _addcarry_u64 0 lo u in
  let u := u64 (cy + uv) in
  let '(uv, lo) := _umul128 a0 b3 in
  let '(cy, c3) := _addcarry_u64 0 lo u in
  let c4 := u64 (cy + uv) in

  let '(uv, lo) := _umul128 a1 b0 in
  let '(cy, c1) := _addcarry_u64 0 c1 lo in
  let u := u64 (cy + uv) in
  let '(uv, lo) := _umul128 a1 b1 in
  let '(cy, v) := _addcarry_u64 0 lo u in
  let u := u64 (cy + uv) in
  let '(cy1, c2) := _addcarry_u64 0 c2 v in
  let '(uv, lo) := _umul128 a1 b2 in
  let '(cy, v) := _addcarry_u64 cy1 lo u in
  let u := u64 (cy + uv) in
  let '(cy1, c3) := _addcarry_u64 0 c3 v in
  let '(uv, lo) := _umul128 a1 b3 in
  let '(cy, v) := _addcarry_u64 cy1 lo u in
  let '(cy2, c4) := _addcarry_u64 0 c4 v in
  let c5 := u64 (cy + uv + cy2) in

  let '(uv, lo) := _umul128 a2 b0 in
  let '(cy, c2) := _addcarry_u64 0 c2 lo in
  let u := u64 (cy + uv) in
  let '(uv, lo) := _umul128 a2 b1 in
  let '(cy, v) := _addcarry_u64 0 lo u in
  let u := u64 (cy + uv) in
  let '(cy1, c3) := _addcarry_u64 0 c3 v in
  let '(uv, lo) := _umul128 a2 b2 in
  let '(cy, v) := _addcarry_u64 cy1 lo u in
  let u := u64 (cy + uv) in
  let '(cy1, c4) := _addcarry_u64 0 c4 v in
  let '(uv, lo) := _umul128 a2 b3 in
  let '(cy, v) := _addcarry_u64 cy1 lo u in
  let '(cy2, c5) := _addcarry_u64 0 c5 v in
  let c6 := u64 (cy + uv + cy2) in

  let '(uv, lo) := _umul128 a3 b0 in
  let '(cy, c3) := _addcarry_u64 0 c3 lo in
  let u := u64 (cy + uv) in
  let '(uv, lo) := _umul128 a3 b1 in
  let '(cy, v) := _addcarry_u64 0 lo u in
  let u := u64 (cy + uv) in
  let '(cy1, c4) := _addcarry_u64 0 c4 v in
  let '(uv, lo) := _umul128 a3 b2 in
  let '(cy, v) := _addcarry_u64 cy1 lo u in
  let u := u64 (cy + uv) in
  let '(cy1, c5) := _addcarry_u64 0 c5 v in
  let '(uv, lo) := _umul128 a3 b3 in
  let '(cy, v) := _addcarry_u64 cy1 lo u in
  let '(cy2, c6) := _addcarry_u64 0 c6 v in
  let c7 := u64 (cy + uv + cy2) in
  [c0; c1; c2; c3; c4; c5; c6; c7].

(** A chain of [_addcarry_u64] over two word sequences of the same length:
    the final carry and the words of the sum. *)
Fixpoint addcarry_chain (c : Z) (a b : list Z) : Z * list Z :=
  match a, b with
  | x :: a', y :: b' =>
    let '(c, s) := _addcarry_u64 c x y in
    let '(c, r) := addcarry_chain c a' b' in
    (c, s :: r)
  | _, _ => (c, [])
  end.

(** A chain of [_subborrow_u64], computing [a - b]. *)
Fixpoint subborrow_chain (c : Z) (a b : list Z) : Z * list Z :=
  match a, b with
  | x :: a', y :: b' =>
    let '(c, s) := _subborrow_u64 c x y in
    let '(c, r) := subborrow_chain c a' b' in
    (c, s :: r)
  | _, _ => (c, [])
  end.

Definition Montgomery_multiply_mod_order (ma mb : scalar_t) : scalar_t :=
  let P :=
    if (sw mb 0 =? 1) && (sw mb 1 =? 0) && (sw mb 2 =? 0) && (sw mb 3 =? 0)
    then [sw ma 0; sw ma 1; sw ma 2; sw ma 3; 0; 0; 0; 0]
    else multiply ma mb in
  let P0 := sw P 0 in let P1 := sw P 1 in let P2 := sw P 2 in let P3 := sw P 3 in
  let '(u, Q0) := _umul128 P0 MONTGOMERY_SMALL_R_PRIME_0 in
  let '(uv, lo) := _umul128 P0 MONTGOMERY_SMALL_R_PRIME_1 in
  let '(cy, Q1) := _addcarry_u64 0 lo u in
  let u := u64 (cy + uv) in
  let '(uv, lo) := _umul128 P0 MONTGOMERY_SMALL_R_PRIME_2 in
  let '(cy, Q2) := _addcarry_u64 0 lo u in
  let u := u64 (cy + uv) in
  let '(_, Q3) := _addcarry_u64 0 (u64 (P0 * MONTGOMERY_SMALL_R_PRIME_3)) u in
  let '(uv, lo) := _umul128 P1 MONTGOMERY_SMALL_R_PRIME_0 in
  let '(cy, Q1) := _addcarry_u64 0 Q1 lo in
  let u := u64 (cy + uv) in
  let '(uv, lo) := _umul128 P1 MONTGOMERY_SMALL_R_PRIME_1 in
  let '(cy, v) := _addcarry_u64 0 lo u in
  let u := u64 (cy + uv) in
  let '(cy1, Q2) := _addcarry_u64 0 Q2 v in
  let '(_, v) := _addcarry_u64 cy1 (u64 (P1 * MONTGOMERY_SMALL_R_PRIME_2)) u in
  let '(_, Q3) := _addcarry_u64 0 Q3 v in
  let '(uv, lo) := _umul128 P2 MONTGOMERY_SMALL_R_PRIME_0 in
  let '(cy, Q2) := _addcarry_u64 0 Q2 lo in
  let u := u64 (cy + uv) in
  let '(_, v) := _addcarry_u64 0 (u64 (P2 * MONTGOMERY_SMALL_R_PRIME_1)) u in
  let '(_, Q3) := _addcarry_u64 0 Q3 v in
  let '(_, Q3) := _addcarry_u64 0 Q3 (u64 (P3 * MONTGOMERY_SMALL_R_PRIME_0)) in
  let temp := multiply [Q0; Q1; Q2; Q3] curve_order in
  let '(c, temp) := addcarry_chain 0 P temp in
  let '(b, mc) := subborrow_chain 0 (skipn 4 temp) curve_order in
  if negb (c - b =? 0) then snd (addcarry_chain 0 mc curve_order) else mc.

Definition mul_truncate (s C : scalar_t) : Z :=
  let s0 := sw s 0 in let s1 := sw s 1 in let s2 := sw s 2 in let s3 := sw s 3 in
  let C0 := sw C 0 in let C1 := sw C 1 in let C2 := sw C 2 in let C3 := sw C 3 in
  let '(high00, _) := _umul128 s0 C0 in
  let '(high10, low10) := _umul128 s1 C0 in
  let '(c, t0) := _addcarry_u64 0 high00 low10 in
  let '(_, t1) := _addcarry_u64 c high10 0 in
  let '(high01, low01) := _umul128 s0 C1 in
  let '(c, t0) := _addcarry_u64 0 t0 low01 in
  let '(t2, t3) := _addcarry_u64 c t1 high01 in
  let '(high20, low20) := _umul128 s2 C0 in
  let '(c, t4) := _addcarry_u64 0 t3 low20 in
  let '(_, t5) := _addcarry_u64 c t2 high20 in
  let '(high02, low02) := _umul128 s0 C2 in
  let '(c, t7) := _addcarry_u64 0 t4 low02 in
  let '(t6, t8) := _addcarry_u64 c t5 high02 in
  let '(high11, low11) := _umul128 s1 C1 in
  let '(c, t0) := _addcarry_u64 0 t7 low11 in
  let '(t9, t10) := _addcarry_u64 c t8 high11 in
  let '(high03, low03) := _umul128 s0 C3 in
  let '(c, t11) := _addcarry_u64 0 t10 low03 in
  let '(_, t12) := _addcarry_u64 c (u64 (t6 + t9)) high03 in
  let '(high30, low30) := _umul128 s3 C0 in
  let '(c, t13) := _addcarry_u64 0 t11 low30 in
  let '(_, t14) := _addcarry_u64 c t12 high30 in
  let '(high12, low12) := _umul128 s1 C2 in
  let '(c, t15) := _addcarry_u64 0 t13 low12 in
  let '(_, t16) := _addcarry_u64 c t14 high12 in
  let '(high21, low21) := _umul128 s2 C1 in
  let '(c, t0) := _addcarry_u64 0 t15 low21 in
  u64 (c + t16 + high21 + s1 * C3 + s2 * C2 + s3 * C1).

Definition decompose (k : scalar_t) : scalar_t :=
  let a1 := mul_truncate k ell1 in
  let a2 := mul_truncate k ell2 in
  let a3 := mul_truncate k ell3 in
  let a4 := mul_truncate k ell4 in
  let scalars0 := u64 (a1 * B11 + a2 * B21 + a3 * B31 + a4 * B41 + C1 + sw k 0) in
  let scalars1 := u64 (a1 * B12 + a2 * B22 + a3 * B32 + a4 * B42 + C2) in
  let scalars2 := u64 (a1 * B13 + a2 * B23 + a3 * B33 + a4 * B43 + C3) in
  let scalars3 := u64 (a1 * B14 + a2 * B24 + a3 * B34 + a4 * B44 + C4) in
  if Z.land scalars0 1 =? 0 then
    [u64 (scalars0 - B41); u64 (scalars1 - B42);
     u64 (scalars2 - B43); u64 (scalars3 - B44)]
  else [scalars0; scalars1; scalars2; scalars3].

(** The turns of [while (scalar)] in [wNAF_recode]: the digits written, least
    significant first.  A nonzero digit is followed by [w - 1] zero digits
    when the scalar left is not zero. *)
Fixpoint wNAF_loop (fuel : nat) (scalar : Z) (w : Z) : list Z :=
  match fuel with
  | O => []
  | S fuel' =>
    if scalar =? 0 then []
    else
      let val1 := Z.shiftl 1 (w - 1) - 1 in
      let val2 := Z.shiftl 1 w in
      let mask := val2 - 1 in
      let digit := Z.land scalar 1 in
      if digit =? 0 then 0 :: wNAF_loop fuel' (shr64 scalar 1) w
      else
        let digit := Z.land scalar mask in
        let scalar := shr64 scalar w in
        let digit := if val1 <? digit then digit - val2 else digit in
        let scalar := if digit <? 0 then u64 (scalar + 1) else scalar in
        if negb (scalar =? 0)
        then digit :: repeat 0 (Z.to_nat (w - 1)) ++ wNAF_loop fuel' scalar w
        else [digit]
  end.

(** [wNAF_recode(scalar, w, digits)]: the 65 digits, the ones after the last
    one written cleared by [memset]. *)
Definition wNAF_recode (scalar : Z) (w : Z) : list Z :=
  let ds := wNAF_loop 65 scalar w in
  ds ++ repeat 0 (65 - length ds).
(** ** Precomputed tables *)

(** 80 multiples of the generator, 12 words per point: (x+y, y-x, 2dt). *)
Definition FIXED_BASE_TABLE : list Z := [
  0xe18a34f3a703e631; 0x287460bf1d502b5f; 0xe02e62f7e4f90353; 0x0c3ba0378b86acde;
  0x90bf0f98b0937edc; 0x740b7c7824f0c555; 0xb321239123a01366; 0x4ffcf5b93a9557a5;
  0x297afccbabda42bb; 0x5948d137556c97c6; 0xa8189a393330684c; 0x0caf2b720a341f27;
  0x3a8ba018fd188787; 0x5546128188dd12a8; 0xb0b3cc33c09f9b77; 0x1baeeaf8b84d2049;
  0x006425a611faf900; 0x18f7cd12e1a6f789; 0x6dccf09a12556066; 0x448e05eeace7b6eb;
  0xbf2f33689d2829b0; 0x6d911dcb2957bdb4; 0x9f2353dbdc3c03ee; 0x06c54305babee501;
  0x2eaf45713dafa125; 0x72963058648a364d; 0x61b7771f9d313ef2; 0x4f41c7f8bfe2b069;
  0x408623ae599790ac; 0x4d33858644330a42; 0xfc5696649cdd7487; 0x74df72e0e598e114;
  0xc9a06325913c110b; 0x076bd4115fe4b0d8; 0x76619e65d6bff3d9; 0x249240147cee3a08;
  0xd695b96148965a73; 0x28aac8a28829f706; 0x41f1c05329f7a57b; 0x441ca9e89f03e00e;
  0xe1aa38ab8bf7241e; 0x58f28cafc832b7f4; 0xcadaf8b8fa5400c6; 0x34b6d106284e863e;
  0xf5498cab3af15097; 0x6dbe7790017d9c49; 0x63bf76a81448e8bc; 0x6371925bf23ae006;
  0xc5e2c721bded81fa; 0x4ede70eed68056ab; 0x8f3cd9b5b4975810; 0x4752fd192f0a9aa8;
  0x318794eb1f734414; 0x11ddf7d2c8468662; 0x2613b06f72b1a34e; 0x465575b37ab06770;
  0x40b9845f82638d2b; 0x48894050790298ce; 0xbedb93a501b4f131; 0x04f3560d2889b2fb;
  0x457dd875115b278b; 0x56f25ee54d92858a; 0x92d4c1cdce0c977e; 0x078fca4187d74996;
  0x3bbb2ded76cc22a1; 0x117b28853ddc2bf6; 0x43f3767cb9c2baa2; 0x73079e25e0ea8a8f;
  0x0177992b5a15796d; 0x2e77721480d9ef92; 0xbe09883567372916; 0x258f176b7af7576d;
  0x308338fd6168391b; 0x7285925f9a7353a4; 0x862c0fd04fe85114; 0x53259ee7423aeb51;
  0xfe0031a84b3b1a68; 0x1a4f1d661fa071fc; 0x2ddd54168dc928a7; 0x60185c1adf196a6a;
  0x49809717dc6da9b4; 0x6062094b4dcffc03; 0xa41ea6fa05fa7e8d; 0x4a4fe06f277148a0;
  0x7bb253a9ee9e80f0; 0x419a928bccb11733; 0x84323be66a9a039e; 0x01b2d1ae972814bb;
  0xa7588584d3051231; 0x54df1e20cc979dd7; 0x91d906fe3e2f22dd; 0x4e36e9975fdf1a0f;
  0xd81871746b747634; 0x3e5e31baeee13433; 0xe4da80979573baa3; 0x4b852ad97cfe77c6;
  0xe08b346714418b9e; 0x283d719b2fe6ef88; 0xb7339d2de45c180b; 0x75acfcef11d2d5c8;
  0x8f40777a8c561876; 0x0c54ac40a7134c4b; 0xb92e287d66baee08; 0x6f357e5006a188bf;
  0xc5903319ed1e6971; 0x747c45ef91dafd40; 0xde4086a91d2f816e; 0x5dcb27edb3b3ef7d;
  0x43fdc46cfa1dd2ee; 0x51551f9f70966498; 0xb54534f761ed9bdc; 0x453455b3073fb07f;
  0xf24773e383cab70b; 0x679be25e758cf4df; 0xda17edf2943eee29; 0x3dc9e5b8d6dc0f66;
  0x56a50cba413fb75b; 0x1e65315bc5a8537f; 0x5ff90242802c7213; 0x73c9d8c8f425252e;
  0x3c637b8633198c8f; 0x534f84b3ed414f33; 0xad313e72dedd6902; 0x5ed57e941cdf33af;
  0x5a6fe01d2a57306e; 0x73b63dea344713f9; 0x39cb70570f1c2bf3; 0x2df8c6e49f1a18db;
  0x661bc349677797e4; 0x501ae7cbbebe9062; 0x5b52a88de8959643; 0x0372752811c01d51;
  0x010c57a2301bb928; 0x378b317155554fc6; 0xf883fa4229a02cf1; 0x5f0047b850d7db29;
  0x4d247ae328402daa; 0x0d030627a850a2bc; 0xb4e65d9a88a443f5; 0x6ec9686b2d6db089;
  0xde202e08fea1d987; 0x5c64e1d3f28d7600; 0x157d17bef661bfb7; 0x56392d36dd75334c;
  0xe25478d8bd19155c; 0x146d4f2d3d336afd; 0x9bfbe00bf94e15e8; 0x2b185a9a6adf10c0;
  0x926527b3ed52ab7b; 0x67997e1473101e80; 0xb58f4ff4947cc541; 0x36f800c7fac99a7a;
  0xd0302e32400456d9; 0x4372e43640bc697b; 0x9144cabb4750d898; 0x75d25afac9a23cbf;
  0x794591767655cbfe; 0x74db216617fc4b07; 0x7057b2242566d0c9; 0x1d543b5908417b23;
  0x19c280b444428783; 0x352309fd8b6cc3ef; 0x37833d6ac068ae72; 0x4ec0671a23c019f4;
  0x9d9836e1a3d05bb5; 0x44fe1adff224efe3; 0xa296bc3ce57efb4a; 0x2efec86835a14150;
  0x2fe19c09fb194bca; 0x18cc07d3953cd206; 0x5bdff217c9c0b9e0; 0x671aa756581abcee;
  0xe1cc33ae28f7d1a2; 0x1b6f254937a0a3fe; 0x51503d1665babb83; 0x74b95636d5889211;
  0xbdb97ae4ea96f869; 0x1507ce189e2510bd; 0x796e4d54fab93b13; 0x6a81765f05960929;
  0x2e940521e5a833ed; 0x3bdea532b245f644; 0xbea76975ffd52693; 0x64b94848ba6d4ed6;
  0x9db52d0194e33ec7; 0x71cf65da55639f25; 0xede73b1fdb5a8138; 0x12e4d13b6c62dc22;
  0x9d19b0c265185517; 0x77a011d257b5fdd0; 0x1fedc5caaecd84e4; 0x46844e151e3492d1;
  0x7a423a31904220df; 0x5b3165c747e8f099; 0x1c665eeadf35e22e; 0x7802b556fc45595b;
  0x85a2def4015bd2de; 0x17f2ab87957166ad; 0x19cf6d352060c1e5; 0x122a7ad1be408e6a;
  0x5b79bbc8645bf766; 0x20fb009d4d0adacf; 0x97526a272ba28538; 0x7041b4e90d420bde;
  0x3b30113358dab057; 0x3d398b66f0d24243; 0x91a5999a03cd4708; 0x1eae2409cd938096;
  0x66dd6b604c36108c; 0x1713083789081968; 0x57cad6917125dcfd; 0x34b06cb89704f1ca;
  0xdcafe8e71f35abf2; 0x698331198d544db9; 0x6287676643af075b; 0x200950e5559d2b6d;
  0xd4f63fc3ecdd9074; 0x7473317142ac13a2; 0x96b0030805319356; 0x2c20ffe0244378ba;
  0x4889511ad26ac01a; 0x4ee327219997fcf6; 0x15ffe6e70f0bf8ea; 0x6b617fb4a6d0a6d7;
  0x4916dca1c52f7324; 0x3c8269f086468277; 0xc24210c4c837e04b; 0x4e480b4f915a542c;
  0xc5fef3b09a7fe35e; 0x31a501de44fd84b2; 0x79f29e4940a407b9; 0x0ba7e03ca5cce5ab;
  0xa7a8b2058a74d8ea; 0x46f4c7810e26dadc; 0x46171ace94a1128a; 0x44db55025495a811;
  0x7f889e1a4bf18d5c; 0x4d4f172a43f306b2; 0x33a99766bb1cffad; 0x6254775924d39aca;
  0xd855230ec225136e; 0x1c544dd078d9211d; 0x12fe9969f63f63ba; 0x069af1dc949dd382;
  0x305bcf40cfe5c256; 0x63ae90924bbbb595; 0xe451097793b7de06; 0x09780cf39fc0043e;
  0x827af8e7eb798871; 0x3ace8a6c77577a37; 0x79df061332e055ba; 0x561dc07aaacea92b;
  0x7e4422d9820d2673; 0x6b85df83e0af5348; 0x1f151ac1ded8526b; 0x35ead8e5157142bd;
  0x6da6ef6c33c79dd4; 0x5f2ea04d2594fde4; 0x91037d0cc027d5fa; 0x53b5401007b0331b;
  0x810f198a3d4ba5a3; 0x4463bd259ba94195; 0x32b894acec2acf9e; 0x78711761d64349ce;
  0x253ae1b3f51fe211; 0x409e4b3f535b6463; 0x3a236d10da5e49de; 0x19d2b1029c21336a;
  0x2835f40436aadd90; 0x0942a31505190b19; 0xc189131876828279; 0x3afe96c3ca8e1f9c;
  0x9f1801b491230693; 0x39e28db8625fd091; 0x9fab50355dd44c8e; 0x145155da729b280d;
  0xd3ccf8101d4d76d5; 0x5a0faa1a8c2b6c68; 0x3cc66c84cb54ea8a; 0x51052ce3f566c773;
  0x3bee14de65ae9ff5; 0x7586118a01ccf024; 0x089e791c896bf15e; 0x35ff022d261d93d6;
  0xcd3ce13d8f7d1cf9; 0x4f1de98f95b7b8f6; 0x51e68a2462dc41b4; 0x61ad9e3c23f6dd29;
  0x584fea6480ebdb51; 0x5d52fe073f9decf3; 0x9afe483eadf336d5; 0x1dfa03c980b1696a;
  0x55f73d47ff819a19; 0x697bf55d361100ed; 0xded4804446399419; 0x618c94467fce259f;
  0xf2597ff1f08ef50c; 0x07c935b98dd933c0; 0xbb758cbc78ded5f6; 0x1e9a0d06af13148f;
  0x879ce1457f4cd4db; 0x28396ca1962d4994; 0xf5095a3dc57605c3; 0x1e570f3da4c527b1;
  0x2af69a3904935787; 0x591ee376fdd01cce; 0xf77b58df88bc8633; 0x5464d651b2f395d1;
  0xafbc096b1e9a86ae; 0x6ce2df4bf65b6b28; 0x3b3a828d2e9d3e08; 0x6382011d8d2d66d0;
  0x94987ca64d3d193d; 0x50ddf70d3b6d56af; 0x8d5df67cc8ad15a9; 0x39208098bc5b1f92;
  0xce99f520dfd5a4fb; 0x323bbc87b86a7ba9; 0xe13f88a8d803c789; 0x56ffdcbdf2200055;
  0x3aff0da31b24c72d; 0x70011566460c0c16; 0x76f7b7f53ac46a13; 0x1c069bfeb7077bc2;
  0x8f47193ca14a3c36; 0x6d73e34af088de3d; 0x634b2bd9317d6634; 0x5b404738b77f1ec8;
  0xf34fabb71ca1cb1d; 0x054abbcaca546a46; 0xe8cdcadd08eda660; 0x6971abbf958bdef1;
  0x41338557dddb4eaf; 0x1e158585b079b67c; 0xd2270474cfa26068; 0x53b36d32b3cea469;
  0x011523c16c543d08; 0x4668e92c5f73314e; 0xbaef3ebe4117acd1; 0x04037d1aa713931a;
  0x68e118e4e390c68d; 0x6b80cd55a44c1575; 0x7307ea8a5729c032; 0x5cc5475feee99ab2;
  0x34450e424c14ac75; 0x3f09157e5db3dcd8; 0x62ce2b1b50588052; 0x27a899c54e652f8f;
  0x0acd039f2fc2a5ed; 0x4b4044ddd5813eec; 0xc04d189e90a75958; 0x242551bce71d33a1;
  0xd95af96b51f87f05; 0x02988820f809d815; 0xb27f65f73b9483c5; 0x2ef60745f4364b43;
  0xcb66bdc93f4fb8b9; 0x2b86c9b48756bb8a; 0xf8ebdae09b9867a1; 0x441e70184e6fe9aa;
  0xfdc2530330cc1289; 0x47d8d65a8b4d6992; 0x8c03b6fa30ae74be; 0x1ca8693cc3bd99d5;
  0x699eb1511018f2a6; 0x3da04764d9f4fff5; 0x361720433d3aab59; 0x2fa911612cb857ff;
  0xa4057da10c2f1cac; 0x48a219b933a5c619; 0x42341020d15f0bc5; 0x73f8895046a09dad;
  0x1bad5312c67421b8; 0x4194771b368e622e; 0x8cc71a79e44e0dff; 0x4b4564e45467f1c2;
  0x7759f16aafe52093; 0x391b71dcd75fbea9; 0x2a1c0694ab4ef798; 0x023087545444130d;
  0x4b7ae1ffcfaa1aa1; 0x64e26f32d73361e7; 0x8da47038bd0b54b9; 0x148cfa6feaecee15;
  0x3756d4d479c2cc3d; 0x25d44ea8d31543de; 0xd82c8bef26bb2c43; 0x2c2047033d27f37f;
  0x5bd33d9837dad260; 0x77943117a3383b7d; 0x12071d697ea583f2; 0x3c7c41272a225bf2;
  0x92ebbdfaf1f03ad3; 0x5d61030c68b63704; 0xca6e2853baee75d1; 0x12404b34771a3636;
  0xbe13c46326667e4f; 0x2bd261916f9be3b0; 0x86e3f8cbadc80f89; 0x74520d8a1794cb48;
  0x1e15c745024cf97e; 0x5cee741e1e53eb02; 0x8d088de0af99cda1; 0x625812961cc0862c;
  0x4313437321c0e934; 0x60bbc768c424f7a4; 0xaba71fbf3c10e143; 0x37b8ea9f14a915b8;
  0x8d96ec65c40213ff; 0x74a08828ff77845c; 0xbedb7194daf607a3; 0x17e86671161c8706;
  0xaceb98e0524059cf; 0x68552ac494916f09; 0x4cd2971baf1b3c47; 0x68442ebcdde21b70;
  0x19629b8c0e867595; 0x6a6955d3635fa47a; 0x6fab45e0f2e393ad; 0x66dd3ef4fcf050c4;
  0xbb0b7abcfddc7df1; 0x14eb5b751b0bcf9c; 0x1cf79f9ca2fd411d; 0x5c496f73fff0600a;
  0x49648d8555426d70; 0x46c1016a2322d8a9; 0xb57fdb870d9b6d4f; 0x609eb65209ddb633;
  0xe70f9166bedc82c5; 0x772fb5b5c8afaf27; 0x79a294d9b0227a20; 0x7f75b141112dbc8d;
  0x98d1c7f88e070020; 0x5953d0aac48217b1; 0xe28253ebe15f33ff; 0x267d1dc11e614c45;
  0xbe64f50ab99e2246; 0x4eaaab5c82fe5495; 0x927d5ac07e60bed0; 0x67d3786de6aa1b4d;
  0xa71962bf0f6e2945; 0x63d93844a35eea9b; 0xb34228c7d26640ac; 0x169c38d2eb28f5a1;
  0x4b7972b33439dc22; 0x71478457cdaa1e14; 0x5226e125ec1d58c7; 0x669d8796e78fd4f1;
  0x750dd1aaaa44a07f; 0x327c62b55aebbecf; 0x006b8e95b54fbd25; 0x2ab3f95d01eb364e;
  0xfcbe5080c0d5e196; 0x2a1b9bd75a57e725; 0x1d2b2b6758139b5d; 0x751cf4af849b7a73;
  0x164a7d2e337d00a5; 0x00cee3a4cb83a4bc; 0x3498e0366dbe28f9; 0x053d899148d28502;
  0x01665d64cab0fb69; 0x4a99132208d68e74; 0xba44bbd4bd3f915d; 0x1d34b0f9172122bb;
  0x5d114dc729e8a9f3; 0x08e7a43dd5334b60; 0x28db8e9232f0f3e8; 0x5cb7be1b80264f62;
  0x9af2c78782508f23; 0x336ae7ccf7e3a1b2; 0x7fe2d4ee2dd194be; 0x573d2e1b2b8a6872;
  0x3332ea3363b2ea36; 0x200bc1375b1f4243; 0x65c47c8c06b3260d; 0x42021fca53995c5e;
  0x2f7e6cf49bb19946; 0x311fba6a23196d2c; 0xc30c13b62be0d70d; 0x61eeac142711b0dc;
  0x88526996597d35d4; 0x70169bcbe6bd21d7; 0xa0f1b2d0ad29a510; 0x2ade531472c1b94d;
  0x11e320dc189873e7; 0x2d2a1794e85cdb38; 0xa0a8c453a6f621e3; 0x4b06d5b54525f6f7;
  0xf42916691848ec1c; 0x1d4216555d578730; 0xf8c60da7290a5b4e; 0x66dd9f39a1f3565f;
  0x55ac29d937b474a0; 0x4291967a4a369ee4; 0x918dacaa12e6bc89; 0x3d46e8900651c310;
  0xaf055430a00e90b1; 0x16f62bf56da5ca39; 0x1a021c33488c51e6; 0x0d64dadf63fbbcd5;
  0x0918ece59dbfea7c; 0x3b3319d7dd74203a; 0x1d88545b8b9fa90c; 0x13b792dc908c59e6;
  0x0a2d939a9c3d0979; 0x321a5dbeb74bf127; 0x5e5947fff66d8470; 0x22ec9ecafd26bc99;
  0xde17ca8293b10536; 0x593f56c0559dd846; 0x1148373375485023; 0x23c6b0fdf7448b1c;
  0x377904458a27804f; 0x573e91962726ea70; 0x35e1b24f3235ac70; 0x51ba082049f4f85e;
  0x4bc4918160d47194; 0x5d29a21e3308e1dd; 0x7e15894b3e6e4e33; 0x50dbbd2f4f31d0fb;
  0xef248bd235a9c9de; 0x3418add21b634710; 0x96c7233a52363bd2; 0x7c8414ad9a08c99f;
  0xbc6acb4a54e6c05c; 0x5729021a1193579a; 0x0627c3e00b08fa1c; 0x3d0b4ff9e17c2a73;
  0xd507e8755990317f; 0x75b27bb3bc7bfe48; 0x44a80f2c6ce651f5; 0x7b9795fc1b706e46;
  0x9de75bdefdf9a640; 0x75ade50ababffaa8; 0xce0ab116870889a0; 0x6f3ddcfcdd59ec6c;
  0x6e36833588de0674; 0x291d1129ea28a073; 0xf8b8e53864884d61; 0x706ef8f1ae854d76;
  0x137a8c6583753069; 0x01e45f1cc620f966; 0xe28e1ff82f76c7ba; 0x36d29eace3e89c54;
  0x83379f157f0b49cb; 0x65e9c39e2bacb937; 0x9b323c45070cda3e; 0x16e02f31ab7e2de5;
  0x53bcf346635122b7; 0x1fd7e207d6c2de09; 0x3a5f5f94ea1e57ac; 0x0cba06e8d0f0b4df;
  0x70b440c387a9c392; 0x1e7dc143dee1d800; 0x5498ba6d7239912b; 0x332870a017182d14;
  0x6be306fc672d794c; 0x2c2ce211245b2b4e; 0x109b722c8d2ba79f; 0x268520fa9c5f727a;
  0x515b300524fe78ee; 0x736201eccbaea698; 0x4608ac113210bf78; 0x32d8fd919c441843;
  0xc9557e1b04b8f2d8; 0x775437f798dc7459; 0x1200f5585ba417f5; 0x2e00ec5f3e7ad304;
  0xfc873d5f2b446288; 0x32270a93624876e4; 0xc646a47c08789b22; 0x2370d9fe925616be;
  0x430afa3619e671c4; 0x156468ceac1f5fb2; 0x3b84dec2f2417635; 0x31140e9017c0e58f;
  0x5c85f88ccb7443fa; 0x0da75f5d64d864ac; 0x295ff44871b0fb84; 0x1b79e10bad3336c3;
  0xffdf9942dd2977b3; 0x4c1b198d0f9a1a23; 0xba778a24c112864e; 0x74f66897f26d48d0;
  0x3fd5c06e867ab611; 0x4b98ce33ff7878b9; 0xf7db4dce75cb9165; 0x11665aa099ec5163;
  0x2a498f16ae7118b9; 0x265ec3dbb4eb509a; 0x3da4230668ce2c86; 0x36e62baab2e33385;
  0x99507d4a79ab4478; 0x25bfb2fc411e8875; 0xd7ac1ec933022ce1; 0x23d341ae033d0466;
  0xd295b465e962bc00; 0x23d0211ba2d73180; 0xa03ccd7aff922d4d; 0x1e767148de301514;
  0xc241ab36a894efab; 0x1c9fc2f343fc1e58; 0xca3b96562bd27a87; 0x53623e2285dd7015;
  0x557411f01c219420; 0x19265577096b42f9; 0xd3312d941b23592f; 0x30a9a9a1c3c51c06;
  0x3d89b0b3ea6e8f79; 0x7eab751dc5c77cb2; 0xc0a9b186e6df6e36; 0x4f844d583f155694;
  0x419018232793dffa; 0x2add440b6bd3854d; 0xd55480f131df6e32; 0x318ce3846ae3e417;
  0x0565062d1a0984f4; 0x6ebaec63d2bff9f6; 0x77075fe729e79790; 0x0dd9434624c8a4e7;
  0xbf8f11e2dfa9b062; 0x1b17d8255ee8b364; 0x62c2150cf72c6344; 0x28106880d081e8dc;
  0xf4a4af0ddfec91c1; 0x1a8f0e6c977e1f2e; 0x72a7a3a738b9316f; 0x323716728c4e22ec;
  0xc14069065ba4af3b; 0x081514248911d367; 0x51bd4afaa8b6c337; 0x50e77a9b513400e7;
  0x46c0051b2a822548; 0x024886e41a5edcfc; 0xa06b0efa41cac17f; 0x336a30b01b9c5675;
  0x74fb2c10ca097626; 0x2b204caa48e90981; 0x6902c952b9a17b74; 0x39c2e9b6b922303b;
  0xb9216b9b3c597419; 0x6d92930264f15f76; 0x7b1297d5eeae1427; 0x0f0744adfe1bd307;
  0x33b57e265be6a89d; 0x282fa2e533356c10; 0x3a03995c61dc772c; 0x4f5d8f5e893dcff5;
  0x4bfc927efc48023f; 0x596f2241d6a685ae; 0x3cb3e0afec29b8a2; 0x31018e0d10653842;
  0x2fd00fe944575626; 0x1241d8704982e011; 0x970d56664e6781a7; 0x1b05f49d0f3de2ce;
  0xa994ffdf63717e66; 0x416374a76ba88e98; 0x8b082ced53f1579a; 0x56781dfab5d2aa4b;
  0x8151defd1865b318; 0x64669b840d6081f7; 0xe436f4bb5f38e14e; 0x43d438410a974b40;
  0x5832ceb3d666be02; 0x06347d9e1ae1828e; 0x6979471b39e3ea86; 0x2cf2cf61cb4b5ae4;
  0xb7ab29eada5a6ee4; 0x12e75cb29aca5768; 0xe65b1109d30d1ffc; 0x71f9becd6b320e5a;
  0xdc8289026647eed9; 0x31d62d050ca5458f; 0xea2bbf523a54c1e5; 0x602bf0b9e3ee5491;
  0x25aa73622380ad4b; 0x2b6b1e3271df5f58; 0xdbc5efd86aa0470d; 0x05353c24b8c4354b;
  0xa3c7db3cf5e06bca; 0x288a1c8f2b4ea5f7; 0xd6152f5e12ce7ca1; 0x59d4c1b436673c7d;
  0x1e02554e521fcb95; 0x66d3980f240ad440; 0xabf16f6b39a4d9d1; 0x7fea351ca94c2f62;
  0x3d62b6f3389163ba; 0x0fc6b44f2e7895ea; 0xd5c64403cda7c669; 0x2e4099090e603193;
  0x9b5c0faf15fa4c2f; 0x46295c9d8e12b639; 0x5ce4add63a5b331b; 0x5fa7bd736c4c5879;
  0x47b3471447d1aef2; 0x28004c1c22325739; 0xd588437d9a3c5299; 0x2ab19c1812cd27e8;
  0x3ae700f680037802; 0x1ad163800b422b36; 0x45b7ef36fabc2139; 0x44bcdeff21dcbd1d;
  0x41c6da2171e11c7b; 0x2c35ee79f7c4cc14; 0x4852942759c13849; 0x6492d26f10be050a;
  0xa6f54e988c50f0d9; 0x6a2db2b6dd62181b; 0xf7d9806b2a5e57a3; 0x57526bdb3ba53d20;
  0x17ce6cb1f500e650; 0x05d841b042f8f345; 0xaa800a6c698de970; 0x04f4b559abe2cb8e;
  0xc050dfd7259ce49d; 0x213839bdf94db935; 0xb371258655306204; 0x7d323b8b19f9705a;
  0x26d4502b16b6c618; 0x79717069aa89595b; 0xf867c0e36db41872; 0x13d601d86c76e1d0;
  0x2dfc8b0d331b7383; 0x185472f3e42e8075; 0x05bd13e72b10eba0; 0x519a387490f79b95;
  0x8d09c1b2d3ad2500; 0x045da45d2cf0f733; 0x640181956862426c; 0x728d57f59bfe1b09;
  0xf9a99f878da2c585; 0x4fc4831e61dc4e10; 0x6dc602cc54394fe0; 0x0484566b67e9e8ae;
  0xc5fcf0474a93809b; 0x71c0c23a58f3e2bb; 0xb400fabe36fe6c43; 0x614c2f3eaee4c0a7;
  0x7610a980d0e1c6c1; 0x1ce8197c88885dcc; 0xeade1c9f3ac2cb2b; 0x471ad07baf2f341e;
  0xd67a837c6b01121b; 0x2a8e64281f59cb59; 0x52e701e42f3262ca; 0x19e0a27dece50580;
  0xb5691c17a7bda6ac; 0x43484c311b9df1f2; 0xa68155549bae49ea; 0x43a2c5dda225fae5;
  0xfa5e992aed700eef; 0x58911f5623918856; 0x648b81a1e48c4da9; 0x66e6e30cbdd0c3bd;
  0xf3ba209c169d266b; 0x20f7a86230447685; 0xd1bb5aaa1a0c3d2e; 0x366c29843d1111f1;
  0x06c78b642dcc9013; 0x27484a64e109e3fb; 0x8f8eacbca4677464; 0x0b6cb31b1dc24cc1;
  0xdf69c84f898f0fa0; 0x2dd426744920f2a2; 0xc0912a197d4c5c69; 0x489ade7f6a98d8d6;
  0x458769f47f203e28; 0x124f4123fc05ac97; 0x3bb936f4ad6d7d67; 0x330954fed4f00ff8;
  0xc2ce650046f90eaf; 0x7bf94762d4f9debd; 0x2e93172a586dfb83; 0x3c7a6062b4113d96;
  0x5ddb0397147f0d93; 0x08e3596fc6839034; 0x374e67ff67639bfa; 0x19021c2119888232;
  0x002f5d04fdd55efa; 0x05b4c6e079e1baa3; 0xe5678ea3ad74c84c; 0x1c42f7826a58a77d;
  0xe054668bd2cafacd; 0x237668d3ede4261c; 0xedf46a6374aebb32; 0x31ec8c5931cf0ef4;
  0x955c2e95c35b5825; 0x27d8b0ea68259603; 0xb7a8976e427d1ec0; 0x6b6cc5c07152bd13;
  0x03d88f0ca0b244cd; 0x001cae9a8cfed897; 0xa844b3a1f693a7fd; 0x676c9acb7abdec96;
  0x631b6bd5e0cdbd33; 0x29f289dc0cddd9b8; 0x0947d57536fb2eff; 0x1eb2ce650e3eb059;
  0x2139b3a40e8bf405; 0x4165edfb39f4ae8d; 0xe061eda67a70d6a6; 0x2e3cc0328c9084f6;
  0x1ef8329ed056063f; 0x6d4d01ce49e8b3d5; 0x0110c92f1656d34b; 0x6dad1c4e170829e0;
  0x584c56c590b477be; 0x597e5f0ad525e935; 0x6008264d8eb7d36d; 0x3f586754999c829e;
  0x3d7ea89df5546a1d; 0x41754f7d9a3f4364; 0x3b0796822ef879a7; 0x1ab2779598262872;
  0xdc37c9f0bbef7923; 0x256ec818ec35a097; 0x4a72da5c09dd5846; 0x51df6c61edcad45c;
  0xaef24fcdcf5ce819; 0x0ba6bb959ae689f1; 0xe667bd65a57b3a9e; 0x71ffd591a28a8e4a;
  0x06c325fa53a7fadf; 0x6667f2986b2dcf13; 0x3ef751a6d52a09e4; 0x517a104240b8c74a;
  0xd08cddfd8c8183f5; 0x59237cc71b8147f1; 0xfff94fd188395933; 0x538acc592d10ef67;
  0xac51ce386ff0eb1d; 0x69d42b8114c5fe65; 0xa17eda3995bfe8b9; 0x5dc6d98fdf05a341;
  0xf2304d375ce8be78; 0x31b58521ecc483ca; 0x04d2d8140780222a; 0x3dc18b2be3ed95c9;
  0xa48e1639f2d70d2b; 0x4ffd54a6bc0f38d0; 0x8ae3c65ba6b7143b; 0x482eb41f9178fa9d;
  0x240b8b4e87ad4f1d; 0x6d8532420059eb40; 0xc135f77e44275132; 0x6261076a0daae349;
  0x35316bdb3842765c; 0x246165ba3a8bfd92; 0x1c2d774bd5177a75; 0x045a2f991647e3b6;
  0xed3b5923594671a8; 0x0514fada5acd4db5; 0xe8297fc358a0f50f; 0x7cd2badcf2952a91;
  0x0da45130ea9ac266; 0x26a0d43c1e14c979; 0xbb62b729fe93a390; 0x360357aff7f67ccb;
  0x3ad4835d1c7c59e8; 0x570daffd86fa470b; 0xd7c4be698fa3bd96; 0x17e4bdec2ad76ffc;
  0x43ce4ea9ead7dc51; 0x58ba7ae0d64a518e; 0xe014cc7e64680555; 0x03abc953ce2630b8;
  0xa318620c7799be57; 0x2b258fa2e84da952; 0xdd88fdc5063b2ffd; 0x17371dd79a3aa556;
  0x927b837578981299; 0x554552101d90ab2d; 0xb45306218ce54bd0; 0x59109b65ffdb6235;
  0x8663e0c4a180a515; 0x41467fe41c6604f4; 0xae2c1aa4dcb73878; 0x19d3cb02c6c07517;
  0xaa147c97ea6745f1; 0x70dac71a31cac43c; 0xb9213ec26af87dfa; 0x67f228e9f60e7b25;
  0xbfb59b8cf78df3df; 0x36687792a4256fa3; 0xe1be5c1f23177544; 0x786a9e1b644b1c90;
  0x4172f47393ca7f5b; 0x62ae5bb4b8aaeb59; 0xbcd9c431fa631b6f; 0x1fbe20b2edc9cc6d;
  0x5fdd829fbc0ee085; 0x241dd315adc5dd59; 0xb4b688d625f7dbb6; 0x595a82fee5bed2d4;
  0x69653ae0cc11880d; 0x2b9e85fefc402f76; 0xbb2495b507770a81; 0x05d20c575fb34731;
  0x9d9e623436485ab2; 0x27012a9665f3febb; 0x586cfef484c04ff7; 0x44a5860cc0eabfbe;
  0x6fbfe6e2f3532e80; 0x05abeabaaf3220fe; 0x1bed21f2cb809678; 0x2aa62112b7eafed2;
  0xe298837cf610190b; 0x1ec8fbbcef9158f8; 0x1efe9b3aa4f96f6b; 0x6a3b842a068b0ef3;
  0x92dd4b7cd7f827f7; 0x605175bbf3fd1c97; 0x139bb6419c1f6d98; 0x3a3ab2e9978db310;
  0xc5c95941c9d5dd0b; 0x34c6c76025b2bce0; 0x0d44115a49bb8126; 0x7622cbeb11daf619;
  0x785bff93164ef5ad; 0x7191647d355cb45d; 0x117f255c4cce6e5c; 0x581b448b0e9aae3e;
  0x54a4f3cb36225414; 0x790180c539bc4685; 0x47064043b7c6b96f; 0x43cccf5b3a2c010b;
  0x1dfbf3afc14c3731; 0x1c368f3195572574; 0x00bc2ed3b5070b5a; 0x0332d8dd63b37f60;
  0x0744b1908c9bd8f0; 0x2d258e628dacb9ce; 0xbba5b4bdb9c61e14; 0x0bca12295a34e996;
  0x059c84c66f2175d4; 0x1a3bed438790be78; 0xdf394f577dabb5b0; 0x304777e63b3c33e4;
  0x59a29d4fe82c5a6a; 0x72e421d1e88e77a4; 0x69e6230313312959; 0x2da03aad8cf2bbb8;
  0x2858d8608fecb0b6; 0x343099e7a40243a6; 0xba29b675d29a8f63; 0x3d2028a4f6f15886;
  0xf068e2d286047d0a; 0x14999b5d6c770e20; 0xd1874a592385da79; 0x78aeb552c15a1cd9;
  0x482dcccc23e9c06e; 0x7b18a19fb54b5745; 0x036c896efe9a7a06; 0x2f2c2ce0d1871c13;
  0x3b2d9b9ed65492c7; 0x0649c7e50819d077; 0xcdab66ea7b65e3cb; 0x49b15b40c4aaf03f
].

(** 4 * 64 multiples of G, Phi(G), Psi(G) and Phi(Psi(G)), 12 words per
    point. *)
Definition DOUBLE_SCALAR_TABLE : list Z := [
  0xe18a34f3a703e631; 0x287460bf1d502b5f; 0xe02e62f7e4f90353; 0x0c3ba0378b86acde;
  0x90bf0f98b0937edc; 0x740b7c7824f0c555; 0xb321239123a01366; 0x4ffcf5b93a9557a5;
  0x297afccbabda42bb; 0x5948d137556c97c6; 0xa8189a393330684c; 0x0caf2b720a341f27;
  0x892756b15bcf68c4; 0x5742f77c98a526ba; 0x340a5a1de9f89f9b; 0x14ef680aee75d0f7;
  0x84e770e14043a41f; 0x0212c41116c33c95; 0x35b791e6de4dc0e2; 0x5949df08518d5d28;
  0x6a0e120744ed10db; 0x5a5183ce844391d3; 0x6f618b158afdba50; 0x2ce2037e470e2088;
  0x1f49fa149a64ba3c; 0x5f9876d519670451; 0x030105056f55586b; 0x020f1a557d8fd726;
  0xdf4cb175b06d86c8; 0x694fbcbe7fe58390; 0x7933294a756a1b67; 0x09dbe9924b58f8ec;
  0x590f4403cdf197b6; 0x1c07969fc87a0ba7; 0xc496477712252367; 0x5508976022f1b096;
  0xefda361e452e1775; 0x7a0a0cccacc838fb; 0xb07e791c0be5dc5f; 0x24d9b6b418cbcb93;
  0x497970f3c6117e03; 0x3986a158cb96d595; 0x8f80586ce692612b; 0x305cafda7e4df9d6;
  0xc1a1c2e06452914a; 0x7ef989c0eb583079; 0x3a765b1f7364b099; 0x4fee236d58299c6b;
  0x6f81095f770e8419; 0x53bbd86b7396bc09; 0x2b72ba726b2b4210; 0x625dda1d2901c78b;
  0x0ff5bc7b18cd2b3e; 0x0556598c7358d332; 0x0991245f20ff50d7; 0x0e7f58e5e919a97e;
  0x5a0561373b758756; 0x6447bc93f87c198a; 0xf9230604c34c7520; 0x6b214425475c1bfa;
  0xe93de62d6a7f9497; 0x2129459d86f4493c; 0x456394c7c464cfe4; 0x612434fec3f4a1b3;
  0x1ed91eddf44261f3; 0x0c6d3854f9e0a3ff; 0xd3fd153188a7e4e3; 0x24691fbdca16910c;
  0xbe97465cd7625c9d; 0x2aa61cd373f759f4; 0x824d5763a326d62b; 0x1a0ae39e50da20ba;
  0x32d0c8481ee4c3b9; 0x6c3687109cdd18c6; 0xe52717142fbf95da; 0x67bfa41fb52ce9c6;
  0x4e24d6a088a01474; 0x49a6ca0ae3fb6626; 0xd67f8faa9103191e; 0x674888f5aa6d3062;
  0x4ba73824c2e85a99; 0x406b2fd18d35b314; 0xa7087b1bea728ac1; 0x11d2f222317b160e;
  0xf8946e007e23a469; 0x22a196fabbce31a2; 0x5309ee1bdc1216ba; 0x240fe9953827a324;
  0xf9fcb89b63aeb5c7; 0x603b8149ed16b1b0; 0xb1f1876c02cf61fb; 0x4a5e32af612f948b;
  0xfc491aede69a8813; 0x1ad9379136e53aa5; 0x5da50db1d5e6c123; 0x2f4014f7fe2c12ca;
  0xe4f6791d7685c3f5; 0x4c218521c3745a9b; 0x0c0521af98555f97; 0x1462a12953cada7b;
  0x0bb2ab63d6452c1b; 0x5783c531ec98bb87; 0x737def53605dbc9c; 0x49f982b930e86719;
  0x75b16790cb5211e3; 0x45ad6574cdbae99e; 0x1062b72dfeec9851; 0x45029a09cc468c88;
  0x532240de77f3a1f2; 0x17bd291eaa9ad0ea; 0xe0a2d7efc2f8a0a0; 0x3a7412052021778e;
  0xb0dfb0976acc90df; 0x7fd603b689a7b1f3; 0x1152579ccb00d6c6; 0x6340743b631849a3;
  0xebaa47290e0cda01; 0x143265a6d53fef0b; 0x45325d6fd981e75a; 0x0e9780cc39586f2a;
  0xa4f68d207a8628dd; 0x50d230b51893e841; 0xf3bd769a4bb504b6; 0x55975c063969292e;
  0x07727ba25fb8756f; 0x07ff86cf8ed731fd; 0xef57fa40cc35a1f0; 0x70753a70874218fc;
  0x615954e2342b973c; 0x5aa9d68f1a59df86; 0x3b8e9e9ff5e44468; 0x2e749114d60a3d23;
  0x14a1b91ec176db4b; 0x55f91a63d69aae6d; 0xf42382327b1b6d27; 0x2acf1f475facaafd;
  0xfd9069b479b58968; 0x3baaf4e5c4a45f77; 0xa2ac9ab98a7aaab6; 0x5466cb5018f50981;
  0x3e6ba27771ba3205; 0x31ea90cdea1bbbe4; 0x0000416b5c557393; 0x464cb0415a510d7d;
  0xd02087d206ff2bbf; 0x2b9c8ecd7fabe736; 0xb2b56d3842caab0d; 0x046ea0b7767700a7;
  0x113a7a889e317310; 0x5992a354bef7d0ca; 0x3edda94ed50388bd; 0x052661f767839154;
  0x4c28edf6e19e28e0; 0x1d19c2f2d2f644e5; 0x5d732148db35ab3d; 0x680c4714b83580f5;
  0xa374f282bb80ccec; 0x789e609bc77ae11c; 0x10d2577d599b45f2; 0x1c548b5b857721b1;
  0x7baea726b4543fdf; 0x3c1562912d1b4ed2; 0xd6362203b7e82082; 0x1414e523d3c7a900;
  0x7ca349951c1d23a9; 0x4da4265e3ce80fb4; 0x7981ebbcaca9ef36; 0x4ebac9e5b5bf980b;
  0xabd2c1dcf49cb5a4; 0x3f54acfc25c6340f; 0x202eeffabbd11cbd; 0x67216b7cb3695e8c;
  0xff7cbcf9b23fc9f1; 0x2eebebdff7fa7afb; 0x71156befa111f85e; 0x1b8fd98df522902c;
  0x6b28ebad62519791; 0x6cf0ea960e01d8ed; 0xb4617bc2006967d5; 0x323da065cb3df0ad;
  0x31687d0741e24d9c; 0x02db8f2b509a7cc2; 0x9243f85924320527; 0x68c360f01d6e6d2b;
  0x2351c5e877d5306a; 0x6f56ccfc85c5f3a9; 0x1b09652837c4928f; 0x0b3337554c83f971;
  0xe2931be2ccc783ec; 0x46829694ba08c64f; 0x9f35e36358e2c6ac; 0x1474b333b000d170;
  0x24d792756fc96640; 0x618fda9fef868c5e; 0xb7ff5b125afd9375; 0x778dd97e0440c258;
  0xfbff314886219627; 0x3417e1e1e2a7e811; 0x21e959a88f7b7bdc; 0x3508c2eb8c3c8672;
  0x827ecdde111c430f; 0x21bcb19fb07aa134; 0xe0c1fa50ab2f5746; 0x401e680b4e6658fa;
  0x2cc24bab313693cc; 0x20541c12b964447a; 0x374975b6fb81c3cc; 0x52905efb344e17f7;
  0x79c5c9b56d8b5f9e; 0x3390bf75d2b9a3ec; 0x7ef3807d895bf4e4; 0x2814165a42046b51;
  0x7f8cfd09326fe158; 0x3232fb4f4c9762ec; 0x5678d6dacc194d25; 0x6f7caffb0a7545e8;
  0xbd981637b23e7963; 0x691d7b7cb88a0ef5; 0x10ba319ae2062914; 0x06fb144f8295a85b;
  0x80e620976bf62f8f; 0x2a425971ec73d6b4; 0x800aa9e741d10b1c; 0x230d7d8bd1a0469b;
  0x65aace37428dfe8c; 0x0fcab5297f58b667; 0xcf0e9526943af7b8; 0x7d90915b75d4dae7;
  0x7455a46156259d6b; 0x29bcc06374cce1b5; 0xf2fb0ed3aa87aefd; 0x211a06af0e54dd58;
  0x6c0c95c5723de9bc; 0x6299b6ed25008ca7; 0x7fd63e784d4dfb18; 0x2cc93b4d9bc1db30;
  0xebc7e2d44c5d13ea; 0x3278e18d4d3d11a0; 0x349e3dd25a215f79; 0x7eb2a7150b30416d;
  0x05f3d7d5f6a094cb; 0x2a3771d48e331405; 0x08ef39e9dc96f009; 0x012248373a364992;
  0xf758f92fc9fd4d33; 0x2339d8c6dfd3ca6c; 0x8b000965962673b4; 0x746ff43eb99d9054;
  0x47ecdc054a422eff; 0x33d8f7c8267b7f0c; 0x22fe00ac921a42ae; 0x31e57f3d31fcd8e6;
  0xbb912315a1c50869; 0x4ac8cdb0fa7ebbaf; 0x0541d74a60973edf; 0x7234900334b2c5d7;
  0xf2e545f730adfa33; 0x224e44e63db5ac96; 0xfcba3d005c6fdeb9; 0x2c93a4e6559936b5;
  0x7727a0d7ad88d758; 0x2e33100216719cdd; 0x7b2ef89aeb2c0254; 0x1f6de5b74758afb4;
  0x6ae89047114fb321; 0x3d605e9a6ec6d80d; 0x18e915c727a874d8; 0x699088b5e9d0912f;
  0xaf9344618e056f10; 0x1b9169df8245e0b3; 0x5eb8c33d70f4c891; 0x1609ddfb222b13c3;
  0x8131c885d1b366ed; 0x7bc3cf9d9cb1a7b0; 0xd297478d2fc93968; 0x13cbb4573a4ea7f5;
  0xdd37b5cc64d5986b; 0x7ed3d1d7d81ab5dc; 0xac53485f23973c9e; 0x0705675d333b91d7;
  0xade5d213c43186c1; 0x6a8bdf57b4bfdf14; 0xa87f88a1de717963; 0x17f29220b519bce2;
  0x7af2d7fb0f95c610; 0x28d1d3923b144a7c; 0x8e73c3d8972813e1; 0x00100b40c62e72c1;
  0x84de7a81fa1f50da; 0x4fa391d6589d8244; 0xbcc3596f0834b285; 0x4d4acbd60a24e9ce;
  0x97fa98b8c1835a0d; 0x33abcf8e29901d0b; 0x60a73d1975b3d082; 0x60666aa4325b948d;
  0xad54adb769284a39; 0x227a98d113609b28; 0x4a1e1ffcae6a3872; 0x1e4ee44bd67f818c;
  0x5a74c6bb4387d315; 0x019428c0b1b18795; 0x5cc153e270bbb055; 0x2b3cabdf00dc4a61;
  0x834110c026924b57; 0x2d30e985f2d9f217; 0x47116979333389f5; 0x53e3fd6a18202417;
  0xb1393cd79c2e5864; 0x58d92935e4112e82; 0x86989a7ec8305b6d; 0x42a8fe4eee28f37a;
  0x74e212ef01591901; 0x3277917a0397b1b9; 0x7bbcbe6e3d687544; 0x0b8957701d09afb6;
  0x6cfbc8ee74503668; 0x48a9925ada9f8348; 0x57045753ba2d0f4e; 0x7d69ca3866223d66;
  0xc7054ce22917271f; 0x41bce1e1133b51de; 0x3a3ae42df81ec35e; 0x7eaada0f42d47cc3;
  0x13b138f1048a57cc; 0x64f98abd7e915a8f; 0x7af195eb16a0c732; 0x11be81a791d634d2;
  0x97d8df47430f61b8; 0x0767c7b381271004; 0x3e949136fb940aa6; 0x3bdee340cd956dba;
  0xb250ec4ff91d2602; 0x4cde2454d47f59db; 0xaf5e749530d978cb; 0x5a8e2f2119d4d835;
  0xdf1cb5425a0744df; 0x3d3b08a7bf35d055; 0xc6335e832de4719c; 0x6eb8d97e09154d42;
  0x2f6a3f8de3d20dd9; 0x13f23cfd276233da; 0xb4a6b80dfc0fa41c; 0x58d876403acfd7d7;
  0x2ad422078b8e139b; 0x73dbee2abbaf494d; 0x09a2758891eca3c8; 0x6ef9a9f1178b0938;
  0xfc7e9ecb90c637da; 0x3a04345fc10b1a7c; 0xc024e9cb62f9ff1f; 0x6c4f9c3aa4aa33d8;
  0x049d6995b95ac1f0; 0x2243845195763a1b; 0xa1466a31700ac276; 0x600fb7123a325905;
  0x9d391a64a0d35a24; 0x3b093b550641f108; 0x2275de5bfd2e221f; 0x25f5e7465963db1e;
  0x3e220107f7e7fb84; 0x6f06a23bc1b85a8e; 0xb4198d19f6eb0e48; 0x5dc11761dad45fda;
  0xba303e492ab52a0d; 0x127c69c73da9f528; 0xd3a5b70cf6c790be; 0x0d72b0c50819da5c;
  0x193f90d62ec2cdf7; 0x67f7d0cfc4f46daf; 0x7aec083d52f380ea; 0x7c0a1dda4a28bf4d;
  0x46fd20fe6008cba7; 0x7a588c914115d595; 0x8fb1d3daecf45f78; 0x0851dac094e7b036;
  0xcae0a76e2a32a892; 0x104f861322dddb2f; 0xb79d81e46e1f9006; 0x1e4d28d7a2498912;
  0xaf3175d3974b89bf; 0x613d00f9a69c55c2; 0x23f6883e8e65226f; 0x072f7ed65c6def05;
  0x6690e643bb38e243; 0x1a81c4a7c9189b15; 0x1056d1669e4749ae; 0x0137f2a7418f190c;
  0xed3192796e699d16; 0x3ed76db45c38a37c; 0x78e86d1475a88243; 0x45985aacc495b16e;
  0x47d5c8208e8f1030; 0x6dbe5f68b4d0e782; 0x08d3d0182cf7f26b; 0x64c375ce172fadbd;
  0xba0f6db3a20c2875; 0x57e1d90a53241250; 0x0315433fddf8e63e; 0x33344750e37dad9b;
  0x62cc0d28ae69b016; 0x435fe80f6100d547; 0x5874aea8669d3df5; 0x3b96913f8264d4a9;
  0x738067d6bb1314b0; 0x48cccf24cc6f4ccf; 0x6f5e2bbd68b777af; 0x34c2c37ba9635d66;
  0xd731534900fdbe5b; 0x4e4f9d97afe11d43; 0x81b41214351b73d7; 0x1d48d100ad11a5ae;
  0x2a4ee76628e2b151; 0x34902e901877efb8; 0xb5a8561a0fd45394; 0x44317af6d5cd5ac0;
  0x354c2469e9068bad; 0x0771fe2761cad022; 0xfda76ee8212d0f2b; 0x76cdeec6d4435495;
  0x55c98575b3e825fd; 0x2983325ed5d73a1b; 0x563c4c4fb3f466e7; 0x731b0fa413338bb0;
  0xdeb519ca57a05240; 0x7a7e909b5c4f7351; 0xefb7c153dd2ab28e; 0x11ca1c865dee30b3;
  0x013ca8348d9d7de1; 0x575e0bdaeee8cf9a; 0x464c98a21083af7f; 0x683ddcd85c212ee3;
  0x1171f0ab4cd02019; 0x22c7e01c7f4d64c8; 0x972ec0ef3f2e2ed3; 0x623f83c2611a476c;
  0x99b3f16be9aa25a1; 0x2d3ebc5468990e0b; 0x5d5fba8546a4d5f2; 0x4716e6919d2986e3;
  0x3ab2f2bc183f5d6c; 0x5f6257d3910cd4be; 0x341c6f2a78f94f2b; 0x6ee8390b8a5064f5;
  0x9d8640b9b83ca8e7; 0x033c5ad24466be3d; 0x6f6cd68db30dfd59; 0x52aa6b1c0f90f3f6;
  0xfe7bcd4c97403646; 0x11ab3fc960b05fb0; 0x24584b77575896da; 0x427f8deb932da137;
  0x928a28cb505306f0; 0x04ae916fe863820e; 0xaabaa98911b9cd3f; 0x59e588ba994d9145;
  0x9b8f1afabeee9e9f; 0x04ffc7ef3476ff8e; 0xe9cf53ce9937b146; 0x73fe42a801524448;
  0x224bda3cf3bbaaad; 0x5fa85056d59884a4; 0x8e6eead48345726b; 0x09230936d41736d2;
  0xe679eb58d1ad6be7; 0x08bb759b530b1eaf; 0x9688eb527860e24b; 0x13704d2daf9af278;
  0xd9273ac71b906f14; 0x57ee05fbbd40deb5; 0xb7788e19ba9e61eb; 0x7967b6dc1c5d9699;
  0x36e043fc230127c0; 0x2a716598bb2d519c; 0xc017b2840d4d1b07; 0x1d3bfa489f756a3f;
  0x4ad73abf24318d36; 0x1915e6f53e12625d; 0xb219a7c941f89084; 0x2280087a8f4762fc;
  0x8eb280345fd1b4e7; 0x55b8d4ee5772fd79; 0xc9e63a787e2ce2e1; 0x685741adbda93885;
  0xffb830ab11a3b491; 0x7e891121f9356428; 0xc03aea271a629078; 0x71c45932930a2639;
  0xe7df192a6bf81795; 0x704aee8f183aadf1; 0x06ddb55a8a7a63d7; 0x52556d8763f3033c;
  0xb76b458c6f0c33a7; 0x28666b87c362b95a; 0x365ae575a4c27b9b; 0x36ef35110562adfd;
  0x89955dd8d927f9c7; 0x526e787d6a586c9e; 0x762e0bc4eff988c1; 0x6c9523b4b5ae4946;
  0xe90a909688cfe95f; 0x658a7dc8b3ffada3; 0xbee148ba7a58520f; 0x6819007d8573d1cf;
  0x75d3b5ec141be9c5; 0x4bc236ae634f3c27; 0x1192fa9b8b30e894; 0x4129d43e1d092cbf;
  0xfcac068558bbea45; 0x513e8d87b8116534; 0x5377a179a155ecd4; 0x6c93531e5545572f;
  0x727df81ba09aad91; 0x07527139dbc96250; 0x150320b1d8ba172a; 0x2281e85f60a1809b;
  0x7164b7d524eba6af; 0x50d387163fea4ca8; 0xe90de17d62aebe78; 0x6ab369ba28c0410d;
  0x17d07e315a95d138; 0x58b496352453fefd; 0xb87a04dbbc101b92; 0x40a8f0fb757e9b0e;
  0x2148b48a696e64d1; 0x4e004a3a350c17d7; 0x17927e9f386b563e; 0x29da9cd441e3e3c5;
  0x883d2dc357417213; 0x2e94653ff7862644; 0x53a37af548453df1; 0x04475db3c300b93b;
  0x2d65fa4d815e7204; 0x231a2db74c2c3ccd; 0x1fd734c0cf4d97cd; 0x32d255c105f6d122;
  0xbb74fd9201eb07b0; 0x12e33f1c81ac6f60; 0xfb9a6439bea97072; 0x52e14b7db9cdcbc1;
  0x637ac1a91ae374cb; 0x1c8622c35adc8224; 0xeb786c50a64b7d33; 0x362823a7232a5893;
  0xf22dafca688d472a; 0x18598f0e0237f7c4; 0x97b8497bfff4bcf1; 0x7abf4cb27a9c5b7f;
  0xea47c44e3b3d95d3; 0x58728fe3e1827a43; 0x7fd3681a6df902c8; 0x6db1dbbdc413de79;
  0xbc4effed1ac3007f; 0x7f31a54744887cab; 0xe6559b4f8bd2519a; 0x18a78ec5b0c241db;
  0xf6e10285b15d2030; 0x5c1323ea219a8ff4; 0x134b6f20dd116b47; 0x5d0abddbc8998733;
  0xa3c993938702e151; 0x0ab6aeb494f6ad5d; 0x8cf3b4beda1815e6; 0x546ce323008c2fdc;
  0xa10eb5a6a78dbe39; 0x26d2e8a8b8457da4; 0x026ccbe31517d806; 0x2a35174b812f562c;
  0x57d70499dd7a374d; 0x3368f951acd3c5e5; 0x490b2515f901062c; 0x316109e7c315c377;
  0x32e20eba569535cf; 0x496a8c39d667d709; 0x5578096dc44d5e0f; 0x608a162ce73903b0;
  0x6b2e65852cb37cab; 0x75b09a2e6ed609a9; 0x7ac84b3082602455; 0x7690cbb594e84b94;
  0xfc85dad9511973fb; 0x738a74b08c9006d0; 0x83233fc939d5883e; 0x7fbfc08b5db3c9f4;
  0x81a0e493fb5f7749; 0x2c255ef7e69a77c1; 0x234f02e609cc656f; 0x5960cf0b961f3cec;
  0xac72940237b1f17a; 0x434e038a29d446ac; 0xca6a090e00d8b0c6; 0x1f1aad24001e473e;
  0x6d64b6dc133399fe; 0x0899ba41e9dd4607; 0xca590b3f25bbf5df; 0x57217978b0d8ce11;
  0xd6b4cb13da6de9ac; 0x3c88520cf564f75d; 0x649fbd5075a7757f; 0x3f2593b90fe72161;
  0xe1bee53e91dcc9a8; 0x010069dce4c74a92; 0xef83968978aa855c; 0x6cd8848183b53d73;
  0x0b3df59610e403eb; 0x713225d446180a7f; 0xcc23112cc59850e2; 0x105796b670a3730c;
  0xa147f4ec7a2fa4cf; 0x32da1f072d75b253; 0x4e7007455e85f560; 0x76a5376a771fdd60;
  0x47eb4fabdcc699f7; 0x4e45db6334c6ed96; 0x36066f2bab72546f; 0x04f48065593ecdec;
  0x3fec02793fbb5601; 0x122f74626b64a526; 0x21d0f66ff83b4dbd; 0x1370610ede647f1c;
  0x57b82242b88172c9; 0x527dcbadfdc65ade; 0x5e9c9a04385c93f5; 0x64d1cf9e52548a6c;
  0xba0073337865c994; 0x633ee14e50bcd615; 0xf840228ec4251095; 0x49bb96812a98f08d;
  0x82f57d0422f96678; 0x06d7e43bffe7e0e1; 0x33910cca752ae863; 0x04d46e7c66087e38;
  0xf14935c4167017c3; 0x3f22e2f44d03c9ac; 0xa6196244f2cd6164; 0x15a2b4ce514fa4db;
  0x5191a04c4abbd0c4; 0x0e763360ecc8a19d; 0xfef583c184a673c0; 0x75c2f30a7c7433e7;
  0xe947a55547c7c099; 0x245c7ae44f6e7a83; 0x67a666f9e6bec2d4; 0x5de0b922fa645ac8;
  0xdd9b3e4a5cb72e22; 0x0139c2c857adba8e; 0xa7feb68e863ac231; 0x501381ef88ec2da0;
  0xb2b8c6a470f40b01; 0x051d65bdb8363062; 0x4ce90414a6d65714; 0x1e510b525d19df0c;
  0x569e723f5d374cf6; 0x4bfe02fd38fde1f0; 0xae7459ebc50f9aa2; 0x0f7e2cb170dfde32;
  0x3c3da2326a7407cb; 0x0cfc50a85ffd1842; 0x62ab34c85e85c3c8; 0x22b4d9644bb37333;
  0x57d313b3d87c2d98; 0x4f432c1cba49133f; 0x6163d11fa4befc0c; 0x1ab94e122fddf12e;
  0xfb7c9358aefc85a8; 0x5b20068f81d949b1; 0xcf8ed6ff2145c810; 0x5794afc021932d00;
  0x5c8987ad9b6e35d5; 0x6bb1f4b836fda03e; 0x794f1fed4a3ea1d7; 0x0cf6d128deb0e7bf;
  0x54ec3e1c65878cf5; 0x002811763ba2200e; 0x382d917051e77b71; 0x49e00cbd013a9e7f;
  0xccf576e9a4cf019c; 0x4b4a66287970333a; 0xf772168915edfc1f; 0x278eb5eca6479685;
  0x8a95c8b9cf41cf06; 0x6e58c9c7826d39db; 0x478e119889f2fe75; 0x73ecd21991bd98d4;
  0x26e751fe9fbb9502; 0x29825b71b0632e95; 0x21668f96ef8bb5c5; 0x2f2a899e53c9a004;
  0x2803292ed4345ce8; 0x72731055c7c65dec; 0x3aaaca9c4b6fe9a5; 0x6228d3ceda8bd671;
  0x773e2c5effc48eaf; 0x017ab19e0fea9ac9; 0x9609e10496c8d766; 0x121e89f9b302c30f;
  0x4e87d00a0be96480; 0x09bd8d170ba9dbab; 0xc6756f947ecd4e52; 0x2c9e40bbbccd0f5b;
  0x42a5b77669fd812e; 0x66aba9583b080d9e; 0xee55df99d16e77c1; 0x4cc00c5c5eff2509;
  0x8c84d5e20ab7c16b; 0x00ae5c96184ffefb; 0xb295e90346dcef54; 0x5d1bda0a39dc3b72;
  0x75f92d72a89b5ef2; 0x259d998c9ff9ac0e; 0x8a1cfb72a6c433c1; 0x23f5b71d49d67604;
  0x478d8f30914f62ef; 0x08fe61135218eca9; 0x4da2ce9bc6488c4a; 0x15f1eafd35283e2e;
  0xc2d2be3ebc42ea0f; 0x2a5216539d6ee902; 0xa1e99052e7bdeeb2; 0x3a8f2631ec78290c;
  0xb71518a82ebfbfe4; 0x24700671c46ebddc; 0x6ef52d591a221f75; 0x4794614db6a67d92;
  0x761f5c8ee4bab607; 0x31d9dd8f2361b5d5; 0x1a45593be8db3b29; 0x7f06c365eb116260;
  0x9d305a66e52eb65b; 0x5edcfcb5613eac18; 0xef34fd28154adb75; 0x790f805753b9d742;
  0x6ecd5ac255dfb797; 0x0cbe14db5d9a88db; 0xc1c86c5efa815528; 0x2c636133ba59d887;
  0xc75d42c2d9f52297; 0x4bd3540c21e2ebd3; 0x32e7cdf790de6903; 0x1aae3c9837d3e30a;
  0xeed028e49d436f09; 0x779ae12351efed1c; 0x6e0145587d9797a5; 0x25156e4cee9a407b;
  0xac2fd82f2ac57119; 0x7f8c026f1d182ed2; 0xeacc0d8fb3241611; 0x5968db65d2d7545a;
  0x7d525846b1121dbe; 0x57949fd7b80339cf; 0x471fe9bec9b66c01; 0x5c270057f1268efa;
  0xce092463083f656e; 0x16e8241cdc862cf9; 0xb7cb2bbcaa06b312; 0x3c25936bd8863416;
  0x19b8ca966c4a3827; 0x1ae43badfd21e63e; 0x1dfd002b95a6ac6a; 0x4708e27f6d98e997;
  0xb5fd6322dc31ac7d; 0x53baf4d9a16dd550; 0x025aa2ea5463960c; 0x5b5b33c7a3cfa54f;
  0xdba287866ee96b90; 0x4748c1f3f3a6dc4f; 0x2333ec05a80c154b; 0x4a47745d5b99fb96;
  0x44955b062a6ecded; 0x7791feea9015f170; 0x736bf603d12fc35a; 0x2632adbca5388026;
  0x956e4c48e1697c4f; 0x4ee9adfe8600e32d; 0xa584042a0da56406; 0x34a3d7f4bf457353;
  0x8d4fd4fe00176fab; 0x15321ee855941f4e; 0x670701ef81f340a4; 0x0c7d7c618aed0ba8;
  0x73283131d9bfd9d6; 0x34935a39e31bac65; 0x466cfbbcaae8b991; 0x250dd54e18478ac6;
  0x659e46c51e40de4f; 0x618ea014fec50e04; 0xfe64d883080b877c; 0x572cabbb6688c4f7;
  0xa2c817493a834146; 0x06cd734876378120; 0xe3de0b717336a849; 0x36942f5191db53c4;
  0xa3f9adf66abf4d88; 0x2a9a144b8087fa96; 0xfe49fefcb78a5b4f; 0x1be40a8616928bab;
  0x07a901975521f7aa; 0x1fc66ea683693510; 0x4dbf0084ba42380e; 0x1f374495b918c737;
  0xb8346956a380a00a; 0x1346f4766fcdaa07; 0xb4db5689d46312c1; 0x775e7f3274dc1316;
  0x07898828f32341c0; 0x144390a33b3e86df; 0x70bc604ce1e9c5e4; 0x127652de00220873;
  0x2874bc669df50d45; 0x236f4585150161f4; 0x3bfa4ffd318214e2; 0x7cc92a6165059745;
  0x2fae0e92090ef72a; 0x26676bd59c4fcc3b; 0x220c030974d1d447; 0x66455887e98686e7;
  0x4164b8e4d8760ddc; 0x5517a86f840feb63; 0xd9b42c6c9371cade; 0x3a7f03ceecc160b9;
  0xdd4086d64cae366c; 0x1b6290c327842533; 0x144efcd2a7a0e82b; 0x16621925ca10d31e;
  0xa9dcd13118e208f1; 0x5a90f97edcb1c54e; 0x80c47331c8749d99; 0x6f061a3569a80b55;
  0x0f6abf619e2a15c5; 0x29106c98122245f4; 0x5860b10985c9b47f; 0x4f379a379e15f410;
  0x2dd6f45df68e1678; 0x2c475167ad9b283c; 0x23b7aa00952a6a3a; 0x5532bc26a40c5365;
  0xa5c0a8be3596ce22; 0x4fa3127a9aefa56f; 0x944e843aa973e67f; 0x3c7727d45ae87854;
  0x48fa2ce675117ea4; 0x7bca8e04ad3bbb9c; 0xd57439e4726f88e5; 0x3337d3a6a03b2286;
  0xb0b6172902005953; 0x514bd76734e6c0a1; 0xf97f8934eed7c6b4; 0x0abe13cee7f1b75e;
  0x6c88107a120e54a7; 0x634f966d7a6e11df; 0x5044c53109b94097; 0x68d49fc65522b73a;
  0x69e295cd8c444666; 0x542c4c5fd999a224; 0x13ff89418b5da76f; 0x7133fa786a87ecb4;
  0x2f180926456402b4; 0x52ddada7931c4dcc; 0x6eaf0d2130c71590; 0x014ec2a2ec231826;
  0xac05b61443b34dd6; 0x157acbfab118b219; 0xe4e2f4b84ad01099; 0x0abf4a4da29a0eb8;
  0x5f852b85b59eab1f; 0x1bd259c4726869ed; 0xce565d9287790a15; 0x17a48442bcf58a00;
  0x01e519522381363b; 0x2336d07a710da07a; 0xcfebf2fbdc714cb2; 0x2f7a51474c23b8a9;
  0x77db2a07d4e3716c; 0x40e8d8d2d0a09806; 0x644363ce6d401ae4; 0x53f9cae0470172fd;
  0x58d96ecd8ddadc53; 0x15028204f3d6d696; 0x6f40a09214439ce2; 0x738c5371236c3e56;
  0x64f87ee7a28bf9fc; 0x4f1899449a810fee; 0xd0aa95f4bf21e376; 0x6170cc24283856bc;
  0x9dfc4927d764ff75; 0x227ea1563fa2e012; 0xaddd3665622ce087; 0x473d3bea07a5285e;
  0xc0b986ee0d2b0eb2; 0x78e584c740dd18ed; 0xd5adbf30a04fd508; 0x1c6aed5ab59bedbb;
  0x25d05fccbddb5ba1; 0x4a58fb6b3f896319; 0xdb2f6343fd8144fa; 0x46a445de6d5b07e5;
  0xf67a06684fe9e1da; 0x57b2515923b15c9f; 0x50439940820a2a0c; 0x62f4b9b26f04dab5;
  0xe79ea601d01b033d; 0x009bc6176f10fffb; 0x333bff2f907ed39a; 0x253d0a9e626dd400;
  0x7a9bbedcfcbef06a; 0x2d1b6a7a5b39342d; 0xbadfb462a124cc9a; 0x2e8cde9d82c15cb0;
  0x7c3f81bcd6f1b2a1; 0x04cb0b8fa4075294; 0xfa36d3db38cbd304; 0x59fef93442883553;
  0x91982a741cb9342e; 0x7b9d63ac17b01982; 0x530b4ec25a293ece; 0x611069ad9fa0f0a4;
  0x7a262a59b656a79d; 0x6fe6f8f4d6d015b0; 0x2c2fd7641a5d4e50; 0x24b0c507058c911c;
  0x834882e492fe45ae; 0x68d0b01b13432761; 0x0eacaaaf94178b8c; 0x123e3a93006d7d01;
  0xecf2fe69377ff33c; 0x4fc960ab4408584b; 0x2adc445b1ee45654; 0x4989681cd1d09a93;
  0x79509599afe9e3b6; 0x7f6ffbbeee861c15; 0x2ed2859fd6391b25; 0x5e8bd52289b6ad27;
  0xc949280adbce7c79; 0x510999e865f0cd54; 0x7f957314ce7d373b; 0x4b2c0ea4bab08ef2;
  0x2d7cc08b5c05a8db; 0x4609a0ea23507697; 0xe204ba35182c55b8; 0x5e4d5903fdef61e6;
  0xfe63842f2826598b; 0x782a3fd3ab62a179; 0xd2f01a1979e5a0f3; 0x0fb4c6bdd637fba2;
  0xfbff4c192020c350; 0x14859008c3d223c0; 0x65ed7a889c1a2e55; 0x1d78daf483fa12cb;
  0x5b54d11b01bc09ca; 0x54fde75737306515; 0x89725231105b63a7; 0x712d1f394adcda99;
  0xb554006ee9abefab; 0x04dd8f7bbd4c5381; 0x98d22b3a31995549; 0x637a53de6b57122f;
  0x8367d69b4c92da63; 0x236f2a9514250df6; 0xb265509af63d7b7c; 0x08522e36bc4b65f8;
  0xabae725012ce8301; 0x493b257197a98ce9; 0x33185838570e5f0a; 0x65f5477ac414eb6c;
  0xd002a36854699753; 0x2be693b4d96efdb3; 0x3b32484119bdc53d; 0x55691ac09a8fae1e;
  0x0249e394514c047f; 0x765674c90b78171f; 0x1166f64638d6ab37; 0x746adba4cb52d18f;
  0x93e293653dda6cda; 0x5d004ed52ebf0b68; 0x65c7c42d0ad96cc2; 0x3350dbe11cafca74;
  0xc638cfa8942fef67; 0x0ff2dfffc5ac1164; 0x9e1b625e649aa471; 0x13a219d03d2eb86d;
  0xdb92859ebaf9f7f9; 0x645c50918f7d5abc; 0x25c10cfe99f7e5c6; 0x13d858b53f90170d;
  0xddb258b13ab1e7a6; 0x4849ff49f4e13fc4; 0x9ef87fa85511cda8; 0x48c50d4d3b4d2f7a;
  0x6c98422c8007c9ac; 0x3fdd72e65a3d3491; 0x56b18cb165b4ec3b; 0x6e2c6df9e3fc3daa;
  0xf6db5aa98ddc97a4; 0x423fd4082f3fb795; 0x42f8f5edf424d0a0; 0x1a091c2696139936;
  0x3161c2bbb3b2d58a; 0x2e8d339eb0fb9099; 0x45ef7d11f6fab685; 0x7f222a068db3da4b;
  0x9af96f9742549a7c; 0x55370df31dcec81c; 0xde98e81b131af02e; 0x58bd0622a474acee;
  0x8ab40fa7ca882e0d; 0x5b4db195655f2410; 0x4754eb479ada77fd; 0x67a8a437d6fc8a7d;
  0x9888254a4f0c9d58; 0x3232ba83bed0c618; 0x587b0de0207b57d9; 0x020df6becb096aa7;
  0xef9e41052a29a8ab; 0x4ae671ee70a15a69; 0x167ce954923ee086; 0x6878c3996c1de887;
  0xb29c711490ac097e; 0x1cf41a9c2577d144; 0x0590796ba46d8d29; 0x1c2e6dc8d4aebb65;
  0xbfb904f8ac9b4cb9; 0x4ea1742c786469e7; 0x5a422f48401be57d; 0x0be0afdc77d6d32f;
  0x5e8765cba2c738d3; 0x7dad0475059a089d; 0x9288ae0c40df7df6; 0x51c65f97715a16d5;
  0xa9615d4c786ff9d4; 0x507ffe03ec0189ef; 0x1c1f46684604e41f; 0x282fe9d567db0efc;
  0xebee7f8381fb8178; 0x5bd4b6045c208d57; 0xf35694743439ed71; 0x7cddd5a373ebc5ec;
  0xa58df33cc68e3b5f; 0x40e6714f5c5c8df3; 0xea881d4bfd489131; 0x6b36400b491c28c1;
  0xd4475cf594b6303b; 0x5b630cddc72e654a; 0xa0b587ad34394ce3; 0x3ea3ba6014f86275;
  0xc3deac125d20eeee; 0x2ef3568410a2b3bb; 0xee6ba3fac5d7ec00; 0x5fabcb3337aaa23c;
  0x6b1212e7b817889a; 0x0b37d285a9be51d1; 0x617ca543d762bf51; 0x0896b4ca694b01d0;
  0xe3add9718277a1fb; 0x553dee7dd4784865; 0x904b8f7e936cf430; 0x5b6a78f20b244b90;
  0xa2b876c2914b9bfa; 0x704de952e9d969f4; 0xb04ea1b54b7e7654; 0x5d307bb3949cf660;
  0xcee4c23ebd049d17; 0x7a88293bb1031063; 0x00b8432b8286f656; 0x260a9c86a16216e5;
  0xd140e6e6629d8686; 0x296011ff5601a000; 0x536f0f76cd9b2928; 0x267409c23a823dd4;
  0x0f041043797f8423; 0x3da6102605962ca9; 0x2e69dfeea02098ea; 0x427e7eeeecd3a0c5;
  0x75efa5e8a590793d; 0x1f5841df6dfdfc91; 0x1aa1e1b8b9f3c326; 0x07bd5b0983fcee91;
  0xd169420be9c48939; 0x7940334f0bb9023d; 0x9bb330fff113764f; 0x674ff1b0cfe246c7;
  0xe2083f8d7129cbab; 0x7e6223e3d9c04904; 0x9be411a7d5e883a3; 0x72642664e7c25590;
  0xbb1f783b5c412322; 0x46716e8fd737280b; 0xfa363eeaeffde271; 0x6c256c131fc2c3b9;
  0x13259abfcb2ce1d8; 0x53b96556e96aa708; 0xfaa7c8d25119da19; 0x05019f438e9f8995;
  0x05e1d55a9424f1ee; 0x63e8e14e6c2f3f09; 0xe9d844e997a10158; 0x51904ed1e94a0ca5;
  0xb09462d4df6bc6cc; 0x2ee5308e62172691; 0x3f8438484547187a; 0x62b92b8d9739ddd4;
  0x3ca54ab5d39f083c; 0x25b3336048a288d4; 0x7cab0fd67e296979; 0x58ba2e783962cbb7;
  0x77808f1a1b8f3515; 0x290c219ee7153bdd; 0x7584441f79128f01; 0x0442db406f5135e3;
  0xe741de52ec030a9d; 0x37469756586776b2; 0xbd64c2a7173adde0; 0x2280b66d20888d0c;
  0xdd1b53cb4adb0fb2; 0x3974964394c445be; 0x53b6a95e7c7fdd97; 0x6eacdc6f50496d95;
  0x178d04c0578a5bb3; 0x0d171a5f5215c9c8; 0xfe0d0171c504962e; 0x04eece54b220495e;
  0xac4d145001db67aa; 0x6577c466962160af; 0xcddae62d99686ad7; 0x7a053a048d230d89;
  0x1ff09aa0e605a880; 0x5d260426f355232f; 0xfbdaf7b0b53aab89; 0x5eef31b9eb0df78c;
  0xfb787e56b7276288; 0x4dcccba87d630d06; 0x415e4a4bc0a44b01; 0x0f0a981f71d8ae33;
  0xe0ebb786f98a1502; 0x0ea4aa3ce70dc628; 0x8d36240617ebe037; 0x2d20c0e1d2002b5b;
  0x336f8aa411a30282; 0x1d87c67d8178ec4c; 0xe468dff8ac26b63b; 0x266086bd7f11c9bc;
  0x05cfeedc80d829f8; 0x146902a029dd3355; 0x413db9327c068394; 0x55fa413791f64c38;
  0xe06395c10021bf9d; 0x18d66268cf79ce45; 0x9e7ae6858dcc21bf; 0x3ad51dbe97b558f7;
  0x06792c747aeef43c; 0x27ec9b782170abb7; 0x6aafca394a23e935; 0x18f7cbd98db64112;
  0x34146ce6b36edbfa; 0x1dcfb4eab7ccea23; 0x68498e1f45b35467; 0x1b20d71a3b71d412;
  0x7a875fc94e602e3e; 0x78c15fa449576c2b; 0xb52326d01ccafe8a; 0x3f53f57324d70666;
  0x3830836e39bcebaa; 0x27a30c73dd02c884; 0x5dfed73dedf2306f; 0x75ee4a8b6cf54f74;
  0x97ecc9c5851a8e3e; 0x496b581690c3df2d; 0xf7bba1fe2d169e7d; 0x4b06184810a77bd3;
  0x40e6d643b903c7bd; 0x3c90f63b5176906d; 0x92f47e1ac51f1ec6; 0x70c2454c53cc0dcf;
  0xb5a75d246c653b4e; 0x7e5173a420a8b0df; 0xcafb44c471d0f4a3; 0x69a3a4e92bbe5977;
  0x26e93183cdfeb424; 0x1e0489b56fa7e130; 0x669befa672fe9979; 0x0f8aea6a7ef65bf9;
  0xff0b883ea96b51ff; 0x31a668763c3c8867; 0x6887a0029701c9be; 0x545644cd70c87d63;
  0x537b6fb7db9410e0; 0x6ca227f10229b3b9; 0xc7d1b4d71ff22468; 0x522058d3b20569f9;
  0x5f4bfd813a51fb62; 0x105b94a3a42424a1; 0x96dfdb685825857b; 0x14d98588154500bf;
  0xb4db83514c7a9404; 0x67aaf998856faf37; 0x1229d7e95dbc821c; 0x7e617a17a2f72bd3;
  0xe964cdba7222695a; 0x677619cc40a07eaf; 0x7f82c099a8df7538; 0x2a219175ec95a1ad;
  0x755ac147b51ff3dc; 0x4a87f652f86823ec; 0x6d8d4a923f50278d; 0x4bb952ac98c0120a;
  0x968c57a6a31e482c; 0x0855a11481fd5653; 0x3f05db6ac608d16d; 0x33f9e5746e1079c6;
  0x1f3458e3ec51f53a; 0x4ae3fc836ceccf81; 0x3c0b2e2db5875ddf; 0x42336a1262cbb5e0;
  0xe3651453cadc3868; 0x25081cfd6e80a2de; 0xd4cb31092872e53a; 0x16ca9349a11a9c37;
  0xb1d3ae440d1cb675; 0x41b2d6ecbccbd6a4; 0x475e6a844c3d0ca1; 0x2cd0e0dedbf07023;
  0x85ad446ddb002a6e; 0x72a06e5419a64609; 0x9e779387e9a3276c; 0x414a8163a9408b10;
  0x25c7b53c1791333e; 0x3ea57190b42cd838; 0xbf20b346b094f121; 0x47570cba99b06c9d;
  0xe6bd01c8746cb5f2; 0x3c0b0b8c4c0968ef; 0xb22009690e243975; 0x251737e4a5643da2;
  0x3cdd49123ab89dea; 0x68748cd1e3cc45a6; 0x563746685effea7b; 0x4e4c5b1c86eb3a29;
  0xe1ba017516d32070; 0x5cdd35a0c4ba93a3; 0xdbc66a0c7de30288; 0x22107156a0f700f1;
  0x0fb69045aac0f647; 0x111dcb9763d08bc0; 0x266db39f6d78cced; 0x02a32587c7033892;
  0x76fc94ce6a2a4b19; 0x474db0f12fcfa96f; 0x0c44584c08377ac7; 0x5f435bf43140f4c0;
  0xb9741c3014eef7a3; 0x54596c23b536ff04; 0xeadf56bb6ea39450; 0x32f24f6e1a656b10;
  0x21422e4dd5f54e3f; 0x0d6ad57853660607; 0xf6f62ffdd0bf9928; 0x72569c930015caa7;
  0xf4293579931b9216; 0x049d6a4057e6827e; 0x6223e20060be0e05; 0x20d91ae969dfa9a4;
  0x02611b345456d47a; 0x601dd413d1bdea0f; 0xe6b017b26bbc9bf8; 0x63399ff3d6542359;
  0xdbdfe225045a9764; 0x10acd93346649beb; 0xc652d5a50e0535ce; 0x49efbd5639c4caf1;
  0x65a5dbd8a304de65; 0x08ddebed0e865be8; 0x5db8337d5e715261; 0x34cf4c75496807e2;
  0xd840c7416e44b56a; 0x10fd30d282d8b151; 0x36ffe6df2c1c9568; 0x66d8a38b6d31a2b1;
  0x01fad3aa61984774; 0x412a9fd87b303d90; 0x2720945ee0f0ec9e; 0x0c91b4c7ea84cf37;
  0x98462f25fd5832f0; 0x6f4cd578c490d842; 0xecc7d24c31ed3342; 0x580ab96994515fd8;
  0x6d8a97ed98465b3e; 0x16995dc010908ae3; 0x50626a4e555b774a; 0x082636e5a8a9b568;
  0xa99435cc4823b413; 0x41fc423d10eff4e7; 0x114236dce6f9f9dd; 0x6c3995c4bbe0aadc;
  0xf3f22c975935753d; 0x6b1b3f27edec2a78; 0xdbadaac32ccc292e; 0x3856036f8a3795aa;
  0x947154caaec01d73; 0x0a22e573e3f0f49b; 0xc50c949f39c184a3; 0x2aadd0868535d0c8;
  0x22bc5bbe5f992446; 0x15d36adfca3ace90; 0x038010e37a6308f9; 0x161b06d8d7180307;
  0xcfbf4e3abef8d056; 0x2a1765fe9c7696ba; 0x6a15d44ce18ef392; 0x5405239c0369de64;
  0x5fabda1210f58e29; 0x40cbb03974b37035; 0xa29fdf2875322520; 0x3b32ace85edac547;
  0x0f0c92b41d679df8; 0x7f07ecd47a7d2f0c; 0xb5fc65c05accc95a; 0x0e8b1da70636f221;
  0xb2ebd131f4e8a846; 0x7df51e4aba57f391; 0xaa2f3d40fef689ed; 0x0ee1e115fde5d582;
  0xf7d025b42e240ae6; 0x29fc1befeb526af2; 0x7c5ffcaff205e565; 0x4cf4d0d8840e2e1e;
  0xb8b00d1810ad0ff6; 0x44d3af686ba915ff; 0x86a8fd1eeea8d08c; 0x3eb300adcf6edc4f;
  0x8db03c266b588186; 0x289d0fd301e96881; 0xba83ba260cccc170; 0x26ee69546ceb0c77;
  0x1109d8bf92c4ea05; 0x033aa036671937d1; 0x4bd9902e5a664a0b; 0x42bd48ed44fdbb71;
  0x7359e19357a9622d; 0x0d6ee92855dae22f; 0xc24debb323643859; 0x4c60fee1e191766e;
  0x3beaec0e99faa328; 0x056c2ae1709c5b0a; 0x7fe89e0c62710909; 0x7e3b5cd3ac4e6ce1;
  0xe9d06486ac7370a4; 0x4b1a8c62e99f9429; 0xb11a50e20bc3197f; 0x75ec513c25dac300;
  0xfb9fd064b1466dca; 0x290379cfce59308c; 0xca3ee3fb7db99943; 0x2af7a3e930faea44;
  0x0d294e6d1505e35b; 0x7d534585181e001f; 0x90285700831d4cfe; 0x419f25105d06c90e;
  0x5f71e79f5f828172; 0x02921e2a43326798; 0xa0981553e84d4a6a; 0x220c82041938573d;
  0xfd2b5b78ef20c927; 0x3c99a2dc611caddb; 0xfb1247fd99ed2828; 0x4b3a3739f724890c;
  0x7775ea2d7d2d1017; 0x3ab07cb5ba8ac987; 0x82e5123a20a6b5c3; 0x44965098aa82161f;
  0x20948c77e9ac4c0c; 0x521e934ab214157d; 0xc8f4f4052dffedab; 0x1da963c2ef46f27f;
  0x3be7631e212fa2e0; 0x0d188e88d1a4184e; 0xb4483ed385de4bae; 0x4ffadfde83d2b0d9;
  0xacebd9a51a938608; 0x40968c0c9302b0e8; 0x85704404d06f3a5d; 0x3e9f477a61a26d37;
  0x1da1efc7cbd18d12; 0x4fb87a47b9f2cb04; 0x7556a45e8b5c8caf; 0x7f6991b7723b35cc;
  0x3fa10a169532635f; 0x15e61b1cd72bd52f; 0xe6b45dc3b4667c21; 0x45cf3bd4bbf39baf;
  0x7343b0636a9d63f9; 0x457551c49ac49567; 0x331e611a3fcec018; 0x7d19e2584756b92d;
  0x78951df174059655; 0x0573cd896a793337; 0xb3e37121fd458870; 0x3cc032b1a1bebc3c;
  0x2571dd06d24d5a41; 0x017382ec4aa29ffa; 0x6cda850c15a224ed; 0x6af59bee2d7586d4;
  0x287d3c4027f80ee9; 0x6aa570b9e51d4f25; 0xf29f327c5e0490d5; 0x00fb62f93f43edfb;
  0x7b06e602dc313277; 0x5d8dc98e723b039e; 0x5bb61813041a589a; 0x2a4c9f13eef7f1ec;
  0x9439edcb4bbaba6f; 0x027f4d494e7784ad; 0x087ae2a2fd6bbc8d; 0x230f37ba41aec2ff;
  0x63876e43daaac09c; 0x28abd7ae6e17dbe3; 0xd354d50cf000982a; 0x1dd774a1273aea75;
  0x243658930d4b0902; 0x0df50723a2da63d7; 0x22bc07b9ac9628c5; 0x134123d68aa939cc;
  0x4e84ee2cf0d450e2; 0x53a8c6dbd4aa9ed1; 0xd06e741c45610565; 0x608da7f96f2f7e19;
  0x59b7fc9fe6a0243c; 0x0da36bb46fd1eb3d; 0x09a11de836914182; 0x3becc1cc0b96f1e4;
  0x820b8a4cad71c17f; 0x2a425dd0204a843c; 0xf6f7fdaae1523c28; 0x5fb74c0c961e6fb1;
  0x0c76e0f72b7845a2; 0x273db117946ce778; 0x7a22d35cdea5934f; 0x73aeeb1b24265d5d;
  0x938a618552e4392d; 0x6050215beb6c1923; 0xf32f6ab781efbf2f; 0x2e4ece5c476e1354;
  0xf2a4a59613812356; 0x555185da018933fd; 0x2fffbf95863bce54; 0x72644f9c3181e7a6;
  0x98c6b1d509e3d624; 0x5bddd5730939d7d0; 0xdd197613d550fbad; 0x7671fafa1facb923;
  0x13dbb61148c5b802; 0x616bc5c73ccdc3bd; 0x0b175b4c46fd8871; 0x498a1eeb000ab870;
  0xa49f1ca2d7802521; 0x6906346cce00be5a; 0xf1bc33c727dd52b0; 0x5d005ff3122fd749;
  0x51318ad5d7c622e7; 0x50f93d6d15e46e82; 0x88dfa2123ffff3b9; 0x3848e6fce3cac6e5;
  0x6cefc31a33ea4f5e; 0x0cc5e7dc4e5e144f; 0xee2009402e59a7e2; 0x257679fdb86f4712;
  0x4cf68953d8b17e83; 0x710f970c16ce2070; 0x4000b8e9e51e6aad; 0x5af48dacd01f24f6;
  0x209679d5d3fcc916; 0x0a3538dd7cbe8232; 0x2d6d7aba44d990d2; 0x46c718f2d4b2c1a6;
  0x9953d799a378233c; 0x4f4e80f4a682e7a0; 0x9912f04acbb77eee; 0x317432079a195b2d;
  0xaccccda6a1c11e3b; 0x3fd895817d0f3be2; 0x016db17673f750ea; 0x635fc619a24009b6;
  0xb8447ab3370da1e7; 0x6c893aa19abf4221; 0x5f35ac703d8508d0; 0x13533d324d4adcb5;
  0x84610370dece8512; 0x2223f126f9a70f4b; 0x18f00d60f3bf6a04; 0x174bd78b20ef8543;
  0xeb179bc6a1698189; 0x732bf44a62015302; 0x98352342bc0e4bc6; 0x053f6640c1549e85;
  0x65eee8b0397c7ce8; 0x790451f39f2fa27b; 0x36ffa0cb286cdb97; 0x46d07cec4c967bf2;
  0x7c849ace30868412; 0x6dee239d339ef499; 0x8ab78548f273e57f; 0x01c5bebd8b7f5ef0;
  0xe440e5f042eae93b; 0x65583f57fe057db6; 0xe6d5d26c24a565c9; 0x6b3b87a0a6ad702f;
  0xd3f5d533117b8e64; 0x4addb9d0da92df89; 0xf1bd51990e0f9bfa; 0x30c624ec1dbcd0a4;
  0xafaf2f00da7023a0; 0x3086e132b54574e4; 0x93bdbd4bfd3dd8c7; 0x690976ee132c892e;
  0x86fc11c79524d198; 0x0f6b95662e02c734; 0x5b78bb385564f568; 0x55c9b3f55d7cd16b;
  0xdf1316434ad1c07f; 0x093d67d3fdf312de; 0xa1fd2257ea57b3d6; 0x4b5b18abe4b54439;
  0x66c28f5b59d796b2; 0x7baffe6e642fdea4; 0xb9d3753265e68ae4; 0x40903bd6dfb02d6f;
  0x357958d4d72d6bc8; 0x179330dea4659dd3; 0x5a9ca85bc8721aef; 0x0209f09e03c9b225;
  0xc0bf2e9738933495; 0x5e0dde4d715e50c5; 0x2743c96b66a6b951; 0x6af96188a0d6d358;
  0xb2f3c72820f2a709; 0x5e9b8fd43327d9a0; 0xf0b13f5324012177; 0x7abdeaf4f741bace;
  0x6f006249351471f7; 0x3204eb91cfe9ed6c; 0xe09af1c83c13afa2; 0x6d70ed88d5de535b;
  0x2078873d1a2faa1f; 0x5c73bedb8d96f3da; 0x41bbb407a3a1ce1d; 0x7a40ec2fb54eea85;
  0xd6d569cb9dd722e3; 0x10acf67805927b6a; 0x27c61d818cc0ea05; 0x57b175c9f59904e2;
  0x4f7b40bc92b5a60d; 0x51431f647b46b89a; 0xcd84dd55cc2a720e; 0x6b36059700809a1c;
  0x78e3e5dd060e9a0f; 0x630c0c1a146c77d4; 0xc9925b0dea8fee2b; 0x4728f0604b16a06d;
  0xb4601050635b2318; 0x2484f7281864709b; 0xbe2ed2a2523211db; 0x6425d4ff23dd3a5b;
  0xf0868c09017aef5e; 0x2733d1e1adc6d5ee; 0xa631db49f17f87e9; 0x36d753ced54d5727;
  0x451d17fb6c4af537; 0x1dcc4d611dd55b04; 0x0bb8de0c8d3e549b; 0x2fb2ca1271592c3d;
  0xd877914ffbc31ced; 0x190809a196504d10; 0x44bdd65a970277e3; 0x13195c678b4b01fa;
  0xe69a41a54f84d41f; 0x61c7c870565e4508; 0xeca2d2fc6f0e1c9b; 0x7f065480e257152a;
  0xfaaa9f7c3a8873b0; 0x43fcdb8db58a324a; 0x969a79026e9da7a2; 0x4eab135af328b9d9;
  0xb38aaafe87f85f7c; 0x69eba4fe1a6b6f32; 0x5607f6c6b4d27cbc; 0x273072bea774f9e7;
  0x3c1149e3c8d51db0; 0x161f8cd433c28bfa; 0x765a61f218fe70da; 0x442b5d405f2036bb;
  0x96f790271c564cc1; 0x3d5dbb33505cc956; 0x621a38b446af395c; 0x2da978b45bb70ce6;
  0x755aca711da49388; 0x46f2e33e55e86df8; 0xfc5b454d5cb7be24; 0x67df47d68d8f6d12;
  0x7a1e224893898aad; 0x0400219c89c2d13e; 0x6c969e4d63d460d9; 0x4df64d5df8b60ad2;
  0x1feed05a45ff89ed; 0x290c4b59e684b4ef; 0x97ffbc3df096adb6; 0x4ac6037e76561c96;
  0x1bc40299115e51b1; 0x7169e0a1d96aa1be; 0x43f55f8b6bac596c; 0x1cc6a0603081a178;
  0x8e1d2db69bc925d0; 0x6ffb86eed51d2931; 0x3ad1eb242e0af1b5; 0x338198152fcd6d7c;
  0xc1f381496df13943; 0x05d9242fe1c60b02; 0x39617510de7eec81; 0x24d8ba5ac76b12b8;
  0x280eb2db9e548483; 0x6c51317b3a8a93f0; 0xb2a9f90939bd1235; 0x2da9de86c39f9aa6;
  0x7f54917103127b97; 0x7be2be5ad3276169; 0xc969d703d31e9da7; 0x0500df3bbb1f8a4e;
  0xea05c77685795917; 0x049575a992d09345; 0xd567f8de2daabe35; 0x383fad35a8e035cb;
  0xb9353eb2bbd43d56; 0x52b3953221860c5a; 0xf9e4bcd46dbec03e; 0x4b0db0b4a7b3279c;
  0x8cc5f6b6e1ff80c0; 0x1bd2ce464b552215; 0xd008eb25b39c4236; 0x3b4ce5bb2f42a9fc;
  0xe1f249681d153d9d; 0x3e022cb14bc4c5b9; 0x8a11d021c8ed5a53; 0x560d3fb258bec495;
  0xf4405852705a6012; 0x5c8bccd2b1b3efd3; 0xd93c0f63ba7ce0c3; 0x337798cb3e93dbba;
  0x7a9f68cf800c8e88; 0x579afe689f3ebcce; 0x7dd41d6cdfbdb4a9; 0x3802410c4e1b274e;
  0x64241d770cf0db02; 0x2f7c8133c74bde23; 0xf3c3fd835ed1952e; 0x741b1d88a3cee37b;
  0x74e1ae644683c68f; 0x0c80dd9e0f7a91e1; 0x3984d741f3e47c24; 0x4b3eb97b6a39d252;
  0x32e9b9410da9a195; 0x11d09fdc04ec3b41; 0xf92fd5e53cddea30; 0x296e095589e0ce05;
  0x4e3200c3a283b696; 0x7e33fbba44ecb32c; 0xed3c039790ad0033; 0x5c8ebb260b5ec084;
  0xa667455bb79d2e9d; 0x12fbec9d4f5bb155; 0x3aa5f6bb4d0d8d49; 0x0ca652ed7065d80b;
  0xb7938753d51c6f83; 0x41644ac1a602f9f2; 0x84223d4d63c38f7d; 0x71057b4b8b931282;
  0xd39fa015165f47b5; 0x7536c8a19c33c201; 0xbe713ca4166c2dad; 0x456c98c2b4198511;
  0x4793f25e1cb44658; 0x1d002f1cfe1a1ba7; 0x9f9ed6e1e1a27957; 0x095dece028426bdb;
  0xe57d3412fc1001d6; 0x481c63a0d9b25e99; 0xc756b6ba0dc02aa5; 0x24af047d79ed4683;
  0xe37ac10133b68275; 0x418b45e570802012; 0x87578def0c3900ce; 0x7c5661923b8c9740;
  0x5f4ab0a6fdda7366; 0x0ac6100825e4eb3c; 0x308528e42c9e4d32; 0x436e5979933ddde8;
  0x0cd6ebe123352222; 0x63d1768a46f33dc7; 0x96cc55dff38c9273; 0x474438da7140411d;
  0xa184b89b81cf6402; 0x6bf820a3aa675050; 0x3bd4720417391f0e; 0x3f2b8f859a8e0cba;
  0xed952561b125da29; 0x07eb1ac74165097d; 0xc3f70d0c7db0a9fd; 0x5ab896a489294a6c;
  0xd4b608975c20018d; 0x6243b039f25d0456; 0xf766e98fc24c7464; 0x20035c09d2291e42;
  0xcc0e5b5eeb462524; 0x24bcba5505f90657; 0x43a98d98e4fa9bf6; 0x3b621ec4188264d4;
  0x633472fe235c812c; 0x31a20844a3316d23; 0x47b80db7d7f5d0bd; 0x22d482f5663780f9;
  0x4df227dc52142020; 0x25076d0624bf137e; 0xcb4a6ee30a657645; 0x0ce469dbb5ada433;
  0xfdb06251f65b9c5b; 0x44f82274a8e8f538; 0x98fa4c81cdec4b97; 0x0ccd61d1abb61d0d;
  0xb9dc371344c5ab54; 0x35dcd9ccf8e5f919; 0x67fc81f369ba5722; 0x121b5aa1af6024da;
  0xe0b1b16b0fb1f1fa; 0x4dc688d6d3b1805b; 0x05c187cf10e40104; 0x71af39c743daacd9;
  0xe691e97f82acf4b3; 0x0c46305b9243bf5b; 0xb063af137fde616b; 0x4e26e72a1de067f6;
  0x61fe66d01a221004; 0x172fe9240cea50b1; 0x4ff50d37b2effefc; 0x06be02ab0b89aa5d;
  0xdd4aab96717af213; 0x32322555b58a7ffc; 0x7812aa965889326d; 0x1bd608f60d6457a4;
  0x2c7b6b44e999e141; 0x113a86a87856a8a8; 0xd95469fc33814855; 0x4a18dc36f6bfd586;
  0x0706b60bdb854fd3; 0x4dc356685650fa90; 0x24ef7cfce41f8dcc; 0x19049c3e632deae8;
  0x5c9a4e28b7138a89; 0x0f0b7dbc1e5087e2; 0xebf49cdc66a362d2; 0x19e4b815e6576c85;
  0x1896051ee3b6063d; 0x09ecc741852a68e4; 0x4009034def986795; 0x36b440ff39b4b5e8;
  0x9bc2647ee28af1cb; 0x62613c9dd152b3a8; 0xc2018ae5dfae5f2d; 0x29ce5ef30009c855;
  0x0b653558b21d2b1c; 0x45e2c505d1f74936; 0x48304373240553d3; 0x0528569885a82310;
  0xa90d402e33924181; 0x5e610edc23cb9555; 0x28890ae7e007d28a; 0x7e5132b6b1ebae37;
  0x0d5252eb7c94cb1b; 0x308ddaea1fdbb672; 0x99fac0b431730534; 0x77d54ed63b9325b9;
  0x4d647bcb76c6ec3f; 0x0e968b22ec2cad86; 0x4b22b5ec30b08a35; 0x3b31df3b52326b5c;
  0xbe84f638dac3105d; 0x7db085f133ecbed3; 0x7a8b694596f2cf2a; 0x67b2e6c15d16e0aa;
  0x4808b20bf173011d; 0x25d5fbbfbe66f864; 0xf67f3f3cd9743987; 0x654250e89617ddf3;
  0xf5a1a7e0ba0a88c0; 0x3616c781799ab50a; 0x2669c27a2d256902; 0x3a8ec380e12fd7dd;
  0xa25361f44a418e30; 0x2942f3001d233645; 0x60f1d3b7535a4133; 0x14deaaa12e5c7bdf;
  0x0089fbece10c8d6f; 0x4bf7c313757c803d; 0x65aa30bfbb70567d; 0x4fed47af409a3fb3;
  0x07557dd875d3daf5; 0x36c49c2380e3c9bb; 0xa21f643d329ae02f; 0x6cf6f7474338bcb0;
  0xb5df78136a0f3012; 0x031fb2df2e00e9d4; 0x4d86fccbe75e79cd; 0x23f890e082d03b7d;
  0x5716a1ffb50a8262; 0x0199b50aa6cf3302; 0x6a1be351f86090d5; 0x36095efc13349364;
  0xffe752be8ce46920; 0x65047a340b652f65; 0x320ee55fd03156a6; 0x5af6aa45278409f6;
  0xa6caf283b1cf3850; 0x4e3a988f61072f96; 0x750f67926b18f680; 0x09fc3f2927d21a4a;
  0x914893c2f2ce1169; 0x4d15b367121b3e75; 0x6cb12559723774f2; 0x3ee5b8c2a70e054a;
  0x7dd9b3518d84d2d7; 0x147d5a5a53f57a58; 0xe1bd0904ad842a05; 0x3a0f3b029c9a5845;
  0x7153c03261410074; 0x4e203d6737058c17; 0xebecf5cb79f28af9; 0x574b889870c279f4;
  0x326317b005f444a4; 0x7480da44b34f4b1e; 0x7c5f21cdc46275b2; 0x210494b9ee24e4e0;
  0x3cbf6ca1f4aa4ead; 0x6bf3872ccbfed940; 0x19e8a84673a566ca; 0x61a80e16990401a2;
  0xea2e029e7f9b3824; 0x5762298465f0ebd3; 0xf60e36d4969f9af0; 0x00b826180531c799;
  0x17120ec95cf3c61d; 0x47196cd6de85c7d0; 0xb0d47cff46a5cba3; 0x29271400d7ede26b;
  0x835908353516b894; 0x4bc57f8c1eedec8e; 0x2ec5deede5c0db5f; 0x7b9fc48ac4a689fb;
  0xf82ce6de88fc10e5; 0x6c5d84a70e03a3d6; 0x88a211fc4ea531f9; 0x7d5583e5918aa03e;
  0xbdf2d70766fb8f39; 0x5926497e734ab18a; 0xd6a9872b800cacb4; 0x757c1cd521fd22d6;
  0x22d50b0c13ec4bc0; 0x288a77d34a15e99a; 0x95c8e78fced3d4eb; 0x45ece109c15be169;
  0x878ef262d0132128; 0x48110e9fd98939d6; 0xe3fc5425d2e7741e; 0x050ca6e71f599c65;
  0xe02f97605d9fe375; 0x2af48b9bfee410e4; 0xfd34a1c107229a54; 0x43dc6f0cdcbd41fe;
  0x15b4eb7d65cc562b; 0x369a7b0dd3e91248; 0x2b087611edd32810; 0x116b234ddce09d7f;
  0xcdb03cae8e90d2b0; 0x4017d51587566038; 0x081793739242b600; 0x5086e8e633cd52a1;
  0xf5ddaee155cb8087; 0x773311b60d59a7e9; 0x36e5aa0acadf2068; 0x7126a4281b192882;
  0x54a10df54f7ecef8; 0x3cd7d2fbb6e33f67; 0xac31eb6c3e740c25; 0x517db54840feb2de;
  0xf17cb269b3ce27a2; 0x04a8fecd1dcc99e7; 0xfc887c1f2f85a2da; 0x280da7425bb55b01;
  0xa1af72f5256a5a53; 0x71da839fc459f465; 0xc203fe7ba6587f71; 0x08a4201f77a4f335;
  0x6cb9ea5683014d96; 0x5da17076b6b51ae2; 0xb55ac168c3e3997f; 0x41b9a32373d78f7a;
  0x96f58033b8600a50; 0x6ebfba3ec9d956cc; 0x0ff8883707d66d0c; 0x2f562b035445226f;
  0x2388fc015bd368c7; 0x2b7d802ce27f627e; 0x301f0369c24083a6; 0x77e139f6da8d5aaa;
  0x9f78574697fce43c; 0x02726c94565421b6; 0x1ad6007338e26585; 0x6134cc5eb35c02ff;
  0x77ae739c9cdcd1e1; 0x04e96543233c7a13; 0x97d3926dcded2e10; 0x6bcdff7e14cebb73;
  0x9c46ae2b32489774; 0x04a97b9a0473af8d; 0xb0350bd910d9784e; 0x448212d3e2164ad7;
  0xf3464e0351f5e995; 0x68ab4d24b3ade8d6; 0x86854d534002af20; 0x613f7ffe5de92aeb;
  0xb385b4f4608a370a; 0x220dccecbc6f2688; 0xc31ec5384abd3680; 0x25a82841a2000fd8;
  0xd19e422504694236; 0x0bc1124d541781f5; 0x0808651edcd99176; 0x41b81f223d429c76;
  0x1a6dcb2662cc80c6; 0x0b101fb0ef0d1f74; 0x6f02aed8f8327119; 0x5b4c5176ccc4a340;
  0x8fcefd200d6ee8ed; 0x0548127287f44749; 0xe1efeca1fadd1341; 0x0e74bc189dc9016c;
  0xe90470353f46cb12; 0x69513d3455bc890c; 0x9503686f1f2497d1; 0x280a0bb7733f1086;
  0x14e5f99930a91dea; 0x7840ad84b03c3878; 0x46e32c654fdbceb1; 0x7e88d2822bb2cecf;
  0x4d78a8aed7f8661d; 0x70eb17416ef40180; 0x97b6f1733c474a10; 0x3d0d27fc4c7084ef;
  0x730f60f6a1ee0d71; 0x7bf6e3885d3d9302; 0xa1e8af33742f1611; 0x73b798ec129822ed;
  0x0f669bb094642a70; 0x142927de789fc4a4; 0x0db18e01fa98cbd7; 0x6ae4d37674be1451;
  0x7175e98f178b4b74; 0x40534e319bc52c6c; 0xb7211d252c4db879; 0x1a7651f8f3ed1aae;
  0x9c9a43932d50cc97; 0x630b232b7201c359; 0x327d77575f5b3839; 0x5f0e19e78431864a;
  0xbfbb00b6530a3bb6; 0x19ba9d60d97f7857; 0x759779de744bd764; 0x5facbe63177791e1;
  0xc74ea511c56a3b61; 0x1d8909e84083c31d; 0xcd20094b507af492; 0x2ef1b9c07c92ab37;
  0x8430ed9ef8494fc9; 0x3f9170e6df5b1fa1; 0x1fb8dbc837175d73; 0x65b961b58008d022;
  0x7e1afb6816864b6f; 0x54c4b92c534871e9; 0xc0a1dcd60d61ef84; 0x4390f0e992c41298;
  0x1e54e2c8b7c27348; 0x7a987e01a2ec308c; 0xee42fbd90c4a89fc; 0x1ed8c77f8d7c609d;
  0x569dedaca99a3346; 0x0eb471e609fef4ed; 0xc915522a3b9fd03c; 0x726453b246746bfb;
  0x4ed3cae53dc5fa4b; 0x1bf1e4b34b9feef6; 0x0850df9f0401fac3; 0x0a58d33cb2422e2f;
  0x3d197f9603ecfc29; 0x45e46edba1cc432e; 0x96c0c93310d9bcaf; 0x18de3a458be2c33f;
  0xc9e65e5bcc12a49a; 0x71a5345f0239b187; 0x53b3b2f01c5710b3; 0x438350f57ce2ec4a;
  0xdbbd368a760391db; 0x4033638dfec29fe2; 0x297ad75ed73117fd; 0x269c08d54b106e8c;
  0xa4e3e4fd238b4218; 0x1f48a1cb09208aaa; 0x9575153115cf5fa7; 0x59feeff0876fb74a;
  0xfdedb4af6f368710; 0x79be1fe79fa674d4; 0x689d6bbb4c707c39; 0x394a451499057bb1;
  0x5887d4fb21fc43b3; 0x37628dfc4b5c23bf; 0xc66b76944b34bd13; 0x6e97f0a8a45bcb36;
  0x3ac6b10139edbbdd; 0x313f4846b6745833; 0xf8758d9777cd9037; 0x02fdc98f02692537;
  0x9e79f381fff833a5; 0x25ac5d68c49b105c; 0x1e9f48a076d8c9ee; 0x788c85c9fe9543b3;
  0x776ea51db3b3b778; 0x0007c44055b64db2; 0x3c392c2a82fddd25; 0x65000203be8ee976;
  0xea119666ab7c50ab; 0x528b2700e8f82d39; 0xc4aaf797118b8282; 0x55e5a7d5382e0d3a;
  0x15a80b22e89f1039; 0x199f68594b1247a0; 0x8d5630750d622435; 0x2687f48cc6def5b2;
  0xa16b0c0259eafaee; 0x7aeb10834e93595a; 0xe31bcf34ce679d9f; 0x4e2c19829eee3c87;
  0xa46869cb8ca35c9d; 0x3cd35313c08504eb; 0xa088eca66e98389c; 0x44c562f0f7262740;
  0xd3eb8a28f447523a; 0x43a0e059bfe37576; 0x0312c5d6d0f2e0ad; 0x5f30aaf0d1614c61;
  0x6f09a7a6e182b0aa; 0x575db3d21a82296b; 0x6599bb5eee7925e6; 0x093f89458dcc2fe3;
  0x70c4af785151fc84; 0x1230c0c519de5480; 0x0e66f8f93075a4f6; 0x5de4a122633a5c6d;
  0xdb99cf83f9ece1b6; 0x1c3acd4a13ded617; 0x4dfe69e68f59c447; 0x482ba1f7715a3c16;
  0xefeed2a7c81ea8fd; 0x4e089eeb713a572f; 0x78bc74acfbdf322b; 0x4b4951ce8eb86fbf;
  0x0eafb6b46ac6714d; 0x72913ed109f7d404; 0xb498bf6fcde9e3a2; 0x3c08a283ef5ded62;
  0x9af09f593a48b346; 0x7ed52441d00d4980; 0xa78e843ee5df44ac; 0x25db12d420a86151;
  0xec840e7e89d049e0; 0x5a34cbe928bf96cc; 0xd875dc5525da882c; 0x2af4442fc256827d;
  0x089fb428c2ef5a5d; 0x0b573ace080a3d9c; 0x6f57282554c240da; 0x425ceda6707b6bc9;
  0x94b5a8c3dde824fb; 0x264f6f6a445b5da9; 0xadf292191c5c1eb7; 0x5e302e82fa4e5533;
  0xf51712fc44237f35; 0x2b0af62c42e56e66; 0x10392cb4d9c71b75; 0x4d7e08fe8457a95b;
  0x210b9eceb04534bf; 0x73329d1c7d88e1e5; 0x667a43fdb4ba79e9; 0x3435ec04276ede87;
  0x38b8540a1a78b098; 0x4f6c266e6793bb78; 0x447ea35172754041; 0x109d7b742d8c3dac;
  0xe3ccab45d2a4f6f7; 0x59040bb73f3bbd2a; 0x730b39d65645bab5; 0x5c61aed2f83382aa;
  0xa992143de3cf83e1; 0x13455cb889b700f9; 0x54648228b310e2f7; 0x5b837752ee0f733a;
  0x3923a6c0e5ea0dd9; 0x5ebebd01fc9ca9a2; 0xa34c205b8fd94258; 0x7d1a10029a0b6cd5;
  0x6c83c02241a46527; 0x4127c85d6be1fc62; 0x26f86ff5ca7240b6; 0x2167391e7dd95cd9;
  0x79227506ac78caef; 0x1a2cf919b8832a0f; 0x07745266405cf574; 0x38095a07f5713ae1;
  0xe5eeab985ca3e7e7; 0x6a5dd9eeb734d639; 0x991027ebe44a4822; 0x311085fb4de9c1f0;
  0x33f361e21066c3b5; 0x550091d2dfc8688f; 0x376345c5532bac13; 0x0aa0898f990931b5;
  0xea2f3346e5d3226e; 0x208790ab78776afc; 0xac7c2ae63433850c; 0x3c5c373ada10ef52;
  0x96c1b4003f4cde6a; 0x4546a9c475c09781; 0x6c961fd3e8536294; 0x43f36e63fc0d5066;
  0x296601d8c42167f4; 0x241c1fc38565471b; 0xdb00a27e11ce9617; 0x60381181b7e7e4ee;
  0xc1076b7635ac4d52; 0x0166010ffb8dda38; 0x5238f69becc43e0b; 0x63303a2015708b17;
  0xe8badb2e5bb22591; 0x3a10a4e218b6131d; 0x236ab01aabf1a7b3; 0x1ce8a51a68a4126f;
  0x59e775e2a2a87928; 0x770b48eb4b738301; 0x0b43c2be176bf79b; 0x1957850fb6424660;
  0x44455ee1ecb0ab2a; 0x620ceaa116eef4f0; 0x0198f62cb6183f6b; 0x3274f78eaf2d55db;
  0xd2ba4e460cf7ed5f; 0x19cfc17bc0b66f43; 0xcbae6f45b1942722; 0x5d93e44739147b58;
  0xd07180b9d28fc597; 0x35372b21b2ea5a46; 0xed2673477f083464; 0x7a9ebeeecc57e6c2;
  0xb51d991a81a6b314; 0x35e7d90f4ed6de58; 0x45f21e209510dd05; 0x446ffd2715c8d380;
  0xe69b5c7a9b6d3e76; 0x1379e79fb96912e6; 0xc161c848bd508738; 0x22264a049d8cfff6;
  0x32321a68ff7ef7b3; 0x57b0e50cc585b333; 0x1c08c65ba9d764e7; 0x5534c793f92f00f5;
  0x7a1ced97eafe6fe4; 0x6b8933739202599c; 0x618c5f8fcadd3ff2; 0x2a8719b3e6548653;
  0x346a9ec5c4200f0c; 0x7a36b8d00d0eda58; 0x844b22b75021accd; 0x769737059fc5e465;
  0xdb1ba69b5019f266; 0x1777242305db9ac1; 0x491d11ad264b6ff3; 0x136198dfc57a3053;
  0x4a6cc64741eb7176; 0x14e811c97fc97650; 0x6b64667f71be386d; 0x3286fcadf019eb5e;
  0x3f2591f4498e10a0; 0x674fa7c32df7867b; 0xbae8ec7ee100dcf2; 0x03b2c0a20a6372a4;
  0x4c8d76b471e24474; 0x421fb6a7b8a3216b; 0xc672bdb2fe8f514d; 0x202af653d9aff3f5;
  0x05e5f80f9626953e; 0x7b721fa3ccd42ffc; 0x99d8e481c0f70479; 0x054c31746d23362b;
  0xfbef2e20430e8025; 0x60e1e3f02e7720c2; 0x161701874eb347e3; 0x363924e90cbb77a6;
  0x180f5ee1863a1a6a; 0x2f79c0046ff79fe2; 0x44679866e35447f0; 0x1c64c6dd73e0d636;
  0x1d8175566341469d; 0x5ba634965b8b9e87; 0x8f48744f976952a5; 0x744f28d23db94c8a;
  0xd15e84b1f232da34; 0x556f3d7aa38bee8c; 0x14693c56e866ef89; 0x1564fb9a0f81eb03;
  0xe97eed56fa2b483f; 0x6d3f7e01aebd1957; 0xae8f128aca3b3e45; 0x3d41e85ba2afd3a9;
  0xe4fe485e4b6d8328; 0x65c49b4c3e98098e; 0xe96a00e054d6e91a; 0x394a2122738cd006;
  0x715cca3dffd90785; 0x7bc3dcde15890965; 0x6dcdc47a33a148ac; 0x435db9d6dbe1bd55;
  0xd74d4d6e0fd89c27; 0x25e727f6a5380553; 0xbe54127ba6c5189a; 0x65c87d3c3e61939c;
  0xc34a6d122a809e2e; 0x7de6b787f097eafa; 0xb8f8b6e701758661; 0x10705fbf97042046;
  0x1591614e6da2d44f; 0x7c74f26ec6eb070f; 0x9ad98c1a50249c60; 0x6e1bbd44d64b2302;
  0x937cee76047790f9; 0x5b4ccbc70beaf690; 0x332e79ae75ae0dae; 0x2e6394161d093556;
  0x4b378bf68f6849f0; 0x6c419fa0cebba72d; 0x8bb431e1e273f2a4; 0x357cec80bbe024fd;
  0x83a6e913962f11a9; 0x7808df02e2523718; 0xb6690b5dabc49e13; 0x6cef23259375972a;
  0xd18ac767b5e551fc; 0x5a0ba1dddb15bd36; 0x6f7923de219e3e1f; 0x3ec23588db9b5cfe;
  0xa4fc23d42c83bbe0; 0x21581a00768658cd; 0xa295b6e57110218e; 0x3e7bbab1d15f477f;
  0x2266c03d3f0d0635; 0x4174f08a95be03b5; 0xaa1a674abb8cbeb8; 0x6bdf6ba553ae3390;
  0x8a31f824638545e2; 0x2a9e37a0f0eede53; 0x148a53d8cba69f65; 0x64c587e816d96316;
  0x777a028a47e97e93; 0x13728e46befb2e0e; 0x13138b44862fa665; 0x0fca8c38a87775f6;
  0xcc44bd580dd067fa; 0x40f2f7642e22d02e; 0xab3ba6db80c2f728; 0x5068aa2e2d25b7f9;
  0x5a8a842c0a2923ff; 0x67c39e8a1006c196; 0x8f5cb9ff55460a84; 0x2e735c20a419a518;
  0x0c6ee3fcbfdc2da4; 0x5bf6ed60a87b92bd; 0x5e4ce130e8e1608f; 0x0932ceb3e50028e8;
  0x793cf8a0538cbfb8; 0x4e89e2c018beb7bd; 0xcaaa79642f5060de; 0x542a38a4d13f0016;
  0xa1b0fd9aac663e55; 0x5158bf1f7b33c0e4; 0x060e82f65a4119fe; 0x32347069a1529fc4;
  0x5c96ef69127480d5; 0x409a902134df6ffe; 0xdbe8c392eb6c7013; 0x73f2c48b0e3b4a79;
  0xddf5060b937e2dff; 0x1534f901278611d9; 0xf47fe29ae4fd49a7; 0x7a2c0bfe75539f29;
  0x19e04d1b2b0fe7fb; 0x56381ebd8181b50e; 0x5c8970c249df4ac3; 0x08acaece8ede7685;
  0xc44f1a71aca0d20b; 0x623edc8d92e4ac3a; 0x5496a7e5885a0c95; 0x20a9ba37315b116e;
  0x3765873809f5b55d; 0x23c44c42ebef2ff5; 0x56a96d921f724573; 0x3217815b72b8a9eb;
  0x2cc1b42f5350a489; 0x31f0b36e85b8c70b; 0x504a5c8c4d2ce34d; 0x1af8ea26b3786eac;
  0x69bc5e26d7afd62f; 0x21e399d04247bf9a; 0x6e6d6676a88efb27; 0x476212b9fe9a6fd4;
  0x0740fb65284168de; 0x5f7570be65e69408; 0x0166c3279dd81c29; 0x6565489007c4ed6d;
  0xbafb5bd37b5219c9; 0x00251709f2e210f7; 0x0d22639b51c1198b; 0x0f3c0df3be3de811;
  0x3552612be3374eef; 0x0834744318ffa0aa; 0xcb9f1c1e3557a00c; 0x20c359f5de8b6614;
  0xd319482a34d05268; 0x42165771b46b75d7; 0xca336c22e8d911a6; 0x4d072f70067a47e1;
  0x9022c6f101555e9e; 0x4c8c7eaf7cc2d697; 0x629810b2d8044817; 0x25110bc01b06c9c1;
  0x1bf9c06bf39eaff7; 0x6cc36f151f52b4e8; 0x76b73a6a14b62068; 0x47dcb0dc89db3821;
  0xfe9dfeac2f670f41; 0x625b5c93b973c417; 0x5f8c917930133c1a; 0x6bd35f3e0992bb2b;
  0x03b5391a85409e5e; 0x7981d8fd16362767; 0xdb45c80a32a23cb6; 0x67356a7ef48b2dc3;
  0x6189236e9f01adaf; 0x07a1e954e5032bd6; 0x53d627199c69727e; 0x25d67e4163cec014;
  0x18e7bb6a63a80738; 0x3112be4cb5dcbc74; 0xad9ad6d381643f04; 0x116112cbeabb734d;
  0x32623abe2d66ff07; 0x4d780300822436de; 0x9bed066c04497808; 0x40db29b39ce86700;
  0x6e5e5eb3805602a5; 0x52f227f2b1b9b40d; 0x51c2c4c197a18394; 0x6d8bca423ee270bc;
  0xd6e60cfe8fb07f72; 0x7dd66c3970f940c6; 0x66aea7b59a0b17cc; 0x75fcf8b00160d729;
  0xbedc5ea39b2402b5; 0x0dc3600425feedd5; 0xadc1ddf2cb1b6631; 0x205ee93e3aae976a;
  0x7a2cb4e333c98498; 0x7d12eb776d56872c; 0x8e339bc1b41599fe; 0x4600f0a53fac9427;
  0x1049d3a372f14304; 0x7b54e020b22db742; 0xd567962272a35739; 0x27a1178b1115f0c4;
  0x6cfb39d619c35e1b; 0x5cb96fd1a9d9d486; 0xaf45cef7fb4fffea; 0x4a73d7b2ba9321d1;
  0x44b46b4a80be86ac; 0x2769b50579e8f734; 0xab5d109e7472f372; 0x2bccfba1cbe995b6;
  0xc00026115332f6a3; 0x7acb287da1561c53; 0x21555c608cd90dd9; 0x7731d1b2878dae13;
  0x32122bf5ec1a0649; 0x592b5fa180ec8467; 0x876be1b5ad9ce66f; 0x484c1cc5bb34819d;
  0x08e4cc425b30b06c; 0x2766065f0e4d22ce; 0xd90825644987aeff; 0x3a835fcc7fc456a6;
  0xf4d801d2cc806d69; 0x41d767ecca55f839; 0xf2dea9fd01f1e74f; 0x74d01b97462211cb;
  0xe43e280ad29f80cc; 0x5cdf66a69029b231; 0xe8d655a03c862cd9; 0x388e38b58d0e8c79;
  0x5d9aaa4848ff83a2; 0x14d6fbee4d6cbe74; 0x0426dcda912109ea; 0x1bb7b9cd75d4b541;
  0x3a3c0504b39b8505; 0x35a3c5882b31367a; 0x678793d635a6473a; 0x66abca7e20202034;
  0x4a90ff1dad300021; 0x18f29036544d2684; 0x2036d39b8f69095d; 0x36490f5645d18cc8;
  0x9414d7368ad3562e; 0x7f8108a04558487e; 0x93db0e56d653e40b; 0x03f413ea960537bb;
  0x984717b77f7267ef; 0x6c5d9da4a5ee7305; 0x725318dc36060a49; 0x274397f8e79a239e;
  0xbda7965b4095bab0; 0x6292b2505c7866e3; 0x451fb6a0672d6733; 0x37c560f40242a859;
  0x151e56eb818f1423; 0x63451986f0c22ee1; 0x9275ff873a5c75e1; 0x178cdc734a32b96a;
  0xff7adbb24244aacc; 0x76518aa0dfd96ddc; 0x161c1c8c81071219; 0x0584d44c10a3e6dc;
  0x2727282a09e9acab; 0x1298e49c34514ebd; 0x0323d059ca1c0e6d; 0x6072c8b87dd26bc6;
  0x36eca2ab28d36f26; 0x2a977cb5aae4ea2a; 0xf157d43a0b9546a7; 0x04d60af0ed661d29;
  0x34bc1080126e4402; 0x7677ef9a21589171; 0xbd13797278f07a40; 0x32c0daf0b57f20ac;
  0xbc83fd1b8366dc2e; 0x6cd07286c4e670ec; 0xf35485a3f339dc8a; 0x6e7e9285f2247e8b;
  0xa9d19d3a09943bae; 0x43fa5197eed852a6; 0xf911398a043242fe; 0x4a100dcb1312cbe9;
  0xbe2fd86be910a692; 0x614fd829368d7937; 0xdb5a98b1a92d578f; 0x46f1d23e1b0dca7e;
  0x8bf4c6725e813f36; 0x68bc89078129ce91; 0xff56503ae28f5c7f; 0x2b6e0f4e42178ce5;
  0xa97cd947ec65895b; 0x7aa90b66280ff6c9; 0xebbaf32df158a0a0; 0x6a748d0ac02bb713;
  0xdf79b5d619e83397; 0x16934947f6485b69; 0xe75185521ab32881; 0x20791e276a7460c9;
  0xd25c403e22c70bc9; 0x0bf079518e66e1d3; 0x45dd5c971d3711de; 0x66bd2c6a30be232c;
  0x607829e5b29e53ca; 0x30ed414e71dc08a2; 0x3fd38589ea0f1d39; 0x5a881a121f37fc5c;
  0x27b9394368987a4f; 0x321fe45e13afae2d; 0xc6feb75080f33ea0; 0x02166d52f45eebbd;
  0x15026a1b0ccd2fc9; 0x1141be93d5bc3d6d; 0xfd20df606fc676c9; 0x4059e26b00ad78c4;
  0x0709b409cec6b505; 0x68f020e8acf478e5; 0x875d77d1f5df0cfc; 0x66eb377735162ff1;
  0x860482ab417a32ae; 0x21175f47da213935; 0xa07ff0cda099ecdb; 0x26ae5f177ae2b8e7;
  0xa9a070ea5120eaf7; 0x2581feeba7383f81; 0x49e0f137f1fa2a7a; 0x7fe93c51cfd1ec62;
  0x2d74dbdca7777f7e; 0x562da2ba74e823ff; 0x543b4f8609d77a2e; 0x3a0f65212f234ec8;
  0xf842e3fea270ebc6; 0x4524322c6a289e11; 0x80815887aa6a8576; 0x46f49d53c3fe29a3;
  0xbcc93cedfdb0d388; 0x4db312076ef0ad2b; 0x1f2cd56373654ad9; 0x4c6446970034d15f;
  0x34d2cdbfd5d7130c; 0x6198950d03db2ae5; 0x736094b72faf1b1a; 0x1f6ca46a9f2588f7;
  0xcba0b03d6259772a; 0x24e5a23d8d6be3a8; 0x7090e340c94f6d6f; 0x287ba27ee54e8466;
  0x87320c8822d607f0; 0x44fd5802509df171; 0xf35c09860bf6ba4a; 0x6cf53130ef77cc0a;
  0xaa81167a00b48ce4; 0x649f4c775b0d8b48; 0x59a25683ee98d33d; 0x651479007d1061a6;
  0x155487411f6e16da; 0x411d036475404bf2; 0xc231f1344162458a; 0x4f36b7633f7dd368;
  0xa98ddc0a4e7a89a4; 0x55d8a5da6eacd542; 0x5c3fb48b1001ed45; 0x5c7785ccafa702b9;
  0xa64369fd216afb79; 0x1f405ef10e940669; 0x755f4831bc327b6f; 0x2bc1b67d71f1882d;
  0x8eab15cfed7777d0; 0x517370d580d99326; 0x0811b75701c9db39; 0x234d84cb52f7b621;
  0x970c4fbddddae49c; 0x3ba8d842475e41e1; 0xb0720f6ad75e7008; 0x275cd5c5184bf345;
  0x5eb9833888d3796a; 0x1b3a42dfde11c2f3; 0x946548fe092b5f4d; 0x119917b50f263cc9;
  0x622de955a20a3f82; 0x6a552ea3a60c7ff4; 0xc79230138150372a; 0x18083b9518de76a7;
  0x55fb74dd7d3b5455; 0x523eea9a70ff8334; 0x5994a7335e356271; 0x3bb011f60430f1d2;
  0x1ec434cba1d6ea7c; 0x69b632960feb5780; 0x46c50417541ebf07; 0x01470bfbf9d23830;
  0xe9551f4c049bc5cc; 0x1c124638f35ee8ed; 0x09ca3a9141e83a38; 0x44daaf3e7411127b;
  0x0e54717b6c2fcd10; 0x518ab46b26d5914b; 0x528ac6c82341e833; 0x2247fa99d41f4672;
  0xabe30c65c0f327a2; 0x3ac74e012b77e1b4; 0x35defd694c0e86b3; 0x7c382e10bfe60e4e;
  0xf37e382996b8461c; 0x4d47481c53631e1a; 0xac8f167884f7b7b1; 0x5ae1bb6ab1a4c643;
  0x63eb02590829df80; 0x623126862a793fa1; 0x6e1e242f1ce09807; 0x7bf96130aaecfd2b;
  0xedc5e9ea10bff70a; 0x66b548233b94d26e; 0x70c70ee4594d30ab; 0x79b0006c8811353e;
  0x4352792c91710c1f; 0x0c7bf15181a9f539; 0xfc995ee769e3779c; 0x44871c6cb9dcedcd;
  0x0d180bbf2c9a046b; 0x5445c598c45d0cd9; 0xdefb32386875fb94; 0x5b0d235355660f35;
  0xbe1dea825b3a7973; 0x10658ec4e1bbe147; 0x48af5e87fad77504; 0x55f5d3c94a7dd694;
  0xa9a3e7062cad6ba2; 0x36c0a7e3f9e0ea31; 0xc4bd65217010aebc; 0x1d031dfc8b9fb598;
  0xe3621c104113889e; 0x774b77ee1e6a6477; 0x124c5b8a07785fd7; 0x5a6c0df18188cada;
  0xf4adcd545e72d7be; 0x38100fffb66ba966; 0x2100cbe35fe4a4d0; 0x4489be2df052c175;
  0xa03a22403b26899f; 0x5ae4a0a0fec13928; 0x89dfbfb802795eaa; 0x34917e9c4ecf2532;
  0x64b93674c60cbbb3; 0x25c098506334c71d; 0x8a723f66f1ee34e1; 0x3a960adf48f141e4;
  0x659f386695e440bb; 0x577a0fbf6e8095e6; 0x8ef419b0f4b25496; 0x044176a30b9e465b;
  0x7a98705df2013e6f; 0x77d0b2483aa95ce7; 0x309e917b978effd7; 0x08f1e55bfe942c7f;
  0xfc241629b8d613c8; 0x140f2e35cd68949f; 0x38899f6a3ee4f9fa; 0x7abc8ecdd300f3b5;
  0xd3dad23505d23eaf; 0x75e73f09376b2c7c; 0x5644a663b60ec5c4; 0x511ade8afe1eaec9;
  0xbb005fe4e1abca89; 0x2838de73b0ca1f6c; 0x800a6658b80d28c8; 0x48aaba61c91641ec;
  0x222759cab704d4e2; 0x106dd3c0ce85beca; 0xa1ce1ce341f69d03; 0x1651b210e8e4ee10;
  0x47329a5e7133e136; 0x58c02f47dc9367b9; 0x09dcba56947b02af; 0x435c251178125b48;
  0xd56979a3f0cd9315; 0x2f02b0a6422afddb; 0x23920f500731f32d; 0x0ab833238232cb5d;
  0xa7b3d1bfb0bb60db; 0x2342c2a03c6eaec2; 0xac5e6e5a14d5282e; 0x5b9a421ddc42a24b;
  0x018506414543e056; 0x6d7c377c084954e6; 0x4f8bf71ed3db1ced; 0x5150dbc15ab10979;
  0x00b50a1b373a7fbf; 0x140be5c3d3244705; 0x5005bfe96e5b7911; 0x77cea555bb133f3e;
  0x2ab1e1a9d7a973c6; 0x3897ac98314968d3; 0x9e0f74764b23c9c3; 0x2e5ecbbae41997cd;
  0x43e2ea5648f12433; 0x3a515a0e4808e69c; 0x17d36c03c36bb343; 0x44cebd053481ce43;
  0x89008656c21b0d76; 0x2f8513fcb9009be6; 0x2e223f90208a0e83; 0x3828c2d4efd36a73;
  0xbf17d64f89a8527d; 0x59ebb42b9656151d; 0x7d7bc7245c7dc5ef; 0x191b682a0cb695ec;
  0x8931172fad9f9add; 0x239b6cbbab2ebdcf; 0x76932f9ca7002dd1; 0x0c140548f858d8b5;
  0x6c7adfddcf741ea5; 0x3b39c4b9e2e1a567; 0xc5135a25f87436fe; 0x690d8fecb7dd0ae0;
  0xd782a618ecda10c2; 0x4f2a84b3134cf832; 0x35a81f71bbc955a4; 0x457f88ed64ae6398;
  0xc27eb71c31479985; 0x4ae91808569aab32; 0xa5f2e9785a75eb11; 0x619cb199b837ed36;
  0x0e7e5912b9484e40; 0x3b5831e87fdbcaf0; 0x49a2779c2d2b039d; 0x3d4b81e07f49061a;
  0xaa119b0fa222b55c; 0x265c1b11b42fd4e2; 0x6b4d28e519dd7637; 0x3d2da7900de5a4b2;
  0x99b06586b5f21d63; 0x4ce62bd9e6a1ee18; 0xb671e753932f8c92; 0x390b7821d0987834;
  0x1adf7c73c3f1fc2f; 0x78c636a8514a7af9; 0xaee3b35fe11e7533; 0x7fbd199278f6ffd7;
  0x41aabbf4363d77de; 0x1b27fdf18b96bf6a; 0xda264a1dff9a981c; 0x36efc08530c0bf9a;
  0x5bd8862a5d830854; 0x23d7c905e656e6cb; 0x4523324c5b64fdcf; 0x36627f376238665f;
  0x564f53925c6d5ea4; 0x17c7cc86a1913022; 0xf90db52a543b009b; 0x15192dc91f8b994b;
  0x80bfa3c1a79ec6e2; 0x48fca8ea99772ecc; 0xfee6a3b98c0f1824; 0x46a8c75601b81e22;
  0x2cb3c402a8895fcc; 0x1d1dff9c04305ce2; 0xc1aefe78e85971d7; 0x79c6a083ab5a80b2;
  0x379c7bca5dbf2518; 0x2419358989b3ca02; 0xc9c42c9cfa5f470e; 0x4481c2ce91b14459;
  0x6b04dea1ea26deca; 0x26ee3ceee0d0a101; 0xe36cc6bcd8fa4f26; 0x4d14709719764fbd;
  0xe0572a706f1fef52; 0x0f75fb69a23f2ec1; 0x32ae4b04a864cf3b; 0x0b6373a91b944773;
  0x1a8f2bc20bd088af; 0x586b0d5ace401747; 0xa0e6b094a3c51433; 0x1752a123c268c1c7;
  0x643c2a93b5770ea1; 0x536cb9d1b71eeb43; 0x6bfb0525d0cc6b3f; 0x1f4dcfeec3adefc3;
  0x28a0169dd0bf57f0; 0x1336c9aa20a35449; 0xbbcda068703ad7a1; 0x5e33478283c1e03d;
  0xf1997733d18fdaf2; 0x789af507a17bb867; 0x79970c14d5695613; 0x79452342e845256f;
  0x6c12f9367a26a018; 0x11beda1c8f9cdfbe; 0x720e6ddf24b30929; 0x7706e91e3e544755;
  0x4460381d3a6c9059; 0x7e01916c3678c424; 0x6024355a61d2bb07; 0x68bae01d79c869e2;
  0xf21cbcff285df659; 0x02f7ee6aeb57c933; 0xce0f078c17266467; 0x039b4fdb5170a103;
  0xd5de0fec61a4ae1b; 0x33d37a152a778695; 0xea64e40e6a10ded9; 0x1f1d394373bdb213;
  0xf63598b6ef59fd14; 0x57922adc3ae52283; 0xe39a90e18b76f4a1; 0x27f3dbebd98a9dae;
  0x18179dd9c03804b3; 0x511d72c1912e2d73; 0x88e1f6d24b2f3225; 0x56009999cdc2997f;
  0xda6df977b7d82fe4; 0x76f746bba63da226; 0x0b5facfc3bf13bd7; 0x4a31eb04f66f0e18;
  0x8ace73d5e7cfe28f; 0x19aa731bc30c20b1; 0xa91979fe73400317; 0x6795ce71a09c7c9f;
  0x93d55501933700ba; 0x3850eaf08b1fd14d; 0x450c5abc89edca71; 0x1be5db848bdfa5ef;
  0x77667d3f4fcf082b; 0x673b6e6c4824bc45; 0x6f22c12a5fe0ed6d; 0x006ee6722b5dfed1;
  0xb47a13c1468d0c62; 0x40564879a378e6e4; 0x0bc6b553a9d3ab58; 0x21761c79e44dfcfd;
  0x66f36ed3eb1050fb; 0x2e67df1312dd01d3; 0x48744c4a68dbf2ad; 0x7844962b6d6e039c;
  0xe07b5675d378b65f; 0x336262aa3d2c1df0; 0x320a5667d78c2e2b; 0x4f668dd96dda5e2a;
  0xe21556795c7b8470; 0x3061905b2ef82bb1; 0xaee53211472206b6; 0x1f87377fee0d7a39;
  0xdac58c52a3b1a0c7; 0x6e3c4ce04f0d7ffd; 0xfdffec45d4a3990f; 0x4b5340f79e2ae2c2;
  0x0537c8b7b3d1f332; 0x55292744ae35ee1a; 0x42336d0e6d057f1e; 0x5ac40e9e645cb3d7;
  0x848f7b7f845e46c7; 0x74bda86736eff150; 0x891acf622baf4f35; 0x14bcef9cf39667bb;
  0x9aa1354d9731b9b3; 0x27e855a19295e59f; 0x1a829a8e10662ed0; 0x3bbc43f9ec4437a7;
  0x8bfa8b1cb1de5341; 0x3432778068d35549; 0xe3d807da41f25a48; 0x1bb6ee1ce2efe552;
  0x08d9bded0bd3affc; 0x290f1c5299a917a8; 0xda8dfd79562f8939; 0x1bf7aae68686211f;
  0x2ab6daf9bc860765; 0x7bef6e2f0eb58a0b; 0x8746faab7c439b94; 0x017ea87750bb8bda;
  0xf8dfeb22239c9a7c; 0x35cec0d2887b3a13; 0x68aa94ac601f1606; 0x7470553f8ba61767;
  0x37894f91c9eac410; 0x55b22aeb8337f732; 0x53f8d90f29a2fe94; 0x0aec068aec69023a;
  0x40506162ad6182ee; 0x6a327ff1ac1e5475; 0x968d7095492df3c8; 0x3f93f46195f67521;
  0x4983bca28970d546; 0x2716b931296b53c2; 0xf42b013266b6f8b3; 0x76f29b084b6a369f;
  0x8e28749222216249; 0x4f2fa1d3a6c1acfd; 0x0ee66697eab8f954; 0x37c33e28fec0cce5;
  0x7d0419e2bafd1dd1; 0x01f04d4299b94daa; 0x5ec06abbc1e5c7e6; 0x3a24c66060ed72a9;
  0x0db764e15f960f26; 0x1d5973d5d59f9c3a; 0xf3dc2608dc6d9149; 0x1d80e0461b72f518;
  0x2264dccd49c8b09c; 0x1f03e7a246334d5e; 0x2d6e38871b1fc2ad; 0x418588ae4f284bd3;
  0x3efb071bafe1afa2; 0x0799ba0c80bdd8dc; 0xa6b273222dcc4a76; 0x13859f08ac8a4b23;
  0x0194acc2663c5acb; 0x459fa55bd0bbedf6; 0x1b055550f06f8cc1; 0x09e5fad46599ea75;
  0x6b3916ef772958a3; 0x4aaaa5c18093a431; 0x8e1503e36610f594; 0x620ef55048a263b9;
  0x5a28963c8cb8ecbc; 0x6aee46b1b740c15a; 0x67e39606f59cfea9; 0x13a579e3777ca8b1;
  0x45ad92f61cbb8de3; 0x53068a1a42460eab; 0x9b163546de379578; 0x07bf38a7cecd4860;
  0xf84c77031d282de1; 0x402aed6399f78ffc; 0xfb83dd20295f6d45; 0x3702e257340d2ecd;
  0xb8db2d8b979b97c8; 0x617526d2a50b0c51; 0xd86f6278313017db; 0x2f35eedec55f9d92;
  0xeecb69493517973b; 0x7a111a74e0baf09a; 0xb82c6da8ec39f63d; 0x4217076312833746;
  0x5d36d11f3dda88d9; 0x7baebcb360f2a887; 0x9829b62d093d6cbb; 0x10f17a2f6edf28fd;
  0xfe3efa4353f40626; 0x731ca3065c118e34; 0x6185678827960895; 0x07f906a4f4c6355c;
  0x361d9cd10e657142; 0x2b5f5d452dd861ce; 0xa3e01df05d04b69a; 0x533723bc4cfcc0db;
  0x820384afa1bbccb5; 0x4e67e941595d8dfd; 0x0f8da50839e13646; 0x6887a0573a596968;
  0xe93dd1df5ace7343; 0x0d4076f28ecf96c8; 0x0ba2f854988074c1; 0x5eb2a314a41a40b6;
  0x49ff6d27a676b27e; 0x15f7ca40acd5114e; 0xc171f9a750d7da95; 0x3bedbe891f79eb5c;
  0x5b643bceb83f74ff; 0x088b1af3aa331a4c; 0xde294c7e0a60c4a9; 0x0a0770fc8120b151;
  0xf09b757a0c7c1937; 0x34b797c03efd9c88; 0x051e3edb2c28cc49; 0x66db34ec5ac5122c;
  0x95fde0d3d3dc8cbf; 0x797897c8121818cf; 0x1fd46d197710f89d; 0x533a505803f809c5;
  0xb60f1c090c9fd211; 0x4a7c3479af5c9d82; 0x4bfc3ffa4c8cf5a5; 0x6949f4a61306821f;
  0xd814c949c67abcdc; 0x419a5e33166863c4; 0x9de646f6bd0895e0; 0x497cc1449a54545a;
  0x69eb31247fe126f2; 0x323c83233967f477; 0x52e0db4d3d78127d; 0x42a0e188e7b9380c;
  0x3a6b011c46e34e7e; 0x79f4168aa9a0b4aa; 0x94270a25d708fa4d; 0x2bb28618cbc9cdc8;
  0x741e46bb04606819; 0x02790c52fb2ce982; 0x6dbb92d0c6d0af10; 0x32aa96ae061e9412;
  0x1376700c90d98eaa; 0x4d1dfe650c0a7136; 0xb397f8eef89aff20; 0x4836ac4a041bae37;
  0xf37c1076a80a02b8; 0x0d063fa2467b3a37; 0x498f2617b56b7e7b; 0x65ef1194db859a5d;
  0xd1fe25d5d28ffcb6; 0x228ee6f49459c083; 0x6b7e82b3b009b15b; 0x713b185ef1fccbfc;
  0x552468f1ff60c298; 0x2b7ba65d02519614; 0x8a86ad90ff0816c2; 0x7bf9249284bd02e5;
  0x3008c56e474c2d10; 0x171473b77f804540; 0x15fb79d07bdea766; 0x66ac67c7b9b0951f;
  0x34bca15bb6d2f652; 0x13c63dd2687d617b; 0xc515ae237715c19c; 0x0e543c6765fbfef2;
  0x668c80faf156fb5e; 0x1e2e9e3b3d9962b8; 0x89ebaa264394e113; 0x322add21cf1659cf;
  0xf9e6e26733619f8e; 0x723bfc8b792147f0; 0x79aef2837d7e092f; 0x1aa61c59290b5011;
  0x9955ae576a499cd3; 0x2c3d6e6a5a1ce0da; 0xb864cfa199a8676b; 0x4961a21f1080285f;
  0x828e184adf9d997b; 0x0c84bda97e7ce725; 0xe6974677094cfcc5; 0x4ec8cd773946105b;
  0xa48681bcc95fb5c6; 0x6ade87f8f7a5f269; 0x9b97628fdd39c03d; 0x3bde0ee1f19f1842;
  0x4ef8c8fb117c0ca1; 0x769bf8f8d07de9bf; 0xc8f5f435b78a57e5; 0x79987aa861bbcf9c;
  0x7f6c557204b02022; 0x119bd819111c69d1; 0xf0c61ef00b3eb70b; 0x4317f0511bfb7b39;
  0x36a2b944e84d608e; 0x1c1a3862da3369cb; 0x37dbf471085f1775; 0x3835751e107419ad;
  0x04ab0c84bb07a3fe; 0x63758bfbc7df13a0; 0x15ffd20cb554f23e; 0x1ff11c442b1515b7;
  0x171377f1bf937186; 0x615efe82b83538f8; 0x321e7cfae352a761; 0x7af02427d7241502;
  0x86546e47f2cc559f; 0x65a1d8a017659d75; 0xc95d8aa5b8bfdac9; 0x01e887cb68990623;
  0xf1f8ee8c466bcc3d; 0x40ce5e4f2ba3908f; 0xd2b81a3480c16b35; 0x51625d3eabf708cd;
  0x44d770a210105739; 0x7f1de74a022958a0; 0xfbe4c91bd1e8f732; 0x204fbacb13586460;
  0x97d79097d62e3cf8; 0x541ad5591934b114; 0xfdfb47919c141909; 0x354926e5244fdecf;
  0x6291b0a0e2e994b0; 0x2b9a9a69d3a6c3d1; 0x8189be54302371e7; 0x3645c65df1a881cd;
  0xdf0460f445e3877b; 0x7ea384dc52d0d26e; 0x0c2e5f768d46b6b0; 0x1f6e62daa7c5d4e6;
  0xf8b026b33b2343ee; 0x2b7183c8767d372c; 0xbd45d1b6b6731517; 0x4ddb3d287c470d60;
  0x1031dba40263ece2; 0x4e737fa0d659045f; 0x8cbc98d07d09b455; 0x34a35128a2bcb7f5
].

(** Point [i] of a table of precomputed points, 12 words per point. *)
Definition table_point (tbl : list Z) (i : nat) : point_precomp_t :=
  let w k := nth (12 * i + k) tbl 0 in
  mk_precomp (f2_of_words (w 0%nat) (w 1%nat) (w 2%nat) (w 3%nat))
             (f2_of_words (w 4%nat) (w 5%nat) (w 6%nat) (w 7%nat))
             (f2_of_words (w 8%nat) (w 9%nat) (w 10%nat) (w 11%nat)).

Definition table_lookup_fixed_base (digit : Z) (sign : Z) : point_precomp_t :=
  let T := table_point FIXED_BASE_TABLE (Z.to_nat digit) in
  if negb (sign =? 0) then
    let '((t00, t01), (t10, t11)) := p_t2 T in
    mk_precomp (p_yx T) (p_xy T)
      ((not64 t00, u64 (0x7FFFFFFFFFFFFFFF - t01)),
       (not64 t10, u64 (0x7FFFFFFFFFFFFFFF - t11)))
  else mk_precomp (p_xy T) (p_yx T) (p_t2 T).

(** ** Endomorphisms *)

Definition ecc_tau (P : point_extproj_t) : point_extproj_t :=
  let Px := e_x P in
  let Py := e_y P in
  let Pz := e_z P in
  let Pta := e_ta P in
  let Ptb := e_tb P in
  let t0 := fp2sqr1271 Px in
  let t1 := fp2sqr1271 Py in
  let Px := fp2mul1271 Px Py in
  let Py := fp2sqr1271 Pz in
  let Pz := fp2add1271 t0 t1 in
  let t0 := fp2sub1271 t1 t0 in
  let Py := fp2add1271 Py Py in
  let Px := fp2mul1271 Px t0 in
  let Py := fp2sub1271 Py t0 in
  let Px := fp2mul1271 Px ctau1 in
  let Py := fp2mul1271 Py Pz in
  let Pz := fp2mul1271 Pz t0 in
  mk_extproj Px Py Pz Pta Ptb.

Definition ecc_tau_dual (P : point_extproj_t) : point_extproj_t :=
  let Px := e_x P in
  let Py := e_y P in
  let Pz := e_z P in
  let Pta := e_ta P in
  let Ptb := e_tb P in
  let t0 := fp2sqr1271 Px in
  let Pta := fp2sqr1271 Pz in
  let t1 := fp2sqr1271 Py in
  let Pz := fp2add1271 Pta Pta in
  let Pta := fp2sub1271 t1 t0 in
  let t0 := fp2add1271 t0 t1 in
  let Px := fp2mul1271 Px Py in
  let Pz := fp2sub1271 Pz Pta in
  let Ptb := fp2mul1271 Px ctaudual1 in
  let Py := fp2mul1271 Pz Pta in
  let Px := fp2mul1271 Ptb t0 in
  let Pz := fp2mul1271 Pz t0 in
  mk_extproj Px Py Pz Pta Ptb.

Definition ecc_delphidel (P : point_extproj_t) : point_extproj_t :=
  let Px := e_x P in
  let Py := e_y P in
  let Pz := e_z P in
  let Pta := e_ta P in
  let Ptb := e_tb P in
  let t4 := fp2sqr1271 Pz in
  let t3 := fp2mul1271 Py Pz in
  let t0 := fp2mul1271 t4 cphi4 in
  let t2 := fp2sqr1271 Py in
  let t0 := fp2add1271 t0 t2 in
  let t1 := fp2mul1271 t3 cphi3 in
  let t5 := fp2sub1271 t0 t1 in
  let t0 := fp2add1271 t0 t1 in
  let t0 := fp2mul1271 t0 Pz in
  let t1 := fp2mul1271 t3 cphi1 in
  let t0 := fp2mul1271 t0 t5 in
  let t5 := fp2mul1271 t4 cphi2 in
  let t5 := fp2add1271 t2 t5 in
  let t6 := fp2sub1271 t1 t5 in
  let t1 := fp2add1271 t1 t5 in
  let t6 := fp2mul1271 t6 t1 in
  let t6 := fp2mul1271 t6 cphi0 in
  let Px := fp2mul1271 Px t6 in
  let t6 := fp2sqr1271 t2 in
  let t2 := fp2sqr1271 t3 in
  let t3 := fp2sqr1271 t4 in
  let t1 := fp2mul1271 t2 cphi8 in
  let t5 := fp2mul1271 t3 cphi9 in
  let t1 := fp2add1271 t1 t6 in
  let t2 := fp2mul1271 t2 cphi6 in
  let t3 := fp2mul1271 t3 cphi7 in
  let t1 := fp2add1271 t1 t5 in
  let t2 := fp2add1271 t2 t3 in
  let t1 := fp2mul1271 t1 Py in
  let Py := fp2add1271 t6 t2 in
  let Px := fp2mul1271 Px t1 in
  let Py := fp2mul1271 Py cphi5 in
  let Px := (fst Px, fpneg1271 (snd Px)) in
  let Py := fp2mul1271 Py Pz in
  let Pz := fp2mul1271 t0 t1 in
  let Py := fp2mul1271 Py t0 in
  let Pz := (fst Pz, fpneg1271 (snd Pz)) in
  let Py := (fst Py, fpneg1271 (snd Py)) in
  mk_extproj Px Py Pz Pta Ptb.

Definition ecc_delpsidel (P : point_extproj_t) : point_extproj_t :=
  let Px := e_x P in
  let Py := e_y P in
  let Pz := e_z P in
  let Pta := e_ta P in
  let Ptb := e_tb P in
  let Px := (fst Px, fpneg1271 (snd Px)) in
  let Pz := (fst Pz, fpneg1271 (snd Pz)) in
  let Py := (fst Py, fpneg1271 (snd Py)) in
  let t2 := fp2sqr1271 Pz in
  let t0 := fp2sqr1271 Px in
  let Px := fp2mul1271 Px t2 in
  let Pz := fp2mul1271 t2 cpsi2 in
  let t1 := fp2mul1271 t2 cpsi3 in
  let t2 := fp2mul1271 t2 cpsi4 in
  let Pz := fp2add1271 t0 Pz in
  let t2 := fp2add1271 t0 t2 in
  let t1 := fp2add1271 t0 t1 in
  let t2 := fp2neg1271 t2 in
  let Pz := fp2mul1271 Pz Py in
  let Px := fp2mul1271 Px t2 in
  let Py := fp2mul1271 t1 Pz in
  let Px := fp2mul1271 Px cpsi1 in
  let Pz := fp2mul1271 Pz t2 in
  mk_extproj Px Py Pz Pta Ptb.

Definition ecc_psi (P : point_extproj_t) : point_extproj_t :=
  ecc_tau_dual (ecc_delpsidel (ecc_tau P)).

Definition ecc_phi (P : point_extproj_t) : point_extproj_t :=
  ecc_tau_dual (ecc_delphidel (ecc_tau P)).

Definition eccneg_extproj_precomp (P : point_extproj_precomp_t)
  : point_extproj_precomp_t :=
  mk_extproj_precomp (ep_yx P) (ep_xy P) (ep_z2 P) (fp2neg1271 (ep_t2 P)).

Definition eccneg_precomp (P : point_precomp_t) : point_precomp_t :=
  mk_precomp (p_yx P) (p_xy P) (fp2neg1271 (p_t2 P)).

(** ** Fixed-base scalar multiplication *)

(** Shift of a four-word scalar to the right by one bit. *)
Definition scalar_shr1 (s : scalar_t) : scalar_t :=
  [__shiftright128 (sw s 0) (sw s 1) 1;
   __shiftright128 (sw s 1) (sw s 2) 1;
   __shiftright128 (sw s 2) (sw s 3) 1;
   shr64 (sw s 3) 1].

(** Reduction of an integer to [unsigned int]. *)
Definition u32 (z : Z) : Z := Z.land z 0xFFFFFFFF.

(** The "sign" row: digits 0 .. 48. *)
Fixpoint sign_digits (n : nat) (scalar : scalar_t) : list Z * scalar_t :=
  match n with
  | O => ([], scalar)
  | S n' =>
    let d := u32 (u64 (Z.land (sw scalar 0) 1 - 1)) in
    let '(ds, scalar) := sign_digits n' (scalar_shr1 scalar) in
    (d :: ds, scalar)
  end.

(** Digits 50 .. 249; [digits] holds the digits written so far. *)
Fixpoint value_digits (n : nat) (i : nat) (digits : list Z) (scalar : scalar_t)
  : list Z :=
  match n with
  | O => digits
  | S n' =>
    let di := u32 (Z.land (sw scalar 0) 1) in
    let scalar := scalar_shr1 scalar in
    let temp := Z.land (u32 (0 - nth (i - (i / 50) * 50) digits 0)) di in
    let s0 := u64 (sw scalar 0 + temp) in
    let carry := if negb (s0 =? 0) then 0 else Z.land temp 1 in
    let s1 := u64 (sw scalar 1 + carry) in
    let carry := if negb (s1 =? 0) then 0 else Z.land carry 1 in
    let s2 := u64 (sw scalar 2 + carry) in
    let s3 := u64 (sw scalar 3 + (if negb (s2 =? 0) then 0 else Z.land carry 1)) in
    value_digits n' (S i) (digits ++ [di]) [s0; s1; s2; s3]
  end.

(** The table lookup of row [row] (0 .. 4) at column [j] (0 .. 9):
    [table_lookup_fixed_base(S, 16 * row + (((((digits[200 + 10 * row + j]
    << 1) + digits[150 + 10 * row + j]) << 1) + digits[100 + 10 * row + j])
    << 1) + digits[50 + 10 * row + j], digits[10 * row + j])]. *)
Definition fixed_lookup (digits : list Z) (row j : nat) : point_precomp_t :=
  let d i := nth i digits 0 in
  let r := (10 * row + j)%nat in
  let idx :=
    u32 (Z.shiftl (u32 (Z.shiftl (u32 (Z.shiftl (d (200 + r)%nat) 1)
                                  + d (150 + r)%nat) 1)
                   + d (100 + r)%nat) 1) + d (50 + r)%nat in
  table_lookup_fixed_base (u32 (16 * Z.of_nat row + idx)) (d r).

(** One column of the comb after the first: a doubling, then the mixed
    additions of rows 4 down to 0. *)
Definition fixed_column (digits : list Z) (R : point_extproj_t) (j : nat)
  : point_extproj_t :=
  let R := eccdouble R in
  let R := eccmadd (fixed_lookup digits 4 j) R in
  let R := eccmadd (fixed_lookup digits 3 j) R in
  let R := eccmadd (fixed_lookup digits 2 j) R in
  let R := eccmadd (fixed_lookup digits 1 j) R in
  eccmadd (fixed_lookup digits 0 j) R.

(** [ecc_mul_fixed(k, Q)]: [Q = k * G].  The sequence of lookups and
    additions the source writes out column by column, from column 9 down to
    column 0, is the loop over [fixed_column]. *)
Definition ecc_mul_fixed (k : scalar_t) : point_t :=
  let scalar := Montgomery_multiply_mod_order k Montgomery_Rprime in
  let scalar := Montgomery_multiply_mod_order scalar ONE in
  let scalar :=
    if Z.land (sw scalar 0) 1 =? 0
    then snd (addcarry_chain 0 scalar curve_order)
    else scalar in
  let scalar := scalar_shr1 scalar in
  let '(digits, scalar) := sign_digits 49 scalar in
  let digits := digits ++ [0] in
  let digits := value_digits 200 50 digits scalar in
  let S := fixed_lookup digits 4 9 in
  let Rx := fp2sub1271 (p_xy S) (p_yx S) in
  let Ry := fp2add1271 (p_xy S) (p_yx S) in
  let Rx := fp2div1271 Rx in
  let Ry := fp2div1271 Ry in
  let R := mk_extproj Rx Ry f2_one Rx Ry in
  let R := eccmadd (fixed_lookup digits 3 9) R in
  let R := eccmadd (fixed_lookup digits 2 9) R in
  let R := eccmadd (fixed_lookup digits 1 9) R in
  let R := eccmadd (fixed_lookup digits 0 9) R in
  let R := fold_left (fixed_column digits) [8; 7; 6; 5; 4; 3; 2; 1; 0]%nat R in
  eccnorm R.

(** ** Double-base scalar multiplication *)

(** [ecc_precomp_double(P, Table)]: the four entries of the table. *)
Definition ecc_precomp_double (P : point_extproj_t)
  : list point_extproj_precomp_t :=
  let T0 := R1_to_R2 P in
  let P := eccdouble P in
  let PP := R1_to_R3 P in
  let Q := eccadd_core T0 PP in
  let T1 := R1_to_R2 Q in
  let Q := eccadd_core T1 PP in
  let T2 := R1_to_R2 Q in
  let Q := eccadd_core T2 PP in
  let T3 := R1_to_R2 Q in
  [T0; T1; T2; T3].

Definition zero_extproj_precomp : point_extproj_precomp_t :=
  mk_extproj_precomp f2_zero f2_zero f2_zero f2_zero.

(** The step of the main loop for one digit of [l]: an addition of an entry
    of the table of [Q], negated for a negative digit. *)
Definition add_l_digit (Q_table : list point_extproj_precomp_t) (digit : Z)
  (T : point_extproj_t) : point_extproj_t :=
  if digit <? 0 then
    let U := eccneg_extproj_precomp
               (nth (Z.to_nat (Z.shiftr (- digit) 1)) Q_table zero_extproj_precomp) in
    eccadd U T
  else if 0 <? digit then
    eccadd (nth (Z.to_nat (Z.shiftr digit 1)) Q_table zero_extproj_precomp) T
  else T.

(** The step of the main loop for one digit of [k]: a mixed addition of an
    entry of [DOUBLE_SCALAR_TABLE] at offset [off]. *)
Definition add_k_digit (off : Z) (digit : Z) (T : point_extproj_t)
  : point_extproj_t :=
  if digit <? 0 then
    let V := eccneg_precomp
               (table_point DOUBLE_SCALAR_TABLE
                  (Z.to_nat (off + Z.shiftr (- digit) 1))) in
    eccmadd V T
  else if 0 <? digit then
    eccmadd (table_point DOUBLE_SCALAR_TABLE
               (Z.to_nat (off + Z.shiftr digit 1))) T
  else T.

(** [ecc_mul_double(k, l, Q)]: [Some (k * G + l * Q)], or [None] where the C
    function returns [false].  [T->ta] and [T->tb] are not initialised in the
    source; the first doubling overwrites them. *)
Definition ecc_mul_double (k l : scalar_t) (Q : point_t) : option point_t :=
  let Q1 := point_setup Q in
  if negb (ecc_point_validate Q1) then None
  else
    let Q2 := ecc_phi Q1 in
    let Q3 := ecc_psi Q1 in
    let Q4 := ecc_psi Q2 in
    let k_scalars := decompose k in
    let l_scalars := decompose l in
    let digits_k1 := wNAF_recode (sw k_scalars 0) 8 in
    let digits_k2 := wNAF_recode (sw k_scalars 1) 8 in
    let digits_k3 := wNAF_recode (sw k_scalars 2) 8 in
    let digits_k4 := wNAF_recode (sw k_scalars 3) 8 in
    let digits_l1 := wNAF_recode (sw l_scalars 0) 4 in
    let digits_l2 := wNAF_recode (sw l_scalars 1) 4 in
    let digits_l3 := wNAF_recode (sw l_scalars 2) 4 in
    let digits_l4 := wNAF_recode (sw l_scalars 3) 4 in
    let Q_table1 := ecc_precomp_double Q1 in
    let Q_table2 := ecc_precomp_double Q2 in
    let Q_table3 := ecc_precomp_double Q3 in
    let Q_table4 := ecc_precomp_double Q4 in
    let T := mk_extproj f2_zero f2_one f2_one f2_zero f2_zero in
    let step (T : point_extproj_t) (i : nat) : point_extproj_t :=
      let T := eccdouble T in
      let T := add_l_digit Q_table1 (nth i digits_l1 0) T in
      let T := add_l_digit Q_table2 (nth i digits_l2 0) T in
      let T := add_l_digit Q_table3 (nth i digits_l3 0) T in
      let T := add_l_digit Q_table4 (nth i digits_l4 0) T in
      let T := add_k_digit 0 (nth i digits_k1 0) T in
      let T := add_k_digit 64 (nth i digits_k2 0) T in
      let T := add_k_digit (2 * 64) (nth i digits_k3 0) T in
      add_k_digit (3 * 64) (nth i digits_k4 0) T in
    let T := fold_left step (rev (seq 0 65)) T in
    Some (eccnorm T).

(** ** Signature protocol *)

(** [memcpy(dst + off, src, n)] on byte buffers. *)
Definition write_bytes (dst : list Byte.byte) (off : nat) (src : list Byte.byte)
  : list Byte.byte :=
  firstn off dst ++ src ++ skipn (off + length src) dst.

(** [copy32(dst + off, src + soff)]. *)
Definition copy32 (dst : list Byte.byte) (off : nat) (src : list Byte.byte)
  (soff : nat) : list Byte.byte :=
  write_bytes dst off (sub_bytes src soff 32).

(** The buffer [temp] of [signWithNonceK] when the nonce is derived: its
    bytes 32 .. 95 hold the second half of [k] and the message digest. *)
Definition sign_temp_nonce (temp0 k messageDigest : list Byte.byte)
  : list Byte.byte :=
  let temp := copy32 temp0 32 k 32 in
  copy32 temp 64 messageDigest 0.

(** The nonce words [r], from [KangarooTwelve(temp + 32, 32 + 32, r, 64)]. *)
Definition sign_r (temp0 k messageDigest : list Byte.byte) : list Z :=
  let temp := sign_temp_nonce temp0 k messageDigest in
  words_of_bytes 8 (KangarooTwelve (sub_bytes temp 32 64) 64).

(** The encoded commitment, the first 32 bytes of the signature. *)
Definition sign_commitment (temp0 k messageDigest : list Byte.byte)
  : list Byte.byte :=
  encode (ecc_mul_fixed (sign_r temp0 k messageDigest)).

(** The buffer [temp] when the challenge is derived. *)
Definition sign_temp_challenge (temp0 k publicKey messageDigest : list Byte.byte)
  : list Byte.byte :=
  let temp := sign_temp_nonce temp0 k messageDigest in
  let temp := copy32 temp 0 (sign_commitment temp0 k messageDigest) 0 in
  copy32 temp 32 publicKey 0.

(** The bytes hashed for the challenge:
    [KangarooTwelve(temp, 32 + 64, h, 64)]. *)
Definition sign_challenge_input (temp0 k publicKey messageDigest : list Byte.byte)
  : list Byte.byte :=
  sub_bytes (sign_temp_challenge temp0 k publicKey messageDigest) 0 96.

(** The challenge scalar [h] after its two Montgomery multiplications by
    [Montgomery_Rprime] and [ONE]. *)
Definition sign_challenge (temp0 k publicKey messageDigest : list Byte.byte)
  : scalar_t :=
  let h := words_of_bytes 8
             (KangarooTwelve (sign_challenge_input temp0 k publicKey messageDigest) 64) in
  let h := Montgomery_multiply_mod_order h Montgomery_Rprime in
  Montgomery_multiply_mod_order h ONE.

(** [signWithNonceK] with the initial contents [temp0] of its local buffer
    [temp] made explicit. *)
Definition signWithNonceK_from (temp0 k publicKey messageDigest : list Byte.byte)
  : list Byte.byte :=
  let r := sign_r temp0 k messageDigest in
  let signature := sign_commitment temp0 k messageDigest in
  let h := sign_challenge temp0 k publicKey messageDigest in
  let r := Montgomery_multiply_mod_order r Montgomery_Rprime in
  let r := Montgomery_multiply_mod_order r ONE in
  let s := Montgomery_multiply_mod_order (words_of_bytes 4 k) Montgomery_Rprime in
  let h := Montgomery_multiply_mod_order h Montgomery_Rprime in
  let s := Montgomery_multiply_mod_order s h in
  let s := Montgomery_multiply_mod_order s ONE in
  let '(b, s) := subborrow_chain 0 (firstn 4 r) s in
  let s := if negb (b =? 0) then snd (addcarry_chain 0 s curve_order) else s in
  signature ++ bytes_of_words s.

(** The local buffer [temp] is not initialised in the source. *)
Definition signWithNonceK (k publicKey messageDigest : list Byte.byte)
  : list Byte.byte :=
  signWithNonceK_from (repeat Byte.x00 96) k publicKey messageDigest.

Definition sign (subseed publicKey messageDigest : list Byte.byte)
  : list Byte.byte :=
  let k := KangarooTwelve subseed 64 in
  signWithNonceK k publicKey messageDigest.

(** [encode(A, (unsigned char* )A)] as [verify] calls it: the output buffer is
    the point itself, so [copy32] overwrites [A->x] with [A->y] before the
    test [!P->x[0][0] && !P->x[0][1]] reads it. *)
Definition encode_in_place (P : point_t) : list Byte.byte :=
  let '((x00, x01), (x10, x11)) := a_x P in
  let '((y00, y01), (y10, y11)) := a_y P in
  let temp1 := shl64 (Z.land x11 0x4000000000000000) 1 in
  let temp2 := shl64 (Z.land x01 0x4000000000000000) 1 in
  let w3 :=
    if (y00 =? 0) && (y01 =? 0) then Z.lor y11 temp1 else Z.lor y11 temp2 in
  bytes_of_words [y00; y01; y10; w3].

(** The stages of [verify] that a call runs through. *)
Inductive verify_stage : Type :=
| StageDecode
| StageHash
| StageMulDouble
| StageEncode.

(** The test on the reserved bits that opens [verify]. *)
Definition verify_gate (publicKey signature : list Byte.byte) : bool :=
  negb (Z.land (byte_at publicKey 15) 0x80 =? 0)
  || negb (Z.land (byte_at signature 15) 0x80 =? 0)
  || negb (Z.land (byte_at signature 62) 0xC0 =? 0)
  || negb (byte_at signature 63 =? 0).

(** The words [h] of [verify]: the hash of [temp], which holds the first
    half of the signature, the public key and the message digest. *)
Definition verify_challenge (publicKey messageDigest signature : list Byte.byte)
  : list Z :=
  let temp := sub_bytes signature 0 32 ++ sub_bytes publicKey 0 32
              ++ sub_bytes messageDigest 0 32 in
  words_of_bytes 8 (KangarooTwelve temp 64).

(** [verify] with the list of the stages it has entered, in order. *)
Definition verify_traced (publicKey messageDigest signature : list Byte.byte)
  : bool * list verify_stage :=
  if verify_gate publicKey signature then (false, [])
  else
    match decode publicKey with
    | None => (false, [StageDecode])
    | Some A =>
      let h := verify_challenge publicKey messageDigest signature in
      match ecc_mul_double (words_of_bytes 4 (skipn 32 signature)) h A with
      | None => (false, [StageDecode; StageHash; StageMulDouble])
      | Some A =>
        let A := encode_in_place A in
        (if list_eq_dec Byte.byte_eq_dec A (sub_bytes signature 0 32)
         then true else false,
         [StageDecode; StageHash; StageMulDouble; StageEncode])
      end
    end.

Definition verify (publicKey messageDigest signature : list Byte.byte) : bool :=
  fst (verify_traced publicKey messageDigest signature).

(** ** Key derivation *)

(** Modelled from the spec: the key derivation of [keyUtils.h], which is not
    among the sources.  The specification gives "32-byte private
    seed/subseed -> 32-byte private scalar (derived) -> 32-byte encoded public
    point"; the private scalar is the one [sign] uses, the first 32 bytes of
    the hash of the subseed. *)
Definition getPrivateKeyFromSubSeed (subseed : list Byte.byte) : list Byte.byte :=
  KangarooTwelve subseed 32.

Definition getPublicKeyFromPrivateKey (privateKey : list Byte.byte)
  : list Byte.byte :=
  encode (ecc_mul_fixed (words_of_bytes 4 privateKey)).

Definition derivePublicKey (subseed : list Byte.byte) : list Byte.byte :=
  getPublicKeyFromPrivateKey (getPrivateKeyFromSubSeed subseed).

(** ** Reference notions for the statements *)

(** The short-input path of [KangarooTwelve] taken alone: the input is
    absorbed by a single node, one more byte position is skipped, the suffix
    0x07 and the padding bit are XORed in, and the state is permuted once. *)
Definition K12_single_node (input : list Byte.byte) (outputByteLen : nat)
  : list Byte.byte :=
  let finalNode := KangarooTwelve_F_Absorb zero_node input in
  let idx := (byteIOIndex finalNode + 1) mod 256 in
  let st :=
    if idx =? K12_rateInBytes
    then xor_byte (KeccakP1600_Permute_12rounds (state finalNode)) 0 0x07
    else xor_byte (state finalNode) idx 0x07 in
  let st := xor_byte st (K12_rateInBytes - 1) 0x80 in
  firstn outputByteLen (state_bytes (KeccakP1600_Permute_12rounds st)).

(** The tree path for a message of exactly one chunk: the final node absorbs
    the chunk and is closed with 0x03; one leaf holds the single byte that
    follows the message; the final node absorbs the 32-byte digest of the
    leaf and the encoding of the leaf count 1, and ends with the suffix
    0x06. *)
Definition K12_one_chunk_tree (input : list Byte.byte) (outputByteLen : nat)
  : list Byte.byte :=
  let finalNode := KangarooTwelve_F_Absorb zero_node input in
  let finalNode := close_first_chunk finalNode in
  let finalNode := fst (close_leaf finalNode (mkF zero_state 1)) in
  let finalNode := KangarooTwelve_F_Absorb finalNode (encbuf 1) in
  let st := xor_byte (state finalNode) (byteIOIndex finalNode) 0x06 in
  let st := xor_byte st (K12_rateInBytes - 1) 0x80 in
  firstn outputByteLen (state_bytes (KeccakP1600_Permute_12rounds st)).

(** The 256-bit integer encoded by the 32 bytes at offset [off]. *)
Definition int256_at (bs : list Byte.byte) (off : nat) : Z :=
  le_int (sub_bytes bs off 32).

(** Reserved bits of the encodings: bit 127 of an encoded point (the top
    bit of the first coordinate of y), and bits 246 .. 255 of a response
    scalar (the group order has 246 bits). *)
Definition reserved_point_bit (bs : list Byte.byte) (off : nat) : Prop :=
  Z.testbit (int256_at bs off) 127 = true.

Definition reserved_scalar_bits (bs : list Byte.byte) (off : nat) : Prop :=
  2 ^ 246 <= int256_at bs off.

(** The curve equation -x^2 + y^2 = 1 + d x^2 y^2 over GF(p^2), on the
    integers held by the coordinates: real and imaginary parts modulo p. *)
Definition f2re_mul (a0 a1 b0 b1 : Z) : Z := a0 * b0 - a1 * b1.
Definition f2im_mul (a0 a1 b0 b1 : Z) : Z := a0 * b1 + a1 * b0.

Definition on_curve (P : point_t) : Prop :=
  let x0 := fval (fst (a_x P)) in let x1 := fval (snd (a_x P)) in
  let y0 := fval (fst (a_y P)) in let y1 := fval (snd (a_y P)) in
  let d0 := fval (fst PARAMETER_d) in let d1 := fval (snd PARAMETER_d) in
  let xx0 := f2re_mul x0 x1 x0 x1 in let xx1 := f2im_mul x0 x1 x0 x1 in
  let yy0 := f2re_mul y0 y1 y0 y1 in let yy1 := f2im_mul y0 y1 y0 y1 in
  let xy0 := f2re_mul xx0 xx1 yy0 yy1 in let xy1 := f2im_mul xx0 xx1 yy0 yy1 in
  eqp (yy0 - xx0) (1 + f2re_mul d0 d1 xy0 xy1) /\
  eqp (yy1 - xx1) (f2im_mul d0 d1 xy0 xy1).

(** A point all of whose coordinates are canonical. *)
Definition point_canon (P : point_t) : Prop :=
  fcanon (fst (a_x P)) /\ fcanon (snd (a_x P)) /\
  fcanon (fst (a_y P)) /\ fcanon (snd (a_y P)).

(** Equality of two points as pairs of elements of GF(p^2). *)
Definition point_eqp (P Q : point_t) : Prop :=
  eqp (fval (fst (a_x P))) (fval (fst (a_x Q))) /\
  eqp (fval (snd (a_x P))) (fval (snd (a_x Q))) /\
  eqp (fval (fst (a_y P))) (fval (fst (a_y Q))) /\
  eqp (fval (snd (a_y P))) (fval (snd (a_y Q))).

(** Inputs of the worked examples. *)
Definition zero32 : list Byte.byte := repeat Byte.x00 32.

(** One chunk of zero bytes. *)
Definition zero_chunk : list Byte.byte := repeat Byte.x00 (Z.to_nat K12_chunkSize).

(** The public key and the signature of 32 zero bytes under the subseed of
    32 zero bytes. *)
Definition pk_zero : list Byte.byte := Eval vm_compute in derivePublicKey zero32.
Definition sig_zero : list Byte.byte := Eval vm_compute in sign zero32 pk_zero zero32.

(** An encoding that is not a point: y = 2. *)
Definition pk_off_curve : list Byte.byte := Eval vm_compute in le_bytes 32 2.

(** The point of order four (-i, 0), in canonical coordinates. *)
Definition point_order4 : point_t :=
  mk_point ((0, 0), (0xFFFFFFFFFFFFFFFE, 0x7FFFFFFFFFFFFFFF)) f2_zero.

(** The point whose encoding is the public key [pk_zero]. *)
Definition point_pk_zero : point_t :=
  Eval vm_compute in
    match decode pk_zero with
    | Some A => A
    | None => mk_point f2_zero f2_one
    end.

(** ** Cofactor clearing *)

(** [cofactor_clearing(R)]: [R = 392 * R], by doublings and two additions
    of the point it started from. *)
Definition cofactor_clearing (R : point_extproj_t) : point_extproj_t :=
  let Q := R1_to_R2 R in
  let R := eccdouble R in
  let R := eccadd Q R in
  let R := eccdouble R in
  let R := eccdouble R in
  let R := eccdouble R in
  let R := eccdouble R in
  let R := eccadd Q R in
  let R := eccdouble R in
  let R := eccdouble R in
  eccdouble R.

(** ** Reference notions on recodings and tables *)

(** The integer that a sequence of signed digits stands for, least
    significant digit first: the sum of [d_i * 2^i]. *)
Fixpoint digits_value (ds : list Z) : Z :=
  match ds with
  | [] => 0
  | d :: ds' => d + 2 * digits_value ds'
  end.

(** A test on integers that one table entry (xy, yx, t2) has 127-bit
    components and is the precomputed form (x + y, y - x, 2 d x y) of a
    point (x, y) of the curve.  With 2x = xy - yx and 2y = xy + yx the two
    conditions are 2 t2 = d (2x)(2y) and
    4 (-(2x)^2 + (2y)^2) = 16 + d (2x)^2 (2y)^2, on real and imaginary
    parts modulo p. *)
Definition fe127b (a : felm_t) : bool :=
  (0 <=? fst a) && (fst a <? 2 ^ 64) && (0 <=? snd a) && (snd a <? 2 ^ 63).

Definition precomp_entry_check (Q : point_precomp_t) : bool :=
  let a0 := fval (fst (p_xy Q)) in let a1 := fval (snd (p_xy Q)) in
  let b0 := fval (fst (p_yx Q)) in let b1 := fval (snd (p_yx Q)) in
  let t0 := fval (fst (p_t2 Q)) in let t1 := fval (snd (p_t2 Q)) in
  let d0 := fval (fst PARAMETER_d) in let d1 := fval (snd PARAMETER_d) in
  let x0 := a0 - b0 in let x1 := a1 - b1 in
  let y0 := a0 + b0 in let y1 := a1 + b1 in
  let xy0 := f2re_mul x0 x1 y0 y1 in let xy1 := f2im_mul x0 x1 y0 y1 in
  let xx0 := f2re_mul x0 x1 x0 x1 in let xx1 := f2im_mul x0 x1 x0 x1 in
  let yy0 := f2re_mul y0 y1 y0 y1 in let yy1 := f2im_mul y0 y1 y0 y1 in
  let q0 := f2re_mul xx0 xx1 yy0 yy1 in let q1 := f2im_mul xx0 xx1 yy0 yy1 in
  fe127b (fst (p_xy Q)) && fe127b (snd (p_xy Q)) &&
  fe127b (fst (p_yx Q)) && fe127b (snd (p_yx Q)) &&
  fe127b (fst (p_t2 Q)) && fe127b (snd (p_t2 Q)) &&
  ((2 * t0 - f2re_mul d0 d1 xy0 xy1) mod p1271 =? 0) &&
  ((2 * t1 - f2im_mul d0 d1 xy0 xy1) mod p1271 =? 0) &&
  ((4 * (yy0 - xx0) - (16 + f2re_mul d0 d1 q0 q1)) mod p1271 =? 0) &&
  ((4 * (yy1 - xx1) - f2im_mul d0 d1 q0 q1) mod p1271 =? 0).

(** The test on the first [n] entries of a table. *)
Definition table_check (tbl : list Z) (n : nat) : bool :=
  forallb (fun i => precomp_entry_check (table_point tbl i)) (seq 0 n).

(** ** GF(p^2) as pairs of residues

    Reference notions for the curve arithmetic: an element of GF(p^2) is a
    pair (a0, a1) of residues modulo p standing for a0 + a1 i, with
    i^2 = -1. *)
Module GFp2.
Import Stdlib.Zmod.ZmodDef.
Local Open Scope Zmod_scope.

Definition Fp2 : Type := (Zmod p1271 * Zmod p1271)%type.

Definition zero : Fp2 := (Zmod.zero, Zmod.zero).
Definition one : Fp2 := (Zmod.one, Zmod.zero).
Definition add (a b : Fp2) : Fp2 := (fst a + fst b, snd a + snd b).
Definition sub (a b : Fp2) : Fp2 := (fst a - fst b, snd a - snd b).
Definition opp (a : Fp2) : Fp2 := (- fst a, - snd a).
Definition mul (a b : Fp2) : Fp2 :=
  (fst a * fst b - snd a * snd b, fst a * snd b + snd a * fst b).

(** The element of GF(p^2) that the four words of an [f2elm_t] stand
    for. *)
Definition of_f2elm (a : f2elm_t) : Fp2 :=
  (Zmod.of_Z p1271 (fval (fst a)), Zmod.of_Z p1271 (fval (snd a))).

(** The curve parameter d. *)
Definition d : Fp2 := of_f2elm PARAMETER_d.

(** An affine point on the curve -x^2 + y^2 = 1 + d x^2 y^2. *)
Definition on_curve_affine (x y : Fp2) : Prop :=
  add (opp (mul x x)) (mul y y) = add one (mul d (mul (mul x x) (mul y y))).

(** A point in extended coordinates (X, Y, Z, Ta, Tb), T = Ta Tb, on the
    curve: -X^2 + Y^2 = Z^2 + d T^2 and T Z = X Y. *)
Definition on_curve_ext (P : point_extproj_t) : Prop :=
  let X := of_f2elm (e_x P) in
  let Y := of_f2elm (e_y P) in
  let Z := of_f2elm (e_z P) in
  let T := mul (of_f2elm (e_ta P)) (of_f2elm (e_tb P)) in
  add (opp (mul X X)) (mul Y Y) = add (mul Z Z) (mul d (mul T T)) /\
  mul T Z = mul X Y.

(** The projective equation (Y^2 - X^2) Z^2 = Z^4 + d X^2 Y^2, which does
    not read Ta and Tb. *)
Definition on_curve_proj (P : point_extproj_t) : Prop :=
  let X := of_f2elm (e_x P) in
  let Y := of_f2elm (e_y P) in
  let Z := of_f2elm (e_z P) in
  mul (sub (mul Y Y) (mul X X)) (mul Z Z) =
  add (mul (mul Z Z) (mul Z Z)) (mul d (mul (mul X X) (mul Y Y))).

(** A precomputed point (x + y, y - x, 2 d x y) of an affine point of the
    curve, as the tables hold them. *)
Definition precomp_of (Q : point_precomp_t) (x y : Fp2) : Prop :=
  of_f2elm (p_xy Q) = add x y /\
  of_f2elm (p_yx Q) = sub y x /\
  of_f2elm (p_t2 Q) = mul (add (mul x y) (mul x y)) d.

(** All the components of the coordinates are 127-bit elements. *)
Definition f2_ok (a : f2elm_t) : Prop := fe127 (fst a) /\ fe127 (snd a).

Definition extproj_ok (P : point_extproj_t) : Prop :=
  f2_ok (e_x P) /\ f2_ok (e_y P) /\ f2_ok (e_z P) /\
  f2_ok (e_ta P) /\ f2_ok (e_tb P).

Definition precomp_ok (Q : point_precomp_t) : Prop :=
  f2_ok (p_xy Q) /\ f2_ok (p_yx Q) /\ f2_ok (p_t2 Q).

End GFp2.

(** ** Reference notions on the sponge *)

(** The bytes [bs] XORed into the byte view of a state from index [i]
    on. *)
Fixpoint xor_bytes (st : list Z) (i : Z) (bs : list Byte.byte) : list Z :=
  match bs with
  | [] => st
  | b :: bs' => xor_bytes (xor_byte st i (Z_of_byte b)) (i + 1) bs'
  end.

(** Absorption of one byte by a sponge of rate [K12_rateInBytes]: the byte
    is XORed at [byteIOIndex], and the state is permuted when the block is
    full. *)
Definition absorb_byte (instance : KangarooTwelve_F) (b : Byte.byte)
  : KangarooTwelve_F :=
  let st := xor_byte (state instance) (byteIOIndex instance) (Z_of_byte b) in
  let idx := byteIOIndex instance + 1 in
  if idx =? K12_rateInBytes
  then mkF (KeccakP1600_Permute_12rounds st) 0
  else mkF st idx.

(** Absorption byte by byte. *)
Definition absorb_bytes (instance : KangarooTwelve_F) (data : list Byte.byte)
  : KangarooTwelve_F :=
  fold_left absorb_byte data instance.

(** A node between two calls: 25 lanes and an index inside the block. *)
Definition node_ok (instance : KangarooTwelve_F) : Prop :=
  length (state instance) = 25%nat /\
  0 <= byteIOIndex instance < K12_rateInBytes.

(** The sponge of rate [K12_rateInBytes] over [data], absorbed byte by byte
    from the zero state, closed with the suffix byte [suffix] at the
    position reached and the padding bit in the last byte of the block, and
    squeezed once. *)
Definition sponge_bytes (data : list Byte.byte) (suffix : Z)
  (outputByteLen : nat) : list Byte.byte :=
  let node := absorb_bytes zero_node data in
  let st := xor_byte (state node) (byteIOIndex node) suffix in
  let st := xor_byte st (K12_rateInBytes - 1) 0x80 in
  firstn outputByteLen (state_bytes (KeccakP1600_Permute_12rounds st)).

(** The chunks of [n] bytes of a byte string, in order; the last one is
    shorter when the length is not a multiple of [n].  [fuel] bounds the
    number of chunks; the length of the string is enough. *)
Fixpoint chunks (fuel : nat) (n : nat) (l : list Byte.byte)
  : list (list Byte.byte) :=
  match fuel with
  | O => []
  | S fuel' =>
    match l with
    | [] => []
    | _ :: _ => firstn n l :: chunks fuel' n (skipn n l)
    end
  end.

(** KangarooTwelve as a tree of sponges, for the empty customization
    string: S is the input followed by one zero byte.  When S fits in one
    chunk it is hashed by one sponge with suffix 0x07.  Otherwise the final
    node absorbs the first chunk, the bytes 03 00 00 00 00 00 00 00, the
    32-byte chaining values of the other chunks (each hashed by a sponge
    with suffix [K12_suffixLeaf]), the encoding of their number, and is
    closed with suffix 0x06. *)
Definition K12_tree (input : list Byte.byte) (outputByteLen : nat)
  : list Byte.byte :=
  let S := input ++ [Byte.x00] in
  let B := Z.to_nat K12_chunkSize in
  if (length S <=? B)%nat then sponge_bytes S 0x07 outputByteLen
  else
    let leaves := chunks (length S) B (skipn B S) in
    let CVs := flat_map (fun c => sponge_bytes c K12_suffixLeaf 32) leaves in
    sponge_bytes
      (firstn B S ++ (Byte.x03 :: repeat Byte.x00 7) ++ CVs
       ++ encbuf (Z.of_nat (length leaves)))
      0x06 outputByteLen.

(** ** Reference notions on the arithmetic modulo the group order *)

(** The order of the group, the integer held by [curve_order]. *)
Definition order_value : Z := words_val curve_order.

(** The Montgomery constant [r'] = -1/order modulo 2^256, the integer held
    by the words [MONTGOMERY_SMALL_R_PRIME_0 .. 3]. *)
Definition rprime_value : Z :=
  words_val [MONTGOMERY_SMALL_R_PRIME_0; MONTGOMERY_SMALL_R_PRIME_1;
             MONTGOMERY_SMALL_R_PRIME_2; MONTGOMERY_SMALL_R_PRIME_3].

(** The four words of a scalar that the arithmetic on scalars reads. *)
Definition low4 (a : scalar_t) : list Z := [sw a 0; sw a 1; sw a 2; sw a 3].

(** Whether no call of a chain of [_addcarry_u64] meets
    [src2 + b_in = 2^64], where the addition [src2 + (b_in != 0 ? 1 : 0)] of
    [_addcarry_u64] wraps to zero and no carry is returned. *)
Fixpoint carries_kept (c : Z) (a b : list Z) : bool :=
  match a, b with
  | x :: a', y :: b' =>
    (y + (if c =? 0 then 0 else 1) <? 2 ^ 64)
    && carries_kept (fst (_addcarry_u64 c x y)) a' b'
  | _, _ => true
  end.

(** The two operands [P] and [temp] of the eight-word addition of
    [Montgomery_multiply_mod_order]: the product of the operands and the
    multiple [Q * curve_order] that clears its low half. *)
Definition Montgomery_sum_operands (ma mb : scalar_t) : list Z * list Z :=
  let P :=
    if (sw mb 0 =? 1) && (sw mb 1 =? 0) && (sw mb 2 =? 0) && (sw mb 3 =? 0)
    then [sw ma 0; sw ma 1; sw ma 2; sw ma 3; 0; 0; 0; 0]
    else multiply ma mb in
  let P0 := sw P 0 in let P1 := sw P 1 in let P2 := sw P 2 in let P3 := sw P 3 in
  let '(u, Q0) := _umul128 P0 MONTGOMERY_SMALL_R_PRIME_0 in
  let '(uv, lo) := _umul128 P0 MONTGOMERY_SMALL_R_PRIME_1 in
  let '(cy, Q1) := _addcarry_u64 0 lo u in
  let u := u64 (cy + uv) in
  let '(uv, lo) := _umul128 P0 MONTGOMERY_SMALL_R_PRIME_2 in
  let '(cy, Q2) := _addcarry_u64 0 lo u in
  let u := u64 (cy + uv) in
  let '(_, Q3) := _addcarry_u64 0 (u64 (P0 * MONTGOMERY_SMALL_R_PRIME_3)) u in
  let '(uv, lo) := _umul128 P1 MONTGOMERY_SMALL_R_PRIME_0 in
  let '(cy, Q1) := _addcarry_u64 0 Q1 lo in
  let u := u64 (cy + uv) in
  let '(uv, lo) := _umul128 P1 MONTGOMERY_SMALL_R_PRIME_1 in
  let '(cy, v) := _addcarry_u64 0 lo u in
  let u := u64 (cy + uv) in
  let '(cy1, Q2) := _addcarry_u64 0 Q2 v in
  let '(_, v) := _addcarry_u64 cy1 (u64 (P1 * MONTGOMERY_SMALL_R_PRIME_2)) u in
  let '(_, Q3) := _addcarry_u64 0 Q3 v in
  let '(uv, lo) := _umul128 P2 MONTGOMERY_SMALL_R_PRIME_0 in
  let '(cy, Q2) := _addcarry_u64 0 Q2 lo in
  let u := u64 (cy + uv) in
  let '(_, v) := _addcarry_u64 0 (u64 (P2 * MONTGOMERY_SMALL_R_PRIME_1)) u in
  let '(_, Q3) := _addcarry_u64 0 Q3 v in
  let '(_, Q3) := _addcarry_u64 0 Q3 (u64 (P3 * MONTGOMERY_SMALL_R_PRIME_0)) in
  (P, multiply [Q0; Q1; Q2; Q3] curve_order).

(** Whether the eight-word addition of
    [Montgomery_multiply_mod_order(ma, mb, mc)] loses no carry. *)
Definition Montgomery_carries_kept (ma mb : scalar_t) : bool :=
  let '(P, temp) := Montgomery_sum_operands ma mb in
  carries_kept 0 P temp.

(** * Properties of the word primitives *)

Module WordFacts.

Lemma u64_mod z : u64 z = z mod 2 ^ 64.
Proof. unfold u64, UINT64_MAX. change 0xFFFFFFFFFFFFFFFF with (Z.ones 64). apply Z.land_ones. lia. Qed.

Lemma u128_mod z : u128 z = z mod 2 ^ 128.
Proof.
  unfold u128. change 0xFFFFFFFFFFFFFFFFFFFFFFFFFFFFFFFF with (Z.ones 128).
  apply Z.land_ones. lia.
Qed.

Lemma u64_range z : is_u64 (u64 z).
Proof. unfold is_u64. rewrite u64_mod. apply Z.mod_pos_bound. lia. Qed.

Lemma u64_small z : is_u64 z -> u64 z = z.
Proof. unfold is_u64. rewrite u64_mod. intros H. apply Z.mod_small. exact H. Qed.

(** Away from the wrap of [src2 + b_in], [_addcarry_u64] is a full adder. *)
Lemma addcarry_spec b_in a b :
  is_u64 a -> is_u64 b -> 0 <= b_in <= 1 -> b + b_in < 2 ^ 64 ->
  let '(c, s) := _addcarry_u64 b_in a b in
  s + 2 ^ 64 * c = a + b + b_in /\ is_u64 s /\ 0 <= c <= 1.
Proof.
  unfold is_u64, _addcarry_u64. rewrite !u64_mod. unfold UINT64_MAX. intros Ha Hb Hc Hs.
  assert (Hbin : (if b_in =? 0 then 0 else 1) = b_in)
    by (destruct (Z.eqb_spec b_in 0); lia).
  rewrite Hbin. rewrite (Z.mod_small (b + b_in)) by lia.
  destruct (Z.ltb_spec (0xFFFFFFFFFFFFFFFF - a) (b + b_in)) as [H | H].
  - assert (E : (a + (b + b_in)) mod 2 ^ 64 = a + (b + b_in) - 2 ^ 64).
    { symmetry. apply Z.mod_unique with (q := 1); lia. }
    rewrite E. lia.
  - rewrite (Z.mod_small (a + (b + b_in))) by lia. lia.
Qed.

(** Away from the wrap of [src2 + b_in], [_subborrow_u64] is a full
    subtractor. *)
Lemma subborrow_spec b_in a b :
  is_u64 a -> is_u64 b -> 0 <= b_in <= 1 -> b + b_in < 2 ^ 64 ->
  let '(c, s) := _subborrow_u64 b_in a b in
  s - 2 ^ 64 * c = a - b - b_in /\ is_u64 s /\ 0 <= c <= 1.
Proof.
  unfold is_u64, _subborrow_u64. rewrite !u64_mod. intros Ha Hb Hc Hs.
  assert (Hbin : (if b_in =? 0 then 0 else 1) = b_in)
    by (destruct (Z.eqb_spec b_in 0); lia).
  rewrite Hbin. rewrite (Z.mod_small (b + b_in)) by lia.
  destruct (Z.ltb_spec a (b + b_in)) as [H | H].
  - assert (E : (a - (b + b_in)) mod 2 ^ 64 = a - (b + b_in) + 2 ^ 64).
    { symmetry. apply Z.mod_unique with (q := -1); lia. }
    rewrite E. lia.
  - rewrite (Z.mod_small (a - (b + b_in))) by lia. lia.
Qed.

Lemma umul128_spec a b :
  is_u64 a -> is_u64 b ->
  let '(hi, lo) := _umul128 a b in
  lo + 2 ^ 64 * hi = a * b /\ is_u64 lo /\ is_u64 hi.
Proof.
  unfold is_u64, _umul128. intros Ha Hb.
  rewrite u64_mod, u128_mod, Z.shiftr_div_pow2 by lia.
  assert (Hab : 0 <= a * b < 2 ^ 128) by nia.
  rewrite (Z.mod_small (a * b)) by exact Hab.
  pose proof (Z.div_mod (a * b) (2 ^ 64) ltac:(lia)) as E.
  pose proof (Z.mod_pos_bound (a * b) (2 ^ 64) ltac:(lia)) as Hm.
  repeat split; lia.
Qed.

(** For a 64-bit low word, [(High << 64) | Low] is [High * 2^64 + Low]. *)
Lemma lor_shiftl64 lo hi :
  is_u64 lo -> 0 <= hi -> Z.lor (Z.shiftl hi 64) lo = lo + 2 ^ 64 * hi.
Proof.
  unfold is_u64. intros Hlo Hhi.
  rewrite Z.shiftl_mul_pow2 by lia.
  rewrite <- Z.lxor_lor, <- Z.add_nocarry_lxor; try lia.
  - apply Z.bits_inj'. intros n Hn. rewrite Z.land_spec, Z.bits_0.
    destruct (Z.lt_ge_cases n 64) as [H | H].
    + rewrite Z.mul_pow2_bits_low by lia. reflexivity.
    + replace lo with (lo mod 2 ^ 64) by (apply Z.mod_small; lia).
      rewrite Z.mod_pow2_bits_high by lia. apply andb_false_r.
  - apply Z.bits_inj'. intros n Hn. rewrite Z.land_spec, Z.bits_0.
    destruct (Z.lt_ge_cases n 64) as [H | H].
    + rewrite Z.mul_pow2_bits_low by lia. reflexivity.
    + replace lo with (lo mod 2 ^ 64) by (apply Z.mod_small; lia).
      rewrite Z.mod_pow2_bits_high by lia. apply andb_false_r.
Qed.

Lemma land_u64_max a : 0 <= a -> Z.land a 0xFFFFFFFFFFFFFFFF = a mod 2 ^ 64.
Proof. intros Ha. change 0xFFFFFFFFFFFFFFFF with (Z.ones 64). apply Z.land_ones. lia. Qed.

Lemma land_low63 a : Z.land a 0x7FFFFFFFFFFFFFFF = a mod 2 ^ 63.
Proof. change 0x7FFFFFFFFFFFFFFF with (Z.ones 63). apply Z.land_ones. lia. Qed.

Lemma shr64_63 a : shr64 a 63 = a / 2 ^ 63.
Proof. unfold shr64. apply Z.shiftr_div_pow2. lia. Qed.

Lemma shr64_1 a : shr64 a 1 = a / 2.
Proof. unfold shr64. rewrite Z.shiftr_div_pow2 by lia. reflexivity. Qed.

Lemma not64_spec a : is_u64 a -> not64 a = 2 ^ 64 - 1 - a.
Proof.
  unfold is_u64, not64, UINT64_MAX. intros Ha.
  change 0xFFFFFFFFFFFFFFFF with (Z.ones 64).
  assert (Hd : Z.land a (Z.lxor a (Z.ones 64)) = 0).
  { apply Z.bits_inj'. intros n Hn.
    rewrite Z.land_spec, Z.lxor_spec, Z.bits_0.
    destruct (Z.lt_ge_cases n 64) as [H | H].
    - rewrite Z.ones_spec_low by lia. destruct (Z.testbit a n); reflexivity.
    - replace a with (a mod 2 ^ 64) by (apply Z.mod_small; lia).
      rewrite Z.mod_pow2_bits_high by lia. reflexivity. }
  apply Z.add_nocarry_lxor in Hd.
  rewrite <- Z.lxor_assoc in Hd.
  rewrite Z.lxor_nilpotent, Z.lxor_0_l in Hd. rewrite Z.ones_equiv in *. lia.
Qed.

(** The pair ([__shiftright128 lo hi 63], [hi >> 63]) holds the 128-bit value
    shifted right by 63. *)
Lemma shiftright128_63 lo hi :
  is_u64 lo -> is_u64 hi ->
  __shiftright128 lo hi 63 + 2 ^ 64 * shr64 hi 63 = (lo + 2 ^ 64 * hi) / 2 ^ 63
  /\ is_u64 (__shiftright128 lo hi 63) /\ 0 <= shr64 hi 63 <= 1.
Proof.
  unfold is_u64. intros Hlo Hhi. unfold __shiftright128.
  rewrite lor_shiftl64 by (unfold is_u64; lia).
  rewrite Z.shiftr_div_pow2 by lia.
  rewrite shr64_63.
  assert (Hq : 0 <= (lo + 2 ^ 64 * hi) / 2 ^ 63) by (apply Z.div_pos; lia).
  rewrite land_u64_max by exact Hq.
  pose proof (Z.mod_pos_bound ((lo + 2 ^ 64 * hi) / 2 ^ 63) (2 ^ 64) ltac:(lia)).
  assert (Hd : (lo + 2 ^ 64 * hi) / 2 ^ 63 / 2 ^ 64 = hi / 2 ^ 63).
  { rewrite Z.div_div by lia. rewrite <- (Z.div_div _ (2 ^ 64) (2 ^ 63)) by lia.
    f_equal. symmetry. apply Z.div_unique with (r := lo); lia. }
  pose proof (Z.div_mod ((lo + 2 ^ 64 * hi) / 2 ^ 63) (2 ^ 64) ltac:(lia)) as E.
  rewrite Hd in E.
  assert (0 <= hi / 2 ^ 63 <= 1).
  { split; [apply Z.div_pos; lia|].
    apply Z.lt_succ_r. apply Z.div_lt_upper_bound; lia. }
  lia.
Qed.

(** The pair ([__shiftright128 lo hi 1], [hi >> 1]) holds the 128-bit value
    halved. *)
Lemma shiftright128_1 lo hi :
  is_u64 lo -> is_u64 hi ->
  __shiftright128 lo hi 1 + 2 ^ 64 * shr64 hi 1 = (lo + 2 ^ 64 * hi) / 2
  /\ is_u64 (__shiftright128 lo hi 1) /\ 0 <= shr64 hi 1 < 2 ^ 63.
Proof.
  unfold is_u64. intros Hlo Hhi. unfold __shiftright128.
  rewrite lor_shiftl64 by (unfold is_u64; lia).
  rewrite Z.shiftr_div_pow2 by lia.
  rewrite shr64_1. change (2 ^ 1) with 2.
  assert (Hq : 0 <= (lo + 2 ^ 64 * hi) / 2) by (apply Z.div_pos; lia).
  rewrite land_u64_max by exact Hq.
  pose proof (Z.mod_pos_bound ((lo + 2 ^ 64 * hi) / 2) (2 ^ 64) ltac:(lia)).
  assert (Hd : (lo + 2 ^ 64 * hi) / 2 / 2 ^ 64 = hi / 2).
  { rewrite Z.div_div by lia. rewrite Z.mul_comm.
    rewrite <- (Z.div_div _ (2 ^ 64) 2) by lia.
    f_equal. symmetry. apply Z.div_unique with (r := lo); lia. }
  pose proof (Z.div_mod ((lo + 2 ^ 64 * hi) / 2) (2 ^ 64) ltac:(lia)) as E.
  rewrite Hd in E.
  assert (0 <= hi / 2 < 2 ^ 63).
  { split; [apply Z.div_pos; lia|]. apply Z.div_lt_upper_bound; lia. }
  lia.
Qed.

(** The pair ([lo << 1], [__shiftleft128 lo hi 1]) holds the 128-bit value
    doubled, when that still fits. *)
Lemma shiftleft128_1 lo hi :
  is_u64 lo -> is_u64 hi -> hi < 2 ^ 63 ->
  shl64 lo 1 + 2 ^ 64 * __shiftleft128 lo hi 1 = 2 * (lo + 2 ^ 64 * hi)
  /\ is_u64 (shl64 lo 1) /\ is_u64 (__shiftleft128 lo hi 1).
Proof.
  unfold is_u64. intros Hlo Hhi Hs. unfold __shiftleft128, shl64.
  rewrite u64_mod, u128_mod.
  rewrite lor_shiftl64 by (unfold is_u64; lia).
  rewrite !Z.shiftl_mul_pow2 by lia. change (2 ^ 1) with 2.
  rewrite (Z.mod_small ((lo + 2 ^ 64 * hi) * 2)) by lia.
  rewrite Z.shiftr_div_pow2 by lia.
  assert (Hq : 0 <= (lo + 2 ^ 64 * hi) * 2 / 2 ^ 64) by (apply Z.div_pos; lia).
  rewrite land_u64_max by exact Hq.
  assert (Hq2 : (lo + 2 ^ 64 * hi) * 2 / 2 ^ 64 < 2 ^ 64)
    by (apply Z.div_lt_upper_bound; lia).
  rewrite (Z.mod_small ((lo + 2 ^ 64 * hi) * 2 / 2 ^ 64)) by lia.
  pose proof (Z.mod_pos_bound (lo * 2) (2 ^ 64) ltac:(lia)).
  assert (Hd : (lo + 2 ^ 64 * hi) * 2 / 2 ^ 64 = 2 * hi + lo * 2 / 2 ^ 64).
  { replace ((lo + 2 ^ 64 * hi) * 2) with (lo * 2 + (2 * hi) * 2 ^ 64) by lia.
    rewrite Z.div_add by lia. lia. }
  pose proof (Z.div_mod (lo * 2) (2 ^ 64) ltac:(lia)) as E.
  lia.
Qed.

End WordFacts.

(** * Field arithmetic on 127-bit operands *)

Module FieldFacts.
Import WordFacts.

Ltac words := unfold is_u64 in *; lia.

(** Replace the next [_addcarry_u64] or [_subborrow_u64] call of the goal by
    its two results, with the full-adder equation as a hypothesis. *)
Ltac step_add :=
  match goal with
  | |- context [_addcarry_u64 ?ci ?a ?b] =>
    let H := fresh "Hadd" in
    let c := fresh "c" in
    let s := fresh "s" in
    assert (H := addcarry_spec ci a b);
    destruct (_addcarry_u64 ci a b) as [c s];
    specialize (H ltac:(words) ltac:(words) ltac:(words) ltac:(words));
    cbv beta iota
  end.

Ltac step_sub :=
  match goal with
  | |- context [_subborrow_u64 ?ci ?a ?b] =>
    let H := fresh "Hsub" in
    let c := fresh "c" in
    let s := fresh "s" in
    assert (H := subborrow_spec ci a b);
    destruct (_subborrow_u64 ci a b) as [c s];
    specialize (H ltac:(words) ltac:(words) ltac:(words) ltac:(words));
    cbv beta iota
  end.

Ltac step_mul :=
  match goal with
  | |- context [_umul128 ?a ?b] =>
    let H := fresh "Hmul" in
    let hi := fresh "hi" in
    let lo := fresh "lo" in
    assert (H := umul128_spec a b);
    destruct (_umul128 a b) as [hi lo];
    specialize (H ltac:(words) ltac:(words));
    cbv beta iota
  end.

(** Name quotient and remainder of a word by 2^63. *)
Ltac split63 x q r :=
  rewrite ?(shr64_63 x), ?(land_low63 x);
  pose proof (Z.div_mod x (2 ^ 63) ltac:(lia));
  pose proof (Z.mod_pos_bound x (2 ^ 63) ltac:(lia));
  set (q := x / 2 ^ 63) in *;
  set (r := x mod 2 ^ 63) in *;
  assert (0 <= q <= 1) by (unfold is_u64 in *; lia).

Lemma fe127_val a : fe127 a -> felm_ok a /\ 0 <= fval a <= p1271.
Proof.
  destruct a as [a0 a1]. unfold fe127, felm_ok, fval, is_u64, p1271. cbn [fst snd]. lia.
Qed.

Lemma fe127_of_val a : felm_ok a -> fval a <= p1271 -> fe127 a.
Proof.
  destruct a as [a0 a1]. unfold fe127, felm_ok, fval, is_u64, p1271. cbn [fst snd]. lia.
Qed.

Lemma fcanon_fe127 a : fcanon a -> fe127 a.
Proof.
  destruct a as [a0 a1]. unfold fcanon, fe127, felm_ok, fval, is_u64, p1271.
  cbn [fst snd]. lia.
Qed.

Lemma eqp_intro x y k : x = y + k * p1271 -> eqp x y.
Proof. intros ->. unfold eqp. apply Z.mod_add. unfold p1271. lia. Qed.

(** Addition: the 128-bit sum with its bit 127 folded back. *)
Lemma fpadd1271_val a b :
  fe127 a -> fe127 b ->
  fe127 (fpadd1271 a b) /\
  fval (fpadd1271 a b) =
    if fval a + fval b <? 2 ^ 127 then fval a + fval b
    else fval a + fval b - p1271.
Proof.
  destruct a as [a0 a1], b as [b0 b1].
  unfold fe127, fval, p1271. cbn [fst snd]. intros [Ha0 Ha1] [Hb0 Hb1].
  unfold fpadd1271.
  step_add. step_add.
  split63 s0 q r.
  step_add. step_add.
  unfold is_u64 in *. cbn [fst snd].
  destruct (Z.ltb_spec (a0 + 2 ^ 64 * a1 + (b0 + 2 ^ 64 * b1)) (2 ^ 127)); lia.
Qed.

(** Subtraction: the 128-bit difference with its borrow folded back. *)
Lemma fpsub1271_val a b :
  fe127 a -> fe127 b ->
  fe127 (fpsub1271 a b) /\
  fval (fpsub1271 a b) =
    if fval b <=? fval a then fval a - fval b
    else fval a - fval b + p1271.
Proof.
  destruct a as [a0 a1], b as [b0 b1].
  unfold fe127, fval, p1271. cbn [fst snd]. intros [Ha0 Ha1] [Hb0 Hb1].
  unfold fpsub1271.
  step_sub. step_sub.
  split63 s0 q r.
  step_sub. step_sub.
  unfold is_u64 in *. cbn [fst snd].
  destruct (Z.leb_spec (b0 + 2 ^ 64 * b1) (a0 + 2 ^ 64 * a1)); lia.
Qed.

Lemma fpneg1271_val a :
  fe127 a -> fe127 (fpneg1271 a) /\ fval (fpneg1271 a) = p1271 - fval a.
Proof.
  destruct a as [a0 a1].
  unfold fe127, fval, p1271, fpneg1271. cbn [fst snd]. intros [Ha0 Ha1].
  rewrite not64_spec by exact Ha0.
  rewrite u64_small by words.
  unfold is_u64 in *. lia.
Qed.

(** Name the two words of a 128-bit value shifted right by 63. *)
Ltac step_shr63 :=
  match goal with
  | |- context [__shiftright128 ?lo ?hi 63] =>
    let H := fresh "Hshr" in
    pose proof (shiftright128_63 lo hi ltac:(words) ltac:(words)) as H;
    pose proof (Z.div_mod (lo + 2 ^ 64 * hi) (2 ^ 63) ltac:(lia));
    pose proof (Z.mod_pos_bound (lo + 2 ^ 64 * hi) (2 ^ 63) ltac:(lia));
    let q := fresh "q" in
    let r := fresh "r" in
    let w := fresh "w" in
    let t := fresh "t" in
    set (q := (lo + 2 ^ 64 * hi) / 2 ^ 63) in *;
    set (r := (lo + 2 ^ 64 * hi) mod 2 ^ 63) in *;
    set (w := __shiftright128 lo hi 63) in *;
    set (t := shr64 hi 63) in *
  end.

(** Name the two words of a 128-bit value shifted left by 1. *)
Ltac step_shl1 :=
  match goal with
  | |- context [__shiftleft128 ?lo ?hi 1] =>
    let H := fresh "Hshl" in
    pose proof (shiftleft128_1 lo hi ltac:(words) ltac:(words) ltac:(words)) as H;
    let w := fresh "w" in
    let t := fresh "t" in
    set (w := __shiftleft128 lo hi 1) in *;
    set (t := shl64 lo 1) in *
  end.

(** Multiplication: the 254-bit product folded twice with 2^127 = 1; the
    result is the product minus a non-negative multiple of p. *)
Lemma fpmul1271_exact a b :
  fe127 a -> fe127 b ->
  fe127 (fpmul1271 a b) /\
  exists k, 0 <= k /\ fval (fpmul1271 a b) + k * p1271 = fval a * fval b.
Proof.
  destruct a as [a0 a1], b as [b0 b1].
  unfold fe127, fval, p1271. cbn [fst snd]. intros [Ha0 Ha1] [Hb0 Hb1].
  assert (B00 : 0 <= a0 * b0 <= (2 ^ 64 - 1) * (2 ^ 64 - 1)) by (unfold is_u64 in *; nia).
  assert (B01 : 0 <= a0 * b1 <= (2 ^ 64 - 1) * (2 ^ 63 - 1)) by (unfold is_u64 in *; nia).
  assert (B10 : 0 <= a1 * b0 <= (2 ^ 63 - 1) * (2 ^ 64 - 1)) by (unfold is_u64 in *; nia).
  assert (B11 : 0 <= a1 * b1 <= (2 ^ 63 - 1) * (2 ^ 63 - 1)) by (unfold is_u64 in *; nia).
  unfold fpmul1271.
  step_mul. step_mul. step_add. step_add.
  step_mul. step_add. step_add.
  step_mul. step_shl1. step_shr63.
  step_add. step_add.
  rewrite (land_low63 s1).
  pose proof (Z.div_mod s1 (2 ^ 63) ltac:(lia)).
  pose proof (Z.mod_pos_bound s1 (2 ^ 63) ltac:(lia)).
  set (q1 := s1 / 2 ^ 63) in *. set (r1 := s1 mod 2 ^ 63) in *.
  step_add. step_add.
  split63 s6 qM rM.
  step_add. step_add.
  unfold is_u64 in *. cbn [fst snd].
  split; [lia|].
  exists (q + 2 * (a1 * b1) + qM).
  unfold p1271. split; lia.
Qed.

Lemma fpmul1271_val a b :
  fe127 a -> fe127 b ->
  fe127 (fpmul1271 a b) /\ eqp (fval (fpmul1271 a b)) (fval a * fval b).
Proof.
  intros Ha Hb. destruct (fpmul1271_exact a b Ha Hb) as [Hr [k [_ Hk]]].
  split; [exact Hr|].
  apply eqp_intro with (k := - k). lia.
Qed.

(** Squaring: same folding as the multiplication. *)
Lemma fpsqr1271_val a :
  fe127 a ->
  fe127 (fpsqr1271 a) /\ eqp (fval (fpsqr1271 a)) (fval a * fval a).
Proof.
  destruct a as [a0 a1].
  unfold fe127, fval, p1271. cbn [fst snd]. intros [Ha0 Ha1].
  assert (B00 : 0 <= a0 * a0 <= (2 ^ 64 - 1) * (2 ^ 64 - 1)) by (unfold is_u64 in *; nia).
  assert (B01 : 0 <= a0 * a1 <= (2 ^ 64 - 1) * (2 ^ 63 - 1)) by (unfold is_u64 in *; nia).
  assert (B11 : 0 <= a1 * a1 <= (2 ^ 63 - 1) * (2 ^ 63 - 1)) by (unfold is_u64 in *; nia).
  unfold fpsqr1271.
  step_mul. step_mul. step_add. step_add.
  step_add. step_add.
  step_mul. step_shl1. step_shr63.
  step_add. step_add.
  rewrite (land_low63 s1).
  pose proof (Z.div_mod s1 (2 ^ 63) ltac:(lia)).
  pose proof (Z.mod_pos_bound s1 (2 ^ 63) ltac:(lia)).
  set (q1 := s1 / 2 ^ 63) in *. set (r1 := s1 mod 2 ^ 63) in *.
  step_add. step_add.
  split63 s6 qM rM.
  step_add. step_add.
  unfold is_u64 in *. cbn [fst snd].
  split; [lia|].
  apply eqp_intro with (k := - (q + 2 * (a1 * a1) + qM)).
  unfold p1271. lia.
Qed.

(** Canonicalisation: one conditional subtraction of p, on any two-word
    value below 2p. *)
Lemma mod1271_val a :
  floose a ->
  fcanon (mod1271 a) /\ fval (mod1271 a) = fval a mod p1271.
Proof.
  destruct a as [a0 a1].
  unfold floose, fcanon, felm_ok, fval, p1271. cbn [fst snd].
  intros [[Ha0 Ha1] Hlt].
  unfold mod1271.
  step_sub. step_sub.
  rewrite (shr64_63 s0).
  pose proof (Z.div_mod s0 (2 ^ 63) ltac:(lia)).
  pose proof (Z.mod_pos_bound s0 (2 ^ 63) ltac:(lia)).
  set (q := s0 / 2 ^ 63) in *. set (r := s0 mod 2 ^ 63) in *.
  assert (Hq : q = 0 \/ q = 1) by (unfold is_u64 in *; lia).
  destruct Hq as [Hq | Hq]; rewrite Hq in *.
  - change (u64 (0 - 0)) with 0. change (Z.land 0x7FFFFFFFFFFFFFFF 0) with 0.
    step_add. step_add. unfold is_u64 in *. cbn [fst snd].
    assert (E : a0 + 2 ^ 64 * a1 = (s1 + 2 ^ 64 * s2) + 1 * (2 ^ 127 - 1)) by lia.
    rewrite E, Z.mod_add, Z.mod_small by lia. lia.
  - change (u64 (0 - 1)) with 0xFFFFFFFFFFFFFFFF.
    change (Z.land 0x7FFFFFFFFFFFFFFF 0xFFFFFFFFFFFFFFFF) with 0x7FFFFFFFFFFFFFFF.
    step_add. step_add. unfold is_u64 in *. cbn [fst snd].
    rewrite (Z.mod_small (a0 + 2 ^ 64 * a1)) by lia. lia.
Qed.

(** Halving: add p to an odd value, then shift right by one. *)
Lemma fpdiv1271_val a :
  fe127 a ->
  fe127 (fpdiv1271 a) /\
  fval (fpdiv1271 a) =
    if Z.even (fval a) then fval a / 2 else (fval a + p1271) / 2.
Proof.
  destruct a as [a0 a1].
  unfold fe127, fval, p1271. cbn [fst snd]. intros [Ha0 Ha1].
  unfold fpdiv1271.
  assert (Hev : Z.even (a0 + 2 ^ 64 * a1) = Z.even a0).
  { rewrite Z.even_add_mul_even; [reflexivity|]. exists (2 ^ 63). reflexivity. }
  rewrite Hev.
  assert (Hb : Z.land 1 a0 = a0 mod 2).
  { rewrite Z.land_comm. change 1 with (Z.ones 1). rewrite Z.land_ones by lia.
    reflexivity. }
  rewrite Hb. rewrite Zeven_mod.
  pose proof (Z.mod_pos_bound a0 2 ltac:(lia)) as Hm.
  pose proof (Z.div_mod a0 2 ltac:(lia)) as Hd.
  destruct (Z.eqb_spec (a0 mod 2) 0) as [E | E].
  - rewrite E. change (u64 (0 - 0)) with 0. change (shr64 0 1) with 0.
    step_add. step_add.
    pose proof (shiftright128_1 s s0 ltac:(words) ltac:(words)) as Hs.
    assert (Es : s + 2 ^ 64 * s0 = a0 + 2 ^ 64 * a1) by (unfold is_u64 in *; lia).
    rewrite Es in Hs. cbn [fst snd].
    pose proof (Z.div_mod (a0 + 2 ^ 64 * a1) 2 ltac:(lia)).
    pose proof (Z.mod_pos_bound (a0 + 2 ^ 64 * a1) 2 ltac:(lia)).
    unfold is_u64 in *. lia.
  - assert (E1 : a0 mod 2 = 1) by lia. rewrite E1.
    change (u64 (0 - 1)) with 0xFFFFFFFFFFFFFFFF.
    change (shr64 0xFFFFFFFFFFFFFFFF 1) with 0x7FFFFFFFFFFFFFFF.
    step_add. step_add.
    pose proof (shiftright128_1 s s0 ltac:(words) ltac:(words)) as Hs.
    assert (Es : s + 2 ^ 64 * s0 = a0 + 2 ^ 64 * a1 + (2 ^ 127 - 1))
      by (unfold is_u64 in *; lia).
    rewrite Es in Hs. cbn [fst snd].
    pose proof (Z.div_mod (a0 + 2 ^ 64 * a1 + (2 ^ 127 - 1)) 2 ltac:(lia)).
    pose proof (Z.mod_pos_bound (a0 + 2 ^ 64 * a1 + (2 ^ 127 - 1)) 2 ltac:(lia)).
    unfold is_u64 in *. lia.
Qed.

(** ** Congruences *)

Lemma eqp_refl x : eqp x x.
Proof. reflexivity. Qed.

Lemma eqp_sym x y : eqp x y -> eqp y x.
Proof. unfold eqp. intros H. symmetry. exact H. Qed.

Lemma eqp_trans x y z : eqp x y -> eqp y z -> eqp x z.
Proof. unfold eqp. intros H1 H2. rewrite H1. exact H2. Qed.

Lemma eqp_mul x x' y y' : eqp x x' -> eqp y y' -> eqp (x * y) (x' * y').
Proof.
  unfold eqp. intros Hx Hy.
  rewrite (Z.mul_mod x y), (Z.mul_mod x' y'), Hx, Hy by (unfold p1271; lia).
  reflexivity.
Qed.

Lemma eqp_add x x' y y' : eqp x x' -> eqp y y' -> eqp (x + y) (x' + y').
Proof.
  unfold eqp. intros Hx Hy.
  rewrite (Z.add_mod x y), (Z.add_mod x' y'), Hx, Hy by (unfold p1271; lia).
  reflexivity.
Qed.

Lemma eqp_sub x x' y y' : eqp x x' -> eqp y y' -> eqp (x - y) (x' - y').
Proof.
  unfold eqp. intros Hx Hy.
  rewrite (Zminus_mod x y), (Zminus_mod x' y'), Hx, Hy. reflexivity.
Qed.

Lemma fpadd1271_eqp a b :
  fe127 a -> fe127 b ->
  fe127 (fpadd1271 a b) /\ eqp (fval (fpadd1271 a b)) (fval a + fval b).
Proof.
  intros Ha Hb. destruct (fpadd1271_val a b Ha Hb) as [H1 H2].
  split; [exact H1|]. rewrite H2.
  destruct (fval a + fval b <? 2 ^ 127); [apply eqp_refl|].
  apply eqp_intro with (k := -1). lia.
Qed.

Lemma fpsub1271_eqp a b :
  fe127 a -> fe127 b ->
  fe127 (fpsub1271 a b) /\ eqp (fval (fpsub1271 a b)) (fval a - fval b).
Proof.
  intros Ha Hb. destruct (fpsub1271_val a b Ha Hb) as [H1 H2].
  split; [exact H1|]. rewrite H2.
  destruct (fval b <=? fval a); [apply eqp_refl|].
  apply eqp_intro with (k := 1). lia.
Qed.

Lemma fpneg1271_eqp a :
  fe127 a -> fe127 (fpneg1271 a) /\ eqp (fval (fpneg1271 a)) (- fval a).
Proof.
  intros Ha. destruct (fpneg1271_val a Ha) as [H1 H2].
  split; [exact H1|]. rewrite H2. apply eqp_intro with (k := 1). lia.
Qed.

(** ** Powers *)

Lemma is_pow_mul a e f x y :
  is_pow a e x -> is_pow a f y -> is_pow a (e + f) (fpmul1271 x y).
Proof.
  intros [Hx Ex] [Hy Ey].
  destruct (fpmul1271_val x y Hx Hy) as [H1 H2].
  split; [exact H1|].
  eapply eqp_trans; [exact H2|].
  rewrite N2Z.inj_add, Z.pow_add_r by apply N2Z.is_nonneg.
  apply eqp_mul; assumption.
Qed.

Lemma is_pow_sqr a e x : is_pow a e x -> is_pow a (2 * e) (fpsqr1271 x).
Proof.
  intros [Hx Ex].
  destruct (fpsqr1271_val x Hx) as [H1 H2].
  split; [exact H1|].
  eapply eqp_trans; [exact H2|].
  replace (2 * e)%N with (e + e)%N by lia.
  rewrite N2Z.inj_add, Z.pow_add_r by apply N2Z.is_nonneg.
  apply eqp_mul; assumption.
Qed.

Lemma is_pow_sqr_n n a e x :
  is_pow a e x -> is_pow a (2 ^ N.of_nat n * e) (fpsqr1271_n n x).
Proof.
  revert e x. induction n as [|n IH]; intros e x Hx.
  - change (2 ^ N.of_nat 0)%N with 1%N. rewrite N.mul_1_l. exact Hx.
  - cbn [fpsqr1271_n].
    replace (2 ^ N.of_nat (S n) * e)%N with (2 ^ N.of_nat n * (2 * e))%N.
    + apply IH. apply is_pow_sqr. exact Hx.
    + rewrite Nat2N.inj_succ, N.pow_succ_r'. lia.
Qed.

Lemma is_pow_exp a e e' x : e = e' -> is_pow a e x -> is_pow a e' x.
Proof. intros ->. exact (fun H => H). Qed.

Lemma is_pow_1 a : fe127 a -> is_pow (fval a) 1 a.
Proof.
  intros Ha. split; [exact Ha|]. change (Z.of_N 1) with 1.
  rewrite Z.pow_1_r. apply eqp_refl.
Qed.

(** The addition chain of [fpexp1251] raises to the power 2^125 - 1. *)
Lemma fpexp1251_pow a :
  fe127 a -> is_pow (fval a) (2 ^ 125 - 1) (fpexp1251 a).
Proof.
  intros Ha. pose proof (is_pow_1 a Ha) as H1.
  unfold fpexp1251.
  pose proof (is_pow_mul _ _ _ _ _ H1 (is_pow_sqr _ _ _ H1)) as T2.
  set (t2 := fpmul1271 a (fpsqr1271 a)) in *.
  pose proof (is_pow_mul _ _ _ _ _ T2 (is_pow_sqr_n 2 _ _ _ T2)) as T3.
  cbn [fpsqr1271_n] in T3.
  set (t3 := fpmul1271 t2 (fpsqr1271 (fpsqr1271 t2))) in *.
  pose proof (is_pow_mul _ _ _ _ _ T3 (is_pow_sqr_n 4 _ _ _ T3)) as T4.
  cbn [fpsqr1271_n] in T4.
  set (t4 := fpmul1271 t3 (fpsqr1271 (fpsqr1271 (fpsqr1271 (fpsqr1271 t3))))) in *.
  pose proof (is_pow_mul _ _ _ _ _ T4
                (is_pow_sqr_n 7 _ _ _ (is_pow_sqr _ _ _ T4))) as T5.
  set (t5 := fpmul1271 t4 (fpsqr1271_n 7 (fpsqr1271 t4))) in *.
  pose proof (is_pow_mul _ _ _ _ _ T5
                (is_pow_sqr_n 15 _ _ _ (is_pow_sqr _ _ _ T5))) as T2'.
  set (t2' := fpmul1271 t5 (fpsqr1271_n 15 (fpsqr1271 t5))) in *.
  pose proof (is_pow_mul _ _ _ _ _ T2'
                (is_pow_sqr_n 31 _ _ _ (is_pow_sqr _ _ _ T2'))) as T1.
  set (t1 := fpmul1271 t2' (fpsqr1271_n 31 (fpsqr1271 t2'))) in *.
  pose proof (is_pow_mul _ _ _ _ _ (is_pow_sqr_n 32 _ _ _ T1) T2') as T1a.
  set (t1a := fpmul1271 (fpsqr1271_n 32 t1) t2') in *.
  pose proof (is_pow_mul _ _ _ _ _ T5 (is_pow_sqr_n 16 _ _ _ T1a)) as T1b.
  set (t1b := fpmul1271 t5 (fpsqr1271_n 16 t1a)) in *.
  pose proof (is_pow_mul _ _ _ _ _ T4 (is_pow_sqr_n 8 _ _ _ T1b)) as T1c.
  set (t1c := fpmul1271 t4 (fpsqr1271_n 8 t1b)) in *.
  pose proof (is_pow_mul _ _ _ _ _ T3 (is_pow_sqr_n 4 _ _ _ T1c)) as T1d.
  set (t1d := fpmul1271 t3 (fpsqr1271_n 4 t1c)) in *.
  pose proof (is_pow_mul _ _ _ _ _ H1 (is_pow_sqr _ _ _ T1d)) as T.
  revert T. apply is_pow_exp. vm_compute. reflexivity.
Qed.

(** ** Canonical elements *)

Lemma fval_inj a b : felm_ok a -> felm_ok b -> fval a = fval b -> a = b.
Proof.
  destruct a as [a0 a1], b as [b0 b1].
  unfold felm_ok, fval, is_u64. cbn [fst snd]. intros Ha Hb H.
  f_equal; lia.
Qed.

Lemma fe127_ok a : fe127 a -> felm_ok a.
Proof. intros H. apply fe127_val in H. tauto. Qed.

Lemma fe127_floose a : fe127 a -> floose a.
Proof.
  intros H. apply fe127_val in H. destruct H as [H1 H2].
  split; [exact H1|]. unfold p1271 in *. lia.
Qed.

Lemma fcanon_val a : fcanon a -> 0 <= fval a < p1271.
Proof.
  destruct a as [a0 a1]. unfold fcanon, felm_ok, fval, is_u64. cbn [fst snd]. lia.
Qed.

(** A 127-bit element whose value is not 0 modulo p is canonical. *)
Lemma fe127_nonzero_canon a :
  fe127 a -> fval a mod p1271 <> 0 -> fcanon a /\ fval a mod p1271 = fval a.
Proof.
  intros Ha Hnz. destruct (fe127_val a Ha) as [Hok Hr].
  assert (Hp : fval a <> p1271).
  { intros E. apply Hnz. rewrite E. apply Z.mod_same. unfold p1271. lia. }
  split; [split; [exact Hok | lia]|]. apply Z.mod_small. lia.
Qed.

Lemma fe127_eqp_canon a v :
  fe127 a -> eqp (fval a) v -> v mod p1271 <> 0 -> fval a = v mod p1271.
Proof.
  intros Ha He Hnz. unfold eqp in He.
  destruct (fe127_nonzero_canon a Ha) as [_ H]; [rewrite He; exact Hnz|].
  rewrite <- H. exact He.
Qed.

End FieldFacts.

(** * The field modulus 2^127 - 1 is prime *)

Module Primality.

(** ** Trial division *)

Lemma no_divisor_spec fuel n d :
  no_divisor fuel n d = true ->
  forall k, d <= k < d + Z.of_nat fuel -> n mod k <> 0.
Proof.
  revert d. induction fuel as [|fuel IH]; intros d H k Hk.
  - lia.
  - cbn [no_divisor] in H. apply andb_true_iff in H. destruct H as [H1 H2].
    destruct (Z.eq_dec k d) as [-> | Hne].
    + apply negb_true_iff in H1. apply Z.eqb_neq in H1. exact H1.
    + apply (IH (d + 1) H2). lia.
Qed.

Lemma prime_by_trial n fuel :
  1 < n -> no_divisor fuel n 2 = true ->
  n < (2 + Z.of_nat fuel) * (2 + Z.of_nat fuel) -> Z.prime n.
Proof.
  intros Hn Hnd Hsq. split; [exact Hn|].
  intros m Hm [c Hc].
  pose proof (no_divisor_spec fuel n 2 Hnd) as Hfree.
  assert (Hcpos : 1 < c) by nia.
  destruct (Z.lt_ge_cases m (2 + Z.of_nat fuel)) as [Hlt | Hge].
  - apply (Hfree m); [lia|]. rewrite Hc. apply Z.mod_mul. lia.
  - assert (Hclt : c < 2 + Z.of_nat fuel) by nia.
    apply (Hfree c); [lia|]. rewrite Hc, Z.mul_comm. apply Z.mod_mul. lia.
Qed.

(** ** Prime divisors *)

Lemma prime_divisor n : 1 < n -> exists r, Z.prime r /\ (r | n).
Proof.
  intros Hn. assert (H0 : 0 <= n) by lia. revert Hn.
  pattern n. apply Z_lt_induction; [|exact H0]. clear n H0.
  intros n IH Hn.
  destruct (prime_dec n) as [Hp | Hnp].
  - exists n. split; [apply prime_alt; exact Hp | apply Z.divide_refl].
  - destruct (not_prime_divide n Hn Hnp) as [d [Hd Hdn]].
    destruct (IH d ltac:(lia) ltac:(lia)) as [r [Hr Hrd]].
    exists r. split; [exact Hr|]. eapply Z.divide_trans; eassumption.
Qed.

Lemma small_prime_divisor n :
  1 < n -> ~ Z.prime n -> exists r, Z.prime r /\ (r | n) /\ r * r <= n.
Proof.
  intros Hn Hnp.
  assert (Hnp' : ~ prime n) by (intros H; apply Hnp, prime_alt; exact H).
  destruct (not_prime_divide n Hn Hnp') as [d [Hd [e He]]].
  assert (He1 : 1 < e) by nia.
  assert (Hs : exists s, 1 < s /\ (s | n) /\ s * s <= n).
  { destruct (Z.le_gt_cases d e) as [Hle | Hgt].
    - exists d. repeat split; [lia | exists e; exact He | nia].
    - exists e. repeat split; [lia | exists d; lia | nia]. }
  destruct Hs as [s [Hs1 [Hsn Hss]]].
  destruct (prime_divisor s Hs1) as [r [Hr Hrs]].
  exists r. split; [exact Hr|]. split; [eapply Z.divide_trans; eassumption|].
  pose proof (Z.prime_ge_2 _ Hr) as Hr2.
  assert (Hrle : r <= s) by (apply Z.divide_pos_le; [lia | exact Hrs]).
  nia.
Qed.

(** ** The Pocklington criterion, one prime factor of N - 1 at a time *)

Lemma pow_mod_1 x k r : 1 < r -> 0 <= k -> x mod r = 1 -> x ^ k mod r = 1.
Proof.
  intros Hr Hk Hx.
  rewrite <- Z.mod_pow_l, Hx, Z.pow_1_l by lia. apply Z.mod_1_l. exact Hr.
Qed.

Lemma bezout_nonneg q s :
  1 < q -> 0 < s -> Z.gcd q s = 1 ->
  exists u v, 0 <= u /\ 0 <= v /\ u * q = 1 + v * s.
Proof.
  intros Hq Hs Hg.
  destruct (Z.gcd_bezout q s 1 Hg) as [u [v Huv]].
  set (t := Z.abs u + Z.abs v + 1).
  exists (u + t * s), (t * q - v).
  assert (Ht : 0 < t) by (unfold t; lia).
  assert (Hu : Z.abs u <= t) by (unfold t; lia).
  assert (Hv : Z.abs v <= t) by (unfold t; lia).
  repeat split; [nia | nia | lia].
Qed.

Lemma pocklington_step N q m a r :
  1 < N -> Z.prime q -> 0 < m -> N - 1 = q * m ->
  Zpow_mod a (N - 1) N = 1 ->
  Z.gcd (Zpow_mod a m N - 1) N = 1 ->
  Z.prime r -> (r | N) -> (q | r - 1).
Proof.
  intros HN Hq Hm HNq Hpow Hgcd Hr HrN.
  pose proof (Z.prime_ge_2 _ Hr) as Hr2.
  pose proof (Z.prime_ge_2 _ Hq) as Hq2.
  rewrite Zpow_mod_correct in Hpow, Hgcd by lia.
  (* a^(N-1) = 1 modulo r *)
  assert (H1 : a ^ (N - 1) mod r = 1).
  { destruct HrN as [c Hc].
    pose proof (Z.div_mod (a ^ (N - 1)) N ltac:(lia)) as E.
    rewrite Hpow in E.
    set (k := a ^ (N - 1) / N) in E.
    assert (E' : a ^ (N - 1) = 1 + (c * k) * r) by nia.
    rewrite E', Z.mod_add by lia. apply Z.mod_1_l. lia. }
  assert (Ha : a mod r <> 0).
  { intros Ha0.
    rewrite <- Z.mod_pow_l, Ha0, Z.pow_0_l, Z.mod_0_l in H1 by lia. lia. }
  pose proof (ZmodInv.Z.fermat_nz r a Hr Ha) as HF.
  destruct (Z.BoolSpec_divide q (r - 1)) as [Hdiv | Hndiv]; [exact Hdiv|].
  exfalso.
  assert (Hcop : Z.gcd q (r - 1) = 1) by (apply Z.coprime_prime_l; assumption).
  destruct (bezout_nonneg q (r - 1) ltac:(lia) ltac:(lia) Hcop)
    as [u [v [Hu [Hv Huv]]]].
  (* a^m = 1 modulo r *)
  assert (Hm1 : a ^ m mod r = 1).
  { assert (E : a ^ (u * (N - 1)) = a ^ m * a ^ ((r - 1) * (v * m))).
    { rewrite <- Z.pow_add_r by nia. f_equal. nia. }
    assert (L : a ^ (u * (N - 1)) mod r = 1).
    { rewrite Z.mul_comm, Z.pow_mul_r by lia. apply pow_mod_1; [lia|lia|exact H1]. }
    assert (R : a ^ ((r - 1) * (v * m)) mod r = 1).
    { rewrite Z.pow_mul_r by nia. apply pow_mod_1; [lia|nia|exact HF]. }
    rewrite E, Z.mul_mod, R, Z.mul_1_r, Z.mod_mod in L by lia. exact L. }
  (* so r divides both a^m mod N - 1 and N *)
  assert (Hd : (r | a ^ m mod N - 1)).
  { destruct HrN as [c Hc].
    pose proof (Z.div_mod (a ^ m) N ltac:(lia)) as E.
    pose proof (Z.div_mod (a ^ m) r ltac:(lia)) as E'.
    rewrite Hm1 in E'.
    exists (a ^ m / r - c * (a ^ m / N)). nia. }
  assert (Hone : (r | 1)).
  { rewrite <- Hgcd. apply Z.gcd_greatest; assumption. }
  apply Z.divide_1_r_nonneg in Hone; lia.
Qed.

Lemma divide_mul_coprime a b c :
  (a | c) -> (b | c) -> Z.gcd b a = 1 -> (a * b | c).
Proof.
  intros [k Hk] Hb Hg. subst c.
  rewrite Z.mul_comm in Hb.
  apply Z.gauss in Hb; [|exact Hg].
  destruct Hb as [j Hj]. exists j. nia.
Qed.

(** ** The certificate for 2^127 - 1

    2^127 - 2 is divisible by the primes 77158673929, 649657 and 92737,
    whose product exceeds the square root of 2^127 - 1; 3 is a witness for
    each of them. *)

Lemma prime_92737 : Z.prime 92737.
Proof. apply (prime_by_trial _ 304); [lia | vm_compute; reflexivity | lia]. Qed.

Lemma prime_649657 : Z.prime 649657.
Proof. apply (prime_by_trial _ 805); [lia | vm_compute; reflexivity | lia]. Qed.

Lemma prime_77158673929 : Z.prime 77158673929.
Proof.
  apply (prime_by_trial _ (Z.to_nat 277774)).
  - lia.
  - vm_compute. reflexivity.
  - rewrite Z2Nat.id by lia. lia.
Qed.

Theorem prime_p1271 : Z.prime p1271.
Proof.
  destruct (prime_dec p1271) as [Hp | Hnp]; [apply prime_alt; exact Hp|].
  exfalso.
  assert (Hnp' : ~ Z.prime p1271) by (intros H; apply Hnp, prime_alt; exact H).
  assert (HN : 1 < p1271) by (unfold p1271; lia).
  destruct (small_prime_divisor p1271 HN Hnp') as [r [Hr [HrN Hrr]]].
  pose proof (Z.prime_ge_2 _ Hr) as Hr2.
  assert (H1 : (77158673929 | r - 1)).
  { apply (pocklington_step p1271 77158673929
             ((2 ^ 127 - 2) / 77158673929) 3 r);
      [ exact HN | exact prime_77158673929 | vm_compute; reflexivity
      | vm_compute; reflexivity | vm_compute; reflexivity
      | vm_compute; reflexivity | exact Hr | exact HrN ]. }
  assert (H2 : (649657 | r - 1)).
  { apply (pocklington_step p1271 649657 ((2 ^ 127 - 2) / 649657) 3 r);
      [ exact HN | exact prime_649657 | vm_compute; reflexivity
      | vm_compute; reflexivity | vm_compute; reflexivity
      | vm_compute; reflexivity | exact Hr | exact HrN ]. }
  assert (H3 : (92737 | r - 1)).
  { apply (pocklington_step p1271 92737 ((2 ^ 127 - 2) / 92737) 3 r);
      [ exact HN | exact prime_92737 | vm_compute; reflexivity
      | vm_compute; reflexivity | vm_compute; reflexivity
      | vm_compute; reflexivity | exact Hr | exact HrN ]. }
  assert (H12 : (77158673929 * 649657 | r - 1)).
  { apply divide_mul_coprime; [exact H1 | exact H2 | vm_compute; reflexivity]. }
  assert (H123 : (77158673929 * 649657 * 92737 | r - 1)).
  { apply divide_mul_coprime; [exact H12 | exact H3 | vm_compute; reflexivity]. }
  apply Z.divide_pos_le in H123; [|lia].
  unfold p1271 in Hrr. nia.
Qed.

End Primality.

(** * Field arithmetic: the statements *)

Module FieldClaims.
Import WordFacts FieldFacts Primality.

Lemma prime_not_divide_pow a e :
  0 <= e -> ~ (p1271 | a) -> ~ (p1271 | a ^ e).
Proof.
  intros He Ha. pattern e. apply natlike_ind; [| |exact He].
  - rewrite Z.pow_0_r. intros H. apply Z.divide_1_r_nonneg in H; unfold p1271 in *; lia.
  - intros k Hk IH H. rewrite Z.pow_succ_r in H by exact Hk.
    apply (Z.divide_prime_mul _ _ _ prime_p1271) in H. tauto.
Qed.

Lemma mod_nonzero_not_divide a : a mod p1271 <> 0 <-> ~ (p1271 | a).
Proof.
  rewrite <- Z.mod_divide by (unfold p1271; lia). tauto.
Qed.

(** C7.  For canonical [a] and [b]: [fpadd1271] and [fpmul1271] agree modulo
    p with the sum and the product of the integers; an element plus its
    negation is 0 modulo p; halving the double of an element gives the
    element back. *)
Theorem C7_field_operations (a b : felm_t) :
  fcanon a -> fcanon b ->
  eqp (fval (fpadd1271 a b)) (fval a + fval b) /\
  eqp (fval (fpmul1271 a b)) (fval a * fval b) /\
  eqp (fval (fpadd1271 a (fpneg1271 a))) 0 /\
  fpdiv1271 (fpadd1271 a a) = a.
Proof.
  intros Ha Hb.
  pose proof (fcanon_fe127 a Ha) as Fa. pose proof (fcanon_fe127 b Hb) as Fb.
  pose proof (fcanon_val a Ha) as Va.
  split; [apply fpadd1271_eqp; assumption|].
  split; [apply fpmul1271_val; assumption|].
  split.
  - destruct (fpneg1271_eqp a Fa) as [Fn En].
    destruct (fpadd1271_eqp a (fpneg1271 a) Fa Fn) as [_ E].
    eapply eqp_trans; [exact E|].
    replace 0 with (fval a + - fval a) by lia.
    apply eqp_add; [apply eqp_refl | exact En].
  - destruct (fpadd1271_val a a Fa Fa) as [Fd Ed].
    destruct (fpdiv1271_val _ Fd) as [Fh Eh].
    apply fval_inj; [apply fe127_ok; exact Fh | apply Ha|].
    rewrite Eh, Ed. unfold p1271 in *.
    destruct (Z.ltb_spec (fval a + fval a) (2 ^ 127)) as [H | H].
    + replace (fval a + fval a) with (2 * fval a) by lia.
      rewrite Z.even_mul. cbn [Z.even orb].
      rewrite Z.mul_comm, Z.div_mul by lia. reflexivity.
    + replace (fval a + fval a - (2 ^ 127 - 1))
        with (1 + 2 * (fval a - 2 ^ 126)) by lia.
      rewrite Z.even_add_mul_2. cbn [Z.even].
      replace (1 + 2 * (fval a - 2 ^ 126) + (2 ^ 127 - 1)) with (fval a * 2) by lia.
      apply Z.div_mul. lia.
Qed.

Lemma C7_field_operations_witness :
  (fcanon (5, 7) /\ fcanon (11, 13)) /\
  (eqp (fval (fpadd1271 (5, 7) (11, 13))) (fval (5, 7) + fval (11, 13)) /\
   eqp (fval (fpmul1271 (5, 7) (11, 13))) (fval (5, 7) * fval (11, 13)) /\
   eqp (fval (fpadd1271 (5, 7) (fpneg1271 (5, 7)))) 0 /\
   fpdiv1271 (fpadd1271 (5, 7) (5, 7)) = (5, 7)).
Proof.
  assert (H1 : fcanon (5, 7)) by (vm_compute; intuition discriminate).
  assert (H2 : fcanon (11, 13)) by (vm_compute; intuition discriminate).
  split; [split; assumption|].
  apply (C7_field_operations (5, 7) (11, 13)); assumption.
Defined.

(** C8.  For a canonical [a], [fpexp1251 a] is the canonical residue of
    [a ^ (2^125 - 1)] modulo p. *)
Theorem C8_fpexp1251_power (a : felm_t) :
  fcanon a -> fval (fpexp1251 a) = (fval a ^ (2 ^ 125 - 1)) mod p1271.
Proof.
  intros Ha. pose proof (fcanon_val a Ha) as Va.
  destruct (fpexp1251_pow a (fcanon_fe127 a Ha)) as [Fr Er].
  change (Z.of_N (2 ^ 125 - 1)) with (2 ^ 125 - 1) in Er.
  assert (He : 0 < 2 ^ 125 - 1) by reflexivity.
  set (e := 2 ^ 125 - 1) in *. clearbody e.
  destruct (Z.eq_dec (fval a) 0) as [Hz | Hnz].
  - assert (E : fpexp1251 a = (0, 0)).
    { replace a with ((0, 0) : felm_t); [vm_compute; reflexivity|].
      apply fval_inj; [vm_compute; intuition discriminate | apply Ha |].
      rewrite Hz. reflexivity. }
    rewrite E, Hz, Z.pow_0_l by exact He. reflexivity.
  - apply fe127_eqp_canon; [exact Fr | exact Er |].
    apply mod_nonzero_not_divide. apply prime_not_divide_pow; [lia|].
    apply mod_nonzero_not_divide. rewrite Z.mod_small by lia. exact Hnz.
Qed.

Lemma C8_fpexp1251_power_witness :
  fcanon (3, 0) /\
  fval (fpexp1251 (3, 0)) = (fval (3, 0) ^ (2 ^ 125 - 1)) mod p1271.
Proof.
  assert (H : fcanon (3, 0)) by (vm_compute; intuition discriminate).
  split; [exact H | apply (C8_fpexp1251_power (3, 0)); exact H].
Defined.

(** C10, as stated, fails: 2^127 is loosely reduced (below 2p), and
    [fpadd1271] of 2^127 and 2^127 is 0, which is not congruent to
    2^127 + 2^127 = 2 modulo p. *)
Lemma C10_loose_operands_counterexample :
  floose (0, 2 ^ 63) /\
  ~ eqp (fval (fpadd1271 (0, 2 ^ 63) (0, 2 ^ 63)))
        (fval (0, 2 ^ 63) + fval (0, 2 ^ 63)).
Proof.
  split.
  - vm_compute. intuition discriminate.
  - vm_compute. discriminate.
Qed.

(** C10, amended.  On 127-bit operands (values in [0, p]) each of add, sub,
    neg, mul and square returns a 127-bit result congruent modulo p to the
    exact result; [mod1271] maps every two-word value below 2p to its
    canonical residue in [0, p). *)
Theorem C10_field_invariant (a b c : felm_t) :
  fe127 a -> fe127 b -> floose c ->
  (fe127 (fpadd1271 a b) /\ eqp (fval (fpadd1271 a b)) (fval a + fval b)) /\
  (fe127 (fpsub1271 a b) /\ eqp (fval (fpsub1271 a b)) (fval a - fval b)) /\
  (fe127 (fpneg1271 a) /\ eqp (fval (fpneg1271 a)) (- fval a)) /\
  (fe127 (fpmul1271 a b) /\ eqp (fval (fpmul1271 a b)) (fval a * fval b)) /\
  (fe127 (fpsqr1271 a) /\ eqp (fval (fpsqr1271 a)) (fval a * fval a)) /\
  (fcanon (mod1271 c) /\ fval (mod1271 c) = fval c mod p1271).
Proof.
  intros Ha Hb Hc.
  split; [apply fpadd1271_eqp; assumption|].
  split; [apply fpsub1271_eqp; assumption|].
  split; [apply fpneg1271_eqp; assumption|].
  split; [apply fpmul1271_val; assumption|].
  split; [apply fpsqr1271_val; assumption|].
  apply mod1271_val; assumption.
Qed.

Lemma C10_field_invariant_witness :
  (fe127 (5, 7) /\ fe127 (11, 13) /\ floose (1, 2 ^ 63)) /\
  fcanon (mod1271 (1, 2 ^ 63)).
Proof.
  assert (H1 : fe127 (5, 7)) by (vm_compute; intuition discriminate).
  assert (H2 : fe127 (11, 13)) by (vm_compute; intuition discriminate).
  assert (H3 : floose (1, 2 ^ 63)) by (vm_compute; intuition discriminate).
  split; [split; [exact H1 | split; [exact H2 | exact H3]]|].
  apply (C10_field_invariant (5, 7) (11, 13) (1, 2 ^ 63) H1 H2 H3).
Defined.

End FieldClaims.

(** * Scalar decomposition: the statement *)

Module ScalarClaims.
Import WordFacts.

Lemma odd_u64 z : Z.odd (u64 z) = Z.odd z.
Proof.
  rewrite u64_mod, <- !Z.bit0_odd. apply Z.mod_pow2_bits_low. lia.
Qed.

Lemma land_1_odd z : (Z.land z 1 =? 0) = negb (Z.odd z).
Proof.
  change 1 with (Z.ones 1). rewrite Z.land_ones by lia.
  change (2 ^ 1) with 2. rewrite Zmod_odd.
  destruct (Z.odd z); reflexivity.
Qed.

(** C9.  For every scalar [k], the first sub-scalar of [decompose k] is
    odd: the lattice vector (B41, B42, B43, B44) is subtracted at most once,
    exactly when the first sub-scalar is even, and B41 is odd. *)
Theorem C9_decompose_first_odd (k : scalar_t) :
  Z.odd (sw (decompose k) 0) = true.
Proof.
  unfold decompose.
  set (a1 := mul_truncate k ell1). set (a2 := mul_truncate k ell2).
  set (a3 := mul_truncate k ell3). set (a4 := mul_truncate k ell4).
  set (s0 := u64 (a1 * B11 + a2 * B21 + a3 * B31 + a4 * B41 + C1 + sw k 0)).
  rewrite land_1_odd.
  destruct (Z.odd s0) eqn:Hodd; cbn [negb].
  - exact Hodd.
  - unfold sw at 1. cbn [nth].
    rewrite odd_u64, Z.odd_sub, Hodd. reflexivity.
Qed.

End ScalarClaims.

(** * KangarooTwelve: the statements *)

Module K12Claims.

(** An input shorter than one chunk is hashed by the single-node path. *)
Lemma KangarooTwelve_short (input : list Byte.byte) (n : nat) :
  Z.of_nat (length input) < K12_chunkSize ->
  KangarooTwelve input n = K12_single_node input n.
Proof.
  intros Hlen. unfold KangarooTwelve, K12_single_node.
  cbv zeta.
  assert (H1 : (K12_chunkSize <? Z.of_nat (length input)) = false).
  { apply Z.ltb_ge. lia. }
  rewrite H1.
  rewrite Nat2Z.id, firstn_all.
  assert (H2 : (Z.of_nat (length input) =? K12_chunkSize) = false).
  { apply Z.eqb_neq. lia. }
  rewrite H2. cbn [andb].
  change (negb (0 =? 0)) with false. cbv beta iota.
  destruct ((byteIOIndex (KangarooTwelve_F_Absorb zero_node input) + 1) mod 256
            =? K12_rateInBytes); reflexivity.
Qed.

(** An input of exactly one chunk is hashed by the tree path with one
    leaf. *)
Lemma KangarooTwelve_one_chunk (input : list Byte.byte) (n : nat) :
  Z.of_nat (length input) = K12_chunkSize ->
  KangarooTwelve input n = K12_one_chunk_tree input n.
Proof.
  intros Hlen. unfold KangarooTwelve, K12_one_chunk_tree.
  cbv zeta. rewrite Hlen.
  rewrite Z.ltb_irrefl, Z.eqb_refl, Z.sub_diag.
  rewrite <- Hlen, Nat2Z.id, firstn_all.
  change (0 =? 0) with true.
  cbn [andb negb]. cbv beta iota.
  change (negb (1 =? 0)) with true. cbv beta iota.
  change (1 + 1 - 1) with 1.
  destruct (close_leaf (close_first_chunk (KangarooTwelve_F_Absorb zero_node input))
              (mkF zero_state 1)) as [f q].
  reflexivity.
Qed.

(** C2, as stated, fails on an input of exactly one chunk: the hash of 8192
    zero bytes is not the single-node hash of that input; it is the hash of
    the tree with one leaf. *)
Lemma C2_one_chunk_counterexample :
  Z.of_nat (length zero_chunk) <= K12_chunkSize /\
  KangarooTwelve zero_chunk 32 <> K12_single_node zero_chunk 32 /\
  KangarooTwelve zero_chunk 32 = K12_one_chunk_tree zero_chunk 32.
Proof.
  split; [vm_compute; discriminate|].
  split.
  - intros H. vm_compute in H. discriminate H.
  - apply KangarooTwelve_one_chunk. vm_compute. reflexivity.
Qed.

(** C2, amended.  Every input strictly shorter than one chunk is hashed
    directly as a single node with the short-input suffix, without leaves;
    an input of exactly one chunk takes the tree path with one leaf. *)
Theorem C2_short_input_single_node (input : list Byte.byte) (n : nat) :
  Z.of_nat (length input) <= K12_chunkSize ->
  (Z.of_nat (length input) < K12_chunkSize ->
   KangarooTwelve input n = K12_single_node input n) /\
  (Z.of_nat (length input) = K12_chunkSize ->
   KangarooTwelve input n = K12_one_chunk_tree input n).
Proof.
  intros _. split.
  - apply KangarooTwelve_short.
  - apply KangarooTwelve_one_chunk.
Qed.

Lemma C2_short_input_single_node_witness :
  Z.of_nat (length zero32) < K12_chunkSize /\
  KangarooTwelve zero32 32 = K12_single_node zero32 32.
Proof.
  assert (H : Z.of_nat (length zero32) < K12_chunkSize) by (vm_compute; reflexivity).
  split; [exact H|].
  apply (C2_short_input_single_node zero32 32); [vm_compute; discriminate | exact H].
Defined.

(** The empty input and the published test vector for it. *)
Example KangarooTwelve_empty :
  map Z_of_byte (KangarooTwelve [] 32) =
  [0x1A; 0xC2; 0xD4; 0x50; 0xFC; 0x3B; 0x42; 0x05; 0xD1; 0x9D; 0xA7; 0xBF;
   0xCA; 0x1B; 0x37; 0x51; 0x3C; 0x08; 0x03; 0x57; 0x7A; 0xC7; 0x16; 0x7F;
   0x06; 0xFE; 0x2C; 0xE1; 0xF0; 0xEF; 0x39; 0xE5].
Proof. vm_compute. reflexivity. Qed.

End K12Claims.

(** * Byte buffers *)

Module ByteFacts.
Import WordFacts.

Lemma Z_of_byte_range b : 0 <= Z_of_byte b < 256.
Proof. destruct b; vm_compute; intuition discriminate. Qed.

Lemma le_int_range bs : 0 <= le_int bs < 256 ^ Z.of_nat (length bs).
Proof.
  induction bs as [|b bs IH].
  - cbn. lia.
  - cbn [le_int length]. rewrite Nat2Z.inj_succ, Z.pow_succ_r by lia.
    pose proof (Z_of_byte_range b). lia.
Qed.

Lemma le_int_app a b :
  le_int (a ++ b) = le_int a + 256 ^ Z.of_nat (length a) * le_int b.
Proof.
  induction a as [|x a IH].
  - cbn [app le_int length]. change (256 ^ Z.of_nat 0) with 1. lia.
  - cbn [app le_int length]. rewrite IH, Nat2Z.inj_succ, Z.pow_succ_r by lia. lia.
Qed.

(** Bit [j] of byte [i] is bit [8 i + j] of the little-endian integer. *)
Lemma le_int_testbit bs i j :
  0 <= j < 8 ->
  Z.testbit (le_int bs) (8 * Z.of_nat i + j) =
  Z.testbit (Z_of_byte (nth i bs Byte.x00)) j.
Proof.
  intros Hj. revert i. induction bs as [|b bs IH]; intros i.
  - cbn [le_int]. rewrite Z.bits_0. destruct i; cbn [nth];
      change (Z_of_byte Byte.x00) with 0; rewrite Z.bits_0; reflexivity.
  - cbn [le_int]. pose proof (Z_of_byte_range b) as Hb.
    assert (E : Z_of_byte b + 256 * le_int bs
                = Z.lor (Z.shiftl (le_int bs) 8) (Z_of_byte b)).
    { rewrite Z.shiftl_mul_pow2 by lia.
      rewrite <- Z.lxor_lor, <- Z.add_nocarry_lxor; try lia;
        apply Z.bits_inj'; intros n Hn; rewrite Z.land_spec, Z.bits_0;
        (destruct (Z.lt_ge_cases n 8) as [H | H];
         [ rewrite Z.mul_pow2_bits_low by lia; reflexivity
         | replace (Z_of_byte b) with (Z_of_byte b mod 2 ^ 8)
             by (apply Z.mod_small; lia);
           rewrite Z.mod_pow2_bits_high by lia; apply andb_false_r ]). }
    rewrite E, Z.lor_spec.
    destruct i as [|i].
    + cbn [nth]. rewrite Z.shiftl_spec_low by lia. reflexivity.
    + cbn [nth]. rewrite Z.shiftl_spec by lia.
      replace (8 * Z.of_nat (S i) + j - 8) with (8 * Z.of_nat i + j) by lia.
      rewrite IH.
      replace (Z_of_byte b) with (Z_of_byte b mod 2 ^ 8) by (apply Z.mod_small; lia).
      rewrite Z.mod_pow2_bits_high by lia. apply orb_false_r.
Qed.

Lemma byte_bit7 b :
  negb (Z.land (Z_of_byte b) 0x80 =? 0) = Z.testbit (Z_of_byte b) 7.
Proof. destruct b; reflexivity. Qed.

Lemma byte_top2 b :
  negb (Z.land (Z_of_byte b) 0xC0 =? 0) = (64 <=? Z_of_byte b).
Proof. destruct b; reflexivity. Qed.

Lemma nth_sub_bytes bs off len i :
  (i < len)%nat -> nth i (sub_bytes bs off len) Byte.x00 = nth (off + i) bs Byte.x00.
Proof.
  intros Hi. unfold sub_bytes.
  rewrite nth_firstn. destruct (Nat.ltb_spec i len) as [_ | H]; [|lia].
  apply nth_skipn.
Qed.

Lemma length_sub_bytes bs off len :
  (off + len <= length bs)%nat -> length (sub_bytes bs off len) = len.
Proof.
  intros H. unfold sub_bytes. rewrite length_firstn, length_skipn. lia.
Qed.

Lemma sub_bytes_all bs : sub_bytes bs 0 (length bs) = bs.
Proof. unfold sub_bytes. cbn [skipn]. apply firstn_all. Qed.

Lemma sub_bytes_full bs n : length bs = n -> sub_bytes bs 0 n = bs.
Proof. intros <-. apply sub_bytes_all. Qed.

(** Writing over the middle part of a buffer. *)
Lemma write_bytes_mid A B R src :
  length B = length src ->
  write_bytes (A ++ B ++ R) (length A) src = A ++ src ++ R.
Proof.
  intros HB. unfold write_bytes.
  rewrite firstn_app, Nat.sub_diag, firstn_all. cbn [firstn]. rewrite app_nil_r.
  f_equal. f_equal.
  rewrite skipn_app, skipn_all2 by lia. cbn [app].
  replace (length A + length src - length A)%nat with (length B) by lia.
  rewrite skipn_app, skipn_all, Nat.sub_diag. reflexivity.
Qed.

Lemma write_bytes_at A B R src off :
  length A = off -> length B = length src ->
  write_bytes (A ++ B ++ R) off src = A ++ src ++ R.
Proof. intros <-. apply write_bytes_mid. Qed.

Lemma write_bytes_head B R src :
  length B = length src -> write_bytes (B ++ R) 0 src = src ++ R.
Proof. intros H. exact (write_bytes_mid [] B R src H). Qed.

(** A buffer of [a + b] bytes splits into its first [a] bytes and the
    rest. *)
Lemma split_buffer (bs : list Byte.byte) a :
  (a <= length bs)%nat ->
  exists A R, bs = A ++ R /\ length A = a /\ length R = (length bs - a)%nat.
Proof.
  intros H. exists (firstn a bs), (skipn a bs).
  rewrite firstn_skipn, length_firstn, length_skipn. repeat split; lia.
Qed.

Lemma length_le_bytes n z : length (le_bytes n z) = n.
Proof.
  revert z. induction n as [|n IH]; intros z; cbn [le_bytes length];
    [reflexivity | rewrite IH; reflexivity].
Qed.

Lemma length_bytes_of_words4 a b c d : length (bytes_of_words [a; b; c; d]) = 32%nat.
Proof.
  unfold bytes_of_words. cbn [flat_map]. rewrite !length_app, !length_le_bytes.
  reflexivity.
Qed.

Lemma length_encode P : length (encode P) = 32%nat.
Proof.
  unfold encode.
  destruct (a_x P) as [[x00 x01] [x10 x11]].
  destruct (a_y P) as [[y00 y01] [y10 y11]].
  apply length_bytes_of_words4.
Qed.

End ByteFacts.

(** * The signature protocol: the statements *)

Module SignatureClaims.
Import WordFacts ByteFacts.

Lemma length_sign_commitment temp0 k d : length (sign_commitment temp0 k d) = 32%nat.
Proof. apply length_encode. Qed.

(** The contents of [temp] when the nonce is derived. *)
Lemma sign_temp_nonce_eq temp0 k d :
  length temp0 = 96%nat -> length k = 64%nat -> length d = 32%nat ->
  sign_temp_nonce temp0 k d = firstn 32 temp0 ++ sub_bytes k 32 32 ++ d.
Proof.
  intros Ht Hk Hd. unfold sign_temp_nonce, copy32.
  destruct (split_buffer temp0 32 ltac:(lia)) as [T1 [T23 [E1 [L1 L23]]]].
  destruct (split_buffer T23 32 ltac:(lia)) as [T2 [T3 [E2 [L2 L3]]]].
  subst temp0 T23.
  rewrite firstn_app, L1, Nat.sub_diag, firstn_all2 by lia.
  cbn [firstn]. rewrite app_nil_r.
  pose proof (length_sub_bytes k 32 32 ltac:(lia)) as LK.
  rewrite (write_bytes_at T1 T2 T3) by lia.
  rewrite (sub_bytes_full d 32 Hd).
  replace (T1 ++ sub_bytes k 32 32 ++ T3)
    with ((T1 ++ sub_bytes k 32 32) ++ T3 ++ []) by (rewrite app_nil_r, app_assoc; reflexivity).
  rewrite (write_bytes_at (T1 ++ sub_bytes k 32 32) T3 [])
    by (rewrite ?length_app; lia).
  rewrite app_nil_r, <- app_assoc. reflexivity.
Qed.

(** The bytes hashed for the challenge are the encoded commitment, the
    public key and the message digest, whatever [temp] held before. *)
Lemma sign_challenge_input_eq temp0 k pk d :
  length temp0 = 96%nat -> length k = 64%nat ->
  length pk = 32%nat -> length d = 32%nat ->
  sign_challenge_input temp0 k pk d = sign_commitment temp0 k d ++ pk ++ d.
Proof.
  intros Ht Hk Hp Hd.
  unfold sign_challenge_input, sign_temp_challenge, copy32.
  rewrite sign_temp_nonce_eq by assumption.
  pose proof (length_sign_commitment temp0 k d) as LC.
  set (C := sign_commitment temp0 k d) in *.
  pose proof (length_sub_bytes k 32 32 ltac:(lia)) as LK.
  assert (LT : length (firstn 32 temp0) = 32%nat) by (rewrite length_firstn; lia).
  rewrite (sub_bytes_full C 32 LC), (sub_bytes_full pk 32 Hp).
  rewrite write_bytes_head by lia.
  rewrite (write_bytes_at C (sub_bytes k 32 32) d) by lia.
  apply sub_bytes_full. rewrite !length_app. lia.
Qed.

(** C3, as stated, fails: the bytes hashed for the challenge are not the
    commitment followed by the public key alone; the 32 bytes of the message
    digest follow them. *)
Lemma C3_challenge_input_counterexample :
  sign_challenge_input (repeat Byte.x00 96) (repeat Byte.x00 64) zero32
                       (repeat Byte.xff 32)
  <> sign_commitment (repeat Byte.x00 96) (repeat Byte.x00 64) (repeat Byte.xff 32)
     ++ zero32.
Proof.
  rewrite sign_challenge_input_eq by reflexivity.
  intros H. apply app_inv_head in H.
  apply (f_equal (@length Byte.byte)) in H. discriminate H.
Qed.

(** The gate of [verify] tests exactly the reserved bits. *)
Lemma verify_gate_reserved pk sig :
  length pk = 32%nat -> length sig = 64%nat ->
  reserved_point_bit pk 0 \/ reserved_point_bit sig 0 \/ reserved_scalar_bits sig 32 ->
  verify_gate pk sig = true.
Proof.
  intros Hp Hs H. unfold verify_gate, byte_at.
  rewrite !byte_bit7, byte_top2.
  unfold reserved_point_bit, reserved_scalar_bits, int256_at in H.
  destruct H as [H | [H | H]].
  - change 127 with (8 * Z.of_nat 15 + 7) in H.
    rewrite le_int_testbit, nth_sub_bytes in H by lia.
    cbn [Nat.add] in H. rewrite H. reflexivity.
  - change 127 with (8 * Z.of_nat 15 + 7) in H.
    rewrite le_int_testbit, nth_sub_bytes in H by lia.
    cbn [Nat.add] in H. rewrite H. apply orb_true_iff. left.
    apply orb_true_iff. left. apply orb_true_r.
  - pose proof (length_sub_bytes sig 32 32 ltac:(lia)) as L.
    destruct (split_buffer (sub_bytes sig 32 32) 30 ltac:(lia)) as [A [R [E [LA LR]]]].
    assert (E30 : nth 30 (sub_bytes sig 32 32) Byte.x00 = nth 62 sig Byte.x00)
      by (rewrite nth_sub_bytes by lia; reflexivity).
    assert (E31 : nth 31 (sub_bytes sig 32 32) Byte.x00 = nth 63 sig Byte.x00)
      by (rewrite nth_sub_bytes by lia; reflexivity).
    rewrite E in H, E30, E31.
    rewrite app_nth2 in E30, E31 by lia. rewrite LA in E30, E31.
    cbn [Nat.sub] in E30, E31.
    destruct R as [|b30 [|b31 [|? ?]]]; cbn [length] in LR; try lia.
    cbn [nth] in E30, E31. subst b30 b31.
    rewrite le_int_app, LA in H. cbn [le_int] in H.
    pose proof (le_int_range A) as HA. rewrite LA in HA.
    pose proof (Z_of_byte_range (nth 62 sig Byte.x00)) as H62.
    pose proof (Z_of_byte_range (nth 63 sig Byte.x00)) as H63.
    change (256 ^ Z.of_nat 30) with (2 ^ 240) in *.
    destruct (Z.leb_spec 64 (Z_of_byte (nth 62 sig Byte.x00))) as [G | G].
    + rewrite orb_true_r. reflexivity.
    + destruct (Z.eqb_spec (Z_of_byte (nth 63 sig Byte.x00)) 0) as [G' | G'].
      * exfalso. lia.
      * rewrite orb_true_r. reflexivity.
Qed.

(** C5.  When a reserved bit is set in the public key, in the commitment
    half or in the response half of the signature, [verify] returns false
    without entering any of its stages: no decoding, no hashing, no scalar
    multiplication. *)
Theorem C5_reserved_bits_rejected (pk d sig : list Byte.byte) :
  length pk = 32%nat -> length sig = 64%nat ->
  reserved_point_bit pk 0 \/ reserved_point_bit sig 0 \/ reserved_scalar_bits sig 32 ->
  verify_traced pk d sig = (false, []) /\ verify pk d sig = false.
Proof.
  intros Hp Hs H. pose proof (verify_gate_reserved pk sig Hp Hs H) as G.
  unfold verify, verify_traced. rewrite G. split; reflexivity.
Qed.

Lemma C5_reserved_bits_rejected_witness :
  reserved_scalar_bits (repeat Byte.xff 64) 32 /\
  verify_traced zero32 zero32 (repeat Byte.xff 64) = (false, []).
Proof.
  assert (H : reserved_scalar_bits (repeat Byte.xff 64) 32)
    by (vm_compute; discriminate).
  split; [exact H|].
  apply (C5_reserved_bits_rejected zero32 zero32 (repeat Byte.xff 64));
    [reflexivity | reflexivity | right; right; exact H].
Defined.

(** [ecc_mul_double] fails exactly on the points that fail validation. *)
Lemma ecc_mul_double_None k l Q :
  ecc_mul_double k l Q = None <-> ecc_point_validate (point_setup Q) = false.
Proof.
  unfold ecc_mul_double.
  destruct (ecc_point_validate (point_setup Q)); cbn [negb]; split;
    intros H; try reflexivity; discriminate H.
Qed.

(** C6.  [ecc_mul_double] returns failure exactly when the validation of
    [Q] fails, whatever the scalars; [verify] returns false when the public
    key does not decode, and returns true only when both the decoding and
    the double-base multiplication have succeeded. *)
Theorem C6_mul_double_failure :
  (forall k l Q,
     ecc_mul_double k l Q = None <-> ecc_point_validate (point_setup Q) = false) /\
  (forall pk d sig, decode pk = None -> verify pk d sig = false) /\
  (forall pk d sig,
     verify pk d sig = true ->
     exists A R,
       decode pk = Some A /\
       ecc_mul_double (words_of_bytes 4 (skipn 32 sig))
                      (verify_challenge pk d sig) A = Some R).
Proof.
  split; [exact ecc_mul_double_None|]. split.
  - intros pk d sig H. unfold verify, verify_traced. rewrite H.
    destruct (verify_gate pk sig); reflexivity.
  - intros pk d sig H. unfold verify, verify_traced in H.
    destruct (verify_gate pk sig); [discriminate H|].
    destruct (decode pk) as [A|]; [|discriminate H].
    destruct (ecc_mul_double (words_of_bytes 4 (skipn 32 sig))
                (verify_challenge pk d sig) A) as [R|] eqn:E; [|discriminate H].
    exists A, R. split; [reflexivity | exact E].
Qed.

Lemma C6_mul_double_failure_witness :
  (decode pk_off_curve = None /\ verify pk_off_curve zero32 sig_zero = false) /\
  (verify pk_zero zero32 sig_zero = true /\
   exists A R,
     decode pk_zero = Some A /\
     ecc_mul_double (words_of_bytes 4 (skipn 32 sig_zero))
                    (verify_challenge pk_zero zero32 sig_zero) A = Some R).
Proof.
  assert (H1 : decode pk_off_curve = None) by (vm_compute; reflexivity).
  assert (H2 : verify pk_zero zero32 sig_zero = true) by (vm_compute; reflexivity).
  split.
  - split; [exact H1|].
    apply (proj1 (proj2 C6_mul_double_failure) pk_off_curve zero32 sig_zero H1).
  - split; [exact H2|].
    apply (proj2 (proj2 C6_mul_double_failure) pk_zero zero32 sig_zero H2).
Defined.

(** The signature of 32 zero bytes under the zero subseed verifies. *)
Example sign_verify_zero :
  verify (derivePublicKey zero32) zero32
         (sign zero32 (derivePublicKey zero32) zero32) = true.
Proof. vm_compute. reflexivity. Qed.

End SignatureClaims.

(** * The prime field GF(2^127 - 1) as a ring of residues *)

Module FpFacts.
Import Stdlib.Zmod.ZmodDef Stdlib.Zmod.ZmodBase Stdlib.Zmod.ZmodInv.
Import Primality.
Local Open Scope Zmod_scope.

Local Notation F := (Zmod p1271).

Lemma F_ring_theory :
  @ring_theory F Zmod.zero Zmod.one Zmod.add Zmod.mul Zmod.sub Zmod.opp eq.
Proof. apply Zmod.ring_theory. Qed.

Add Ring F_ring : F_ring_theory.

Lemma F_eq_dec (a b : F) : a = b \/ a <> b.
Proof. destruct (Zmod.eqb_spec a b); [left | right]; assumption. Qed.

Lemma F_mul_0 (a b : F) : a * b = 0 -> a = 0 \/ b = 0.
Proof. apply (Zmod.mul_0_iff_prime prime_p1271). Qed.

Lemma F_mul_nz (a b : F) : a <> 0 -> b <> 0 -> a * b <> 0.
Proof. intros Ha Hb H. destruct (F_mul_0 a b H); contradiction. Qed.

Lemma F_one_nz : (1 : F) <> 0.
Proof. apply Zmod.one_neq_zero. vm_compute. discriminate. Qed.

Lemma F_opp_one : Zmod.opp (1 : F) <> 1.
Proof. apply Zmod.opp_1_neq_1. vm_compute. discriminate. Qed.

Lemma F_two_nz : (1 + 1 : F) <> 0.
Proof.
  intros H. apply F_opp_one.
  transitivity (Zmod.opp 1 + (1 + 1 : F)); [rewrite H; ring | ring].
Qed.

Lemma F_sub_0 (a b : F) : a - b = 0 -> a = b.
Proof. intros H. transitivity ((a - b) + b); [ring | rewrite H; ring]. Qed.

Lemma F_opp_nz (a : F) : a <> 0 -> Zmod.opp a <> 0.
Proof. intros Ha H. apply Ha. transitivity (Zmod.opp (Zmod.opp a)); [ring | rewrite H; ring]. Qed.

Lemma F_cancel2 (a b : F) : a + a = b + b -> a = b.
Proof.
  intros H. apply F_sub_0.
  destruct (F_mul_0 (1 + 1) (a - b)) as [H2 | H2]; [| elim F_two_nz; exact H2 | exact H2].
  transitivity ((a + a) - (b + b)); [ring | rewrite H; ring].
Qed.

Lemma F_pow_sq (h : F) k : (0 <= k)%Z -> (h * h) ^ k = h ^ (k + k).
Proof.
  intros Hk. rewrite Zmod.pow_mul_l_nonneg by exact Hk.
  rewrite Zmod.pow_add_r_nonneg by exact Hk. reflexivity.
Qed.

Lemma F_pow_one k : (0 <= k)%Z -> (1 : F) ^ k = 1.
Proof.
  intros Hk. pattern k. apply natlike_ind; [reflexivity | | exact Hk].
  intros x Hx IH. rewrite Zmod.pow_succ_nonneg_r by exact Hx. rewrite IH. ring.
Qed.

(** An odd power of -1 is -1. *)
Lemma F_pow_opp_one k : (0 <= k)%Z -> (Zmod.opp 1 : F) ^ (k + k + 1) = Zmod.opp 1.
Proof.
  intros Hk.
  rewrite Zmod.pow_add_r_nonneg by lia.
  rewrite <- F_pow_sq by exact Hk.
  replace (Zmod.opp 1 * Zmod.opp 1 : F) with (1 : F) by ring.
  rewrite F_pow_one by exact Hk. rewrite Zmod.pow_1_r. ring.
Qed.

(** Euler's criterion, weak form: the power (p - 1) / 2 of a non-zero
    element is 1 or -1. *)
Lemma F_chi (a : F) :
  a <> 0 -> a ^ (2 ^ 126 - 1) = 1 \/ a ^ (2 ^ 126 - 1) = Zmod.opp 1.
Proof.
  intros Ha.
  pose proof (Zmod.fermat_nz a Ha prime_p1271) as Hf.
  replace (Z.pred p1271) with ((2 ^ 126 - 1) + (2 ^ 126 - 1))%Z in Hf by reflexivity.
  rewrite Zmod.pow_add_r_nonneg in Hf by (vm_compute; discriminate).
  set (e := a ^ (2 ^ 126 - 1)) in *.
  destruct (F_mul_0 (e - 1) (e + 1)) as [H | H].
  - transitivity (e * e - 1); [ring | rewrite Hf; ring].
  - left. apply F_sub_0. exact H.
  - right. apply F_sub_0. rewrite <- H. ring.
Qed.

(** -1 is not a square, since (p - 1) / 2 is odd. *)
Lemma F_not_sq (a : F) : a * a <> Zmod.opp 1.
Proof.
  intros H.
  assert (Ha : a <> 0).
  { intros Ha. rewrite Ha in H. apply (F_opp_nz 1 F_one_nz). rewrite <- H. ring. }
  pose proof (Zmod.fermat_nz a Ha prime_p1271) as Hf.
  replace (Z.pred p1271) with ((2 ^ 126 - 1) + (2 ^ 126 - 1))%Z in Hf by reflexivity.
  rewrite <- F_pow_sq in Hf by (vm_compute; discriminate).
  rewrite H in Hf.
  replace (2 ^ 126 - 1)%Z with ((2 ^ 125 - 1) + (2 ^ 125 - 1) + 1)%Z in Hf by reflexivity.
  rewrite F_pow_opp_one in Hf by (vm_compute; discriminate).
  exact (F_opp_one Hf).
Qed.

(** A sum of two squares vanishes only when both terms do. *)
Lemma F_sum_sq (a b : F) : a * a + b * b = 0 -> a = 0 /\ b = 0.
Proof.
  intros H.
  destruct (F_eq_dec b 0) as [Hb | Hb].
  - split; [| exact Hb]. rewrite Hb in H.
    destruct (F_mul_0 a a) as [Ha | Ha]; [| exact Ha | exact Ha].
    rewrite <- H. ring.
  - exfalso.
    pose proof (Zmod.mul_inv_same_l_prime b prime_p1271 Hb) as Hi.
    set (c := Zmod.inv b) in *.
    apply (F_not_sq (a * c)).
    transitivity ((a * a + b * b) * (c * c) - (c * b) * (c * b)); [ring |].
    rewrite H, Hi. ring.
Qed.

(** The square root candidate: (m^2)^((p + 1) / 4) = m * m^((p - 1) / 2). *)
Lemma F_sqrt_sq (m : F) : (m * m) ^ (2 ^ 125) = m * m ^ (2 ^ 126 - 1).
Proof.
  rewrite F_pow_sq by (vm_compute; discriminate).
  replace (2 ^ 125 + 2 ^ 125)%Z with (Z.succ (2 ^ 126 - 1)) by reflexivity.
  rewrite Zmod.pow_succ_nonneg_r by (vm_compute; discriminate). reflexivity.
Qed.

Lemma F_pow_sq_odd (h : F) : (h * h) ^ (2 ^ 125 - 1) * h = h ^ (2 ^ 126 - 1).
Proof.
  rewrite F_pow_sq by (vm_compute; discriminate).
  replace (2 ^ 126 - 1)%Z with (Z.succ (2 ^ 125 - 1 + (2 ^ 125 - 1))) by reflexivity.
  rewrite Zmod.pow_succ_nonneg_r by (vm_compute; discriminate). ring.
Qed.

Lemma F_pow_negsq_odd (h : F) :
  (Zmod.opp (h * h)) ^ (2 ^ 125 - 1) * h = Zmod.opp (h ^ (2 ^ 126 - 1)).
Proof.
  replace (Zmod.opp (h * h)) with (Zmod.opp 1 * (h * h)) by ring.
  rewrite Zmod.pow_mul_l_nonneg by (vm_compute; discriminate).
  replace (2 ^ 125 - 1)%Z with ((2 ^ 124 - 1) + (2 ^ 124 - 1) + 1)%Z at 1 by reflexivity.
  rewrite F_pow_opp_one by (vm_compute; discriminate).
  rewrite <- F_pow_sq_odd. ring.
Qed.

Lemma F_sq_0 (a : F) : a * a = 0 -> a = 0.
Proof. intros H. destruct (F_mul_0 a a H); assumption. Qed.

Lemma F_double_scale_0 (t c : F) : t <> 0 -> (1 + 1) * t * c = 0 -> c = 0.
Proof.
  intros Ht H. destruct (F_mul_0 _ _ H) as [H1 | H1]; [| exact H1].
  destruct (F_mul_0 _ _ H1) as [H2 | H2]; [elim F_two_nz; exact H2 | contradiction].
Qed.

(** ** The algebra of point decompression

    The curve equation -x^2 + y^2 = 1 + d x^2 y^2 over GF(p^2), written on
    the real and imaginary parts with yy = y^2: each of the two
    expressions below vanishes on the curve. *)
Notation curve_re d0 d1 x0 x1 yy0 yy1 :=
  ((yy0 - (x0 * x0 - x1 * x1)) -
   (1 + (d0 * ((x0 * x0 - x1 * x1) * yy0 - (x0 * x1 + x1 * x0) * yy1) -
         d1 * ((x0 * x0 - x1 * x1) * yy1 + (x0 * x1 + x1 * x0) * yy0))))
  (only parsing).
Notation curve_im d0 d1 x0 x1 yy0 yy1 :=
  ((yy1 - (x0 * x1 + x1 * x0)) -
   (d0 * ((x0 * x0 - x1 * x1) * yy1 + (x0 * x1 + x1 * x0) * yy0) +
    d1 * ((x0 * x0 - x1 * x1) * yy0 - (x0 * x1 + x1 * x0) * yy1)))
  (only parsing).

(** The denominator v = d y^2 + 1 of x^2 = (y^2 - 1) / (d y^2 + 1). *)
Notation den_re d0 d1 yy0 yy1 := (yy0 * d0 - yy1 * d1 + 1) (only parsing).
Notation den_im d0 d1 yy0 yy1 := (yy0 * d1 + yy1 * d0) (only parsing).

(** Two elements that agree up to sign. *)
Notation same_or_opp a b := (a%Zmod = b%Zmod \/ a%Zmod = Zmod.opp b%Zmod) (only parsing).

Section Decompression.
Variables d0 d1 x0 x1 yy0 yy1 : F.
Hypothesis Hd : d1 <> 0.
Hypothesis Hre : curve_re d0 d1 x0 x1 yy0 yy1 = 0.
Hypothesis Him : curve_im d0 d1 x0 x1 yy0 yy1 = 0.

(** On the curve u = x^2 v, for u = y^2 - 1. *)
Lemma num_re :
  yy0 - 1 = (x0 * x0 - x1 * x1) * den_re d0 d1 yy0 yy1
            - (x0 * x1 + x1 * x0) * den_im d0 d1 yy0 yy1.
Proof. apply F_sub_0. rewrite <- Hre. ring. Qed.

Lemma num_im :
  yy1 = (x0 * x0 - x1 * x1) * den_im d0 d1 yy0 yy1
        + (x0 * x1 + x1 * x0) * den_re d0 d1 yy0 yy1.
Proof. apply F_sub_0. rewrite <- Him. ring. Qed.

(** The denominator does not vanish on the curve, so neither does its
    norm. *)
Lemma den_norm_nz :
  den_re d0 d1 yy0 yy1 * den_re d0 d1 yy0 yy1
  + den_im d0 d1 yy0 yy1 * den_im d0 d1 yy0 yy1 <> 0.
Proof.
  intros H. destruct (F_sum_sq _ _ H) as [Hv0 Hv1].
  pose proof num_re as A0. pose proof num_im as A1.
  rewrite Hv0, Hv1 in A0, A1.
  assert (Hy0 : yy0 = 1) by (apply F_sub_0; rewrite A0; ring).
  assert (Hy1 : yy1 = 0) by (rewrite A1; ring).
  apply Hd. rewrite <- Hv1, Hy0, Hy1. ring.
Qed.

Variables T0 T1 T2 : F.
Hypothesis HT0 :
  T0 = den_re d0 d1 yy0 yy1 * den_re d0 d1 yy0 yy1
       + den_im d0 d1 yy0 yy1 * den_im d0 d1 yy0 yy1.
Hypothesis HT1 :
  T1 = (yy0 - 1) * den_re d0 d1 yy0 yy1 + yy1 * den_im d0 d1 yy0 yy1.
Hypothesis HT2 :
  T2 = yy1 * den_re d0 d1 yy0 yy1 - (yy0 - 1) * den_im d0 d1 yy0 yy1.

Lemma T0_nz : T0 <> 0.
Proof. rewrite HT0. exact den_norm_nz. Qed.

Lemma T1_eq : T1 = T0 * (x0 * x0 - x1 * x1).
Proof.
  apply F_sub_0.
  transitivity (curve_re d0 d1 x0 x1 yy0 yy1 * den_re d0 d1 yy0 yy1
                + curve_im d0 d1 x0 x1 yy0 yy1 * den_im d0 d1 yy0 yy1);
    [rewrite HT1, HT0; ring | rewrite Hre, Him; ring].
Qed.

Lemma T2_eq : T2 = T0 * (x0 * x1 + x1 * x0).
Proof.
  apply F_sub_0.
  transitivity (curve_im d0 d1 x0 x1 yy0 yy1 * den_re d0 d1 yy0 yy1
                - curve_re d0 d1 x0 x1 yy0 yy1 * den_im d0 d1 yy0 yy1);
    [rewrite HT2, HT0; ring | rewrite Hre, Him; ring].
Qed.

(** The square root of the norm of u v* and the choice of t: twice the
    square of one component of x, up to the factor T0. *)
Lemma sqrt_choice T3 T :
  T3 = (T1 * T1 + T2 * T2) ^ (2 ^ 125) ->
  (T1 + T3 <> 0 /\ T = T1 + T3) \/ (T1 + T3 = 0 /\ T = T1 - T3) ->
  (x0 = 0 /\ x1 = 0 /\ T = 0) \/
  (x0 <> 0 /\ T = (1 + 1) * T0 * (x0 * x0)) \/
  (x1 <> 0 /\ T = Zmod.opp ((1 + 1) * T0 * (x1 * x1))).
Proof.
  intros HT3 HT.
  pose proof T0_nz as Hnz. pose proof T1_eq as E1. pose proof T2_eq as E2.
  set (m := T0 * (x0 * x0 + x1 * x1)).
  assert (Hm : T1 * T1 + T2 * T2 = m * m) by (unfold m; rewrite E1, E2; ring).
  rewrite Hm, F_sqrt_sq in HT3.
  destruct (F_eq_dec (x0 * x0 + x1 * x1) 0) as [HN | HN].
  - destruct (F_sum_sq _ _ HN) as [Hx0 Hx1].
    left. split; [exact Hx0 | split; [exact Hx1 |]].
    assert (Z1 : T1 = 0) by (rewrite E1, Hx0, Hx1; ring).
    assert (Z3 : T3 = 0) by (rewrite HT3; unfold m; rewrite Hx0, Hx1; ring).
    destruct HT as [[_ ->] | [_ ->]]; rewrite Z1, Z3; ring.
  - assert (Hmnz : m <> 0) by (apply F_mul_nz; assumption).
    right.
    destruct (F_chi m Hmnz) as [He | He]; rewrite He in HT3.
    + assert (A : T1 + T3 = (1 + 1) * T0 * (x0 * x0))
        by (rewrite E1, HT3; unfold m; ring).
      destruct HT as [[Hn HT] | [Hz HT]].
      * left. split; [| rewrite HT; exact A].
        intros Hx0. apply Hn. rewrite A, Hx0. ring.
      * right. rewrite A in Hz.
        apply F_double_scale_0 in Hz; [| exact Hnz]. apply F_sq_0 in Hz.
        split.
        -- intros Hx1. apply HN. rewrite Hz, Hx1. ring.
        -- rewrite HT, E1, HT3. unfold m. rewrite Hz. ring.
    + assert (A : T1 + T3 = Zmod.opp ((1 + 1) * T0 * (x1 * x1)))
        by (rewrite E1, HT3; unfold m; ring).
      destruct HT as [[Hn HT] | [Hz HT]].
      * right. split; [| rewrite HT; exact A].
        intros Hx1. apply Hn. rewrite A, Hx1. ring.
      * left.
        assert (Hz' : (1 + 1) * T0 * (x1 * x1) = 0).
        { transitivity (Zmod.opp (T1 + T3)); [rewrite A; ring | rewrite Hz; ring]. }
        apply F_double_scale_0 in Hz'; [| exact Hnz]. apply F_sq_0 in Hz'.
        split.
        -- intros Hx0. apply HN. rewrite Hz', Hx0. ring.
        -- rewrite HT, E1, HT3. unfold m. rewrite Hz'. ring.
Qed.

(** The two candidates for the components of x, and the test that tells
    whether they come out swapped: each is a component of x up to sign. *)
Lemma candidates T S R X0a X0h X1a T1' :
  (x0 = 0 /\ x1 = 0 /\ T = 0) \/
  (x0 <> 0 /\ T = (1 + 1) * T0 * (x0 * x0)) \/
  (x1 <> 0 /\ T = Zmod.opp ((1 + 1) * T0 * (x1 * x1))) ->
  S = T + T ->
  R = (S * (T0 * (T0 * T0))) ^ (2 ^ 125 - 1) ->
  X0a = S * (T0 * R) ->
  T1' = T0 * (X0a * X0a) ->
  X0h + X0h = X0a ->
  X1a = T2 * (T0 * R) ->
  (S - T1' = 0 /\ same_or_opp X0h x0 /\ same_or_opp X1a x1) \/
  (S - T1' <> 0 /\ same_or_opp X1a x0 /\ same_or_opp X0h x1).
Proof.
  intros HT HS HR HX0a HT1' HX0h HX1a.
  pose proof T0_nz as Hnz. pose proof T2_eq as E2.
  destruct HT as [[Hx0 [Hx1 HT]] | [[Hx0 HT] | [Hx1 HT]]].
  - assert (S0 : S = 0) by (rewrite HS, HT; ring).
    assert (R0 : R = 0).
    { rewrite HR, S0. replace (0 * (T0 * (T0 * T0))) with (0 : F) by ring.
      apply Zmod.pow_0_l. vm_compute. discriminate. }
    assert (A0 : X0a = 0) by (rewrite HX0a, S0; ring).
    assert (Ah : X0h = 0) by (apply F_cancel2; rewrite HX0h, A0; ring).
    left. split; [rewrite HT1', S0, A0; ring |].
    split; left.
    + rewrite Ah, Hx0. reflexivity.
    + rewrite HX1a, R0, Hx1. ring.
  - set (h := (1 + 1) * (T0 * T0) * x0).
    assert (Hh : h <> 0).
    { unfold h. repeat apply F_mul_nz; try assumption. exact F_two_nz. }
    assert (HG : S * (T0 * (T0 * T0)) = h * h) by (unfold h; rewrite HS, HT; ring).
    rewrite HG in HR.
    assert (HRh : R * h = h ^ (2 ^ 126 - 1)) by (rewrite HR; apply F_pow_sq_odd).
    set (dl := h ^ (2 ^ 126 - 1)) in *.
    assert (Hdl : dl = 1 \/ dl = Zmod.opp 1) by (apply F_chi; exact Hh).
    assert (Hdl2 : dl * dl = 1) by (destruct Hdl as [-> | ->]; ring).
    assert (A0 : X0a = (1 + 1) * (x0 * dl)).
    { rewrite HX0a, HS, HT, <- HRh. unfold h. ring. }
    assert (Ah : X0h = x0 * dl) by (apply F_cancel2; rewrite HX0h, A0; ring).
    assert (A1 : X1a = x1 * dl).
    { rewrite HX1a, E2, <- HRh. unfold h. ring. }
    left. split.
    + rewrite HT1', A0, HS, HT.
      transitivity ((1 + 1) * (1 + 1) * T0 * (x0 * x0) * (1 - dl * dl)); [ring |].
      rewrite Hdl2. ring.
    + rewrite Ah, A1. destruct Hdl as [-> | ->]; split; solve [left; ring | right; ring].
  - set (h := (1 + 1) * (T0 * T0) * x1).
    assert (Hh : h <> 0).
    { unfold h. repeat apply F_mul_nz; try assumption. exact F_two_nz. }
    assert (HG : S * (T0 * (T0 * T0)) = Zmod.opp (h * h))
      by (unfold h; rewrite HS, HT; ring).
    rewrite HG in HR.
    assert (HRh : R * h = Zmod.opp (h ^ (2 ^ 126 - 1)))
      by (rewrite HR; apply F_pow_negsq_odd).
    set (dl := h ^ (2 ^ 126 - 1)) in *.
    assert (Hdl : dl = 1 \/ dl = Zmod.opp 1) by (apply F_chi; exact Hh).
    assert (Hdl2 : dl * dl = 1) by (destruct Hdl as [-> | ->]; ring).
    assert (A0 : X0a = (1 + 1) * (x1 * dl)).
    { rewrite HX0a, HS, HT.
      transitivity (Zmod.opp ((1 + 1) * x1 * (R * h))); [unfold h; ring |].
      rewrite HRh. ring. }
    assert (Ah : X0h = x1 * dl) by (apply F_cancel2; rewrite HX0h, A0; ring).
    assert (A1 : X1a = Zmod.opp (x0 * dl)).
    { rewrite HX1a, E2.
      transitivity (x0 * (R * h)); [unfold h; ring | rewrite HRh; ring]. }
    right. split.
    + rewrite HT1', A0, HS, HT.
      replace (Zmod.opp ((1 + 1) * T0 * (x1 * x1)) + Zmod.opp ((1 + 1) * T0 * (x1 * x1)) -
               T0 * ((1 + 1) * (x1 * dl) * ((1 + 1) * (x1 * dl))))
        with (Zmod.opp ((1 + 1) * ((1 + 1) * T0 * (x1 * x1)) * (1 + dl * dl))) by ring.
      rewrite Hdl2. apply F_opp_nz.
      repeat apply F_mul_nz; try assumption; exact F_two_nz.
    + rewrite Ah, A1. destruct Hdl as [-> | ->]; split; solve [left; ring | right; ring].
Qed.

End Decompression.

(** If a point and its conjugate in x both lie on the curve, one component
    of x vanishes. *)
Lemma conj_on_curve (d0 d1 x0 x1 yy0 yy1 : F) :
  d1 <> 0 ->
  curve_re d0 d1 x0 x1 yy0 yy1 = 0 -> curve_im d0 d1 x0 x1 yy0 yy1 = 0 ->
  curve_re d0 d1 x0 (Zmod.opp x1) yy0 yy1 = 0 ->
  curve_im d0 d1 x0 (Zmod.opp x1) yy0 yy1 = 0 ->
  x0 = 0 \/ x1 = 0.
Proof.
  intros Hd Hre Him Hre' Him'.
  pose proof (den_norm_nz d0 d1 x0 x1 yy0 yy1 Hd Hre Him) as Hn.
  set (xx1 := x0 * x1 + x1 * x0).
  assert (A : xx1 * ((1 + 1) * den_im d0 d1 yy0 yy1) = 0).
  { transitivity (curve_re d0 d1 x0 x1 yy0 yy1 - curve_re d0 d1 x0 (Zmod.opp x1) yy0 yy1).
    - unfold xx1. ring.
    - rewrite Hre, Hre'. ring. }
  assert (B : xx1 * ((1 + 1) * den_re d0 d1 yy0 yy1) = 0).
  { transitivity (curve_im d0 d1 x0 (Zmod.opp x1) yy0 yy1 - curve_im d0 d1 x0 x1 yy0 yy1).
    - unfold xx1. ring.
    - rewrite Him, Him'. ring. }
  destruct (F_eq_dec xx1 0) as [Hx | Hx].
  - unfold xx1 in Hx.
    assert (Hx' : (1 + 1) * x0 * x1 = 0) by (rewrite <- Hx; ring).
    destruct (F_mul_0 _ _ Hx') as [H1 | H1]; [| right; exact H1].
    destruct (F_mul_0 _ _ H1) as [H2 | H2]; [elim F_two_nz; exact H2 | left; exact H2].
  - exfalso. apply Hn.
    destruct (F_mul_0 _ _ A) as [| A']; [contradiction |].
    destruct (F_mul_0 _ _ B) as [| B']; [contradiction |].
    destruct (F_mul_0 _ _ A') as [H2 | ->]; [elim F_two_nz; exact H2 |].
    destruct (F_mul_0 _ _ B') as [H2 | ->]; [elim F_two_nz; exact H2 |].
    ring.
Qed.

End FpFacts.

(** * Point compression and decompression *)

Module DecodeFacts.
Import Stdlib.Zmod.ZmodDef Stdlib.Zmod.ZmodBase Stdlib.Zmod.ZmodInv.
Import WordFacts FieldFacts Primality FpFacts ByteFacts.

(** The residue class of a field element. *)
Local Notation fe a := (Zmod.of_Z p1271 (fval a)).

Lemma of_Z_eqp x y : eqp x y -> Zmod.of_Z p1271 x = Zmod.of_Z p1271 y.
Proof. intros H. apply Zmod.of_Z_inj. exact H. Qed.

Lemma eqp_of_Z x y : Zmod.of_Z p1271 x = Zmod.of_Z p1271 y -> eqp x y.
Proof. intros H. apply Zmod.of_Z_inj in H. exact H. Qed.

Lemma fe_add a b :
  fe127 a -> fe127 b ->
  fe127 (fpadd1271 a b) /\ fe (fpadd1271 a b) = (fe a + fe b)%Zmod.
Proof.
  intros Ha Hb. destruct (fpadd1271_eqp a b Ha Hb) as [H1 H2].
  split; [exact H1 |]. rewrite <- Zmod.of_Z_add. apply of_Z_eqp. exact H2.
Qed.

Lemma fe_sub a b :
  fe127 a -> fe127 b ->
  fe127 (fpsub1271 a b) /\ fe (fpsub1271 a b) = (fe a - fe b)%Zmod.
Proof.
  intros Ha Hb. destruct (fpsub1271_eqp a b Ha Hb) as [H1 H2].
  split; [exact H1 |]. rewrite <- Zmod.of_Z_sub. apply of_Z_eqp. exact H2.
Qed.

Lemma fe_neg a :
  fe127 a -> fe127 (fpneg1271 a) /\ fe (fpneg1271 a) = Zmod.opp (fe a).
Proof.
  intros Ha. destruct (fpneg1271_eqp a Ha) as [H1 H2].
  split; [exact H1 |]. rewrite <- Zmod.of_Z_opp. apply of_Z_eqp. exact H2.
Qed.

Lemma fe_mul a b :
  fe127 a -> fe127 b ->
  fe127 (fpmul1271 a b) /\ fe (fpmul1271 a b) = (fe a * fe b)%Zmod.
Proof.
  intros Ha Hb. destruct (fpmul1271_val a b Ha Hb) as [H1 H2].
  split; [exact H1 |]. rewrite <- Zmod.of_Z_mul. apply of_Z_eqp. exact H2.
Qed.

Lemma fe_sqr a :
  fe127 a -> fe127 (fpsqr1271 a) /\ fe (fpsqr1271 a) = (fe a * fe a)%Zmod.
Proof.
  intros Ha. destruct (fpsqr1271_val a Ha) as [H1 H2].
  split; [exact H1 |]. rewrite <- Zmod.of_Z_mul. apply of_Z_eqp. exact H2.
Qed.

Lemma fe_mod a : fe127 a -> fcanon (mod1271 a) /\ fe (mod1271 a) = fe a.
Proof.
  intros Ha. destruct (mod1271_val a (fe127_floose a Ha)) as [H1 H2].
  split; [exact H1 |]. rewrite H2. apply Zmod.of_Z_mod.
Qed.

Lemma fe_div a :
  fe127 a ->
  fe127 (fpdiv1271 a) /\ (fe (fpdiv1271 a) + fe (fpdiv1271 a))%Zmod = fe a.
Proof.
  intros Ha. destruct (fpdiv1271_val a Ha) as [H1 H2].
  split; [exact H1 |]. rewrite <- Zmod.of_Z_add. apply of_Z_eqp.
  destruct (fe127_val a Ha) as [_ Hr].
  destruct (Z.even (fval a)) eqn:He.
  - apply eqp_intro with (k := 0).
    apply Z.even_spec in He. destruct He as [k Hk]. rewrite H2, Hk.
    rewrite (Z.mul_comm 2 k), Z.div_mul by lia. lia.
  - apply eqp_intro with (k := 1).
    assert (Ho : Z.odd (fval a) = true) by (rewrite <- Z.negb_even, He; reflexivity).
    apply Z.odd_spec in Ho. destruct Ho as [k Hk]. rewrite H2, Hk.
    replace (2 * k + 1 + p1271) with ((k + 2 ^ 126) * 2) by (unfold p1271; lia).
    rewrite Z.div_mul by lia. unfold p1271. lia.
Qed.

Lemma fe_pow a e x :
  is_pow (fval a) e x -> fe127 x /\ fe x = (fe a ^ Z.of_N e)%Zmod.
Proof.
  intros [H1 H2]. split; [exact H1 |].
  rewrite <- Zmod.of_Z_pow by apply N2Z.is_nonneg. apply of_Z_eqp. exact H2.
Qed.

Lemma fe_exp a :
  fe127 a ->
  fe127 (fpexp1251 a) /\ fe (fpexp1251 a) = (fe a ^ (2 ^ 125 - 1))%Zmod.
Proof.
  intros Ha. exact (fe_pow a _ _ (fpexp1251_pow a Ha)).
Qed.

Lemma fe_sqr_125 a :
  fe127 a ->
  fe127 (fpsqr1271_n 125 a) /\ fe (fpsqr1271_n 125 a) = (fe a ^ (2 ^ 125))%Zmod.
Proof.
  intros Ha.
  exact (fe_pow a _ _ (is_pow_exp _ _ (2 ^ 125)%N _ eq_refl
                         (is_pow_sqr_n 125 _ _ _ (is_pow_1 a Ha)))).
Qed.

(** Zero test and equality on canonical elements. *)
Lemma fe_zero_iff a : fe127 a -> (fe a = 0%Zmod <-> fval a = 0 \/ fval a = p1271).
Proof.
  intros Ha. destruct (fe127_val a Ha) as [_ Hr].
  rewrite <- (Zmod.of_Z_0 p1271). rewrite Zmod.of_Z_inj.
  rewrite Zmod_0_l. split.
  - intros H. apply Z.mod_divide in H; [| unfold p1271; lia].
    destruct H as [k Hk]. unfold p1271 in *. nia.
  - intros [-> | ->]; [reflexivity | apply Z_mod_same_full].
Qed.

Lemma felm_is_zero_val a : felm_ok a -> (felm_is_zero a = true <-> fval a = 0).
Proof.
  destruct a as [a0 a1]. unfold felm_ok, is_u64, felm_is_zero, fval. cbn [fst snd].
  intros [H0 H1]. rewrite andb_true_iff, !Z.eqb_eq. lia.
Qed.

Lemma fe_zero_canon a : fcanon a -> (felm_is_zero a = true <-> fe a = 0%Zmod).
Proof.
  intros Ha. pose proof (fcanon_val a Ha) as Hr.
  rewrite (felm_is_zero_val a (proj1 Ha)).
  rewrite (fe_zero_iff a (fcanon_fe127 a Ha)). lia.
Qed.

Lemma fe_nz_canon a : fe127 a -> fe a <> 0%Zmod -> fcanon a.
Proof.
  intros Ha Hn. destruct (fe127_val a Ha) as [Hok Hr].
  split; [exact Hok |].
  assert (fval a <> p1271).
  { intros H. apply Hn. apply (fe_zero_iff a Ha). right. exact H. }
  lia.
Qed.

Lemma fe_inj_canon a b : fcanon a -> fcanon b -> fe a = fe b -> a = b.
Proof.
  intros Ha Hb H. apply fval_inj; [exact (proj1 Ha) | exact (proj1 Hb) |].
  apply Zmod.of_Z_inj in H.
  rewrite !Z.mod_small in H by (apply fcanon_val; assumption). exact H.
Qed.


(** ** The bytes of an encoded point *)

Lemma Z_of_byte_of_Z z : Z_of_byte (byte_of_Z z) = z mod 256.
Proof.
  unfold Z_of_byte, byte_of_Z.
  pose proof (Z.mod_pos_bound z 256 ltac:(lia)) as Hr.
  destruct (Byte.of_N (Z.to_N (z mod 256))) eqn:E.
  - apply Byte.to_of_N in E. rewrite E. rewrite Z2N.id; lia.
  - apply Byte.of_N_None_iff in E. lia.
Qed.

Lemma le_int_le_bytes n z :
  0 <= z < 256 ^ Z.of_nat n -> le_int (le_bytes n z) = z.
Proof.
  revert z. induction n as [| n IH]; intros z Hz.
  - cbn in *. lia.
  - cbn [le_bytes le_int]. rewrite Z_of_byte_of_Z.
    rewrite Nat2Z.inj_succ, Z.pow_succ_r in Hz by lia.
    rewrite IH.
    + pose proof (Z.div_mod z 256 ltac:(lia)). lia.
    + split; [apply Z.div_pos; lia | apply Z.div_lt_upper_bound; lia].
Qed.

Lemma word_le_bytes w : is_u64 w -> le_int (le_bytes 8 w) = w.
Proof. intros H. apply le_int_le_bytes. exact H. Qed.

Lemma words_of_encoding a b c d :
  is_u64 a -> is_u64 b -> is_u64 c -> is_u64 d ->
  word_at (bytes_of_words [a; b; c; d]) 0 = a /\
  word_at (bytes_of_words [a; b; c; d]) 1 = b /\
  word_at (bytes_of_words [a; b; c; d]) 2 = c /\
  word_at (bytes_of_words [a; b; c; d]) 3 = d /\
  Z.shiftr (byte_at (bytes_of_words [a; b; c; d]) 31) 7 = d / 2 ^ 63.
Proof.
  intros Ha Hb Hc Hd.
  repeat split.
  - change (word_at (bytes_of_words [a; b; c; d]) 0) with (le_int (le_bytes 8 a)).
    apply word_le_bytes; exact Ha.
  - change (word_at (bytes_of_words [a; b; c; d]) 1) with (le_int (le_bytes 8 b)).
    apply word_le_bytes; exact Hb.
  - change (word_at (bytes_of_words [a; b; c; d]) 2) with (le_int (le_bytes 8 c)).
    apply word_le_bytes; exact Hc.
  - change (word_at (bytes_of_words [a; b; c; d]) 3) with (le_int (le_bytes 8 d)).
    apply word_le_bytes; exact Hd.
  - change (byte_at (bytes_of_words [a; b; c; d]) 31)
      with (Z_of_byte (byte_of_Z (d / 256 / 256 / 256 / 256 / 256 / 256 / 256))).
    rewrite Z_of_byte_of_Z. rewrite !Z.div_div by lia.
    change (256 * 256 * 256 * 256 * 256 * 256 * 256) with (2 ^ 56).
    unfold is_u64 in Hd.
    rewrite Z.mod_small
      by (split; [apply Z.div_pos; lia | apply Z.div_lt_upper_bound; lia]).
    rewrite Z.shiftr_div_pow2 by lia. rewrite Z.div_div by lia. reflexivity.
Qed.

(** Bit 62 of the high word of a 127-bit element, moved to bit 63. *)
Lemma land_bit62 x :
  0 <= x < 2 ^ 63 -> Z.land x 0x4000000000000000 = 2 ^ 62 * Z.shiftr x 62.
Proof.
  intros Hx. apply Z.bits_inj'. intros n Hn.
  rewrite Z.land_spec.
  change 0x4000000000000000 with (2 ^ 62).
  rewrite Z.pow2_bits_eqb by lia.
  rewrite Z.mul_comm, <- Z.shiftl_mul_pow2 by lia.
  rewrite Z.shiftl_spec by lia.
  destruct (Z.eqb_spec 62 n) as [<- | Hne].
  - rewrite Z.shiftr_spec by lia. rewrite andb_true_r. reflexivity.
  - rewrite andb_false_r. symmetry.
    destruct (Z.ltb_spec n 62).
    + apply Z.testbit_neg_r. lia.
    + rewrite Z.shiftr_spec by lia.
      replace (n - 62 + 62) with n by lia.
      apply Z.bits_above_log2; [lia |].
      destruct (Z.eq_dec x 0) as [-> | Hx0]; [cbn; lia |].
      assert (2 ^ 63 <= 2 ^ n) by (apply Z.pow_le_mono_r; lia).
      apply Z.log2_lt_pow2; lia.
Qed.

Lemma shiftr62_range x : 0 <= x < 2 ^ 63 -> 0 <= Z.shiftr x 62 <= 1.
Proof.
  intros Hx. rewrite Z.shiftr_div_pow2 by lia.
  split; [apply Z.div_pos; lia |].
  assert (x / 2 ^ 62 < 2) by (apply Z.div_lt_upper_bound; lia). lia.
Qed.

Lemma sign_word y x :
  0 <= y < 2 ^ 63 -> 0 <= x < 2 ^ 63 ->
  let w := Z.lor y (shl64 (Z.land x 0x4000000000000000) 1) in
  is_u64 w /\ Z.land w 0x7FFFFFFFFFFFFFFF = y /\ w / 2 ^ 63 = Z.shiftr x 62.
Proof.
  intros Hy Hx. cbv zeta.
  pose proof (shiftr62_range x Hx) as Hq.
  rewrite land_bit62 by exact Hx.
  set (q := Z.shiftr x 62) in *.
  unfold shl64. rewrite Z.shiftl_mul_pow2 by lia.
  rewrite u64_small by (unfold is_u64; lia).
  replace (2 ^ 62 * q * 2 ^ 1) with (q * 2 ^ 63) by lia.
  rewrite <- Z.shiftl_mul_pow2 by lia.
  assert (Hdisj : Z.land (q * 2 ^ 63) y = 0).
  { apply Z.bits_inj'. intros n Hn. rewrite Z.land_spec, Z.bits_0.
    destruct (Z.lt_ge_cases n 63) as [H | H].
    - rewrite Z.mul_pow2_bits_low by lia. reflexivity.
    - replace y with (y mod 2 ^ 63) by (apply Z.mod_small; lia).
      rewrite Z.mod_pow2_bits_high by lia. apply andb_false_r. }
  assert (Hlor : Z.lor y (Z.shiftl q 63) = y + 2 ^ 63 * q).
  { rewrite Z.lor_comm. rewrite Z.shiftl_mul_pow2 by lia.
    rewrite <- Z.lxor_lor, <- Z.add_nocarry_lxor by exact Hdisj. lia. }
  rewrite Hlor. unfold is_u64. rewrite land_low63.
  split; [lia |]. split.
  - symmetry. apply Z.mod_unique_pos with (q := q); lia.
  - symmetry. apply Z.div_unique_pos with (r := y); lia.
Qed.

(** What [decode] reads back from the encoding of a canonical point. *)
Lemma encode_fields P :
  point_canon P ->
  word_at (encode P) 0 = fst (fst (a_y P)) /\
  word_at (encode P) 1 = snd (fst (a_y P)) /\
  word_at (encode P) 2 = fst (snd (a_y P)) /\
  Z.land (word_at (encode P) 3) 0x7FFFFFFFFFFFFFFF = snd (snd (a_y P)) /\
  Z.shiftr (byte_at (encode P) 31) 7 =
    Z.shiftr (snd (if felm_is_zero (fst (a_x P)) then snd (a_x P)
                   else fst (a_x P))) 62.
Proof.
  destruct P as [[[x00 x01] [x10 x11]] [[y00 y01] [y10 y11]]].
  unfold point_canon. cbn [a_x a_y fst snd].
  intros [Hx0 [Hx1 [Hy0 Hy1]]].
  apply fcanon_fe127 in Hx0, Hx1.
  pose proof (fcanon_fe127 _ Hy0) as Hy0'. pose proof (fcanon_fe127 _ Hy1) as Hy1'.
  unfold fe127 in *. cbn [fst snd] in *.
  unfold encode, felm_is_zero. cbn [a_x a_y fst snd].
  destruct ((x00 =? 0) && (x01 =? 0)).
  - destruct (sign_word y11 x11 (proj2 Hy1') (proj2 Hx1)) as [Hw [Hl Hs]].
    destruct (words_of_encoding y00 y01 y10 _ (proj1 Hy0')
                ltac:(unfold is_u64; lia) (proj1 Hy1') Hw)
      as [E0 [E1 [E2 [E3 E4]]]].
    rewrite E0, E1, E2, E3, E4. repeat split; assumption.
  - destruct (sign_word y11 x01 (proj2 Hy1') (proj2 Hx0)) as [Hw [Hl Hs]].
    destruct (words_of_encoding y00 y01 y10 _ (proj1 Hy0')
                ltac:(unfold is_u64; lia) (proj1 Hy1') Hw)
      as [E0 [E1 [E2 [E3 E4]]]].
    rewrite E0, E1, E2, E3, E4. repeat split; assumption.
Qed.


(** ** Field elements and the residues they represent *)

(** [a] is a 127-bit element representing the residue [v]. *)
Local Notation rep a v := (fe127 a /\ fe a = v).
Local Notation rep2 a v0 v1 := (rep (fst a) v0 /\ rep (snd a) v1).

Lemma rep_add a b va vb :
  rep a va -> rep b vb -> rep (fpadd1271 a b) (va + vb)%Zmod.
Proof.
  intros [Ha <-] [Hb <-]. exact (fe_add a b Ha Hb).
Qed.

Lemma rep_sub a b va vb :
  rep a va -> rep b vb -> rep (fpsub1271 a b) (va - vb)%Zmod.
Proof.
  intros [Ha <-] [Hb <-]. exact (fe_sub a b Ha Hb).
Qed.

Lemma rep_mul a b va vb :
  rep a va -> rep b vb -> rep (fpmul1271 a b) (va * vb)%Zmod.
Proof.
  intros [Ha <-] [Hb <-]. exact (fe_mul a b Ha Hb).
Qed.

Lemma rep_sqr a va : rep a va -> rep (fpsqr1271 a) (va * va)%Zmod.
Proof.
  intros [Ha <-]. exact (fe_sqr a Ha).
Qed.

Lemma rep_neg a va : rep a va -> rep (fpneg1271 a) (Zmod.opp va).
Proof.
  intros [Ha <-]. exact (fe_neg a Ha).
Qed.

Lemma rep2_sqr a v0 v1 :
  rep2 a v0 v1 ->
  rep2 (fp2sqr1271 a) ((v0 + v1) * (v0 - v1))%Zmod (v0 * v1 + v0 * v1)%Zmod.
Proof.
  destruct a as [a0 a1]. cbn [fst snd]. intros [H0 H1].
  unfold fp2sqr1271. cbn [fst snd]. split.
  - apply rep_mul; [apply rep_add | apply rep_sub]; assumption.
  - apply rep_add; apply rep_mul; assumption.
Qed.

Lemma rep2_mul a b v0 v1 w0 w1 :
  rep2 a v0 v1 -> rep2 b w0 w1 ->
  rep2 (fp2mul1271 a b) (v0 * w0 - v1 * w1)%Zmod
       ((v0 + v1) * (w0 + w1) - v0 * w0 - v1 * w1)%Zmod.
Proof.
  destruct a as [a0 a1], b as [b0 b1]. cbn [fst snd]. intros [H0 H1] [G0 G1].
  unfold fp2mul1271. cbn [fst snd]. split.
  - apply rep_sub; apply rep_mul; assumption.
  - apply rep_sub; [apply rep_sub |]; try (apply rep_mul; assumption).
    apply rep_mul; apply rep_add; assumption.
Qed.

Lemma rep2_add a b v0 v1 w0 w1 :
  rep2 a v0 v1 -> rep2 b w0 w1 ->
  rep2 (fp2add1271 a b) (v0 + w0)%Zmod (v1 + w1)%Zmod.
Proof.
  intros [H0 H1] [G0 G1]. unfold fp2add1271. cbn [fst snd].
  split; apply rep_add; assumption.
Qed.

Lemma rep2_sub a b v0 v1 w0 w1 :
  rep2 a v0 v1 -> rep2 b w0 w1 ->
  rep2 (fp2sub1271 a b) (v0 - w0)%Zmod (v1 - w1)%Zmod.
Proof.
  intros [H0 H1] [G0 G1]. unfold fp2sub1271. cbn [fst snd].
  split; apply rep_sub; assumption.
Qed.

Lemma rep2_one : rep2 f2_one 1%Zmod 0%Zmod.
Proof.
  cbn [f2_one f2_of_words fst snd]. unfold fe127, is_u64, fval. cbn [fst snd].
  repeat split; try lia.
Qed.

Lemma rep2_d : rep2 PARAMETER_d (fe (fst PARAMETER_d)) (fe (snd PARAMETER_d)).
Proof.
  unfold fe127, is_u64. cbn [PARAMETER_d f2_of_words fst snd].
  repeat split; try lia.
Qed.

Lemma d_im_nz : fe (snd PARAMETER_d) <> 0%Zmod.
Proof.
  apply Zmod.of_Z_nz. vm_compute. discriminate.
Qed.


(** ** The curve test *)

Lemma is_zero_or_ones_val c :
  fe127 c -> (is_zero_or_ones c = true <-> fval c = 0).
Proof.
  destruct c as [c0 c1]. unfold fe127, is_u64, is_zero_or_ones, fval.
  cbn [fst snd]. intros [H0 H1].
  rewrite orb_true_iff, !Z.eqb_eq, !Z.lor_eq_0_iff.
  rewrite (u64_small (c1 + 1)) by (unfold is_u64; lia). lia.
Qed.

Lemma fpsub1271_p a b :
  fe127 a -> fe127 b -> fval (fpsub1271 a b) = p1271 ->
  fval a = p1271 /\ fval b = 0.
Proof.
  intros Ha Hb H. destruct (fpsub1271_val a b Ha Hb) as [_ Hv].
  destruct (fe127_val a Ha) as [_ Ra]. destruct (fe127_val b Hb) as [_ Rb].
  rewrite H in Hv. destruct (fval b <=? fval a) eqn:E.
  - apply Z.leb_le in E. lia.
  - apply Z.leb_gt in E. lia.
Qed.

Lemma fpadd1271_one_pos a : fe127 a -> fval (fpadd1271 a (1, 0)) <> 0.
Proof.
  intros Ha.
  assert (H1 : fe127 (1, 0)) by (unfold fe127, is_u64; cbn [fst snd]; lia).
  destruct (fpadd1271_val a (1, 0) Ha H1) as [_ Hv].
  destruct (fe127_val a Ha) as [_ Ra].
  change (fval (1, 0)) with 1 in Hv. rewrite Hv.
  unfold p1271 in *. destruct (fval a + 1 <? 2 ^ 127) eqn:E.
  - lia.
  - apply Z.ltb_ge in E. lia.
Qed.

Lemma fpadd1271_double_p a :
  fe127 a -> fval (fpadd1271 a a) = p1271 -> fval a = p1271.
Proof.
  intros Ha H. destruct (fpadd1271_val a a Ha Ha) as [_ Hv].
  destruct (fe127_val a Ha) as [_ Ra].
  rewrite H in Hv. unfold p1271 in *.
  destruct (fval a + fval a <? 2 ^ 127); lia.
Qed.

(** A product of canonical elements is never the second representation
    of zero. *)
Lemma fpmul1271_canon_p a b :
  fcanon a -> fcanon b -> fval (fpmul1271 a b) <> p1271.
Proof.
  intros Ha Hb H.
  pose proof (fcanon_fe127 a Ha) as Ha'. pose proof (fcanon_fe127 b Hb) as Hb'.
  destruct (fpmul1271_exact a b Ha' Hb') as [Hr [k [Hk He]]].
  destruct (fe_mul a b Ha' Hb') as [_ Hm].
  assert (Hz : fe (fpmul1271 a b) = 0%Zmod).
  { apply (fe_zero_iff _ Hr). right. exact H. }
  rewrite Hm in Hz.
  pose proof (fcanon_val a Ha) as Ra. pose proof (fcanon_val b Hb) as Rb.
  assert (Hab : fval a = 0 \/ fval b = 0).
  { destruct (F_mul_0 _ _ Hz) as [Hz' | Hz'];
      apply fe_zero_iff in Hz'; try assumption; lia. }
  rewrite H in He. unfold p1271 in *. destruct Hab as [E | E]; rewrite E in He; nia.
Qed.

(** The residues of y^2 for y = y0 + y1 i. *)
Local Notation sq_re y0 y1 := (fe y0 * fe y0 - fe y1 * fe y1)%Zmod (only parsing).
Local Notation sq_im y0 y1 := (fe y0 * fe y1 + fe y1 * fe y0)%Zmod (only parsing).
Local Notation d_re := (fe (fst PARAMETER_d)).
Local Notation d_im := (fe (snd PARAMETER_d)).

(** [ecc_point_validate] accepts exactly the points on the curve, for x
    in any 127-bit representation and canonical y. *)
Lemma validate_spec (R : point_extproj_t) x0 x1 :
  rep2 (e_x R) x0 x1 -> fcanon (fst (e_y R)) -> fcanon (snd (e_y R)) ->
  (ecc_point_validate R = true <->
   curve_re d_re d_im x0 x1
            (sq_re (fst (e_y R)) (snd (e_y R))) (sq_im (fst (e_y R)) (snd (e_y R)))
     = 0%Zmod /\
   curve_im d_re d_im x0 x1
            (sq_re (fst (e_y R)) (snd (e_y R))) (sq_im (fst (e_y R)) (snd (e_y R)))
     = 0%Zmod).
Proof.
  destruct R as [[xa xb] [y0 y1] z ta tb]. cbn [e_x e_y fst snd].
  intros Hx Hy0 Hy1.
  pose proof (fcanon_fe127 _ Hy0) as Hy0'. pose proof (fcanon_fe127 _ Hy1) as Hy1'.
  assert (Hy : rep2 (y0, y1) (fe y0) (fe y1)) by (cbn [fst snd]; auto).
  pose proof (rep2_sqr (y0, y1) _ _ Hy) as Hyy.
  pose proof (rep2_sqr (xa, xb) _ _ Hx) as Hxx.
  pose proof (rep2_sub _ _ _ _ _ _ Hyy Hxx) as H3.
  pose proof (rep2_mul _ _ _ _ _ _ Hyy Hxx) as Hm.
  pose proof (rep2_mul _ _ _ _ _ _ Hm rep2_d) as Hmd.
  pose proof (rep2_add _ _ _ _ _ _ Hmd rep2_one) as Ha.
  pose proof (rep2_sub _ _ _ _ _ _ H3 Ha) as Hf.
  unfold ecc_point_validate. cbv zeta. cbn [e_x e_y].
  destruct Hf as [[F0 E0] [F1 E1]].
  rewrite andb_true_iff, (is_zero_or_ones_val _ F0), (is_zero_or_ones_val _ F1).
  split.
  - intros [Z0 Z1]. split.
    + transitivity (fe (fst (fp2sub1271
          (fp2sub1271 (fp2sqr1271 (y0, y1)) (fp2sqr1271 (xa, xb)))
          (fp2add1271
             (fp2mul1271 (fp2mul1271 (fp2sqr1271 (y0, y1)) (fp2sqr1271 (xa, xb)))
                PARAMETER_d) f2_one)))).
      * rewrite E0. ring.
      * rewrite Z0. apply Zmod.of_Z_0.
    + transitivity (fe (snd (fp2sub1271
          (fp2sub1271 (fp2sqr1271 (y0, y1)) (fp2sqr1271 (xa, xb)))
          (fp2add1271
             (fp2mul1271 (fp2mul1271 (fp2sqr1271 (y0, y1)) (fp2sqr1271 (xa, xb)))
                PARAMETER_d) f2_one)))).
      * rewrite E1. ring.
      * rewrite Z1. apply Zmod.of_Z_0.
  - intros [C0 C1].
    destruct H3 as [[G0 _] [G1 _]]. destruct Ha as [[K0 _] [K1 _]].
    destruct Hmd as [[M0 _] [M1 _]].
    split.
    + assert (Hz : fe (fst (fp2sub1271
          (fp2sub1271 (fp2sqr1271 (y0, y1)) (fp2sqr1271 (xa, xb)))
          (fp2add1271
             (fp2mul1271 (fp2mul1271 (fp2sqr1271 (y0, y1)) (fp2sqr1271 (xa, xb)))
                PARAMETER_d) f2_one))) = 0%Zmod).
      { etransitivity; [| exact C0]. rewrite E0. ring. }
      apply (fe_zero_iff _ F0) in Hz. destruct Hz as [Hz | Hz]; [exact Hz | exfalso].
      apply fpsub1271_p in Hz; [| exact G0 | exact K0].
      destruct Hz as [_ Hz]. revert Hz. apply fpadd1271_one_pos. exact M0.
    + assert (Hz : fe (snd (fp2sub1271
          (fp2sub1271 (fp2sqr1271 (y0, y1)) (fp2sqr1271 (xa, xb)))
          (fp2add1271
             (fp2mul1271 (fp2mul1271 (fp2sqr1271 (y0, y1)) (fp2sqr1271 (xa, xb)))
                PARAMETER_d) f2_one))) = 0%Zmod).
      { etransitivity; [| exact C1]. rewrite E1. ring. }
      apply (fe_zero_iff _ F1) in Hz. destruct Hz as [Hz | Hz]; [exact Hz | exfalso].
      apply fpsub1271_p in Hz; [| exact G1 | exact K1].
      destruct Hz as [Hz _].
      destruct Hyy as [_ [Y1 _]]. destruct Hxx as [_ [X1 _]].
      apply fpsub1271_p in Hz; [| exact Y1 | exact X1].
      destruct Hz as [Hz _].
      apply fpadd1271_double_p in Hz; [| apply fpmul1271_val; assumption].
      revert Hz. apply fpmul1271_canon_p; assumption.
Qed.


(** The curve equation on residues, for a point with coordinates
    x = x0 + x1 i (residues) and y = y0 + y1 i (field elements). *)
Local Notation on_curve_F x0 x1 y0 y1 :=
  (curve_re d_re d_im x0 x1 (sq_re y0 y1) (sq_im y0 y1) = 0%Zmod /\
   curve_im d_re d_im x0 x1 (sq_re y0 y1) (sq_im y0 y1) = 0%Zmod)
  (only parsing).

Lemma F_eq_sub (a b : Zmod p1271) : a = b -> (a - b)%Zmod = 0%Zmod.
Proof. intros ->. ring. Qed.

Lemma on_curve_residues xa xb y0 y1 :
  on_curve (mk_point (xa, xb) (y0, y1)) -> on_curve_F (fe xa) (fe xb) y0 y1.
Proof.
  unfold on_curve, f2re_mul, f2im_mul. cbn [a_x a_y fst snd]. cbv zeta.
  intros [H0 H1]. apply of_Z_eqp in H0, H1.
  repeat (progress rewrite ?Zmod.of_Z_add, ?Zmod.of_Z_sub, ?Zmod.of_Z_mul, ?Zmod.of_Z_1 in H0).
  repeat (progress rewrite ?Zmod.of_Z_add, ?Zmod.of_Z_sub, ?Zmod.of_Z_mul, ?Zmod.of_Z_1 in H1).
  apply F_eq_sub in H0, H1.
  split.
  - etransitivity; [| exact H0]. ring.
  - etransitivity; [| exact H1]. ring.
Qed.

(** ** The sign bit *)

(** Negation complements bit 126 of a 127-bit element. *)
Lemma sign_neg a :
  fe127 a -> Z.shiftr (snd (fpneg1271 a)) 62 = 1 - Z.shiftr (snd a) 62.
Proof.
  destruct a as [a0 a1]. unfold fe127, fpneg1271. cbn [fst snd]. intros [H0 H1].
  rewrite u64_small by (unfold is_u64; lia).
  rewrite !Z.shiftr_div_pow2 by lia.
  pose proof (Z.div_mod a1 (2 ^ 62) ltac:(lia)) as Hd.
  pose proof (Z.mod_pos_bound a1 (2 ^ 62) ltac:(lia)) as Hm.
  set (q := a1 / 2 ^ 62) in *. set (r := a1 mod 2 ^ 62) in *.
  symmetry. apply Z.div_unique_pos with (r := 2 ^ 62 - 1 - r); lia.
Qed.

(** Two representations of opposite non-zero residues differ in bit
    126. *)
Lemma sign_opp a b :
  fcanon a -> fe127 b -> fe b = Zmod.opp (fe a) -> fe a <> 0%Zmod ->
  Z.shiftr (snd b) 62 <> Z.shiftr (snd a) 62.
Proof.
  intros Ha Hb Hab Hnz.
  pose proof (fcanon_fe127 a Ha) as Ha'.
  destruct (fe_neg a Ha') as [Hn En].
  assert (Hbnz : fe b <> 0%Zmod) by (rewrite Hab; apply F_opp_nz; exact Hnz).
  assert (Eb : b = fpneg1271 a).
  { apply fe_inj_canon.
    - apply fe_nz_canon; assumption.
    - apply fe_nz_canon; [exact Hn | rewrite En, <- Hab; exact Hbnz].
    - rewrite En. exact Hab. }
  rewrite Eb, sign_neg by exact Ha'.
  destruct a as [a0 a1]. unfold fe127 in Ha'. cbn [fst snd] in *.
  pose proof (shiftr62_range a1 (proj2 Ha')). lia.
Qed.


(** ** Choice of the sign and of the conjugate

    Once the two components of x are known up to sign, the sign bit of
    the encoding and the curve test determine x. *)
Lemma decode_select xa xb y0 y1 X0 X1 :
  fcanon xa -> fcanon xb -> fcanon y0 -> fcanon y1 ->
  on_curve_F (fe xa) (fe xb) y0 y1 ->
  fe127 X0 -> fe127 X1 ->
  same_or_opp (fe X0) (fe xa) -> same_or_opp (fe X1) (fe xb) ->
  exists P',
    (let x0 := mod1271 X0 in
     let sign := Z.shiftr (snd (if felm_is_zero xa then xb else xa)) 62 in
     let sel := if felm_is_zero x0 then X1 else x0 in
     let Px : f2elm_t :=
       if negb (sign =? Z.shiftr (snd sel) 62)
       then fp2neg1271 (x0, X1) else (x0, X1) in
     let R := point_setup (mk_point Px (y0, y1)) in
     if ecc_point_validate R then Some (mk_point Px (y0, y1))
     else
       let rx1 := fpneg1271 (snd (e_x R)) in
       let R := mk_extproj (fst (e_x R), rx1) (e_y R) (e_z R) (e_ta R) (e_tb R) in
       if ecc_point_validate R then Some (mk_point (fst Px, rx1) (y0, y1))
       else None) = Some P' /\
    a_y P' = (y0, y1) /\
    rep2 (a_x P') (fe xa) (fe xb).
Proof.
  intros Hxa Hxb Hy0 Hy1 Hcurve HX0 HX1 S0 S1. cbv zeta.
  destruct (fe_mod X0 HX0) as [Hc Ec]. set (x0c := mod1271 X0) in *.
  rewrite <- Ec in S0.
  pose proof (fcanon_fe127 _ Hc) as Hc'.
  destruct (fe_neg x0c Hc') as [Hn0 En0]. destruct (fe_neg X1 HX1) as [Hn1 En1].
  match goal with
  | |- context [point_setup (mk_point ?px _)] => set (Px := px)
  end.
  assert (HPx : exists px0 px1,
    Px = (px0, px1) /\
    fe127 px0 /\ fe px0 = fe xa /\ fe127 px1 /\
    same_or_opp (fe px1) (fe xb) /\ (fe xa = 0%Zmod -> fe px1 = fe xb)).
  { unfold Px. clear Px.
    destruct (F_eq_dec (fe xa) 0%Zmod) as [Za | Nza].
    - assert (Ezx : felm_is_zero xa = true) by (apply fe_zero_canon; assumption).
      assert (Zc : fe x0c = 0%Zmod) by (destruct S0 as [-> | ->]; rewrite Za; ring).
      assert (Ezc : felm_is_zero x0c = true) by (apply fe_zero_canon; assumption).
      rewrite Ezx, Ezc. cbv iota.
      destruct (Z.eqb_spec (Z.shiftr (snd xb) 62) (Z.shiftr (snd X1) 62)) as [Eb | Nb];
        cbn [negb].
      + assert (E1 : fe X1 = fe xb).
        { destruct S1 as [E | E]; [exact E |].
          destruct (F_eq_dec (fe xb) 0%Zmod) as [Zb | Nzb].
          - rewrite E, Zb. ring.
          - exfalso. apply (sign_opp xb X1 Hxb HX1 E Nzb). symmetry. exact Eb. }
        exists x0c, X1. split; [reflexivity |]. split; [exact Hc' |].
        split; [rewrite Zc, Za; reflexivity |]. split; [exact HX1 |].
        split; [left; exact E1 | intros _; exact E1].
      + assert (E1 : fe (fpneg1271 X1) = fe xb).
        { rewrite En1. destruct S1 as [E | E].
          - destruct (F_eq_dec (fe xb) 0%Zmod) as [Zb | Nzb].
            + rewrite E, Zb. ring.
            + exfalso. apply Nb.
              assert (EX : X1 = xb).
              { apply fe_inj_canon; [| exact Hxb | exact E].
                apply fe_nz_canon; [exact HX1 | rewrite E; exact Nzb]. }
              rewrite EX. reflexivity.
          - rewrite E. ring. }
        exists (fpneg1271 x0c), (fpneg1271 X1). split; [reflexivity |].
        split; [exact Hn0 |]. split; [rewrite En0, Zc, Za; ring |].
        split; [exact Hn1 |].
        split; [left; exact E1 | intros _; exact E1].
    - assert (Ezx : felm_is_zero xa = false).
      { destruct (felm_is_zero xa) eqn:Ez; [| reflexivity].
        apply fe_zero_canon in Ez; [contradiction | exact Hxa]. }
      assert (Nzc : fe x0c <> 0%Zmod).
      { destruct S0 as [-> | ->]; [exact Nza | apply F_opp_nz; exact Nza]. }
      assert (Ezc : felm_is_zero x0c = false).
      { destruct (felm_is_zero x0c) eqn:Ez; [| reflexivity].
        apply fe_zero_canon in Ez; [contradiction | exact Hc]. }
      rewrite Ezx, Ezc. cbv iota.
      destruct (Z.eqb_spec (Z.shiftr (snd xa) 62) (Z.shiftr (snd x0c) 62)) as [Eb | Nb];
        cbn [negb].
      + assert (E0 : fe x0c = fe xa).
        { destruct S0 as [E | E]; [exact E |].
          exfalso. apply (sign_opp xa x0c Hxa Hc' E Nza). symmetry. exact Eb. }
        exists x0c, X1. split; [reflexivity |]. split; [exact Hc' |].
        split; [exact E0 |]. split; [exact HX1 |].
        split; [exact S1 | intros Z; contradiction].
      + assert (E0 : fe (fpneg1271 x0c) = fe xa).
        { rewrite En0. destruct S0 as [E | E].
          - exfalso. apply Nb.
            assert (EX : x0c = xa) by (apply fe_inj_canon; assumption).
            rewrite EX. reflexivity.
          - rewrite E. ring. }
        exists (fpneg1271 x0c), (fpneg1271 X1). split; [reflexivity |].
        split; [exact Hn0 |]. split; [exact E0 |]. split; [exact Hn1 |].
        split; [| intros Z; contradiction].
        rewrite En1. destruct S1 as [E | E]; rewrite E; [right; reflexivity | left; ring]. }
  destruct HPx as (px0 & px1 & -> & Hp0 & Ep0 & Hp1 & Sp1 & Zp1).
  pose proof (validate_spec (point_setup (mk_point (px0, px1) (y0, y1)))
                (fe px0) (fe px1) (conj (conj Hp0 eq_refl) (conj Hp1 eq_refl))
                Hy0 Hy1) as Hv.
  unfold point_setup in Hv |- *.
  cbn [a_x a_y e_x e_y e_z e_ta e_tb fst snd] in Hv |- *.
  destruct (ecc_point_validate
              (mk_extproj (px0, px1) (y0, y1) f2_one (px0, px1) (y0, y1))) eqn:Ev.
  - exists (mk_point (px0, px1) (y0, y1)).
    split; [reflexivity |]. split; [reflexivity |]. cbn [a_x fst snd].
    split; [split; assumption |]. split; [exact Hp1 |].
    destruct Sp1 as [E | E]; [exact E |].
    pose proof (proj1 Hv eq_refl) as Hc2. rewrite Ep0, E in Hc2.
    destruct Hc2 as [C0 C1]. destruct Hcurve as [D0 D1].
    destruct (conj_on_curve _ _ _ _ _ _ d_im_nz D0 D1 C0 C1) as [Za | Zb].
    + apply Zp1. exact Za.
    + rewrite E, Zb. ring.
  - assert (E : fe px1 = Zmod.opp (fe xb)).
    { destruct Sp1 as [E | E]; [| exact E]. exfalso.
      apply proj2 in Hv. rewrite Ep0, E in Hv. specialize (Hv Hcurve). discriminate. }
    destruct (fe_neg px1 Hp1) as [Hn En].
    assert (En' : fe (fpneg1271 px1) = fe xb) by (rewrite En, E; ring).
    pose proof (validate_spec
                  (mk_extproj (px0, fpneg1271 px1) (y0, y1) f2_one (px0, px1) (y0, y1))
                  (fe px0) (fe (fpneg1271 px1))
                  (conj (conj Hp0 eq_refl) (conj Hn eq_refl)) Hy0 Hy1) as Hv'.
    cbn [e_x e_y fst snd] in Hv'.
    rewrite Ep0, En' in Hv'. rewrite (proj2 Hv' Hcurve).
    exists (mk_point (px0, fpneg1271 px1) (y0, y1)).
    split; [reflexivity |]. split; [reflexivity |]. cbn [a_x fst snd].
    split; [split; assumption |]. split; [exact Hn | exact En'].
Qed.


Lemma rep_sqr_125 a va :
  rep a va -> rep (fpsqr1271_n 125 a) (va ^ (2 ^ 125))%Zmod.
Proof.
  intros [Ha <-]. exact (fe_sqr_125 a Ha).
Qed.

Lemma rep_exp a va : rep a va -> rep (fpexp1251 a) (va ^ (2 ^ 125 - 1))%Zmod.
Proof.
  intros [Ha <-]. exact (fe_exp a Ha).
Qed.

(** ** Decoding the encoding of a point

    [decode] recovers y exactly and x as residues. *)
Lemma decode_encode_rep P :
  point_canon P -> on_curve P ->
  exists P',
    decode (encode P) = Some P' /\
    a_y P' = a_y P /\
    rep2 (a_x P') (fe (fst (a_x P))) (fe (snd (a_x P))).
Proof.
  destruct P as [[xa xb] [[y00 y01] [y10 y11]]].
  intros Hc Hon.
  destruct (encode_fields _ Hc) as (W0 & W1 & W2 & W3 & Ws).
  destruct Hc as (Hxa & Hxb & Hy0 & Hy1). cbn [a_x a_y fst snd] in *.
  apply on_curve_residues in Hon. destruct Hon as [Hre Him].
  pose proof (fcanon_fe127 _ Hy0) as Fy0. pose proof (fcanon_fe127 _ Hy1) as Fy1.
  unfold decode. rewrite W0, W1, W2, W3, Ws. cbv zeta.
  clear W0 W1 W2 W3 Ws.
  match goal with |- context [fp2sqr1271 ?p] => set (Py := p) end.
  assert (HPy : rep2 Py (fe (y00, y01)) (fe (y10, y11))) by (cbn [Py fst snd]; auto).
  (* u = y^2, v = d y^2 + 1, u = y^2 - 1 *)
  pose proof (rep2_sqr Py _ _ HPy) as [[Fu0 Eu0] [Fu1 Eu1]].
  set (u := fp2sqr1271 Py) in *.
  pose proof (rep2_mul u PARAMETER_d _ _ _ _
                (conj (conj Fu0 eq_refl) (conj Fu1 eq_refl)) rep2_d)
    as [[Fv0 Ev0] [Fv1 Ev1]].
  set (v := fp2mul1271 u PARAMETER_d) in *.
  pose proof (rep2_sub u f2_one _ _ _ _
                (conj (conj Fu0 eq_refl) (conj Fu1 eq_refl)) rep2_one)
    as [[Fn0 En0] [Fn1 En1]].
  set (un := fp2sub1271 u f2_one) in *.
  pose proof (rep2_add v f2_one _ _ _ _
                (conj (conj Fv0 eq_refl) (conj Fv1 eq_refl)) rep2_one)
    as [[Fd0 Ed0] [Fd1 Ed1]].
  set (vd := fp2add1271 v f2_one) in *.
  rewrite Ev0 in Ed0. rewrite Ev1 in Ed1. clear Ev0 Ev1 Fv0 Fv1.
  (* t0 = N(v), t1 + t2 i = u v* *)
  pose proof (rep_add _ _ _ _ (rep_sqr _ _ (conj Fd0 eq_refl))
                (rep_sqr _ _ (conj Fd1 eq_refl))) as [Ft0 Et0].
  set (t0 := fpadd1271 (fpsqr1271 (fst vd)) (fpsqr1271 (snd vd))) in *.
  pose proof (rep_add _ _ _ _
                (rep_mul _ _ _ _ (conj Fn0 eq_refl) (conj Fd0 eq_refl))
                (rep_mul _ _ _ _ (conj Fn1 eq_refl) (conj Fd1 eq_refl)))
    as [Ft1 Et1].
  set (t1 := fpadd1271 (fpmul1271 (fst un) (fst vd)) (fpmul1271 (snd un) (snd vd))) in *.
  pose proof (rep_sub _ _ _ _
                (rep_mul _ _ _ _ (conj Fn1 eq_refl) (conj Fd0 eq_refl))
                (rep_mul _ _ _ _ (conj Fn0 eq_refl) (conj Fd1 eq_refl)))
    as [Ft2 Et2].
  set (t2 := fpsub1271 (fpmul1271 (snd un) (fst vd)) (fpmul1271 (fst un) (snd vd))) in *.
  rewrite En0, En1, Ed0, Ed1 in Et1, Et2. rewrite Ed0, Ed1 in Et0.
  clear En0 En1 Ed0 Ed1 Fn0 Fn1 Fd0 Fd1.
  clearbody t0 t1 t2. clear un vd v.
  (* t3 = (t1^2 + t2^2)^((p + 1) / 4) *)
  pose proof (rep_sqr_125 _ _
                (rep_add _ _ _ _ (rep_sqr _ _ (conj Ft1 eq_refl))
                   (rep_sqr _ _ (conj Ft2 eq_refl)))) as [Ft3 Et3].
  set (t3 := fpsqr1271_n 125 (fpadd1271 (fpsqr1271 t1) (fpsqr1271 t2))) in *.
  clearbody t3.
  (* the curve equation and the three norms, on residues *)
  assert (Cre : curve_re d_re d_im (fe xa) (fe xb) (fe (fst u)) (fe (snd u)) = 0%Zmod).
  { rewrite Eu0, Eu1. etransitivity; [| exact Hre]. ring. }
  assert (Cim : curve_im d_re d_im (fe xa) (fe xb) (fe (fst u)) (fe (snd u)) = 0%Zmod).
  { rewrite Eu0, Eu1. etransitivity; [| exact Him]. ring. }
  assert (HT0 : fe t0 =
    (den_re d_re d_im (fe (fst u)) (fe (snd u)) * den_re d_re d_im (fe (fst u)) (fe (snd u))
     + den_im d_re d_im (fe (fst u)) (fe (snd u)) * den_im d_re d_im (fe (fst u)) (fe (snd u)))%Zmod)
    by (rewrite Et0; ring).
  assert (HT1 : fe t1 =
    ((fe (fst u) - 1) * den_re d_re d_im (fe (fst u)) (fe (snd u))
     + fe (snd u) * den_im d_re d_im (fe (fst u)) (fe (snd u)))%Zmod)
    by (rewrite Et1; ring).
  assert (HT2 : fe t2 =
    (fe (snd u) * den_re d_re d_im (fe (fst u)) (fe (snd u))
     - (fe (fst u) - 1) * den_im d_re d_im (fe (fst u)) (fe (snd u)))%Zmod)
    by (rewrite Et2; ring).
  clear Et0 Et1 Et2.
  (* t = t1 + t3, or t1 - t3 when that vanishes *)
  destruct (fe_add t1 t3 Ft1 Ft3) as [Fts Ets].
  destruct (fe_mod _ Fts) as [Ctm Etm]. rewrite Ets in Etm.
  destruct (fe_sub t1 t3 Ft1 Ft3) as [Ftd Etd].
  set (tm := mod1271 (fpadd1271 t1 t3)) in *.
  assert (Hsel :
    fe127 (if felm_is_zero tm then fpsub1271 t1 t3 else tm) /\
    ((fe t1 + fe t3 <> 0 /\
      fe (if felm_is_zero tm then fpsub1271 t1 t3 else tm) = fe t1 + fe t3) \/
     (fe t1 + fe t3 = 0 /\
      fe (if felm_is_zero tm then fpsub1271 t1 t3 else tm) = fe t1 - fe t3))%Zmod).
  { destruct (felm_is_zero tm) eqn:Ez.
    - split; [exact Ftd |]. right. split; [| exact Etd].
      rewrite <- Etm. apply fe_zero_canon; assumption.
    - split; [exact (fcanon_fe127 _ Ctm) |]. left. split; [| exact Etm].
      rewrite <- Etm. intros Hz. apply fe_zero_canon in Hz; [| exact Ctm].
      rewrite Hz in Ez. discriminate. }
  set (tsel := if felm_is_zero tm then fpsub1271 t1 t3 else tm) in *.
  destruct Hsel as [Fsel Esel]. clearbody tsel. clear Fts Ets Ctm Etm Ftd Etd tm.
  (* the candidates for the two components of x *)
  destruct (fe_add tsel tsel Fsel Fsel) as [Fdb Edb].
  set (td := fpadd1271 tsel tsel) in *.
  pose proof (rep_exp _ _
                (rep_mul _ _ _ _ (conj Fdb eq_refl)
                   (rep_mul _ _ _ _ (conj Ft0 eq_refl) (rep_sqr _ _ (conj Ft0 eq_refl)))))
    as [Fr Er].
  set (r := fpexp1251 (fpmul1271 td (fpmul1271 t0 (fpsqr1271 t0)))) in *.
  pose proof (rep_mul _ _ _ _ (conj Ft0 eq_refl) (conj Fr eq_refl)) as Hw.
  pose proof (rep_mul _ _ _ _ (conj Fdb eq_refl) Hw) as [Fx0a Ex0a].
  pose proof (rep_mul _ _ _ _ (conj Ft2 eq_refl) Hw) as [Fx1a Ex1a].
  destruct Hw as [Fw _].
  set (w := fpmul1271 t0 r) in *.
  set (x0a := fpmul1271 td w) in *.
  set (x1a := fpmul1271 t2 w) in *.
  pose proof (rep_mul _ _ _ _ (conj Ft0 eq_refl) (rep_sqr _ _ (conj Fx0a eq_refl)))
    as [Ft1b Et1b].
  set (t1b := fpmul1271 t0 (fpsqr1271 x0a)) in *.
  destruct (fe_div x0a Fx0a) as [Fx0h Ex0h].
  set (x0h := fpdiv1271 x0a) in *.
  destruct (fe_sub td t1b Fdb Ft1b) as [Fz Ez].
  destruct (fe_mod _ Fz) as [Ctz Etz]. rewrite Ez in Etz.
  set (tz := mod1271 (fpsub1271 td t1b)) in *.
  pose proof (sqrt_choice d_re d_im (fe xa) (fe xb) (fe (fst u)) (fe (snd u))
                d_im_nz Cre Cim (fe t0) (fe t1) (fe t2) HT0 HT1 HT2
                (fe t3) (fe tsel) Et3 Esel) as Hch.
  pose proof (candidates d_re d_im (fe xa) (fe xb) (fe (fst u)) (fe (snd u))
                d_im_nz Cre Cim (fe t0) (fe t2) HT0 HT2
                (fe tsel) (fe td) (fe r) (fe x0a) (fe x0h) (fe x1a) (fe t1b)
                Hch Edb Er Ex0a Et1b Ex0h Ex1a) as Hcand.
  rewrite <- Etz in Hcand.
  clearbody tz x0h x1a.
  clear Hch Edb Er Ex0a Et1b Ex0h Ex1a Fz Ez Etz Ft1b t1b Fx0a x0a Fw w Fr r Fdb td
        Esel Fsel tsel Et3 Ft3 t3 HT0 HT1 HT2 Ft0 Ft1 Ft2 t0 t1 t2 Cre Cim.
  assert (HPy' : Py = ((y00, y01), (y10, y11))) by reflexivity.
  clearbody Py. subst Py. clear HPy Fu0 Fu1 Eu0 Eu1 u.
  destruct (felm_is_zero tz) eqn:Ezz.
  - assert (Hz : fe tz = 0%Zmod) by (apply fe_zero_canon; assumption).
    destruct Hcand as [[_ [S0 S1]] | [Hn _]]; [| contradiction].
    cbn [negb]. cbv iota beta.
    exact (decode_select xa xb (y00, y01) (y10, y11) x0h x1a
             Hxa Hxb Hy0 Hy1 (conj Hre Him) Fx0h Fx1a S0 S1).
  - assert (Hz : fe tz <> 0%Zmod).
    { intros Hz. apply fe_zero_canon in Hz; [| exact Ctz].
      rewrite Hz in Ezz. discriminate. }
    destruct Hcand as [[Hn _] | [_ [S0 S1]]]; [contradiction |].
    cbn [negb]. cbv iota beta.
    exact (decode_select xa xb (y00, y01) (y10, y11) x1a x0h
             Hxa Hxb Hy0 Hy1 (conj Hre Him) Fx1a Fx0h S0 S1).
Qed.


(** ** Soundness of the curve test and of decoding *)

(** A point that [ecc_point_validate] accepts satisfies the curve
    equation, whatever the 127-bit representation of its coordinates. *)
Lemma validate_sound (R : point_extproj_t) x0 x1 :
  rep2 (e_x R) x0 x1 -> fe127 (fst (e_y R)) -> fe127 (snd (e_y R)) ->
  ecc_point_validate R = true ->
  on_curve_F x0 x1 (fst (e_y R)) (snd (e_y R)).
Proof.
  destruct R as [[xa xb] [y0 y1] z ta tb]. cbn [e_x e_y fst snd].
  intros Hx Hy0' Hy1'.
  assert (Hy : rep2 (y0, y1) (fe y0) (fe y1)) by (cbn [fst snd]; auto).
  pose proof (rep2_sqr (y0, y1) _ _ Hy) as Hyy.
  pose proof (rep2_sqr (xa, xb) _ _ Hx) as Hxx.
  pose proof (rep2_sub _ _ _ _ _ _ Hyy Hxx) as H3.
  pose proof (rep2_mul _ _ _ _ _ _ Hyy Hxx) as Hm.
  pose proof (rep2_mul _ _ _ _ _ _ Hm rep2_d) as Hmd.
  pose proof (rep2_add _ _ _ _ _ _ Hmd rep2_one) as Ha.
  pose proof (rep2_sub _ _ _ _ _ _ H3 Ha) as Hf.
  unfold ecc_point_validate. cbv zeta. cbn [e_x e_y].
  destruct Hf as [[F0 E0] [F1 E1]].
  rewrite andb_true_iff, (is_zero_or_ones_val _ F0), (is_zero_or_ones_val _ F1).
  intros [Z0 Z1]. rewrite Z0 in E0. rewrite Z1 in E1.
  rewrite Zmod.of_Z_0 in E0, E1. split.
  - etransitivity; [| symmetry; exact E0]. ring.
  - etransitivity; [| symmetry; exact E1]. ring.
Qed.

Lemma residues_on_curve xa xb y0 y1 :
  on_curve_F (fe xa) (fe xb) y0 y1 -> on_curve (mk_point (xa, xb) (y0, y1)).
Proof.
  intros [H0 H1].
  unfold on_curve, f2re_mul, f2im_mul. cbn [a_x a_y fst snd]. cbv zeta.
  split; apply eqp_of_Z;
    repeat (progress rewrite ?Zmod.of_Z_add, ?Zmod.of_Z_sub, ?Zmod.of_Z_mul, ?Zmod.of_Z_1);
    apply F_sub_0.
  - etransitivity; [| exact H0]. ring.
  - etransitivity; [| exact H1]. ring.
Qed.

(** The components of the results of the GF(p^2) operations are 127-bit
    elements. *)
Local Notation fe127_2 a := (fe127 (fst a) /\ fe127 (snd a)).

Lemma fe127_2_sqr a : fe127_2 a -> fe127_2 (fp2sqr1271 a).
Proof.
  intros [H0 H1].
  destruct (rep2_sqr a _ _ (conj (conj H0 eq_refl) (conj H1 eq_refl))) as [[? _] [? _]].
  split; assumption.
Qed.

Lemma fe127_2_mul a b : fe127_2 a -> fe127_2 b -> fe127_2 (fp2mul1271 a b).
Proof.
  intros [H0 H1] [G0 G1].
  destruct (rep2_mul a b _ _ _ _ (conj (conj H0 eq_refl) (conj H1 eq_refl))
              (conj (conj G0 eq_refl) (conj G1 eq_refl))) as [[? _] [? _]].
  split; assumption.
Qed.

Lemma fe127_2_add a b : fe127_2 a -> fe127_2 b -> fe127_2 (fp2add1271 a b).
Proof.
  intros [H0 H1] [G0 G1].
  destruct (rep2_add a b _ _ _ _ (conj (conj H0 eq_refl) (conj H1 eq_refl))
              (conj (conj G0 eq_refl) (conj G1 eq_refl))) as [[? _] [? _]].
  split; assumption.
Qed.

Lemma fe127_2_sub a b : fe127_2 a -> fe127_2 b -> fe127_2 (fp2sub1271 a b).
Proof.
  intros [H0 H1] [G0 G1].
  destruct (rep2_sub a b _ _ _ _ (conj (conj H0 eq_refl) (conj H1 eq_refl))
              (conj (conj G0 eq_refl) (conj G1 eq_refl))) as [[? _] [? _]].
  split; assumption.
Qed.

Lemma fe127_2_one : fe127_2 f2_one.
Proof. destruct rep2_one as [[? _] [? _]]. split; assumption. Qed.

Lemma fe127_2_d : fe127_2 PARAMETER_d.
Proof. destruct rep2_d as [[? _] [? _]]. split; assumption. Qed.

(** Prove that a term built from the field operations is a 127-bit
    element, given that its leaves are. *)
Ltac fe127_auto :=
  repeat first
    [ assumption
    | apply fe127_2_one | apply fe127_2_d
    | apply fe127_2_sqr | apply fe127_2_mul | apply fe127_2_add | apply fe127_2_sub
    | match goal with
      | |- fe127 (fpmul1271 _ _) => apply fpmul1271_val
      | |- fe127 (fpsqr1271 _) => apply fpsqr1271_val
      | |- fe127 (fpadd1271 _ _) => apply fpadd1271_val
      | |- fe127 (fpsub1271 _ _) => apply fpsub1271_val
      | |- fe127 (fpneg1271 _) => apply fpneg1271_val
      | |- fe127 (fpdiv1271 _) => apply fpdiv1271_val
      | |- fe127 (fpexp1251 _) => apply fe_exp
      | |- fe127 (fpsqr1271_n 125 _) => apply fe_sqr_125
      | |- fe127 (mod1271 _) => apply fcanon_fe127; apply fe_mod
      | |- fe127 (if ?c then _ else _) => destruct c
      | |- fe127 (fst ?a) => apply (proj1 (A := fe127 (fst a)) (B := fe127 (snd a)))
      | |- fe127 (snd ?a) => apply (proj2 (A := fe127 (fst a)) (B := fe127 (snd a)))
      end ].

(** A 64-bit word read from a buffer. *)
Lemma word_at_range bs i : is_u64 (word_at bs i).
Proof.
  unfold word_at, is_u64.
  pose proof (le_int_range (sub_bytes bs (8 * i) 8)) as H.
  assert (Hl : (length (sub_bytes bs (8 * i) 8) <= 8)%nat).
  { unfold sub_bytes. rewrite length_firstn. apply Nat.le_min_l. }
  assert (256 ^ Z.of_nat (length (sub_bytes bs (8 * i) 8)) <= 256 ^ 8).
  { apply Z.pow_le_mono_r; lia. }
  lia.
Qed.

(** The high bit of word 1 of a buffer is the high bit of its byte 15. *)
Lemma word1_high bs : byte_at bs 15 < 128 -> word_at bs 1 < 2 ^ 63.
Proof.
  intros Hb. pose proof (word_at_range bs 1) as Hr.
  destruct (Z.ltb_spec (word_at bs 1) (2 ^ 63)) as [H | H]; [exact H | exfalso].
  assert (Ht : Z.testbit (word_at bs 1) 63 = true).
  { rewrite Z.testbit_true by lia. unfold is_u64 in Hr.
    assert (Hq : word_at bs 1 / 2 ^ 63 = 1).
    { symmetry. apply Z.div_unique_pos with (r := word_at bs 1 - 2 ^ 63); lia. }
    rewrite Hq. reflexivity. }
  unfold word_at in Ht.
  change 63 with (8 * Z.of_nat 7 + 7) in Ht.
  rewrite le_int_testbit in Ht by lia.
  rewrite nth_sub_bytes in Ht by lia.
  change (8 * 1 + 7)%nat with 15%nat in Ht.
  unfold byte_at in Hb.
  pose proof (Z_of_byte_range (nth 15 bs Byte.x00)) as Hr2.
  rewrite Z.testbit_true in Ht by lia.
  assert (Hq : Z_of_byte (nth 15 bs Byte.x00) / 2 ^ 7 = 0) by (apply Z.div_small; lia).
  rewrite Hq in Ht. discriminate.
Qed.

(** The last part of [decode], from the two candidates for the
    components of x: a point returned has 127-bit coordinates and passed
    the curve test. *)
Lemma decode_tail_inv sign X0 X1 (Py : f2elm_t) P :
  fe127 X0 -> fe127 X1 -> fe127_2 Py ->
  (let x0 := mod1271 X0 in
   let sel := if felm_is_zero x0 then X1 else x0 in
   let Px : f2elm_t :=
     if negb (sign =? Z.shiftr (snd sel) 62)
     then fp2neg1271 (x0, X1) else (x0, X1) in
   let R := point_setup (mk_point Px Py) in
   if ecc_point_validate R then Some (mk_point Px Py)
   else
     let rx1 := fpneg1271 (snd (e_x R)) in
     let R := mk_extproj (fst (e_x R), rx1) (e_y R) (e_z R) (e_ta R) (e_tb R) in
     if ecc_point_validate R then Some (mk_point (fst Px, rx1) Py)
     else None) = Some P ->
  a_y P = Py /\ fe127_2 (a_x P) /\ fe127_2 (a_y P) /\
  ecc_point_validate (point_setup P) = true.
Proof.
  intros HX0 HX1 HPy. cbv zeta.
  match goal with
  | |- context [point_setup (mk_point ?px _)] => set (Px := px)
  end.
  assert (HPx : fe127_2 Px).
  { unfold Px. destruct (negb _); unfold fp2neg1271; cbn [fst snd]; split; fe127_auto. }
  clearbody Px. destruct Px as [px0 px1]. cbn [fst snd] in HPx.
  unfold point_setup. cbn [a_x a_y e_x e_y e_z e_ta e_tb fst snd].
  destruct (ecc_point_validate
              (mk_extproj (px0, px1) Py f2_one (px0, px1) Py)) eqn:Ev.
  - intros H. injection H as <-. cbn [a_x a_y fst snd].
    split; [reflexivity |]. split; [exact HPx |]. split; [exact HPy | exact Ev].
  - destruct (ecc_point_validate
                (mk_extproj (px0, fpneg1271 px1) Py f2_one (px0, px1) Py)) eqn:Ev'.
    + intros H. injection H as <-. cbn [a_x a_y fst snd].
      split; [reflexivity |].
      split; [split; [apply HPx | apply fpneg1271_val; apply HPx] |].
      split; [exact HPy | exact Ev'].
    + discriminate.
Qed.

(** What a successful [decode] returns: the y read from the buffer, an x
    of 127-bit components, and a point that passed the curve test. *)
Lemma decode_inv bs P :
  byte_at bs 15 < 128 ->
  decode bs = Some P ->
  a_y P = ((word_at bs 0, word_at bs 1),
           (word_at bs 2, Z.land (word_at bs 3) 0x7FFFFFFFFFFFFFFF)) /\
  fe127_2 (a_x P) /\ fe127_2 (a_y P) /\
  ecc_point_validate (point_setup P) = true.
Proof.
  intros Hb.
  assert (Fy0 : fe127 (word_at bs 0, word_at bs 1)).
  { split; cbn [fst snd]; [apply word_at_range |].
    pose proof (word_at_range bs 1) as Hr. pose proof (word1_high bs Hb).
    unfold is_u64 in Hr. lia. }
  assert (Fy1 : fe127 (word_at bs 2, Z.land (word_at bs 3) 0x7FFFFFFFFFFFFFFF)).
  { split; cbn [fst snd]; [apply word_at_range |].
    rewrite land_low63. apply Z.mod_pos_bound. lia. }
  unfold decode. cbv zeta.
  match goal with |- context [fp2sqr1271 ?p] => set (Py := p) end.
  assert (HPy : fe127_2 Py) by (split; assumption).
  clearbody Py. clear Fy0 Fy1.
  match goal with
  | |- context [if negb (felm_is_zero ?t) then (?a, ?b) else _] =>
    assert (Fa : fe127 a) by fe127_auto;
    assert (Fb : fe127 b) by fe127_auto;
    set (x1a := a) in *; set (x0h := b) in *; clearbody x1a x0h;
    destruct (negb (felm_is_zero t))
  end; cbv iota beta.
  - intros H.
    destruct (decode_tail_inv _ x1a x0h Py P Fa Fb HPy H) as (E & Hr).
    split; [exact E | exact Hr].
  - intros H.
    destruct (decode_tail_inv _ x0h x1a Py P Fb Fa HPy H) as (E & Hr).
    split; [exact E | exact Hr].
Qed.

End DecodeFacts.

(** * Point encoding: round trip *)

Module PointEncoding.
Import Stdlib.Zmod.ZmodDef Stdlib.Zmod.ZmodBase.
Import FieldFacts DecodeFacts.

Lemma felm_is_zero_eq a : felm_is_zero a = true -> a = (0, 0).
Proof.
  destruct a as [a0 a1]. unfold felm_is_zero. cbn [fst snd].
  rewrite andb_true_iff, !Z.eqb_eq. intros [-> ->]. reflexivity.
Qed.

Lemma canon_same_residue a b :
  fe127 a -> fcanon b -> b <> (0, 0) ->
  Zmod.of_Z p1271 (fval a) = Zmod.of_Z p1271 (fval b) -> a = b.
Proof.
  intros Ha Hb Hnz E.
  assert (Hbnz : Zmod.of_Z p1271 (fval b) <> Zmod.zero).
  { intros Hz. apply Hnz. apply felm_is_zero_eq.
    apply fe_zero_canon; assumption. }
  apply fe_inj_canon; [| exact Hb | exact E].
  apply fe_nz_canon; [exact Ha | rewrite E; exact Hbnz].
Qed.

(** C4, as stated, fails.  The round trip is not the identity on
    representations: the point of order four (-i, 0) is canonical and on
    the curve, but decoding its encoding returns the real part of x as p,
    the second representation of zero, instead of 0. *)
Example decode_encode_order4 :
  point_canon point_order4 /\ on_curve point_order4 /\
  decode (encode point_order4) <> Some point_order4.
Proof.
  split; [| split].
  - unfold point_canon, fcanon, felm_ok, is_u64, fval, p1271.
    cbn [point_order4 f2_zero f2_of_words a_x a_y fst snd]. lia.
  - split; vm_compute; reflexivity.
  - vm_compute. discriminate.
Qed.

(** For every canonical point P on the curve, decode(encode(P)) succeeds
    and returns a point with the same y and with x congruent to the x of P
    modulo p, component by component; when neither component of x is zero
    the point returned is P itself. *)
Theorem decode_encode_congruent (P : point_t) :
  point_canon P -> on_curve P ->
  exists P',
    decode (encode P) = Some P' /\
    a_y P' = a_y P /\
    point_eqp P' P /\
    (fst (a_x P) <> (0, 0) -> snd (a_x P) <> (0, 0) -> P' = P).
Proof.
  intros Hc Hon.
  destruct (decode_encode_rep P Hc Hon) as (P' & Hd & Hy & [F0 E0] & [F1 E1]).
  exists P'. split; [exact Hd |]. split; [exact Hy |]. split.
  - unfold point_eqp. rewrite Hy.
    repeat split; try apply eqp_refl; apply eqp_of_Z; assumption.
  - intros N0 N1. destruct Hc as (C0 & C1 & _).
    destruct P' as [[px0 px1] py], P as [[x0 x1] y]. cbn [a_x a_y fst snd] in *.
    rewrite (canon_same_residue px0 x0 F0 C0 N0 E0).
    rewrite (canon_same_residue px1 x1 F1 C1 N1 E1).
    rewrite Hy. reflexivity.
Qed.

Lemma decode_encode_congruent_witness :
  point_canon point_pk_zero /\ on_curve point_pk_zero /\
  exists P',
    decode (encode point_pk_zero) = Some P' /\
    a_y P' = a_y point_pk_zero /\
    point_eqp P' point_pk_zero /\
    (fst (a_x point_pk_zero) <> (0, 0) -> snd (a_x point_pk_zero) <> (0, 0) ->
     P' = point_pk_zero).
Proof.
  assert (Hc : point_canon point_pk_zero).
  { unfold point_canon, fcanon, felm_ok, is_u64, fval, p1271.
    cbn [point_pk_zero a_x a_y fst snd]. lia. }
  assert (Hon : on_curve point_pk_zero) by (split; vm_compute; reflexivity).
  split; [exact Hc |]. split; [exact Hon |].
  exact (decode_encode_congruent point_pk_zero Hc Hon).
Defined.

(** C4, amended.  For every canonical point P on the curve,
    decode(encode(P)) succeeds and returns a point with the same y and
    with x congruent to the x of P modulo p, component by component; it
    returns P itself when neither component of x is zero, and for the
    neutral element (0, 1). *)
Theorem C4_decode_encode_round_trip (P : point_t) :
  point_canon P -> on_curve P ->
  (exists P',
     decode (encode P) = Some P' /\
     a_y P' = a_y P /\
     point_eqp P' P /\
     (fst (a_x P) <> (0, 0) -> snd (a_x P) <> (0, 0) -> P' = P)) /\
  decode (encode (mk_point f2_zero f2_one)) = Some (mk_point f2_zero f2_one).
Proof.
  intros Hc Hon. split; [| vm_compute; reflexivity].
  destruct (decode_encode_rep P Hc Hon) as (P' & Hd & Hy & [F0 E0] & [F1 E1]).
  exists P'. split; [exact Hd |]. split; [exact Hy |]. split.
  - unfold point_eqp. rewrite Hy.
    repeat split; try apply eqp_refl; apply eqp_of_Z; assumption.
  - intros N0 N1. destruct Hc as (C0 & C1 & _).
    destruct P' as [[px0 px1] py], P as [[x0 x1] y]. cbn [a_x a_y fst snd] in *.
    rewrite (canon_same_residue px0 x0 F0 C0 N0 E0).
    rewrite (canon_same_residue px1 x1 F1 C1 N1 E1).
    rewrite Hy. reflexivity.
Qed.

Lemma C4_decode_encode_round_trip_witness :
  point_canon point_pk_zero /\ on_curve point_pk_zero /\
  decode (encode point_pk_zero) = Some point_pk_zero.
Proof.
  assert (Hc : point_canon point_pk_zero).
  { unfold point_canon, fcanon, felm_ok, is_u64, fval, p1271.
    cbn [point_pk_zero a_x a_y fst snd]. lia. }
  assert (Hon : on_curve point_pk_zero) by (split; vm_compute; reflexivity).
  split; [exact Hc |]. split; [exact Hon |].
  destruct (proj1 (C4_decode_encode_round_trip point_pk_zero Hc Hon))
    as (P' & Hd & _ & _ & Heq).
  rewrite Hd. f_equal. apply Heq; vm_compute; discriminate.
Defined.

(** The encoding of [point_pk_zero] is the public key of the zero subseed,
    and neither component of its x is zero. *)
Example point_pk_zero_encoding :
  encode point_pk_zero = pk_zero /\
  fst (a_x point_pk_zero) <> (0, 0) /\ snd (a_x point_pk_zero) <> (0, 0).
Proof.
  split; [vm_compute; reflexivity |]. split; vm_compute; discriminate.
Qed.

End PointEncoding.

(** * Arithmetic in GF(p^2) *)

Module Fp2Arith.
Import Stdlib.Zmod.ZmodDef Stdlib.Zmod.ZmodBase.
Import FieldFacts FpFacts DecodeFacts.

Local Notation fe a := (Zmod.of_Z p1271 (fval a)).

Lemma eqp_residue x (v : Zmod p1271) y :
  Zmod.of_Z p1271 x = v -> v = Zmod.of_Z p1271 y -> eqp x y.
Proof. intros H1 H2. apply eqp_of_Z. rewrite H1. exact H2. Qed.

(** [fp2mul1271] and [fp2sqr1271] multiply in GF(p^2) = GF(p)[i] / (i^2 + 1):
    on operands with 127-bit components the components of the result are
    127-bit elements congruent modulo p to the real and imaginary parts of
    the product. *)
Theorem fp2mul1271_correct (a b : f2elm_t) :
  fe127 (fst a) -> fe127 (snd a) -> fe127 (fst b) -> fe127 (snd b) ->
  fe127 (fst (fp2mul1271 a b)) /\ fe127 (snd (fp2mul1271 a b)) /\
  eqp (fval (fst (fp2mul1271 a b)))
      (f2re_mul (fval (fst a)) (fval (snd a)) (fval (fst b)) (fval (snd b))) /\
  eqp (fval (snd (fp2mul1271 a b)))
      (f2im_mul (fval (fst a)) (fval (snd a)) (fval (fst b)) (fval (snd b))) /\
  fe127 (fst (fp2sqr1271 a)) /\ fe127 (snd (fp2sqr1271 a)) /\
  eqp (fval (fst (fp2sqr1271 a)))
      (f2re_mul (fval (fst a)) (fval (snd a)) (fval (fst a)) (fval (snd a))) /\
  eqp (fval (snd (fp2sqr1271 a)))
      (f2im_mul (fval (fst a)) (fval (snd a)) (fval (fst a)) (fval (snd a))).
Proof.
  intros A0 A1 B0 B1.
  destruct (rep2_mul a b _ _ _ _ (conj (conj A0 eq_refl) (conj A1 eq_refl))
              (conj (conj B0 eq_refl) (conj B1 eq_refl)))
    as [[M0 E0] [M1 E1]].
  destruct (rep2_sqr a _ _ (conj (conj A0 eq_refl) (conj A1 eq_refl)))
    as [[S0 G0] [S1 G1]].
  unfold f2re_mul, f2im_mul.
  split; [exact M0 |]. split; [exact M1 |]. split; [| split].
  3: split; [exact S0 |]; split; [exact S1 |]; split.
  - apply (eqp_residue _ _ _ E0).
    rewrite Zmod.of_Z_sub, !Zmod.of_Z_mul. reflexivity.
  - apply (eqp_residue _ _ _ E1).
    rewrite Zmod.of_Z_add, !Zmod.of_Z_mul. ring.
  - apply (eqp_residue _ _ _ G0).
    rewrite Zmod.of_Z_sub, !Zmod.of_Z_mul. ring.
  - apply (eqp_residue _ _ _ G1).
    rewrite Zmod.of_Z_add, !Zmod.of_Z_mul. ring.
Qed.

Lemma fp2mul1271_correct_witness :
  fe127 (fst PARAMETER_d) /\ fe127 (snd PARAMETER_d) /\
  eqp (fval (fst (fp2mul1271 PARAMETER_d PARAMETER_d)))
      (f2re_mul (fval (fst PARAMETER_d)) (fval (snd PARAMETER_d))
                (fval (fst PARAMETER_d)) (fval (snd PARAMETER_d))).
Proof.
  destruct fe127_2_d as [D0 D1].
  split; [exact D0 |]. split; [exact D1 |].
  exact (proj1 (proj2 (proj2 (fp2mul1271_correct PARAMETER_d PARAMETER_d D0 D1 D0 D1)))).
Defined.

(** The additive operations of GF(p^2): on operands with 127-bit components,
    [fp2add1271], [fp2sub1271] and [fp2neg1271] return 127-bit components
    congruent to the sum, the difference and the opposite, component by
    component; [fp2addsub1271 a b] returns 2a and 2a - b. *)
Theorem fp2_additive_correct (a b : f2elm_t) :
  fe127 (fst a) -> fe127 (snd a) -> fe127 (fst b) -> fe127 (snd b) ->
  (fe127 (fst (fp2add1271 a b)) /\ fe127 (snd (fp2add1271 a b)) /\
   eqp (fval (fst (fp2add1271 a b))) (fval (fst a) + fval (fst b)) /\
   eqp (fval (snd (fp2add1271 a b))) (fval (snd a) + fval (snd b))) /\
  (fe127 (fst (fp2sub1271 a b)) /\ fe127 (snd (fp2sub1271 a b)) /\
   eqp (fval (fst (fp2sub1271 a b))) (fval (fst a) - fval (fst b)) /\
   eqp (fval (snd (fp2sub1271 a b))) (fval (snd a) - fval (snd b))) /\
  (fe127 (fst (fp2neg1271 a)) /\ fe127 (snd (fp2neg1271 a)) /\
   fval (fst (fp2neg1271 a)) = p1271 - fval (fst a) /\
   fval (snd (fp2neg1271 a)) = p1271 - fval (snd a)) /\
  (let '(s, c) := fp2addsub1271 a b in
   fe127 (fst s) /\ fe127 (snd s) /\ fe127 (fst c) /\ fe127 (snd c) /\
   eqp (fval (fst s)) (2 * fval (fst a)) /\
   eqp (fval (snd s)) (2 * fval (snd a)) /\
   eqp (fval (fst c)) (2 * fval (fst a) - fval (fst b)) /\
   eqp (fval (snd c)) (2 * fval (snd a) - fval (snd b))).
Proof.
  intros A0 A1 B0 B1.
  destruct (fpadd1271_eqp _ _ A0 B0) as [P0 Q0].
  destruct (fpadd1271_eqp _ _ A1 B1) as [P1 Q1].
  destruct (fpsub1271_eqp _ _ A0 B0) as [S0 T0].
  destruct (fpsub1271_eqp _ _ A1 B1) as [S1 T1].
  destruct (fpneg1271_val _ A0) as [N0 V0].
  destruct (fpneg1271_val _ A1) as [N1 V1].
  destruct (fpadd1271_eqp _ _ A0 A0) as [D0 E0].
  destruct (fpadd1271_eqp _ _ A1 A1) as [D1 E1].
  destruct (fpsub1271_eqp _ _ D0 B0) as [C0 F0].
  destruct (fpsub1271_eqp _ _ D1 B1) as [C1 F1].
  unfold fp2addsub1271, fp2add1271, fp2sub1271, fp2neg1271. cbn [fst snd].
  split; [repeat (split; [assumption |]); assumption |].
  split; [repeat (split; [assumption |]); assumption |].
  split; [repeat (split; [assumption |]); assumption |].
  repeat (split; [assumption |]).
  split; [| split; [| split]].
  - eapply eqp_trans; [exact E0 |]. apply eqp_intro with (k := 0). lia.
  - eapply eqp_trans; [exact E1 |]. apply eqp_intro with (k := 0). lia.
  - eapply eqp_trans; [exact F0 |]. apply eqp_sub; [| apply eqp_refl].
    eapply eqp_trans; [exact E0 |]. apply eqp_intro with (k := 0). lia.
  - eapply eqp_trans; [exact F1 |]. apply eqp_sub; [| apply eqp_refl].
    eapply eqp_trans; [exact E1 |]. apply eqp_intro with (k := 0). lia.
Qed.

Lemma fp2_additive_correct_witness :
  fe127 (fst PARAMETER_d) /\ fe127 (snd PARAMETER_d) /\
  eqp (fval (fst (fp2add1271 PARAMETER_d f2_one)))
      (fval (fst PARAMETER_d) + fval (fst f2_one)).
Proof.
  destruct fe127_2_d as [D0 D1]. destruct fe127_2_one as [O0 O1].
  split; [exact D0 |]. split; [exact D1 |].
  exact (proj1 (proj2 (proj2 (proj1
           (fp2_additive_correct PARAMETER_d f2_one D0 D1 O0 O1))))).
Defined.

(** [fp2div1271] halves in GF(p^2): each component of the result is a
    127-bit element whose double is congruent to the component of the
    operand; it is the exact half when that component is even, and half of
    the component plus p when it is odd. *)
Theorem fp2div1271_halves (a : f2elm_t) :
  fe127 (fst a) -> fe127 (snd a) ->
  fe127 (fst (fp2div1271 a)) /\ fe127 (snd (fp2div1271 a)) /\
  eqp (2 * fval (fst (fp2div1271 a))) (fval (fst a)) /\
  eqp (2 * fval (snd (fp2div1271 a))) (fval (snd a)) /\
  (Z.even (fval (fst a)) = true -> 2 * fval (fst (fp2div1271 a)) = fval (fst a)) /\
  (Z.even (fval (fst a)) = false ->
   2 * fval (fst (fp2div1271 a)) = fval (fst a) + p1271).
Proof.
  intros A0 A1. unfold fp2div1271. cbn [fst snd].
  destruct (fe_div _ A0) as [H0 E0]. destruct (fe_div _ A1) as [H1 E1].
  destruct (fpdiv1271_val _ A0) as [_ V0].
  split; [exact H0 |]. split; [exact H1 |].
  split; [| split; [| split]].
  - apply eqp_of_Z. rewrite <- E0, <- Zmod.of_Z_add. f_equal. lia.
  - apply eqp_of_Z. rewrite <- E1, <- Zmod.of_Z_add. f_equal. lia.
  - intros He. rewrite He in V0. rewrite V0.
    apply Z.even_spec in He. destruct He as [k Hk]. rewrite Hk.
    rewrite (Z.mul_comm 2 k), Z.div_mul by lia. lia.
  - intros He. rewrite He in V0. rewrite V0.
    assert (Ho : Z.odd (fval (fst a)) = true) by (rewrite <- Z.negb_even, He; reflexivity).
    apply Z.odd_spec in Ho. destruct Ho as [k Hk]. rewrite Hk.
    replace (2 * k + 1 + p1271) with ((k + 2 ^ 126) * 2) by (unfold p1271; lia).
    rewrite Z.div_mul by lia. lia.
Qed.

Lemma fp2div1271_halves_witness :
  fe127 (fst PARAMETER_d) /\ fe127 (snd PARAMETER_d) /\
  eqp (2 * fval (fst (fp2div1271 PARAMETER_d))) (fval (fst PARAMETER_d)).
Proof.
  destruct fe127_2_d as [D0 D1].
  split; [exact D0 |]. split; [exact D1 |].
  exact (proj1 (proj2 (proj2 (fp2div1271_halves PARAMETER_d D0 D1)))).
Defined.

End Fp2Arith.

(** * The curve test, decoding and verification *)

Module PointChecks.
Import Stdlib.Zmod.ZmodDef Stdlib.Zmod.ZmodBase.
Import FieldFacts FpFacts DecodeFacts ByteFacts.

Local Notation fe a := (Zmod.of_Z p1271 (fval a)).

(** A point that [ecc_point_validate] accepts is on the curve. *)
Lemma validate_on_curve (P : point_t) :
  fe127 (fst (a_x P)) -> fe127 (snd (a_x P)) ->
  fe127 (fst (a_y P)) -> fe127 (snd (a_y P)) ->
  ecc_point_validate (point_setup P) = true -> on_curve P.
Proof.
  destruct P as [[xa xb] [y0 y1]]. cbn [a_x a_y fst snd].
  intros X0 X1 Y0 Y1 Hv. apply residues_on_curve.
  exact (validate_sound (point_setup (mk_point (xa, xb) (y0, y1))) (fe xa) (fe xb)
           (conj (conj X0 eq_refl) (conj X1 eq_refl)) Y0 Y1 Hv).
Qed.

(** What [decode] returns, when bit 127 of the buffer is clear. *)
Lemma decode_some_on_curve (bs : list Byte.byte) (P : point_t) :
  byte_at bs 15 < 128 -> decode bs = Some P -> on_curve P.
Proof.
  intros Hb Hd.
  destruct (decode_inv bs P Hb Hd) as (_ & [X0 X1] & [Y0 Y1] & Hv).
  exact (validate_on_curve P X0 X1 Y0 Y1 Hv).
Qed.

(** [ecc_point_validate] decides the curve equation: a point with 127-bit
    coordinates that it accepts is on the curve, and it accepts every
    point on the curve whose y is canonical. *)
Theorem ecc_point_validate_on_curve (P : point_t) :
  fe127 (fst (a_x P)) -> fe127 (snd (a_x P)) ->
  fe127 (fst (a_y P)) -> fe127 (snd (a_y P)) ->
  (ecc_point_validate (point_setup P) = true -> on_curve P) /\
  (fcanon (fst (a_y P)) -> fcanon (snd (a_y P)) -> on_curve P ->
   ecc_point_validate (point_setup P) = true).
Proof.
  destruct P as [[xa xb] [y0 y1]]. cbn [a_x a_y fst snd].
  intros X0 X1 Y0 Y1. split.
  - exact (validate_on_curve (mk_point (xa, xb) (y0, y1)) X0 X1 Y0 Y1).
  - intros C0 C1 Hon.
    apply (validate_spec (point_setup (mk_point (xa, xb) (y0, y1))) (fe xa) (fe xb)
             (conj (conj X0 eq_refl) (conj X1 eq_refl)) C0 C1).
    apply on_curve_residues. exact Hon.
Qed.

Lemma point_pk_zero_canon : point_canon point_pk_zero.
Proof.
  unfold point_canon, fcanon, felm_ok, is_u64, fval, p1271.
  cbn [point_pk_zero a_x a_y fst snd]. lia.
Qed.

Lemma ecc_point_validate_on_curve_witness :
  fe127 (fst (a_x point_pk_zero)) /\ fe127 (snd (a_x point_pk_zero)) /\
  fe127 (fst (a_y point_pk_zero)) /\ fe127 (snd (a_y point_pk_zero)) /\
  ecc_point_validate (point_setup point_pk_zero) = true /\
  on_curve point_pk_zero.
Proof.
  destruct point_pk_zero_canon as (C0 & C1 & C2 & C3).
  pose proof (fcanon_fe127 _ C0) as F0. pose proof (fcanon_fe127 _ C1) as F1.
  pose proof (fcanon_fe127 _ C2) as F2. pose proof (fcanon_fe127 _ C3) as F3.
  assert (Hv : ecc_point_validate (point_setup point_pk_zero) = true)
    by (vm_compute; reflexivity).
  repeat (split; [assumption |]).
  exact (proj1 (ecc_point_validate_on_curve point_pk_zero F0 F1 F2 F3) Hv).
Defined.

(** [decode] never returns a point off the curve: when the reserved bit
    127 of the buffer is clear (byte 15 below 0x80), a point returned has
    127-bit coordinates, its y is the one read from the buffer with the sign
    bit masked, and it satisfies the curve equation. *)
Theorem decode_on_curve (bs : list Byte.byte) (P : point_t) :
  byte_at bs 15 < 128 ->
  decode bs = Some P ->
  on_curve P /\
  a_y P = ((word_at bs 0, word_at bs 1),
           (word_at bs 2, Z.land (word_at bs 3) 0x7FFFFFFFFFFFFFFF)) /\
  fe127 (fst (a_x P)) /\ fe127 (snd (a_x P)) /\
  fe127 (fst (a_y P)) /\ fe127 (snd (a_y P)).
Proof.
  intros Hb Hd.
  destruct (decode_inv bs P Hb Hd) as (Ey & [X0 X1] & [Y0 Y1] & Hv).
  split; [| split; [exact Ey |];
          split; [exact X0 |]; split; [exact X1 |]; split; [exact Y0 | exact Y1]].
  exact (validate_on_curve P X0 X1 Y0 Y1 Hv).
Qed.

Lemma decode_on_curve_witness :
  byte_at pk_zero 15 < 128 /\ decode pk_zero = Some point_pk_zero /\
  on_curve point_pk_zero.
Proof.
  assert (Hb : byte_at pk_zero 15 < 128) by (vm_compute; reflexivity).
  assert (Hd : decode pk_zero = Some point_pk_zero) by (vm_compute; reflexivity).
  split; [exact Hb |]. split; [exact Hd |].
  exact (proj1 (decode_on_curve pk_zero point_pk_zero Hb Hd)).
Defined.

(** [verify] accepts only under a public key that decodes to a point on
    the curve, and only when the reserved bits of the public key and of the
    signature are clear. *)
Theorem verify_accepts_curve_point (publicKey messageDigest signature : list Byte.byte) :
  verify publicKey messageDigest signature = true ->
  verify_gate publicKey signature = false /\
  exists A, decode publicKey = Some A /\ on_curve A.
Proof.
  unfold verify, verify_traced.
  destruct (verify_gate publicKey signature) eqn:Hg; [discriminate |].
  intros Hv. split; [reflexivity |].
  destruct (decode publicKey) as [A |] eqn:Hd; [| discriminate].
  exists A. split; [reflexivity |].
  assert (Hb : byte_at publicKey 15 < 128).
  { unfold verify_gate in Hg. rewrite !orb_false_iff in Hg.
    destruct Hg as [[[H15 _] _] _].
    apply negb_false_iff in H15.
    pose proof (byte_bit7 (nth 15 publicKey Byte.x00)) as Hbit.
    unfold byte_at in *. rewrite H15 in Hbit. cbn [negb] in Hbit.
    pose proof (Z_of_byte_range (nth 15 publicKey Byte.x00)) as Hr.
    destruct (Z.ltb_spec (Z_of_byte (nth 15 publicKey Byte.x00)) 128) as [H | H];
      [exact H | exfalso].
    symmetry in Hbit. rewrite Z.testbit_false in Hbit by lia.
    assert (Hq : Z_of_byte (nth 15 publicKey Byte.x00) / 2 ^ 7 = 1).
    { symmetry.
      apply Z.div_unique_pos with (r := Z_of_byte (nth 15 publicKey Byte.x00) - 128); lia. }
    rewrite Hq in Hbit. discriminate. }
  exact (decode_some_on_curve publicKey A Hb Hd).
Qed.

Lemma verify_accepts_curve_point_witness :
  verify pk_zero zero32 sig_zero = true /\
  exists A, decode pk_zero = Some A /\ on_curve A.
Proof.
  assert (Hv : verify pk_zero zero32 sig_zero = true) by (vm_compute; reflexivity).
  split; [exact Hv |].
  exact (proj2 (verify_accepts_curve_point pk_zero zero32 sig_zero Hv)).
Defined.

(** [encode] is injective on the canonical points of the curve: two such
    points with the same encoding are equal. *)
Theorem encode_injective (P Q : point_t) :
  point_canon P -> on_curve P -> point_canon Q -> on_curve Q ->
  encode P = encode Q -> P = Q.
Proof.
  intros CP HP CQ HQ E.
  destruct (decode_encode_rep P CP HP) as (P' & DP & YP & [_ EP0] & [_ EP1]).
  destruct (decode_encode_rep Q CQ HQ) as (Q' & DQ & YQ & [_ EQ0] & [_ EQ1]).
  rewrite E in DP. rewrite DP in DQ. injection DQ as <-.
  destruct CP as (CP0 & CP1 & _). destruct CQ as (CQ0 & CQ1 & _).
  destruct P as [[px0 px1] py], Q as [[qx0 qx1] qy]. cbn [a_x a_y fst snd] in *.
  rewrite (fe_inj_canon px0 qx0 CP0 CQ0) by (rewrite <- EP0; exact EQ0).
  rewrite (fe_inj_canon px1 qx1 CP1 CQ1) by (rewrite <- EP1; exact EQ1).
  rewrite <- YP, YQ. reflexivity.
Qed.

Lemma encode_injective_witness :
  point_canon point_order4 /\ on_curve point_order4 /\
  point_order4 = point_order4.
Proof.
  assert (Hc : point_canon point_order4).
  { unfold point_canon, fcanon, felm_ok, is_u64, fval, p1271.
    cbn [point_order4 f2_zero f2_of_words a_x a_y fst snd]. lia. }
  assert (Hon : on_curve point_order4) by (split; vm_compute; reflexivity).
  split; [exact Hc |]. split; [exact Hon |].
  exact (encode_injective point_order4 point_order4 Hc Hon Hc Hon eq_refl).
Defined.

End PointChecks.

(** * The field GF(p^2) and the curve arithmetic *)

Module Fp2Facts.
Import Stdlib.Zmod.ZmodDef Stdlib.Zmod.ZmodBase Stdlib.Zmod.ZmodInv.
Import Stdlib.nsatz.NsatzTactic.
Import FieldFacts Primality FpFacts DecodeFacts.
Import GFp2.

Local Notation fe a := (Zmod.of_Z p1271 (fval a)).

Lemma Fp2_ring_theory :
  ring_theory GFp2.zero GFp2.one GFp2.add GFp2.mul GFp2.sub GFp2.opp (@eq Fp2).
Proof.
  constructor; intros;
    repeat match goal with x : Fp2 |- _ => destruct x end;
    unfold GFp2.zero, GFp2.one, GFp2.add, GFp2.mul, GFp2.sub, GFp2.opp;
    cbn [fst snd]; f_equal; ring.
Qed.

Add Ring Fp2_ring : Fp2_ring_theory.

#[export] Instance Fp2_ops :
  @Ring_ops Fp2 GFp2.zero GFp2.one GFp2.add GFp2.mul GFp2.sub GFp2.opp eq := {}.

Lemma Fp2_mul_1_r (x : Fp2) : GFp2.mul x GFp2.one = x.
Proof. ring. Qed.

Lemma Fp2_distr_r (x y z : Fp2) :
  GFp2.mul z (GFp2.add x y) = GFp2.add (GFp2.mul z x) (GFp2.mul z y).
Proof. ring. Qed.

#[export] Instance Fp2_Ring : Ring (Ro := Fp2_ops).
Proof.
  split.
  { apply eq_equivalence. }
  1,2,3,4 : Morphisms.solve_proper.
  { exact (Radd_0_l Fp2_ring_theory). }
  { exact (Radd_comm Fp2_ring_theory). }
  { exact (Radd_assoc Fp2_ring_theory). }
  { exact (Rmul_1_l Fp2_ring_theory). }
  { exact Fp2_mul_1_r. }
  { exact (Rmul_assoc Fp2_ring_theory). }
  { exact (Rdistr_l Fp2_ring_theory). }
  { exact Fp2_distr_r. }
  { exact (Rsub_def Fp2_ring_theory). }
  { exact (Ropp_def Fp2_ring_theory). }
Qed.

#[export] Instance Fp2_Cring : Cring (Rr := Fp2_Ring).
Proof. exact (Rmul_comm Fp2_ring_theory). Qed.

(** The norm a0^2 + a1^2 vanishes only at zero, so GF(p^2) has no zero
    divisors. *)
Lemma Fp2_mul_zero (a b : Fp2) :
  GFp2.mul a b = GFp2.zero -> a = GFp2.zero \/ b = GFp2.zero.
Proof.
  destruct a as [a0 a1], b as [b0 b1]. unfold GFp2.mul, GFp2.zero. cbn [fst snd].
  intros H.
  pose proof (f_equal fst H) as H0. pose proof (f_equal snd H) as H1.
  cbn [fst snd] in H0, H1.
  assert (HN : ((a0 * a0 + a1 * a1) * (b0 * b0 + b1 * b1))%Zmod = Zmod.zero).
  { transitivity ((a0 * b0 - a1 * b1) * (a0 * b0 - a1 * b1)
                  + (a0 * b1 + a1 * b0) * (a0 * b1 + a1 * b0))%Zmod; [ring |].
    rewrite H0, H1. ring. }
  destruct (F_mul_0 _ _ HN) as [Ha | Hb].
  - left. destruct (F_sum_sq _ _ Ha) as [-> ->]. reflexivity.
  - right. destruct (F_sum_sq _ _ Hb) as [-> ->]. reflexivity.
Qed.

#[export] Instance Fp2_domain : Integral_domain (Rr := Fp2_Ring).
Proof.
  split.
  - exact Fp2_mul_zero.
  - intros H. exact (F_one_nz (f_equal fst H)).
Qed.

(** ** The field operations of the code in GF(p^2) *)

(** [a] has 127-bit components and stands for [v]. *)
Local Notation frep a v := (f2_ok a /\ of_f2elm a = v).

Lemma frep_mul a b va vb :
  frep a va -> frep b vb -> frep (fp2mul1271 a b) (GFp2.mul va vb).
Proof.
  intros [[A0 A1] <-] [[B0 B1] <-].
  destruct (rep2_mul a b _ _ _ _ (conj (conj A0 eq_refl) (conj A1 eq_refl))
              (conj (conj B0 eq_refl) (conj B1 eq_refl))) as [[M0 E0] [M1 E1]].
  split; [split; assumption |].
  unfold of_f2elm, GFp2.mul. cbn [fst snd]. rewrite E0, E1. f_equal. ring.
Qed.

Lemma frep_sqr a va : frep a va -> frep (fp2sqr1271 a) (GFp2.mul va va).
Proof.
  intros [[A0 A1] <-].
  destruct (rep2_sqr a _ _ (conj (conj A0 eq_refl) (conj A1 eq_refl)))
    as [[M0 E0] [M1 E1]].
  split; [split; assumption |].
  unfold of_f2elm, GFp2.mul. cbn [fst snd]. rewrite E0, E1. f_equal; ring.
Qed.

Lemma frep_add a b va vb :
  frep a va -> frep b vb -> frep (fp2add1271 a b) (GFp2.add va vb).
Proof.
  intros [[A0 A1] <-] [[B0 B1] <-].
  destruct (rep2_add a b _ _ _ _ (conj (conj A0 eq_refl) (conj A1 eq_refl))
              (conj (conj B0 eq_refl) (conj B1 eq_refl))) as [[M0 E0] [M1 E1]].
  split; [split; assumption |].
  unfold of_f2elm, GFp2.add. cbn [fst snd]. rewrite E0, E1. reflexivity.
Qed.

Lemma frep_sub a b va vb :
  frep a va -> frep b vb -> frep (fp2sub1271 a b) (GFp2.sub va vb).
Proof.
  intros [[A0 A1] <-] [[B0 B1] <-].
  destruct (rep2_sub a b _ _ _ _ (conj (conj A0 eq_refl) (conj A1 eq_refl))
              (conj (conj B0 eq_refl) (conj B1 eq_refl))) as [[M0 E0] [M1 E1]].
  split; [split; assumption |].
  unfold of_f2elm, GFp2.sub. cbn [fst snd]. rewrite E0, E1. reflexivity.
Qed.

Lemma frep_neg a va : frep a va -> frep (fp2neg1271 a) (GFp2.opp va).
Proof.
  intros [[A0 A1] <-].
  destruct (fe_neg _ A0) as [M0 E0]. destruct (fe_neg _ A1) as [M1 E1].
  split; [split; assumption |].
  unfold of_f2elm, GFp2.opp, fp2neg1271. cbn [fst snd]. rewrite E0, E1. reflexivity.
Qed.

Lemma frep_addsub a b va vb :
  frep a va -> frep b vb ->
  frep (snd (fp2addsub1271 a b)) (GFp2.sub (GFp2.add va va) vb).
Proof.
  intros Ha Hb. unfold fp2addsub1271. cbn [snd].
  apply frep_sub; [apply frep_add; assumption | assumption].
Qed.

Lemma frep_one : frep f2_one GFp2.one.
Proof.
  split; [exact fe127_2_one |].
  destruct rep2_one as [[_ E0] [_ E1]].
  unfold of_f2elm, GFp2.one. rewrite E0, E1. reflexivity.
Qed.

Lemma frep_d : frep PARAMETER_d GFp2.d.
Proof. split; [exact fe127_2_d | reflexivity]. Qed.

Lemma frep_self a : f2_ok a -> frep a (of_f2elm a).
Proof. intros H. split; [exact H | reflexivity]. Qed.

(** Find the element of GF(p^2) that a term built from the GF(p^2)
    operations stands for. *)
Ltac frep_solve :=
  repeat first
    [ eassumption
    | exact frep_one | exact frep_d
    | eapply frep_mul | eapply frep_sqr | eapply frep_add | eapply frep_sub
    | eapply frep_neg | eapply frep_addsub ].

(** ** Doubling *)

Lemma on_curve_ext_proj P : on_curve_ext P -> on_curve_proj P.
Proof.
  unfold on_curve_ext, on_curve_proj. cbv zeta.
  set (X := of_f2elm (e_x P)). set (Y := of_f2elm (e_y P)).
  set (Z := of_f2elm (e_z P)).
  set (T := GFp2.mul (of_f2elm (e_ta P)) (of_f2elm (e_tb P))).
  intros [H1 H2].
  nsatz.
Qed.

Lemma eccdouble_rep P X Y Z :
  frep (e_x P) X -> frep (e_y P) Y -> frep (e_z P) Z ->
  exists X3 Y3 Z3 Ta3 Tb3,
    frep (e_x (eccdouble P)) X3 /\ frep (e_y (eccdouble P)) Y3 /\
    frep (e_z (eccdouble P)) Z3 /\
    frep (e_ta (eccdouble P)) Ta3 /\ frep (e_tb (eccdouble P)) Tb3 /\
    Tb3 = GFp2.add (GFp2.mul X X) (GFp2.mul Y Y) /\
    Ta3 = GFp2.add (GFp2.mul X Y) (GFp2.mul X Y) /\
    Y3 = GFp2.mul (GFp2.sub (GFp2.mul Y Y) (GFp2.mul X X)) Tb3 /\
    Z3 = GFp2.mul (GFp2.sub (GFp2.mul Y Y) (GFp2.mul X X))
           (GFp2.sub (GFp2.add (GFp2.mul Z Z) (GFp2.mul Z Z))
                     (GFp2.sub (GFp2.mul Y Y) (GFp2.mul X X))) /\
    X3 = GFp2.mul (GFp2.sub (GFp2.add (GFp2.mul Z Z) (GFp2.mul Z Z))
                            (GFp2.sub (GFp2.mul Y Y) (GFp2.mul X X))) Ta3.
Proof.
  intros HX HY HZ.
  unfold eccdouble. cbv zeta. cbn [e_x e_y e_z e_ta e_tb].
  do 5 eexists.
  split; [frep_solve |]. split; [frep_solve |]. split; [frep_solve |].
  split; [frep_solve |]. split; [frep_solve |].
  split; [reflexivity |]. split; [ring |]. split; [reflexivity |].
  split; [reflexivity |]. ring.
Qed.

Lemma extproj_ok_intro (P : point_extproj_t) X Y Z Ta Tb :
  frep (e_x P) X -> frep (e_y P) Y -> frep (e_z P) Z ->
  frep (e_ta P) Ta -> frep (e_tb P) Tb -> extproj_ok P.
Proof.
  intros [H1 _] [H2 _] [H3 _] [H4 _] [H5 _].
  unfold extproj_ok. auto.
Qed.

(** ** Addition *)

Lemma eccadd_rep P Q X1 Y1 Z1 Ta1 Tb1 X2 Y2 Z2 Ta2 Tb2 :
  frep (e_x P) X1 -> frep (e_y P) Y1 -> frep (e_z P) Z1 ->
  frep (e_ta P) Ta1 -> frep (e_tb P) Tb1 ->
  frep (e_x Q) X2 -> frep (e_y Q) Y2 -> frep (e_z Q) Z2 ->
  frep (e_ta Q) Ta2 -> frep (e_tb Q) Tb2 ->
  exists X3 Y3 Z3 Ta3 Tb3,
    frep (e_x (eccadd (R1_to_R2 Q) P)) X3 /\
    frep (e_y (eccadd (R1_to_R2 Q) P)) Y3 /\
    frep (e_z (eccadd (R1_to_R2 Q) P)) Z3 /\
    frep (e_ta (eccadd (R1_to_R2 Q) P)) Ta3 /\
    frep (e_tb (eccadd (R1_to_R2 Q) P)) Tb3 /\
    (let T1 := GFp2.mul Ta1 Tb1 in
     let T2 := GFp2.mul Ta2 Tb2 in
     let C := GFp2.mul (GFp2.mul (GFp2.mul (GFp2.add Ta2 Ta2) Tb2) GFp2.d) T1 in
     let D := GFp2.mul (GFp2.add Z2 Z2) Z1 in
     let B := GFp2.mul (GFp2.add X2 Y2) (GFp2.add X1 Y1) in
     let A := GFp2.mul (GFp2.sub Y2 X2) (GFp2.sub Y1 X1) in
     Tb3 = GFp2.sub B A /\ Ta3 = GFp2.add B A /\
     X3 = GFp2.mul Tb3 (GFp2.sub D C) /\
     Z3 = GFp2.mul (GFp2.add D C) (GFp2.sub D C) /\
     Y3 = GFp2.mul Ta3 (GFp2.add D C)).
Proof.
  intros HX1 HY1 HZ1 HTa1 HTb1 HX2 HY2 HZ2 HTa2 HTb2.
  unfold eccadd, eccadd_core, R1_to_R2, R1_to_R3. cbv zeta.
  cbn [e_x e_y e_z e_ta e_tb ep_xy ep_yx ep_z2 ep_t2].
  do 5 eexists.
  split; [frep_solve |]. split; [frep_solve |]. split; [frep_solve |].
  split; [frep_solve |]. split; [frep_solve |].
  cbv zeta. repeat split; reflexivity.
Qed.

(** ** Mixed addition *)

Lemma eccmadd_rep (Q : point_precomp_t) P QXY QYX QT X1 Y1 Z1 Ta1 Tb1 :
  frep (p_xy Q) QXY -> frep (p_yx Q) QYX -> frep (p_t2 Q) QT ->
  frep (e_x P) X1 -> frep (e_y P) Y1 -> frep (e_z P) Z1 ->
  frep (e_ta P) Ta1 -> frep (e_tb P) Tb1 ->
  exists X3 Y3 Z3 Ta3 Tb3,
    frep (e_x (eccmadd Q P)) X3 /\ frep (e_y (eccmadd Q P)) Y3 /\
    frep (e_z (eccmadd Q P)) Z3 /\
    frep (e_ta (eccmadd Q P)) Ta3 /\ frep (e_tb (eccmadd Q P)) Tb3 /\
    (let C := GFp2.mul (GFp2.mul Ta1 Tb1) QT in
     let D := GFp2.add Z1 Z1 in
     let B := GFp2.mul QXY (GFp2.add X1 Y1) in
     let A := GFp2.mul QYX (GFp2.sub Y1 X1) in
     Tb3 = GFp2.sub B A /\ Ta3 = GFp2.add B A /\
     X3 = GFp2.mul Tb3 (GFp2.sub D C) /\
     Z3 = GFp2.mul (GFp2.add D C) (GFp2.sub D C) /\
     Y3 = GFp2.mul Ta3 (GFp2.add D C)).
Proof.
  intros HQ1 HQ2 HQ3 HX1 HY1 HZ1 HTa1 HTb1.
  unfold eccmadd. cbv zeta. cbn [e_x e_y e_z e_ta e_tb].
  do 5 eexists.
  split; [frep_solve |]. split; [frep_solve |]. split; [frep_solve |].
  split; [frep_solve |]. split; [frep_solve |].
  cbv zeta. repeat split; reflexivity.
Qed.

(** ** The operations keep the curve *)

(** [eccdouble] maps a point of the projective curve, given by X, Y and Z
    of 127-bit components, to a point of the curve in extended coordinates
    with 127-bit components; it does not read Ta and Tb. *)
Lemma eccdouble_closed (P : point_extproj_t) :
  f2_ok (e_x P) -> f2_ok (e_y P) -> f2_ok (e_z P) ->
  on_curve_proj P ->
  on_curve_ext (eccdouble P) /\ extproj_ok (eccdouble P).
Proof.
  intros HX HY HZ Hc.
  destruct (eccdouble_rep P _ _ _ (frep_self _ HX) (frep_self _ HY) (frep_self _ HZ))
    as (X3 & Y3 & Z3 & Ta3 & Tb3 & R1 & R2 & R3 & R4 & R5 & E1 & E2 & E3 & E4 & E5).
  split; [| exact (extproj_ok_intro _ _ _ _ _ _ R1 R2 R3 R4 R5)].
  unfold on_curve_ext. cbv zeta.
  rewrite (proj2 R1), (proj2 R2), (proj2 R3), (proj2 R4), (proj2 R5).
  unfold on_curve_proj in Hc. cbv zeta in Hc.
  set (X := of_f2elm (e_x P)) in *. set (Y := of_f2elm (e_y P)) in *.
  set (Z := of_f2elm (e_z P)) in *.
  clearbody X Y Z. clear R1 R2 R3 R4 R5 HX HY HZ.
  subst X3 Z3 Y3 Ta3 Tb3.
  split; [nsatz | ring].
Qed.

(** [eccadd], after [R1_to_R2] on its first operand, maps two points of the
    curve in extended coordinates with 127-bit components to a point of the
    curve in extended coordinates with 127-bit components. *)
Lemma eccadd_closed (P Q : point_extproj_t) :
  extproj_ok P -> extproj_ok Q ->
  on_curve_ext P -> on_curve_ext Q ->
  on_curve_ext (eccadd (R1_to_R2 Q) P) /\ extproj_ok (eccadd (R1_to_R2 Q) P).
Proof.
  intros (P1 & P2 & P3 & P4 & P5) (Q1 & Q2 & Q3 & Q4 & Q5) HP HQ.
  destruct (eccadd_rep P Q _ _ _ _ _ _ _ _ _ _
              (frep_self _ P1) (frep_self _ P2) (frep_self _ P3)
              (frep_self _ P4) (frep_self _ P5)
              (frep_self _ Q1) (frep_self _ Q2) (frep_self _ Q3)
              (frep_self _ Q4) (frep_self _ Q5))
    as (X3 & Y3 & Z3 & Ta3 & Tb3 & R1 & R2 & R3 & R4 & R5 & E).
  split; [| exact (extproj_ok_intro _ _ _ _ _ _ R1 R2 R3 R4 R5)].
  unfold on_curve_ext. cbv zeta.
  rewrite (proj2 R1), (proj2 R2), (proj2 R3), (proj2 R4), (proj2 R5).
  unfold on_curve_ext in HP, HQ. cbv zeta in HP, HQ, E.
  set (X1 := of_f2elm (e_x P)) in *. set (Y1 := of_f2elm (e_y P)) in *.
  set (Z1 := of_f2elm (e_z P)) in *.
  set (Ta1 := of_f2elm (e_ta P)) in *. set (Tb1 := of_f2elm (e_tb P)) in *.
  set (X2 := of_f2elm (e_x Q)) in *. set (Y2 := of_f2elm (e_y Q)) in *.
  set (Z2 := of_f2elm (e_z Q)) in *.
  set (Ta2 := of_f2elm (e_ta Q)) in *. set (Tb2 := of_f2elm (e_tb Q)) in *.
  clearbody X1 Y1 Z1 Ta1 Tb1 X2 Y2 Z2 Ta2 Tb2.
  clear R1 R2 R3 R4 R5 P1 P2 P3 P4 P5 Q1 Q2 Q3 Q4 Q5.
  destruct E as (E1 & E2 & E3 & E4 & E5).
  destruct HP as [HP1 HP2]. destruct HQ as [HQ1 HQ2].
  subst X3 Z3 Y3 Ta3 Tb3.
  split; [nsatz | ring].
Qed.

(** [eccmadd] maps a point of the curve in extended coordinates and the
    precomputed form (x + y, y - x, 2 d x y) of an affine point of the
    curve, all of 127-bit components, to a point of the curve in extended
    coordinates with 127-bit components. *)
Lemma eccmadd_closed (Q : point_precomp_t) (P : point_extproj_t) (x y : Fp2) :
  precomp_ok Q -> precomp_of Q x y -> on_curve_affine x y ->
  extproj_ok P -> on_curve_ext P ->
  on_curve_ext (eccmadd Q P) /\ extproj_ok (eccmadd Q P).
Proof.
  intros (Q1 & Q2 & Q3) (EQ1 & EQ2 & EQ3) Hq (P1 & P2 & P3 & P4 & P5) HP.
  destruct (eccmadd_rep Q P _ _ _ _ _ _ _ _
              (frep_self _ Q1) (frep_self _ Q2) (frep_self _ Q3)
              (frep_self _ P1) (frep_self _ P2) (frep_self _ P3)
              (frep_self _ P4) (frep_self _ P5))
    as (X3 & Y3 & Z3 & Ta3 & Tb3 & R1 & R2 & R3 & R4 & R5 & E).
  split; [| exact (extproj_ok_intro _ _ _ _ _ _ R1 R2 R3 R4 R5)].
  unfold on_curve_ext. cbv zeta.
  rewrite (proj2 R1), (proj2 R2), (proj2 R3), (proj2 R4), (proj2 R5).
  unfold on_curve_ext in HP. unfold on_curve_affine in Hq. cbv zeta in HP, E.
  rewrite EQ1, EQ2, EQ3 in E.
  set (X1 := of_f2elm (e_x P)) in *. set (Y1 := of_f2elm (e_y P)) in *.
  set (Z1 := of_f2elm (e_z P)) in *.
  set (Ta1 := of_f2elm (e_ta P)) in *. set (Tb1 := of_f2elm (e_tb P)) in *.
  clearbody X1 Y1 Z1 Ta1 Tb1.
  clear R1 R2 R3 R4 R5 P1 P2 P3 P4 P5 Q1 Q2 Q3 EQ1 EQ2 EQ3.
  destruct E as (E1 & E2 & E3 & E4 & E5).
  destruct HP as [HP1 HP2].
  subst X3 Z3 Y3 Ta3 Tb3.
  split; [nsatz | ring].
Qed.

End Fp2Facts.

(** * Affine points, normalisation and the tables *)

Module AffineFacts.
Import Stdlib.Zmod.ZmodDef Stdlib.Zmod.ZmodBase Stdlib.Zmod.ZmodInv.
Import Stdlib.nsatz.NsatzTactic.
Import FieldFacts Primality FpFacts DecodeFacts Fp2Facts.
Import GFp2.

Local Notation fe a := (Zmod.of_Z p1271 (fval a)).
Local Notation frep a v := (f2_ok a /\ of_f2elm a = v).

Lemma Fp2_pair_eq (a0 a1 b0 b1 : Zmod p1271) :
  a0 = b0 -> a1 = b1 -> @eq Fp2 (a0, a1) (b0, b1).
Proof. intros -> ->. reflexivity. Qed.

(** The curve equation on integers and in GF(p^2) agree. *)
Lemma on_curve_affine_iff (P : point_t) :
  on_curve P <-> on_curve_affine (of_f2elm (a_x P)) (of_f2elm (a_y P)).
Proof.
  destruct P as [[xa xb] [y0 y1]]. cbn [a_x a_y].
  unfold on_curve_affine, GFp2.d, of_f2elm, GFp2.add, GFp2.mul, GFp2.opp, GFp2.one.
  cbn [fst snd].
  split.
  - intros H. apply on_curve_residues in H. destruct H as [H0 H1].
    apply Fp2_pair_eq; apply F_sub_0.
    + etransitivity; [| exact H0]. ring.
    + etransitivity; [| exact H1]. ring.
  - intros H.
    pose proof (f_equal fst H) as H0. pose proof (f_equal snd H) as H1.
    cbn [fst snd] in H0, H1. apply F_eq_sub in H0, H1.
    apply residues_on_curve. split.
    + etransitivity; [| exact H0]. ring.
    + etransitivity; [| exact H1]. ring.
Qed.

Lemma on_curve_ext_setup (P : point_t) :
  on_curve_ext (point_setup P) <->
  on_curve_affine (of_f2elm (a_x P)) (of_f2elm (a_y P)).
Proof.
  unfold on_curve_ext, on_curve_affine, point_setup. cbv zeta.
  cbn [e_x e_y e_z e_ta e_tb].
  rewrite (proj2 frep_one).
  set (x := of_f2elm (a_x P)). set (y := of_f2elm (a_y P)). clearbody x y.
  split.
  - intros [H1 H2]. nsatz.
  - intros H. split; [nsatz | ring].
Qed.

(** ** Inversion by exponentiation *)

(** n * (n * e^4) = n^(p - 1) for e = n^(2^125 - 1). *)
Lemma F_inv_chain (n : Zmod p1271) :
  n <> Zmod.zero ->
  (n * (n * ((n ^ (2 ^ 125 - 1) * n ^ (2 ^ 125 - 1))
             * (n ^ (2 ^ 125 - 1) * n ^ (2 ^ 125 - 1)))))%Zmod = Zmod.one.
Proof.
  intros Hn.
  rewrite <- (Zmod.fermat_nz n Hn prime_p1271).
  replace (Z.pred p1271)
    with (Z.succ (Z.succ (((2 ^ 125 - 1) + (2 ^ 125 - 1))
                          + ((2 ^ 125 - 1) + (2 ^ 125 - 1))))) by reflexivity.
  rewrite !Zmod.pow_succ_nonneg_r by (vm_compute; discriminate).
  rewrite !Zmod.pow_add_r_nonneg by (vm_compute; discriminate).
  reflexivity.
Qed.

Lemma F_pow_zero_odd : ((Zmod.zero : Zmod p1271) ^ (2 ^ 125 - 1))%Zmod = Zmod.zero.
Proof. apply Zmod.pow_0_l. vm_compute. discriminate. Qed.

Lemma canon_zero a : fcanon a -> fe a = Zmod.zero -> a = (0, 0).
Proof.
  intros Hc Hz. apply fe_zero_canon in Hz; [| exact Hc].
  destruct a as [a0 a1]. unfold felm_is_zero in Hz. cbn [fst snd] in Hz.
  rewrite andb_true_iff, !Z.eqb_eq in Hz. destruct Hz as [-> ->]. reflexivity.
Qed.

(** The inverse of Z that [eccnorm] computes: the components of
    conj(Z) * N(Z)^(p - 2). *)
Lemma eccnorm_inverse (z0 z1 : felm_t) :
  fe127 z0 -> fe127 z1 ->
  let n := fpadd1271 (fpsqr1271 z0) (fpsqr1271 z1) in
  let e := fpsqr1271 (fpsqr1271 (fpexp1251 n)) in
  let t := fpmul1271 n e in
  let zi := (fpmul1271 z0 t, fpmul1271 (fpneg1271 z1) t) in
  f2_ok zi /\
  (of_f2elm (z0, z1) <> GFp2.zero ->
   GFp2.mul (of_f2elm (z0, z1)) (of_f2elm zi) = GFp2.one) /\
  (of_f2elm (z0, z1) = GFp2.zero -> of_f2elm zi = GFp2.zero).
Proof.
  intros H0 H1. cbv zeta.
  pose proof (rep_add _ _ _ _ (rep_sqr _ _ (conj H0 eq_refl))
                (rep_sqr _ _ (conj H1 eq_refl))) as [Fn En].
  set (n := fpadd1271 (fpsqr1271 z0) (fpsqr1271 z1)) in *.
  pose proof (rep_sqr _ _ (rep_sqr _ _ (rep_exp _ _ (conj Fn eq_refl)))) as [Fe Ee].
  set (e := fpsqr1271 (fpsqr1271 (fpexp1251 n))) in *.
  pose proof (rep_mul _ _ _ _ (conj Fn eq_refl) (conj Fe eq_refl)) as [Ft Et].
  set (t := fpmul1271 n e) in *.
  rewrite Ee in Et. clear Ee Fe. clearbody e.
  pose proof (rep_mul _ _ _ _ (conj H0 eq_refl) (conj Ft eq_refl)) as [Fa Ea].
  pose proof (rep_mul _ _ _ _ (rep_neg _ _ (conj H1 eq_refl)) (conj Ft eq_refl))
    as [Fb Eb].
  split; [split; assumption |].
  unfold of_f2elm, GFp2.mul, GFp2.one, GFp2.zero. cbn [fst snd].
  rewrite Ea, Eb. split.
  - intros Hnz.
    assert (Hn : fe n <> Zmod.zero).
    { rewrite En. intros Hs. apply Hnz.
      destruct (F_sum_sq _ _ Hs) as [-> ->]. reflexivity. }
    pose proof (F_inv_chain _ Hn) as Hinv. rewrite <- Et in Hinv.
    apply Fp2_pair_eq.
    + transitivity ((fe z0 * fe z0 + fe z1 * fe z1) * fe t)%Zmod; [ring |].
      rewrite <- En. exact Hinv.
    + ring.
  - intros Hz.
    pose proof (f_equal fst Hz) as Hz0. pose proof (f_equal snd Hz) as Hz1.
    cbn [fst snd] in Hz0, Hz1.
    rewrite Hz0, Hz1. apply Fp2_pair_eq; ring.
Qed.

Lemma frep_canon (a : f2elm_t) v :
  frep a v ->
  fcanon (mod1271 (fst a)) /\ fcanon (mod1271 (snd a)) /\
  of_f2elm (mod1271 (fst a), mod1271 (snd a)) = v.
Proof.
  intros [[A0 A1] <-].
  destruct (fe_mod _ A0) as [C0 E0]. destruct (fe_mod _ A1) as [C1 E1].
  split; [exact C0 |]. split; [exact C1 |].
  unfold of_f2elm. cbn [fst snd]. rewrite E0, E1. reflexivity.
Qed.

(** ** Set-up *)

Lemma point_setup_ok (P : point_t) :
  f2_ok (a_x P) -> f2_ok (a_y P) -> extproj_ok (point_setup P).
Proof.
  intros HX HY. unfold extproj_ok, point_setup. cbn [e_x e_y e_z e_ta e_tb].
  pose proof fe127_2_one. auto.
Qed.

Lemma point_pk_zero_ok : f2_ok (a_x point_pk_zero) /\ f2_ok (a_y point_pk_zero).
Proof.
  unfold f2_ok, fe127, is_u64. cbn [point_pk_zero a_x a_y fst snd]. lia.
Qed.

Lemma point_pk_zero_on_curve : on_curve point_pk_zero.
Proof. split; vm_compute; reflexivity. Qed.

Lemma point_pk_zero_setup :
  extproj_ok (point_setup point_pk_zero) /\
  on_curve_ext (point_setup point_pk_zero).
Proof.
  destruct point_pk_zero_ok as [HX HY].
  split; [exact (point_setup_ok _ HX HY) |].
  apply on_curve_ext_setup. apply on_curve_affine_iff.
  exact point_pk_zero_on_curve.
Qed.

(** ** Normalisation *)

(** [eccnorm] returns canonical coordinates.  When Z is not zero they are
    X / Z and Y / Z, and a point of the projective curve is mapped to an
    affine point of the curve; when Z is zero all four components returned
    are zero. *)
Lemma eccnorm_sound (P : point_extproj_t) :
  f2_ok (e_x P) -> f2_ok (e_y P) -> f2_ok (e_z P) ->
  point_canon (eccnorm P) /\
  (of_f2elm (e_z P) <> GFp2.zero ->
   GFp2.mul (of_f2elm (a_x (eccnorm P))) (of_f2elm (e_z P)) = of_f2elm (e_x P) /\
   GFp2.mul (of_f2elm (a_y (eccnorm P))) (of_f2elm (e_z P)) = of_f2elm (e_y P) /\
   (on_curve_proj P -> on_curve (eccnorm P))) /\
  (of_f2elm (e_z P) = GFp2.zero -> eccnorm P = mk_point f2_zero f2_zero).
Proof.
  destruct P as [x y [z0 z1] ta tb]. cbn [e_x e_y e_z].
  intros HX HY [HZ0 HZ1]. cbn [fst snd] in HZ0, HZ1.
  destruct (eccnorm_inverse z0 z1 HZ0 HZ1) as (Fzi & Hinv & Hzero).
  unfold eccnorm. cbn [e_x e_y e_z]. cbv zeta in Fzi, Hinv, Hzero |- *.
  set (zi := (fpmul1271 z0
                (fpmul1271 (fpadd1271 (fpsqr1271 z0) (fpsqr1271 z1))
                   (fpsqr1271 (fpsqr1271
                      (fpexp1251 (fpadd1271 (fpsqr1271 z0) (fpsqr1271 z1)))))),
              fpmul1271 (fpneg1271 z1)
                (fpmul1271 (fpadd1271 (fpsqr1271 z0) (fpsqr1271 z1))
                   (fpsqr1271 (fpsqr1271
                      (fpexp1251 (fpadd1271 (fpsqr1271 z0) (fpsqr1271 z1))))))))
    in *.
  clearbody zi.
  pose proof (frep_mul x zi _ _ (frep_self _ HX) (frep_self _ Fzi)) as Rx.
  pose proof (frep_mul y zi _ _ (frep_self _ HY) (frep_self _ Fzi)) as Ry.
  destruct (frep_canon _ _ Rx) as (Cx0 & Cx1 & Ex).
  destruct (frep_canon _ _ Ry) as (Cy0 & Cy1 & Ey).
  cbn [a_x a_y].
  split; [| split].
  - unfold point_canon. cbn [a_x a_y fst snd]. auto.
  - intros Hnz. specialize (Hinv Hnz).
    rewrite Ex, Ey.
    set (X := of_f2elm x) in *. set (Y := of_f2elm y) in *.
    set (Z := of_f2elm (z0, z1)) in *. set (ZI := of_f2elm zi) in *.
    split; [nsatz |]. split; [nsatz |].
    intros Hc. apply on_curve_affine_iff. cbn [a_x a_y]. rewrite Ex, Ey.
    unfold on_curve_proj in Hc. cbv zeta in Hc. cbn [e_x e_y e_z] in Hc.
    fold X Y Z ZI in Hc |- *. unfold on_curve_affine.
    clearbody X Y Z ZI. nsatz.
  - intros Hz. specialize (Hzero Hz).
    rewrite Hzero in Ex, Ey.
    assert (Zx : of_f2elm (mod1271 (fst (fp2mul1271 x zi)),
                           mod1271 (snd (fp2mul1271 x zi))) = GFp2.zero)
      by (rewrite Ex; ring).
    assert (Zy : of_f2elm (mod1271 (fst (fp2mul1271 y zi)),
                           mod1271 (snd (fp2mul1271 y zi))) = GFp2.zero)
      by (rewrite Ey; ring).
    pose proof (f_equal fst Zx) as Zx0. pose proof (f_equal snd Zx) as Zx1.
    pose proof (f_equal fst Zy) as Zy0. pose proof (f_equal snd Zy) as Zy1.
    cbn [of_f2elm GFp2.zero fst snd] in Zx0, Zx1, Zy0, Zy1.
    unfold of_f2elm, GFp2.zero in Zx0, Zx1, Zy0, Zy1. cbn [fst snd] in Zx0, Zx1, Zy0, Zy1.
    rewrite (canon_zero _ Cx0 Zx0), (canon_zero _ Cx1 Zx1).
    rewrite (canon_zero _ Cy0 Zy0), (canon_zero _ Cy1 Zy1).
    reflexivity.
Qed.

End AffineFacts.

(** * Normalisation and set-up *)

Module PointNorm.
Import Stdlib.Zmod.ZmodDef Stdlib.Zmod.ZmodBase Stdlib.Zmod.ZmodInv.
Import Stdlib.nsatz.NsatzTactic.
Import FieldFacts Primality FpFacts DecodeFacts Fp2Facts AffineFacts.
Import GFp2.

Local Notation fe a := (Zmod.of_Z p1271 (fval a)).
Local Notation frep a v := (f2_ok a /\ of_f2elm a = v).

(** [point_setup] turns an affine point with 127-bit coordinates into
    extended coordinates with Z = 1 and Ta Tb = x y; the result is on the
    curve in extended coordinates exactly when the point is on the
    curve. *)
Theorem point_setup_on_curve (P : point_t) :
  f2_ok (a_x P) -> f2_ok (a_y P) ->
  extproj_ok (point_setup P) /\
  of_f2elm (e_z (point_setup P)) = GFp2.one /\
  (on_curve P <-> on_curve_ext (point_setup P)).
Proof.
  intros HX HY. split; [| split].
  - exact (point_setup_ok P HX HY).
  - exact (proj2 frep_one).
  - rewrite on_curve_ext_setup. apply on_curve_affine_iff.
Qed.

Lemma point_setup_on_curve_witness :
  f2_ok (a_x point_pk_zero) /\ f2_ok (a_y point_pk_zero) /\
  on_curve_ext (point_setup point_pk_zero).
Proof.
  destruct point_pk_zero_ok as [HX HY].
  split; [exact HX |]. split; [exact HY |].
  exact (proj1 (proj2 (proj2 (point_setup_on_curve point_pk_zero HX HY)))
               point_pk_zero_on_curve).
Defined.

(** [eccnorm] returns canonical coordinates.  When Z is not zero they are
    X / Z and Y / Z, and a point of the projective curve is mapped to an
    affine point of the curve; when Z is zero all four components returned
    are zero. *)
Theorem eccnorm_spec (P : point_extproj_t) :
  f2_ok (e_x P) -> f2_ok (e_y P) -> f2_ok (e_z P) ->
  point_canon (eccnorm P) /\
  (of_f2elm (e_z P) <> GFp2.zero ->
   GFp2.mul (of_f2elm (a_x (eccnorm P))) (of_f2elm (e_z P)) = of_f2elm (e_x P) /\
   GFp2.mul (of_f2elm (a_y (eccnorm P))) (of_f2elm (e_z P)) = of_f2elm (e_y P) /\
   (on_curve_proj P -> on_curve (eccnorm P))) /\
  (of_f2elm (e_z P) = GFp2.zero -> eccnorm P = mk_point f2_zero f2_zero).
Proof. exact (eccnorm_sound P). Qed.

Lemma eccnorm_spec_witness :
  f2_ok (e_x (point_setup point_pk_zero)) /\
  f2_ok (e_y (point_setup point_pk_zero)) /\
  f2_ok (e_z (point_setup point_pk_zero)) /\
  point_canon (eccnorm (point_setup point_pk_zero)).
Proof.
  destruct point_pk_zero_ok as [HX HY].
  pose proof fe127_2_one as H1.
  split; [exact HX |]. split; [exact HY |]. split; [exact H1 |].
  exact (proj1 (eccnorm_spec (point_setup point_pk_zero) HX HY H1)).
Defined.

End PointNorm.

(** * The precomputed tables *)

Module TableFacts.
Import Stdlib.Zmod.ZmodDef Stdlib.Zmod.ZmodBase Stdlib.Zmod.ZmodInv.
Import Stdlib.nsatz.NsatzTactic.
Import FieldFacts Primality FpFacts DecodeFacts Fp2Facts AffineFacts.
Import GFp2.

Local Notation fe a := (Zmod.of_Z p1271 (fval a)).
Local Notation frep a v := (f2_ok a /\ of_f2elm a = v).

Lemma fe127b_spec a : fe127b a = true -> fe127 a.
Proof.
  unfold fe127b, fe127, is_u64.
  rewrite !andb_true_iff, !Z.leb_le, !Z.ltb_lt. lia.
Qed.

(** One half in GF(p^2). *)
Local Notation half := ((Zmod.of_Z p1271 (2 ^ 126), Zmod.zero) : Fp2).

Lemma half_two : GFp2.mul (GFp2.add GFp2.one GFp2.one) half = GFp2.one.
Proof.
  unfold GFp2.mul, GFp2.add, GFp2.one. cbn [fst snd].
  apply Fp2_pair_eq; [| ring].
  transitivity (Zmod.of_Z p1271 2 * Zmod.of_Z p1271 (2 ^ 126))%Zmod.
  - replace (Zmod.of_Z p1271 2) with (Zmod.one + Zmod.one : Zmod p1271)%Zmod; [ring |].
    rewrite <- Zmod.of_Z_1, <- Zmod.of_Z_add. reflexivity.
  - rewrite <- Zmod.of_Z_mul, <- Zmod.of_Z_1. apply Zmod.of_Z_inj.
    vm_compute. reflexivity.
Qed.

Lemma of_Z_small_consts :
  Zmod.of_Z p1271 2 = (Zmod.one + Zmod.one)%Zmod /\
  Zmod.of_Z p1271 4 = ((Zmod.one + Zmod.one) * (Zmod.one + Zmod.one))%Zmod /\
  Zmod.of_Z p1271 16 =
    (((Zmod.one + Zmod.one) * (Zmod.one + Zmod.one))
     * ((Zmod.one + Zmod.one) * (Zmod.one + Zmod.one)))%Zmod.
Proof.
  rewrite <- Zmod.of_Z_1, <- !Zmod.of_Z_add, <- !Zmod.of_Z_mul.
  repeat split; reflexivity.
Qed.

Lemma mod_zero_residue x : x mod p1271 = 0 -> Zmod.of_Z p1271 x = Zmod.zero.
Proof.
  intros H. rewrite <- (Zmod.of_Z_0 p1271). apply Zmod.of_Z_inj.
  rewrite H. reflexivity.
Qed.

(** An entry that passes the test on integers is the precomputed form of a
    point of the curve. *)
Lemma precomp_entry_check_sound (Q : point_precomp_t) :
  precomp_entry_check Q = true ->
  precomp_ok Q /\
  exists x y, precomp_of Q x y /\ on_curve_affine x y.
Proof.
  unfold precomp_entry_check. cbv zeta. rewrite !andb_true_iff, !Z.eqb_eq.
  intros [[[[[[[[[F1 F2] F3] F4] F5] F6] C1] C2] C3] C4].
  apply fe127b_spec in F1, F2, F3, F4, F5, F6.
  split; [unfold precomp_ok, f2_ok; auto |].
  unfold precomp_of, on_curve_affine.
  apply mod_zero_residue in C1, C2, C3, C4.
  unfold f2re_mul, f2im_mul in C1, C2, C3, C4.
  destruct of_Z_small_consts as (K2 & K4 & K16).
  repeat (progress rewrite ?Zmod.of_Z_add, ?Zmod.of_Z_sub, ?Zmod.of_Z_mul in C1).
  repeat (progress rewrite ?Zmod.of_Z_add, ?Zmod.of_Z_sub, ?Zmod.of_Z_mul in C2).
  repeat (progress rewrite ?Zmod.of_Z_add, ?Zmod.of_Z_sub, ?Zmod.of_Z_mul in C3).
  repeat (progress rewrite ?Zmod.of_Z_add, ?Zmod.of_Z_sub, ?Zmod.of_Z_mul in C4).
  rewrite K2 in C1, C2. rewrite K4, K16 in C3. rewrite K4 in C4.
  set (A := of_f2elm (p_xy Q)). set (B := of_f2elm (p_yx Q)).
  set (T := of_f2elm (p_t2 Q)).
  assert (Ht : GFp2.mul (GFp2.add GFp2.one GFp2.one) T =
               GFp2.mul GFp2.d (GFp2.mul (GFp2.sub A B) (GFp2.add A B))).
  { unfold A, B, T, GFp2.d, of_f2elm, GFp2.mul, GFp2.add, GFp2.sub, GFp2.one.
    cbn [fst snd]. apply Fp2_pair_eq; apply F_sub_0.
    - etransitivity; [| exact C1]. ring.
    - etransitivity; [| exact C2]. ring. }
  assert (Hc :
    GFp2.mul (GFp2.mul (GFp2.add GFp2.one GFp2.one) (GFp2.add GFp2.one GFp2.one))
      (GFp2.sub (GFp2.mul (GFp2.add A B) (GFp2.add A B))
                (GFp2.mul (GFp2.sub A B) (GFp2.sub A B))) =
    GFp2.add
      (GFp2.mul
         (GFp2.mul (GFp2.add GFp2.one GFp2.one) (GFp2.add GFp2.one GFp2.one))
         (GFp2.mul (GFp2.add GFp2.one GFp2.one) (GFp2.add GFp2.one GFp2.one)))
      (GFp2.mul GFp2.d
         (GFp2.mul (GFp2.mul (GFp2.sub A B) (GFp2.sub A B))
                   (GFp2.mul (GFp2.add A B) (GFp2.add A B))))).
  { unfold A, B, T, GFp2.d, of_f2elm, GFp2.mul, GFp2.add, GFp2.sub, GFp2.one.
    cbn [fst snd]. apply Fp2_pair_eq; apply F_sub_0.
    - etransitivity; [| exact C3]. ring.
    - etransitivity; [| exact C4]. ring. }
  clearbody A B T. clear C1 C2 C3 C4 K2 K4 K16.
  pose proof half_two as Hh. set (h := half) in *. clearbody h.
  exists (GFp2.mul h (GFp2.sub A B)), (GFp2.mul h (GFp2.add A B)).
  split; [split; [| split] |].
  - nsatz.
  - nsatz.
  - nsatz.
  - assert (Hq : GFp2.mul (GFp2.mul (GFp2.add GFp2.one GFp2.one)
                                   (GFp2.add GFp2.one GFp2.one))
                         (GFp2.mul h h) = GFp2.one) by nsatz.
    set (q := GFp2.mul h h) in *.
    set (four := GFp2.mul (GFp2.add GFp2.one GFp2.one) (GFp2.add GFp2.one GFp2.one)) in *.
    set (X2 := GFp2.sub A B) in *. set (Y2 := GFp2.add A B) in *.
    transitivity (GFp2.mul (GFp2.mul q q)
                    (GFp2.mul four (GFp2.sub (GFp2.mul Y2 Y2) (GFp2.mul X2 X2)))).
    + transitivity (GFp2.mul (GFp2.mul q (GFp2.mul four q))
                      (GFp2.sub (GFp2.mul Y2 Y2) (GFp2.mul X2 X2)));
        [rewrite Hq; unfold q; ring | ring].
    + rewrite Hc.
      transitivity (GFp2.add (GFp2.mul (GFp2.mul four q) (GFp2.mul four q))
                      (GFp2.mul GFp2.d
                         (GFp2.mul (GFp2.mul q q)
                            (GFp2.mul (GFp2.mul X2 X2) (GFp2.mul Y2 Y2)))));
        [ring | rewrite Hq; unfold q; ring].
Qed.

Lemma table_check_sound tbl n i :
  table_check tbl n = true -> (i < n)%nat ->
  precomp_ok (table_point tbl i) /\
  exists x y, precomp_of (table_point tbl i) x y /\ on_curve_affine x y.
Proof.
  unfold table_check. rewrite forallb_forall. intros H Hi.
  apply precomp_entry_check_sound. apply H. apply in_seq. lia.
Qed.

Lemma fixed_base_table_check : table_check FIXED_BASE_TABLE 80 = true.
Proof. vm_compute. reflexivity. Qed.

Lemma double_scalar_table_check : table_check DOUBLE_SCALAR_TABLE 256 = true.
Proof. vm_compute. reflexivity. Qed.

(** The curve equation is even in x. *)
Lemma on_curve_affine_opp x y :
  on_curve_affine x y -> on_curve_affine (GFp2.opp x) y.
Proof. unfold on_curve_affine. intros H. nsatz. Qed.

(** The extended coordinates of a point of the curve keep being so under
    doubling. *)
Lemma eccdouble_keeps P :
  extproj_ok P /\ on_curve_ext P ->
  extproj_ok (eccdouble P) /\ on_curve_ext (eccdouble P).
Proof.
  intros [(H1 & H2 & H3 & _) Hc].
  destruct (eccdouble_closed P H1 H2 H3 (on_curve_ext_proj P Hc)) as [A B].
  split; assumption.
Qed.

Lemma eccadd_keeps P Q :
  extproj_ok Q /\ on_curve_ext Q ->
  extproj_ok P /\ on_curve_ext P ->
  extproj_ok (eccadd (R1_to_R2 Q) P) /\ on_curve_ext (eccadd (R1_to_R2 Q) P).
Proof.
  intros [HQ CQ] [HP CP].
  destruct (eccadd_closed P Q HP HQ CP CQ) as [A B].
  split; assumption.
Qed.

Lemma eccmadd_keeps Q P :
  (precomp_ok Q /\ exists x y, precomp_of Q x y /\ on_curve_affine x y) ->
  extproj_ok P /\ on_curve_ext P ->
  extproj_ok (eccmadd Q P) /\ on_curve_ext (eccmadd Q P).
Proof.
  intros [HQ (x & y & Hxy & Hc)] [HP CP].
  destruct (eccmadd_closed Q P x y HQ Hxy Hc HP CP) as [A B].
  split; assumption.
Qed.

(** ** Table look-up *)

Lemma table_lookup_fixed_base_eq digit sign :
  table_lookup_fixed_base digit sign =
  let T := table_point FIXED_BASE_TABLE (Z.to_nat digit) in
  if negb (sign =? 0)
  then mk_precomp (p_yx T) (p_xy T) (fp2neg1271 (p_t2 T))
  else mk_precomp (p_xy T) (p_yx T) (p_t2 T).
Proof.
  unfold table_lookup_fixed_base. cbv zeta.
  destruct (p_t2 (table_point FIXED_BASE_TABLE (Z.to_nat digit))) as [[t00 t01] [t10 t11]].
  reflexivity.
Qed.

Lemma table_lookup_fixed_base_sound (digit sign : Z) :
  0 <= digit < 80 ->
  exists x y,
    on_curve_affine x y /\
    precomp_of (table_point FIXED_BASE_TABLE (Z.to_nat digit)) x y /\
    precomp_ok (table_lookup_fixed_base digit sign) /\
    precomp_of (table_lookup_fixed_base digit sign)
               (if sign =? 0 then x else GFp2.opp x) y.
Proof.
  intros Hd.
  destruct (table_check_sound _ _ (Z.to_nat digit) fixed_base_table_check ltac:(lia))
    as [(O1 & O2 & O3) (x & y & (E1 & E2 & E3) & Hc)].
  exists x, y. split; [exact Hc |]. split; [exact (conj E1 (conj E2 E3)) |].
  rewrite table_lookup_fixed_base_eq. cbv zeta.
  set (T := table_point FIXED_BASE_TABLE (Z.to_nat digit)) in *. clearbody T.
  destruct (sign =? 0); cbn [negb].
  - destruct T as [xy yx t2]. cbn [p_xy p_yx p_t2] in *.
    split; [exact (conj O1 (conj O2 O3)) | exact (conj E1 (conj E2 E3))].
  - destruct (frep_neg _ _ (frep_self _ O3)) as [N3 EN].
    split; [unfold precomp_ok; cbn [p_xy p_yx p_t2]; auto |].
    unfold precomp_of. cbn [p_xy p_yx p_t2].
    rewrite EN, E1, E2, E3.
    split; [ring |]. split; ring.
Qed.

End TableFacts.

(** * Doubling and addition *)

Module CurveOps.
Import Stdlib.Zmod.ZmodDef Stdlib.Zmod.ZmodBase Stdlib.Zmod.ZmodInv.
Import Stdlib.nsatz.NsatzTactic.
Import FieldFacts Primality FpFacts DecodeFacts Fp2Facts AffineFacts TableFacts.
Import GFp2.

(** [eccdouble] maps a point of the projective curve, given by X, Y and Z
    of 127-bit components, to a point of the curve in extended coordinates
    with 127-bit components; it does not read Ta and Tb.  The result
    (X3 : Y3 : Z3) is the double of (X : Y : Z) by the law of the curve:
    X3 / Z3 = 2 X Y / (Y^2 - X^2) and
    Y3 / Z3 = (Y^2 + X^2) / (2 Z^2 - (Y^2 - X^2)), stated without
    division. *)
Theorem eccdouble_on_curve (P : point_extproj_t) :
  f2_ok (e_x P) -> f2_ok (e_y P) -> f2_ok (e_z P) ->
  on_curve_proj P ->
  let X := of_f2elm (e_x P) in
  let Y := of_f2elm (e_y P) in
  let Z := of_f2elm (e_z P) in
  let X3 := of_f2elm (e_x (eccdouble P)) in
  let Y3 := of_f2elm (e_y (eccdouble P)) in
  let Z3 := of_f2elm (e_z (eccdouble P)) in
  extproj_ok (eccdouble P) /\ on_curve_ext (eccdouble P) /\
  mul X3 (sub (mul Y Y) (mul X X)) = mul (add (mul X Y) (mul X Y)) Z3 /\
  mul Y3 (sub (add (mul Z Z) (mul Z Z)) (sub (mul Y Y) (mul X X))) =
  mul (add (mul Y Y) (mul X X)) Z3.
Proof.
  intros HX HY HZ Hc. cbv zeta.
  destruct (eccdouble_closed P HX HY HZ Hc) as [C O].
  split; [exact O |]. split; [exact C |].
  destruct (eccdouble_rep P _ _ _ (frep_self _ HX) (frep_self _ HY) (frep_self _ HZ))
    as (X3 & Y3 & Z3 & Ta3 & Tb3 & R1 & R2 & R3 & _ & _ & E1 & E2 & E3 & E4 & E5).
  rewrite (proj2 R1), (proj2 R2), (proj2 R3).
  subst X3 Z3 Y3 Ta3 Tb3. split; ring.
Qed.

Lemma eccdouble_on_curve_witness :
  f2_ok (e_x (point_setup point_pk_zero)) /\
  on_curve_proj (point_setup point_pk_zero) /\
  on_curve_ext (eccdouble (point_setup point_pk_zero)).
Proof.
  destruct point_pk_zero_setup as [(H1 & H2 & H3 & _) Hc].
  pose proof (on_curve_ext_proj _ Hc) as Hp.
  split; [exact H1 |]. split; [exact Hp |].
  exact (proj1 (proj2 (eccdouble_on_curve (point_setup point_pk_zero) H1 H2 H3 Hp))).
Defined.

(** [eccadd], after [R1_to_R2] on its first operand, maps two points of the
    curve in extended coordinates with 127-bit components to a point of the
    curve in extended coordinates with 127-bit components.  The result
    (X3 : Y3 : Z3) is the sum by the law of the curve:
    x3 = (x1 y2 + y1 x2) / (1 + d x1 x2 y1 y2) and
    y3 = (y1 y2 + x1 x2) / (1 - d x1 x2 y1 y2), stated without division on
    the projective coordinates. *)
Theorem eccadd_on_curve (P Q : point_extproj_t) :
  extproj_ok P -> extproj_ok Q ->
  on_curve_ext P -> on_curve_ext Q ->
  let X1 := of_f2elm (e_x P) in
  let Y1 := of_f2elm (e_y P) in
  let Z1 := of_f2elm (e_z P) in
  let X2 := of_f2elm (e_x Q) in
  let Y2 := of_f2elm (e_y Q) in
  let Z2 := of_f2elm (e_z Q) in
  let R := eccadd (R1_to_R2 Q) P in
  let X3 := of_f2elm (e_x R) in
  let Y3 := of_f2elm (e_y R) in
  let Z3 := of_f2elm (e_z R) in
  let ZZ := mul Z1 Z2 in
  let E := mul d (mul (mul X1 X2) (mul Y1 Y2)) in
  extproj_ok R /\ on_curve_ext R /\
  mul X3 (add (mul ZZ ZZ) E) = mul (mul Z3 ZZ) (add (mul X1 Y2) (mul Y1 X2)) /\
  mul Y3 (sub (mul ZZ ZZ) E) = mul (mul Z3 ZZ) (add (mul Y1 Y2) (mul X1 X2)).
Proof.
  intros HP HQ CP CQ. cbv zeta.
  destruct (eccadd_closed P Q HP HQ CP CQ) as [C O].
  split; [exact O |]. split; [exact C |].
  destruct HP as (P1 & P2 & P3 & P4 & P5). destruct HQ as (Q1 & Q2 & Q3 & Q4 & Q5).
  destruct (eccadd_rep P Q _ _ _ _ _ _ _ _ _ _
              (frep_self _ P1) (frep_self _ P2) (frep_self _ P3)
              (frep_self _ P4) (frep_self _ P5)
              (frep_self _ Q1) (frep_self _ Q2) (frep_self _ Q3)
              (frep_self _ Q4) (frep_self _ Q5))
    as (X3 & Y3 & Z3 & Ta3 & Tb3 & R1 & R2 & R3 & _ & _ & E).
  rewrite (proj2 R1), (proj2 R2), (proj2 R3).
  unfold on_curve_ext in CP, CQ. cbv zeta in CP, CQ, E.
  destruct CP as [_ TP]. destruct CQ as [_ TQ].
  clear C O R1 R2 R3 P1 P2 P3 P4 P5 Q1 Q2 Q3 Q4 Q5.
  set (X1 := of_f2elm (e_x P)) in *. set (Y1 := of_f2elm (e_y P)) in *.
  set (Z1 := of_f2elm (e_z P)) in *.
  set (Ta1 := of_f2elm (e_ta P)) in *. set (Tb1 := of_f2elm (e_tb P)) in *.
  set (X2 := of_f2elm (e_x Q)) in *. set (Y2 := of_f2elm (e_y Q)) in *.
  set (Z2 := of_f2elm (e_z Q)) in *.
  set (Ta2 := of_f2elm (e_ta Q)) in *. set (Tb2 := of_f2elm (e_tb Q)) in *.
  clearbody X1 Y1 Z1 Ta1 Tb1 X2 Y2 Z2 Ta2 Tb2.
  destruct E as (E1 & E2 & E3 & E4 & E5).
  subst X3 Z3 Y3 Ta3 Tb3.
  split; nsatz.
Qed.

Lemma eccadd_on_curve_witness :
  extproj_ok (point_setup point_pk_zero) /\
  on_curve_ext (point_setup point_pk_zero) /\
  on_curve_ext (eccadd (R1_to_R2 (point_setup point_pk_zero))
                       (point_setup point_pk_zero)).
Proof.
  destruct point_pk_zero_setup as [Hok Hc].
  split; [exact Hok |]. split; [exact Hc |].
  exact (proj1 (proj2 (eccadd_on_curve (point_setup point_pk_zero)
                         (point_setup point_pk_zero) Hok Hok Hc Hc))).
Defined.

(** [eccmadd] maps a point of the curve in extended coordinates and the
    precomputed form (x + y, y - x, 2 d x y) of an affine point (x, y) of
    the curve, all of 127-bit components, to a point of the curve in
    extended coordinates with 127-bit components.  The result
    (X3 : Y3 : Z3) is the sum of the two points by the law of the curve,
    stated without division on the projective coordinates. *)
Theorem eccmadd_on_curve (Q : point_precomp_t) (P : point_extproj_t) (x y : Fp2) :
  precomp_ok Q -> precomp_of Q x y -> on_curve_affine x y ->
  extproj_ok P -> on_curve_ext P ->
  let X1 := of_f2elm (e_x P) in
  let Y1 := of_f2elm (e_y P) in
  let Z1 := of_f2elm (e_z P) in
  let R := eccmadd Q P in
  let X3 := of_f2elm (e_x R) in
  let Y3 := of_f2elm (e_y R) in
  let Z3 := of_f2elm (e_z R) in
  let E := mul d (mul (mul X1 x) (mul Y1 y)) in
  extproj_ok R /\ on_curve_ext R /\
  mul X3 (add (mul Z1 Z1) E) = mul (mul Z3 Z1) (add (mul X1 y) (mul Y1 x)) /\
  mul Y3 (sub (mul Z1 Z1) E) = mul (mul Z3 Z1) (add (mul Y1 y) (mul X1 x)).
Proof.
  intros HQ Hxy Hq HP CP. cbv zeta.
  destruct (eccmadd_closed Q P x y HQ Hxy Hq HP CP) as [C O].
  split; [exact O |]. split; [exact C |].
  destruct HQ as (Q1 & Q2 & Q3). destruct Hxy as (EQ1 & EQ2 & EQ3).
  destruct HP as (P1 & P2 & P3 & P4 & P5).
  destruct (eccmadd_rep Q P _ _ _ _ _ _ _ _
              (frep_self _ Q1) (frep_self _ Q2) (frep_self _ Q3)
              (frep_self _ P1) (frep_self _ P2) (frep_self _ P3)
              (frep_self _ P4) (frep_self _ P5))
    as (X3 & Y3 & Z3 & Ta3 & Tb3 & R1 & R2 & R3 & _ & _ & E).
  rewrite (proj2 R1), (proj2 R2), (proj2 R3).
  unfold on_curve_ext in CP. cbv zeta in CP, E.
  rewrite EQ1, EQ2, EQ3 in E.
  destruct CP as [_ TP].
  clear C O R1 R2 R3 P1 P2 P3 P4 P5 Q1 Q2 Q3 EQ1 EQ2 EQ3 Hq.
  set (X1 := of_f2elm (e_x P)) in *. set (Y1 := of_f2elm (e_y P)) in *.
  set (Z1 := of_f2elm (e_z P)) in *.
  set (Ta1 := of_f2elm (e_ta P)) in *. set (Tb1 := of_f2elm (e_tb P)) in *.
  clearbody X1 Y1 Z1 Ta1 Tb1.
  destruct E as (E1 & E2 & E3 & E4 & E5).
  subst X3 Z3 Y3 Ta3 Tb3.
  split; nsatz.
Qed.

Lemma eccmadd_on_curve_witness :
  exists x y,
    precomp_of (table_point FIXED_BASE_TABLE 0) x y /\
    on_curve_affine x y /\
    on_curve_ext (eccmadd (table_point FIXED_BASE_TABLE 0)
                          (point_setup point_pk_zero)).
Proof.
  destruct point_pk_zero_setup as [Hok Hc].
  destruct (table_check_sound _ _ 0%nat fixed_base_table_check ltac:(lia))
    as [HQ (x & y & Hxy & Hq)].
  exists x, y. split; [exact Hxy |]. split; [exact Hq |].
  exact (proj1 (proj2 (eccmadd_on_curve (table_point FIXED_BASE_TABLE 0)
                         (point_setup point_pk_zero) x y HQ Hxy Hq Hok Hc))).
Defined.

End CurveOps.

Module TableClaims.
Import Stdlib.Zmod.ZmodDef Stdlib.Zmod.ZmodBase Stdlib.Zmod.ZmodInv.
Import Stdlib.nsatz.NsatzTactic.
Import FieldFacts Primality FpFacts DecodeFacts Fp2Facts AffineFacts TableFacts.
Import GFp2.

Local Notation frep a v := (f2_ok a /\ of_f2elm a = v).

(** Each of the 80 entries of [FIXED_BASE_TABLE] has 127-bit components
    and is the precomputed form (x + y, y - x, 2 d x y) of a point (x, y)
    of the curve. *)
Theorem fixed_base_table_points (i : nat) :
  (i < 80)%nat ->
  precomp_ok (table_point FIXED_BASE_TABLE i) /\
  exists x y,
    precomp_of (table_point FIXED_BASE_TABLE i) x y /\ on_curve_affine x y.
Proof. apply table_check_sound. exact fixed_base_table_check. Qed.

Lemma fixed_base_table_points_witness :
  (79 < 80)%nat /\ precomp_ok (table_point FIXED_BASE_TABLE 79).
Proof.
  assert (H : (79 < 80)%nat) by lia.
  split; [exact H |]. exact (proj1 (fixed_base_table_points 79 H)).
Defined.

(** Each of the 256 entries of [DOUBLE_SCALAR_TABLE] has 127-bit
    components and is the precomputed form (x + y, y - x, 2 d x y) of a
    point (x, y) of the curve. *)
Theorem double_scalar_table_points (i : nat) :
  (i < 256)%nat ->
  precomp_ok (table_point DOUBLE_SCALAR_TABLE i) /\
  exists x y,
    precomp_of (table_point DOUBLE_SCALAR_TABLE i) x y /\ on_curve_affine x y.
Proof. apply table_check_sound. exact double_scalar_table_check. Qed.

Lemma double_scalar_table_points_witness :
  (255 < 256)%nat /\ precomp_ok (table_point DOUBLE_SCALAR_TABLE 255).
Proof.
  assert (H : (255 < 256)%nat) by lia.
  split; [exact H |]. exact (proj1 (double_scalar_table_points 255 H)).
Defined.

(** [table_lookup_fixed_base] returns, for a digit below 80, the
    precomputed form of a point of the curve: the entry of the table when
    the sign is zero, and the precomputed form of its opposite (-x, y)
    otherwise. *)
Theorem table_lookup_fixed_base_point (digit sign : Z) :
  0 <= digit < 80 ->
  exists x y,
    on_curve_affine x y /\
    precomp_of (table_point FIXED_BASE_TABLE (Z.to_nat digit)) x y /\
    precomp_ok (table_lookup_fixed_base digit sign) /\
    precomp_of (table_lookup_fixed_base digit sign)
               (if sign =? 0 then x else GFp2.opp x) y.
Proof. exact (table_lookup_fixed_base_sound digit sign). Qed.

Lemma table_lookup_fixed_base_point_witness :
  0 <= 5 < 80 /\ precomp_ok (table_lookup_fixed_base 5 1).
Proof.
  assert (H : 0 <= 5 < 80) by lia.
  split; [exact H |].
  destruct (table_lookup_fixed_base_point 5 1 H) as (x & y & _ & _ & Hok & _).
  exact Hok.
Defined.

(** [cofactor_clearing] keeps the curve: it maps a point of the curve in
    extended coordinates with 127-bit components to such a point. *)
Theorem cofactor_clearing_on_curve (R : point_extproj_t) :
  extproj_ok R -> on_curve_ext R ->
  extproj_ok (cofactor_clearing R) /\ on_curve_ext (cofactor_clearing R).
Proof.
  intros HR CR. unfold cofactor_clearing. cbv zeta.
  pose proof (conj HR CR) as H0.
  repeat first [apply eccdouble_keeps | apply eccadd_keeps; [exact H0 |] | exact H0].
Qed.

Lemma cofactor_clearing_on_curve_witness :
  extproj_ok (point_setup point_pk_zero) /\
  on_curve_ext (point_setup point_pk_zero) /\
  on_curve_ext (cofactor_clearing (point_setup point_pk_zero)).
Proof.
  destruct point_pk_zero_setup as [Hok Hc].
  split; [exact Hok |]. split; [exact Hc |].
  exact (proj2 (cofactor_clearing_on_curve (point_setup point_pk_zero) Hok Hc)).
Defined.

End TableClaims.

(** * Fixed-base scalar multiplication *)

Module FixedBaseFacts.
Import Stdlib.Zmod.ZmodDef Stdlib.Zmod.ZmodBase Stdlib.Zmod.ZmodInv.
Import FieldFacts Primality FpFacts DecodeFacts Fp2Facts AffineFacts TableFacts.
Import GFp2.

Local Notation frep a v := (f2_ok a /\ of_f2elm a = v).

(** The digits from position 50 on are bits. *)
Local Notation bit_tail ds :=
  (forall i, (50 <= i)%nat -> nth i ds 0 = 0 \/ nth i ds 0 = 1).

Lemma u32_bit z : u32 (Z.land z 1) = 0 \/ u32 (Z.land z 1) = 1.
Proof.
  assert (E : Z.land z 1 = z mod 2) by exact (Z.land_ones z 1 ltac:(lia)).
  rewrite E. pose proof (Z.mod_pos_bound z 2 ltac:(lia)) as H.
  set (r := z mod 2) in *. clearbody r.
  assert (Hc : r = 0 \/ r = 1) by (clear E; lia).
  destruct Hc as [-> | ->]; [left | right]; reflexivity.
Qed.

Lemma length_sign_digits n s : length (fst (sign_digits n s)) = n.
Proof.
  revert s. induction n as [| n IH]; intros s; [reflexivity |].
  cbn [sign_digits]. specialize (IH (scalar_shr1 s)).
  destruct (sign_digits n (scalar_shr1 s)) as [ds s']. cbn [fst length] in *.
  rewrite IH. reflexivity.
Qed.

Lemma value_digits_app n i ds s :
  exists new,
    value_digits n i ds s = ds ++ new /\
    Forall (fun d => d = 0 \/ d = 1) new.
Proof.
  revert i ds s. induction n as [| n IH]; intros i ds s.
  - exists []. rewrite app_nil_r. split; [reflexivity | constructor].
  - cbn [value_digits]. cbv zeta.
    match goal with
    | |- context [value_digits n (S i) (ds ++ [?di]) ?s'] =>
      destruct (IH (S i) (ds ++ [di]) s') as (new & E & F);
      exists (di :: new); rewrite E, <- app_assoc; split; [reflexivity |];
      constructor; [apply u32_bit | exact F]
    end.
Qed.

Lemma bit_tail_value_digits ds s :
  length ds = 50%nat -> bit_tail (value_digits 200 50 ds s).
Proof.
  intros Hl i Hi.
  destruct (value_digits_app 200 50 ds s) as (new & -> & F).
  rewrite app_nth2 by lia. rewrite Hl.
  destruct (Nat.lt_ge_cases (i - 50) (length new)) as [Hlt | Hge].
  - rewrite Forall_forall in F. apply F. apply nth_In. exact Hlt.
  - left. apply nth_overflow. exact Hge.
Qed.

Lemma fixed_lookup_index d3 d2 d1 d0 (row : nat) :
  (d3 = 0 \/ d3 = 1) -> (d2 = 0 \/ d2 = 1) ->
  (d1 = 0 \/ d1 = 1) -> (d0 = 0 \/ d0 = 1) -> (row <= 4)%nat ->
  0 <= u32 (16 * Z.of_nat row
            + (u32 (Z.shiftl (u32 (Z.shiftl (u32 (Z.shiftl d3 1) + d2) 1) + d1) 1)
               + d0)) < 80.
Proof.
  intros H3 H2 H1 H0 Hr.
  destruct row as [| [| [| [| [| row]]]]]; try lia;
    destruct H3 as [-> | ->]; destruct H2 as [-> | ->];
    destruct H1 as [-> | ->]; destruct H0 as [-> | ->];
    vm_compute; (split; [discriminate | reflexivity]).
Qed.

Lemma fixed_lookup_point digits row j :
  bit_tail digits -> (row <= 4)%nat -> (j <= 9)%nat ->
  precomp_ok (fixed_lookup digits row j) /\
  exists x y, precomp_of (fixed_lookup digits row j) x y /\ on_curve_affine x y.
Proof.
  intros Hb Hr Hj. unfold fixed_lookup. cbv zeta.
  match goal with
  | |- context [table_lookup_fixed_base ?dg ?sg] =>
    assert (Hd : 0 <= dg < 80)
      by (apply fixed_lookup_index; try exact Hr; apply Hb; lia);
    destruct (table_lookup_fixed_base_sound dg sg Hd)
      as (x & y & Hc & _ & Hok & Hof)
  end.
  split; [exact Hok |].
  eexists. exists y. split; [exact Hof |].
  destruct (_ =? 0); [exact Hc | apply on_curve_affine_opp; exact Hc].
Qed.

Lemma fixed_column_keeps digits R j :
  bit_tail digits -> (j <= 9)%nat ->
  extproj_ok R /\ on_curve_ext R ->
  extproj_ok (fixed_column digits R j) /\ on_curve_ext (fixed_column digits R j).
Proof.
  intros Hb Hj HR. unfold fixed_column. cbv zeta.
  repeat (apply eccmadd_keeps; [apply fixed_lookup_point; [exact Hb | lia | exact Hj] |]).
  apply eccdouble_keeps. exact HR.
Qed.

Lemma fold_columns_keeps digits js R :
  bit_tail digits -> Forall (fun j => (j <= 9)%nat) js ->
  extproj_ok R /\ on_curve_ext R ->
  extproj_ok (fold_left (fixed_column digits) js R) /\
  on_curve_ext (fold_left (fixed_column digits) js R).
Proof.
  intros Hb Hjs. revert R. induction Hjs as [| j js Hj Hjs IH]; intros R HR.
  - exact HR.
  - cbn [fold_left]. apply IH. apply fixed_column_keeps; assumption.
Qed.

Lemma frep_div a va :
  frep a va ->
  f2_ok (fp2div1271 a) /\
  GFp2.add (of_f2elm (fp2div1271 a)) (of_f2elm (fp2div1271 a)) = va.
Proof.
  intros [[A0 A1] <-]. unfold fp2div1271.
  destruct (fe_div _ A0) as [H0 E0]. destruct (fe_div _ A1) as [H1 E1].
  split; [split; assumption |].
  unfold of_f2elm, GFp2.add. cbn [fst snd]. rewrite E0, E1. reflexivity.
Qed.

Lemma Fp2_cancel2 (a b : Fp2) : GFp2.add a a = GFp2.add b b -> a = b.
Proof.
  destruct a as [a0 a1], b as [b0 b1]. unfold GFp2.add. cbn [fst snd]. intros H.
  pose proof (f_equal fst H) as H0. pose proof (f_equal snd H) as H1.
  cbn [fst snd] in H0, H1.
  apply Fp2_pair_eq; apply F_cancel2; assumption.
Qed.

Lemma Fp2_eq_dec (a b : Fp2) : a = b \/ a <> b.
Proof.
  destruct a as [a0 a1], b as [b0 b1].
  destruct (F_eq_dec a0 b0) as [-> | H0]; [| right; intros H; apply H0; exact (f_equal fst H)].
  destruct (F_eq_dec a1 b1) as [-> | H1]; [left; reflexivity |].
  right. intros H. apply H1. exact (f_equal snd H).
Qed.

(** The point that the comb starts from: the affine point of a table
    entry, recovered by halving. *)
Lemma comb_start (S : point_precomp_t) x y :
  precomp_ok S -> precomp_of S x y -> on_curve_affine x y ->
  let Rx := fp2div1271 (fp2sub1271 (p_xy S) (p_yx S)) in
  let Ry := fp2div1271 (fp2add1271 (p_xy S) (p_yx S)) in
  extproj_ok (mk_extproj Rx Ry f2_one Rx Ry) /\
  on_curve_ext (mk_extproj Rx Ry f2_one Rx Ry).
Proof.
  intros (O1 & O2 & _) (E1 & E2 & _) Hc. cbv zeta.
  destruct (frep_div _ _ (frep_sub _ _ _ _ (frep_self _ O1) (frep_self _ O2)))
    as [Fx Ex].
  destruct (frep_div _ _ (frep_add _ _ _ _ (frep_self _ O1) (frep_self _ O2)))
    as [Fy Ey].
  rewrite E1, E2 in Ex, Ey.
  assert (Hx : of_f2elm (fp2div1271 (fp2sub1271 (p_xy S) (p_yx S))) = x).
  { apply Fp2_cancel2. rewrite Ex. ring. }
  assert (Hy : of_f2elm (fp2div1271 (fp2add1271 (p_xy S) (p_yx S))) = y).
  { apply Fp2_cancel2. rewrite Ey. ring. }
  split.
  - unfold extproj_ok. cbn [e_x e_y e_z e_ta e_tb]. pose proof fe127_2_one. auto.
  - apply (on_curve_ext_setup
             (mk_point (fp2div1271 (fp2sub1271 (p_xy S) (p_yx S)))
                       (fp2div1271 (fp2add1271 (p_xy S) (p_yx S))))).
    cbn [a_x a_y]. rewrite Hx, Hy. exact Hc.
Qed.

Lemma ecc_mul_fixed_sound (k : scalar_t) :
  point_canon (ecc_mul_fixed k) /\
  (on_curve (ecc_mul_fixed k) \/ ecc_mul_fixed k = mk_point f2_zero f2_zero).
Proof.
  unfold ecc_mul_fixed. cbv zeta.
  match goal with
  | |- context [sign_digits 49 ?s] =>
    pose proof (length_sign_digits 49 s) as Hl;
    destruct (sign_digits 49 s) as [ds sc]
  end.
  cbn [fst] in Hl.
  assert (Hb : bit_tail (value_digits 200 50 (ds ++ [0]) sc)).
  { apply bit_tail_value_digits. rewrite length_app, Hl. reflexivity. }
  set (digits := value_digits 200 50 (ds ++ [0]) sc) in *. clearbody digits.
  destruct (fixed_lookup_point digits 4 9 Hb ltac:(lia) ltac:(lia))
    as [HS (x & y & Hxy & Hc)].
  pose proof (comb_start _ x y HS Hxy Hc) as H0. cbv zeta in H0.
  set (R0 := mk_extproj
               (fp2div1271 (fp2sub1271 (p_xy (fixed_lookup digits 4 9))
                                       (p_yx (fixed_lookup digits 4 9))))
               (fp2div1271 (fp2add1271 (p_xy (fixed_lookup digits 4 9))
                                       (p_yx (fixed_lookup digits 4 9))))
               f2_one
               (fp2div1271 (fp2sub1271 (p_xy (fixed_lookup digits 4 9))
                                       (p_yx (fixed_lookup digits 4 9))))
               (fp2div1271 (fp2add1271 (p_xy (fixed_lookup digits 4 9))
                                       (p_yx (fixed_lookup digits 4 9))))) in *.
  clearbody R0.
  match goal with
  | |- context [eccnorm ?R] =>
    assert (HR : extproj_ok R /\ on_curve_ext R)
  end.
  { apply fold_columns_keeps; [exact Hb | repeat constructor; lia |].
    repeat (apply eccmadd_keeps;
            [apply fixed_lookup_point; [exact Hb | lia | lia] |]).
    exact H0. }
  match goal with
  | |- context [eccnorm ?R] => set (Rf := R) in *; clearbody Rf
  end.
  destruct HR as [(O1 & O2 & O3 & _) HcR].
  destruct (eccnorm_sound Rf O1 O2 O3) as (Hcan & Hnz & Hz).
  split; [exact Hcan |].
  destruct (Fp2_eq_dec (of_f2elm (e_z Rf)) GFp2.zero) as [E | N].
  - right. exact (Hz E).
  - left. destruct (Hnz N) as (_ & _ & Hon).
    apply Hon. apply on_curve_ext_proj. exact HcR.
Qed.

End FixedBaseFacts.

Module FixedBase.
Import FixedBaseFacts.

(** [ecc_mul_fixed] returns, for every scalar, canonical coordinates that
    are either a point of the curve or, when the comb ends at Z = 0, four
    zero components. *)
Theorem ecc_mul_fixed_point (k : scalar_t) :
  point_canon (ecc_mul_fixed k) /\
  (on_curve (ecc_mul_fixed k) \/ ecc_mul_fixed k = mk_point f2_zero f2_zero).
Proof. exact (ecc_mul_fixed_sound k). Qed.

End FixedBase.

(** * The wNAF recoding *)

Module RecodeFacts.
Import WordFacts.

(** A digit of a width-w recoding: zero, or odd and at most 2^(w-1) - 1 in
    absolute value. *)
Local Notation wnaf_digit w :=
  (fun d : Z => d = 0 \/ (Z.odd d = true /\ Z.abs d <= 2 ^ (w - 1) - 1)).

Lemma digits_value_zeros n ds :
  digits_value (repeat 0 n ++ ds) = 2 ^ Z.of_nat n * digits_value ds.
Proof.
  induction n as [| n IH].
  - cbn [repeat app]. change (2 ^ Z.of_nat 0) with 1. lia.
  - cbn [repeat app digits_value]. rewrite IH.
    rewrite Nat2Z.inj_succ, Z.pow_succ_r by lia. lia.
Qed.

Lemma digits_value_app_zeros ds n :
  digits_value (ds ++ repeat 0 n) = digits_value ds.
Proof.
  induction ds as [| d ds IH].
  - cbn [app]. rewrite <- (app_nil_r (repeat 0 n)), digits_value_zeros.
    cbn [digits_value]. lia.
  - cbn [app digits_value]. rewrite IH. reflexivity.
Qed.

Lemma Forall_zeros (P : Z -> Prop) n : P 0 -> Forall P (repeat 0 n).
Proof. intros H. induction n; cbn [repeat]; constructor; assumption. Qed.

(** The window taken off an odd scalar. *)
Lemma window_odd s w :
  1 <= w -> s mod 2 = 1 -> Z.odd (s mod 2 ^ w) = true.
Proof.
  intros Hw Hs.
  rewrite <- Z.bit0_odd, Z.mod_pow2_bits_low by lia.
  rewrite Z.bit0_odd, Zodd_mod, Hs. reflexivity.
Qed.

Lemma odd_sub_pow2 d w : 1 <= w -> Z.odd (d - 2 ^ w) = Z.odd d.
Proof.
  intros Hw. replace (d - 2 ^ w) with (d + 2 * (- 2 ^ (w - 1))).
  - apply Z.odd_add_mul_2.
  - replace w with (Z.succ (w - 1)) at 2 by lia.
    rewrite Z.pow_succ_r by lia. lia.
Qed.

Lemma wNAF_loop_spec (w : Z) :
  2 <= w <= 8 ->
  forall (fuel : nat) (k s : Z),
    0 <= k <= 64 -> 0 <= s <= 2 ^ k -> k + 1 <= Z.of_nat fuel ->
    digits_value (wNAF_loop fuel s w) = s /\
    Z.of_nat (length (wNAF_loop fuel s w)) <= k + 1 /\
    Forall (wnaf_digit w) (wNAF_loop fuel s w).
Proof.
  intros Hw. induction fuel as [| fuel IH]; intros k s Hk Hs Hf; [lia |].
  cbn [wNAF_loop].
  destruct (Z.eqb_spec s 0) as [-> | Hnz].
  { cbn [digits_value length]. split; [reflexivity |]. split; [lia | constructor]. }
  cbv zeta. rewrite !Z.shiftl_1_l.
  assert (E1 : Z.land s 1 = s mod 2) by exact (Z.land_ones s 1 ltac:(lia)).
  assert (Ew : Z.land s (2 ^ w - 1) = s mod 2 ^ w).
  { rewrite <- Z.land_ones by lia. rewrite Z.ones_equiv. reflexivity. }
  rewrite E1, Ew. unfold shr64. rewrite !Z.shiftr_div_pow2 by lia.
  assert (P2w : 0 < 2 ^ w) by (apply Z.pow_pos_nonneg; lia).
  assert (P2h : 2 ^ w = 2 * 2 ^ (w - 1)).
  { replace w with (Z.succ (w - 1)) at 1 by lia. apply Z.pow_succ_r. lia. }
  assert (P2k : 0 < 2 ^ k) by (apply Z.pow_pos_nonneg; lia).
  pose proof (Z.mod_pos_bound s 2 ltac:(lia)) as Hm2.
  destruct (Z.eqb_spec (s mod 2) 0) as [Hev | Hodd].
  - (* an even scalar: one zero digit *)
    assert (Hk1 : 1 <= k).
    { destruct (Z.eq_dec k 0) as [-> | ?]; [| lia].
      change (2 ^ 0) with 1 in Hs. assert (s = 1) by lia. subst s. discriminate Hev. }
    assert (Hpk : 2 ^ k = 2 * 2 ^ (k - 1)).
    { replace k with (Z.succ (k - 1)) at 1 by lia. apply Z.pow_succ_r. lia. }
    change (2 ^ 1) with 2.
    pose proof (Z.div_mod s 2 ltac:(lia)) as Hdm.
    destruct (IH (k - 1) (s / 2)) as (V & L & F); [lia | | lia |].
    { split; [apply Z.div_pos; lia |]. apply Z.div_le_upper_bound; lia. }
    cbn [digits_value length]. rewrite V.
    split; [lia |]. split; [lia |].
    constructor; [left; reflexivity | exact F].
  - (* an odd scalar: a window of w bits *)
    assert (Hs1 : s mod 2 = 1) by lia.
    pose proof (Z.mod_pos_bound s (2 ^ w) P2w) as Hmw.
    pose proof (Z.div_mod s (2 ^ w) ltac:(lia)) as Hdm.
    pose proof (window_odd s w ltac:(lia) Hs1) as Hoddw.
    assert (Hq0 : 0 <= s / 2 ^ w) by (apply Z.div_pos; lia).
    assert (Hsk : s < 2 ^ k \/ k = 0).
    { destruct (Z.eq_dec k 0) as [-> | Hk0]; [right; reflexivity | left].
      assert (Hne : s <> 2 ^ k); [| lia].
      intros ->. replace k with (Z.succ (k - 1)) in Hs1 by lia.
      rewrite Z.pow_succ_r in Hs1 by lia.
      rewrite Z.mul_comm, Z.mod_mul in Hs1 by lia. discriminate Hs1. }
    set (m := s mod 2 ^ w) in *. set (q := s / 2 ^ w) in *.
    assert (Hqk : w <= k -> q < 2 ^ (k - w)).
    { intros Hwk. destruct Hsk as [Hlt | ->]; [| lia].
      apply Z.div_lt_upper_bound; [lia |].
      rewrite <- Z.pow_add_r by lia. replace (w + (k - w)) with k by lia. exact Hlt. }
    assert (Hq_small : k < w -> q = 0).
    { intros Hkw. apply Z.div_small.
      assert (2 ^ k < 2 ^ w) by (apply Z.pow_lt_mono_r; lia).
      assert (2 ^ k <= 2 ^ (w - 1)) by (apply Z.pow_le_mono_r; lia).
      lia. }
    assert (Hw1 : Z.of_nat (Z.to_nat (w - 1)) = w - 1) by lia.
    assert (Hmodd : m <> 2 ^ (w - 1)).
    { intros E. rewrite E in Hoddw.
      replace (w - 1) with (Z.succ (w - 2)) in Hoddw by lia.
      rewrite Z.pow_succ_r in Hoddw by lia.
      rewrite Z.odd_mul in Hoddw. discriminate Hoddw. }
    destruct (Z.ltb_spec (2 ^ (w - 1) - 1) m) as [Hbig | Hsmall].
    + (* the digit is negative and the scalar left is incremented *)
      assert (Hneg : m - 2 ^ w < 0) by lia.
      destruct (Z.ltb_spec (m - 2 ^ w) 0) as [_ | ?]; [| lia].
      assert (Hwk : w <= k).
      { destruct (Z.le_gt_cases w k) as [? | Hkw]; [assumption |].
        assert (2 ^ k <= 2 ^ (w - 1)) by (apply Z.pow_le_mono_r; lia).
        pose proof (Hq_small Hkw). lia. }
      specialize (Hqk Hwk).
      assert (P2kw : 0 < 2 ^ (k - w)) by (apply Z.pow_pos_nonneg; lia).
      assert (Hkw64 : 2 ^ (k - w) < 2 ^ 64) by (apply Z.pow_lt_mono_r; lia).
      assert (Hu : u64 (q + 1) = q + 1) by (apply u64_small; unfold is_u64; lia).
      assert (Hdig : wnaf_digit w (m - 2 ^ w)).
      { right. split; [rewrite odd_sub_pow2 by lia; exact Hoddw | lia]. }
      rewrite Hu.
      destruct (Z.eqb_spec (q + 1) 0) as [? | _]; [lia |]. cbn [negb].
      destruct (IH (k - w) (q + 1)) as (V & L & F); [lia | lia | lia |].
      cbn [digits_value length]. rewrite length_app, repeat_length.
      replace (m - 2 ^ w + 2 * digits_value
                 (repeat 0 (Z.to_nat (w - 1)) ++ wNAF_loop fuel (q + 1) w))
        with (m - 2 ^ w + 2 * (2 ^ (w - 1) * (q + 1))).
      2:{ rewrite digits_value_zeros, Hw1, V. reflexivity. }
      split; [lia |]. split; [lia |].
      constructor; [exact Hdig |].
      apply Forall_app. split; [apply Forall_zeros; left; reflexivity | exact F].
    + (* the digit is positive *)
      destruct (Z.ltb_spec m 0) as [? | _]; [lia |].
      assert (Hdig : wnaf_digit w m).
      { right. split; [exact Hoddw | lia]. }
      destruct (Z.eqb_spec q 0) as [Hq | Hq]; cbn [negb].
      * cbn [digits_value length]. split; [lia |]. split; [lia |].
        constructor; [exact Hdig | constructor].
      * assert (Hwk : w <= k).
        { destruct (Z.le_gt_cases w k) as [? | Hkw]; [assumption |].
          pose proof (Hq_small Hkw). lia. }
        specialize (Hqk Hwk).
        destruct (IH (k - w) q) as (V & L & F); [lia | lia | lia |].
        cbn [digits_value length]. rewrite length_app, repeat_length.
        replace (m + 2 * digits_value
                   (repeat 0 (Z.to_nat (w - 1)) ++ wNAF_loop fuel q w))
          with (m + 2 * (2 ^ (w - 1) * q)).
        2:{ rewrite digits_value_zeros, Hw1, V. reflexivity. }
        split; [lia |]. split; [lia |].
        constructor; [exact Hdig |].
        apply Forall_app. split; [apply Forall_zeros; left; reflexivity | exact F].
Qed.

(** ** Non-adjacency *)

(** After a digit that is not zero, the next [n - 1] digits are zero. *)
Local Notation spaced n ds :=
  (forall i j : nat, (i < j < i + n)%nat -> nth i ds 0 <> 0 -> nth j ds 0 = 0).

Lemma spaced_cons0 n ds : spaced n ds -> spaced n (0 :: ds).
Proof.
  intros H i j Hij Hi.
  destruct i as [| i]; [exfalso; apply Hi; reflexivity |].
  destruct j as [| j]; [lia |].
  cbn [nth] in *. apply (H i j); [lia | exact Hi].
Qed.

Lemma spaced_window d n ds :
  spaced (S n) ds -> spaced (S n) (d :: repeat 0 n ++ ds).
Proof.
  intros H i j Hij Hi.
  destruct j as [| j]; [lia |]. cbn [nth].
  destruct i as [| i].
  - rewrite app_nth1 by (rewrite repeat_length; lia). apply nth_repeat.
  - cbn [nth] in Hi.
    destruct (Nat.lt_ge_cases i n) as [Hlt | Hge].
    + exfalso. apply Hi.
      rewrite app_nth1 by (rewrite repeat_length; lia). apply nth_repeat.
    + rewrite app_nth2 in Hi |- * by (rewrite repeat_length; lia).
      rewrite repeat_length in Hi |- *.
      apply (H (i - n)%nat (j - n)%nat); [lia | exact Hi].
Qed.

Lemma spaced_single d n : spaced n [d].
Proof.
  intros i j Hij Hi. destruct j as [| j]; [lia |]. cbn [nth]. destruct j; reflexivity.
Qed.

Lemma spaced_app_zeros n ds m : spaced n ds -> spaced n (ds ++ repeat 0 m).
Proof.
  intros H i j Hij Hi.
  destruct (Nat.lt_ge_cases i (length ds)) as [Hlt | Hge].
  - rewrite app_nth1 in Hi by exact Hlt.
    destruct (Nat.lt_ge_cases j (length ds)) as [Hjl | Hjg].
    + rewrite app_nth1 by exact Hjl. apply (H i j); assumption.
    + rewrite app_nth2 by exact Hjg. apply nth_repeat.
  - exfalso. apply Hi. rewrite app_nth2 by exact Hge. apply nth_repeat.
Qed.

Lemma wNAF_loop_spaced (w : Z) :
  1 <= w ->
  forall (fuel : nat) (s : Z), spaced (Z.to_nat w) (wNAF_loop fuel s w).
Proof.
  intros Hw.
  assert (En : Z.to_nat w = S (Z.to_nat (w - 1))) by lia.
  induction fuel as [| fuel IH]; intros s.
  - intros i j _ Hi. exfalso. apply Hi. destruct i; reflexivity.
  - cbn [wNAF_loop].
    destruct (s =? 0).
    { intros i j _ Hi. exfalso. apply Hi. destruct i; reflexivity. }
    cbv zeta.
    destruct (Z.land s 1 =? 0); [apply spaced_cons0; apply IH |].
    match goal with
    | |- context [if negb (?c =? 0) then _ else _] => destruct (c =? 0)
    end; cbn [negb].
    + apply spaced_single.
    + rewrite En. apply spaced_window. rewrite <- En. apply IH.
Qed.

End RecodeFacts.

Module Recoding.
Import WordFacts RecodeFacts.

(** [wNAF_recode], for a 64-bit scalar and a width from 2 to 8, writes 65
    digits that stand for the scalar (the sum of [d_i * 2^i]); each digit is
    zero or odd and at most 2^(w-1) - 1 in absolute value, and a digit that
    is not zero is followed by [w - 1] zero digits. *)
Theorem wNAF_recode_correct (scalar w : Z) :
  0 <= scalar < 2 ^ 64 -> 2 <= w <= 8 ->
  let digits := wNAF_recode scalar w in
  length digits = 65%nat /\
  digits_value digits = scalar /\
  Forall (fun d => d = 0 \/ (Z.odd d = true /\ Z.abs d <= 2 ^ (w - 1) - 1)) digits /\
  (forall i j : nat,
     (i < j < i + Z.to_nat w)%nat -> nth i digits 0 <> 0 -> nth j digits 0 = 0).
Proof.
  intros Hs Hw. cbv zeta. unfold wNAF_recode. cbv zeta.
  destruct (wNAF_loop_spec w Hw 65 64 scalar ltac:(lia) ltac:(lia) ltac:(lia))
    as (V & L & F).
  split; [| split; [| split]].
  - rewrite length_app, repeat_length. lia.
  - rewrite digits_value_app_zeros. exact V.
  - apply Forall_app. split; [exact F | apply Forall_zeros; left; reflexivity].
  - apply spaced_app_zeros. apply wNAF_loop_spaced. lia.
Qed.

Lemma wNAF_recode_correct_witness :
  0 <= 0xFFFFFFFFFFFFFFFF < 2 ^ 64 /\ 2 <= 8 <= 8 /\
  digits_value (wNAF_recode 0xFFFFFFFFFFFFFFFF 8) = 0xFFFFFFFFFFFFFFFF.
Proof.
  assert (Hs : 0 <= 0xFFFFFFFFFFFFFFFF < 2 ^ 64) by lia.
  assert (Hw : 2 <= 8 <= 8) by lia.
  split; [exact Hs |]. split; [exact Hw |].
  exact (proj1 (proj2 (wNAF_recode_correct 0xFFFFFFFFFFFFFFFF 8 Hs Hw))).
Defined.

End Recoding.

(** * The commitment of a signature *)

Module CommitFacts.
Import Stdlib.Zmod.ZmodDef Stdlib.Zmod.ZmodBase.
Import WordFacts FieldFacts FpFacts DecodeFacts ByteFacts PointChecks FixedBaseFacts.
Import SignatureClaims.

Lemma word1_low bs : word_at bs 1 < 2 ^ 63 -> byte_at bs 15 < 128.
Proof.
  intros Hw.
  destruct (Z.ltb_spec (byte_at bs 15) 128) as [H | H]; [exact H | exfalso].
  unfold byte_at in H.
  pose proof (Z_of_byte_range (nth 15 bs Byte.x00)) as Hr.
  assert (Hb : Z.testbit (Z_of_byte (nth 15 bs Byte.x00)) 7 = true).
  { rewrite Z.testbit_true by lia.
    assert (Hq : Z_of_byte (nth 15 bs Byte.x00) / 2 ^ 7 = 1).
    { symmetry.
      apply Z.div_unique_pos with (r := Z_of_byte (nth 15 bs Byte.x00) - 128); lia. }
    rewrite Hq. reflexivity. }
  assert (Ht : Z.testbit (word_at bs 1) 63 = true).
  { unfold word_at. change 63 with (8 * Z.of_nat 7 + 7).
    rewrite le_int_testbit by lia. rewrite nth_sub_bytes by lia. exact Hb. }
  pose proof (word_at_range bs 1) as Hr1. unfold is_u64 in Hr1.
  rewrite Z.testbit_true in Ht by lia.
  rewrite Z.div_small in Ht by lia. discriminate Ht.
Qed.

Lemma encode_byte15 P : point_canon P -> byte_at (encode P) 15 < 128.
Proof.
  intros Hc. apply word1_low.
  destruct (encode_fields P Hc) as (_ & W1 & _). rewrite W1.
  destruct Hc as (_ & _ & Hy0 & _).
  apply fcanon_fe127 in Hy0. unfold fe127 in Hy0. lia.
Qed.

Lemma byte_below_128 b : Z_of_byte b < 128 -> Z.land (Z_of_byte b) 0x80 = 0.
Proof. destruct b; intros H; solve [reflexivity | vm_compute in H; discriminate H]. Qed.

Lemma byte_at_below_128 bs i :
  byte_at bs i < 128 -> Z.land (byte_at bs i) 0x80 = 0.
Proof. unfold byte_at. apply byte_below_128. Qed.

(** The encoding of what [ecc_mul_fixed] returns decodes to a point of the
    curve. *)
Lemma encode_mul_fixed_decodes (k : scalar_t) :
  byte_at (encode (ecc_mul_fixed k)) 15 < 128 /\
  exists R, decode (encode (ecc_mul_fixed k)) = Some R /\ on_curve R.
Proof.
  destruct (ecc_mul_fixed_sound k) as [Hc [Hon | Hz]].
  - split; [exact (encode_byte15 _ Hc) |].
    destruct (decode_encode_rep _ Hc Hon) as (R & Hd & _).
    exists R. split; [exact Hd |].
    exact (decode_some_on_curve _ R (encode_byte15 _ Hc) Hd).
  - rewrite Hz. split; [vm_compute; reflexivity |].
    exists (mk_point ((0, 0), (1, 0)) f2_zero).
    split; [vm_compute; reflexivity | split; vm_compute; reflexivity].
Qed.

Lemma signWithNonceK_from_head temp0 k pk md :
  exists tail,
    signWithNonceK_from temp0 k pk md = sign_commitment temp0 k md ++ tail.
Proof.
  unfold signWithNonceK_from. cbv zeta.
  destruct (subborrow_chain _ _ _) as [b s]. eexists. reflexivity.
Qed.

Lemma head32 (a tail : list Byte.byte) :
  length a = 32%nat ->
  sub_bytes (a ++ tail) 0 32 = a /\ byte_at (a ++ tail) 15 = byte_at a 15.
Proof.
  intros Hl. split.
  - unfold sub_bytes. cbn [skipn]. rewrite firstn_app, Hl.
    replace (32 - 32)%nat with 0%nat by lia.
    rewrite firstn_O, app_nil_r. apply firstn_all2. lia.
  - unfold byte_at. rewrite app_nth1 by lia. reflexivity.
Qed.

Lemma signWithNonceK_commitment k pk md :
  Z.land (byte_at (signWithNonceK k pk md) 15) 0x80 = 0 /\
  exists R,
    decode (sub_bytes (signWithNonceK k pk md) 0 32) = Some R /\ on_curve R.
Proof.
  unfold signWithNonceK.
  destruct (signWithNonceK_from_head (repeat Byte.x00 96) k pk md) as [tail ->].
  destruct (head32 (sign_commitment (repeat Byte.x00 96) k md) tail
              (length_sign_commitment _ _ _)) as [E1 E2].
  rewrite E1, E2. unfold sign_commitment.
  destruct (encode_mul_fixed_decodes (sign_r (repeat Byte.x00 96) k md)) as [Hb HR].
  split; [exact (byte_at_below_128 _ _ Hb) | exact HR].
Qed.

End CommitFacts.

Module Commitment.
Import CommitFacts.

(** The first half of a signature that [signWithNonceK], and so [sign],
    writes is the encoding of a point of the curve: its 32 bytes decode to
    a point that satisfies the curve equation, and bit 7 of byte 15, which
    [verify] rejects when set, is clear. *)
Theorem sign_commitment_on_curve (publicKey messageDigest : list Byte.byte) :
  (forall k : list Byte.byte,
     let signature := signWithNonceK k publicKey messageDigest in
     Z.land (byte_at signature 15) 0x80 = 0 /\
     exists R, decode (sub_bytes signature 0 32) = Some R /\ on_curve R) /\
  (forall subseed : list Byte.byte,
     let signature := sign subseed publicKey messageDigest in
     Z.land (byte_at signature 15) 0x80 = 0 /\
     exists R, decode (sub_bytes signature 0 32) = Some R /\ on_curve R).
Proof.
  split.
  - intros k. exact (signWithNonceK_commitment k publicKey messageDigest).
  - intros subseed. unfold sign. cbv zeta.
    exact (signWithNonceK_commitment _ publicKey messageDigest).
Qed.

End Commitment.

(** * The sponge of KangarooTwelve *)

Module SpongeFacts.
Import WordFacts ByteFacts.

(** ** Lanes and bytes *)

Lemma xor_lane_again st j v1 v2 :
  xor_lane (xor_lane st j v1) j v2 = xor_lane st j (Z.lxor v1 v2).
Proof.
  revert j. induction st as [| w st IH]; intros [| j]; cbn [xor_lane];
    try reflexivity.
  - rewrite Z.lxor_assoc. reflexivity.
  - rewrite IH. reflexivity.
Qed.

Lemma xor_lane_0 st j : xor_lane st j 0 = st.
Proof.
  revert j. induction st as [| w st IH]; intros [| j]; cbn [xor_lane];
    try reflexivity.
  - rewrite Z.lxor_0_r. reflexivity.
  - rewrite IH. reflexivity.
Qed.

Lemma xor_lane_length st j v : length (xor_lane st j v) = length st.
Proof.
  revert j. induction st as [| w st IH]; intros [| j]; cbn [xor_lane length];
    try reflexivity.
  rewrite IH. reflexivity.
Qed.

Lemma xor_byte_length st i b : length (xor_byte st i b) = length st.
Proof. apply xor_lane_length. Qed.

Lemma xor_byte_lane st (j : nat) o b :
  0 <= o < 8 ->
  xor_byte st (8 * Z.of_nat j + o) b = xor_lane st j (Z.shiftl b (8 * o)).
Proof.
  intros Ho. unfold xor_byte.
  assert (Hq : (8 * Z.of_nat j + o) / 8 = Z.of_nat j).
  { symmetry. apply Z.div_unique_pos with (r := o); lia. }
  assert (Hr : (8 * Z.of_nat j + o) mod 8 = o).
  { symmetry. apply Z.mod_unique_pos with (q := Z.of_nat j); lia. }
  rewrite Hq, Hr, Nat2Z.id. reflexivity.
Qed.

Lemma byte_cons_lxor b x :
  0 <= b < 256 -> 0 <= x -> b + 256 * x = Z.lxor b (Z.shiftl x 8).
Proof.
  intros Hb Hx. rewrite Z.shiftl_mul_pow2 by lia.
  replace (256 * x) with (x * 2 ^ 8) by lia.
  apply Z.add_nocarry_lxor.
  apply Z.bits_inj'. intros n Hn. rewrite Z.land_spec, Z.bits_0.
  destruct (Z.lt_ge_cases n 8) as [Hlt | Hge].
  - rewrite Z.mul_pow2_bits_low by lia. apply andb_false_r.
  - assert (Hbn : Z.testbit b n = false).
    { destruct (Z.eq_dec b 0) as [-> | Hnz]; [apply Z.bits_0 |].
      apply Z.bits_above_log2; [lia |].
      assert (Z.log2 b < 8) by (apply Z.log2_lt_pow2; lia). lia. }
    rewrite Hbn. reflexivity.
Qed.

Lemma le_int_nonneg bs : 0 <= le_int bs.
Proof. pose proof (le_int_range bs). lia. Qed.

(** Up to eight bytes inside one lane are XORed as one shifted lane. *)
Lemma xor_bytes_lane st (j : nat) o bs :
  0 <= o -> o + Z.of_nat (length bs) <= 8 ->
  xor_bytes st (8 * Z.of_nat j + o) bs
  = xor_lane st j (Z.shiftl (le_int bs) (8 * o)).
Proof.
  revert st o. induction bs as [| b bs IH]; intros st o Ho Hl.
  - cbn [xor_bytes le_int]. rewrite Z.shiftl_0_l, xor_lane_0. reflexivity.
  - cbn [length] in Hl. cbn [xor_bytes le_int].
    rewrite xor_byte_lane by lia.
    replace (8 * Z.of_nat j + o + 1) with (8 * Z.of_nat j + (o + 1)) by lia.
    rewrite IH by lia. rewrite xor_lane_again. f_equal.
    rewrite byte_cons_lxor by (try apply Z_of_byte_range; apply le_int_nonneg).
    rewrite Z.shiftl_lxor, Z.shiftl_shiftl by lia.
    f_equal. f_equal. lia.
Qed.

Lemma xor_bytes_lane0 st (j : nat) bs :
  (length bs <= 8)%nat ->
  xor_bytes st (8 * Z.of_nat j) bs = xor_lane st j (le_int bs).
Proof.
  intros Hl. pose proof (xor_bytes_lane st j 0 bs ltac:(lia) ltac:(lia)) as E.
  rewrite Z.add_0_r, Z.shiftl_0_r in E. exact E.
Qed.

Lemma xor_bytes_app st i a b :
  xor_bytes st i (a ++ b)
  = xor_bytes (xor_bytes st i a) (i + Z.of_nat (length a)) b.
Proof.
  revert st i. induction a as [| x a IH]; intros st i.
  - cbn [app xor_bytes length]. rewrite Z.add_0_r. reflexivity.
  - cbn [app xor_bytes length]. rewrite IH. f_equal. lia.
Qed.

Lemma xor_bytes_length st i bs : length (xor_bytes st i bs) = length st.
Proof.
  revert st i. induction bs as [| b bs IH]; intros st i; cbn [xor_bytes];
    [reflexivity |].
  rewrite IH. apply xor_byte_length.
Qed.

Lemma firstn_plus {A} (k m : nat) (l : list A) :
  firstn (k + m) l = firstn k l ++ firstn m (skipn k l).
Proof.
  revert l. induction k as [| k IH]; intros l; [reflexivity |].
  destruct l as [| x l]; cbn [Nat.add firstn skipn app].
  - rewrite firstn_nil. reflexivity.
  - rewrite IH. reflexivity.
Qed.

(** ** Byte-wise absorption *)

Lemma rate_value : K12_rateInBytes = 168.
Proof. reflexivity. Qed.

Lemma Permute_length st : length (KeccakP1600_Permute_12rounds st) = 25%nat.
Proof. reflexivity. Qed.

Lemma absorb_bytes_app inst a b :
  absorb_bytes inst (a ++ b) = absorb_bytes (absorb_bytes inst a) b.
Proof. unfold absorb_bytes. apply fold_left_app. Qed.

Lemma absorb_byte_ok inst b : node_ok inst -> node_ok (absorb_byte inst b).
Proof.
  intros [Hl Hi]. unfold absorb_byte. cbv zeta. rewrite rate_value in *.
  destruct (Z.eqb_spec (byteIOIndex inst + 1) 168) as [E | N].
  - split; cbn [state byteIOIndex]; [apply Permute_length | rewrite rate_value; lia].
  - split; cbn [state byteIOIndex];
      [rewrite xor_byte_length; exact Hl | rewrite rate_value; lia].
Qed.

Lemma absorb_bytes_ok inst data : node_ok inst -> node_ok (absorb_bytes inst data).
Proof.
  revert inst. induction data as [| b data IH]; intros inst H; [exact H |].
  unfold absorb_bytes. cbn [fold_left]. apply IH. apply absorb_byte_ok. exact H.
Qed.

(** Bytes that do not fill the block. *)
Lemma absorb_bytes_run st idx bs :
  0 <= idx -> idx + Z.of_nat (length bs) < K12_rateInBytes ->
  absorb_bytes (mkF st idx) bs
  = mkF (xor_bytes st idx bs) (idx + Z.of_nat (length bs)).
Proof.
  rewrite rate_value.
  revert st idx. induction bs as [| b bs IH]; intros st idx Hi Hl.
  - cbn [length xor_bytes]. rewrite Z.add_0_r. reflexivity.
  - cbn [length] in Hl. unfold absorb_bytes. cbn [fold_left xor_bytes length].
    unfold absorb_byte at 2. cbv zeta. cbn [state byteIOIndex].
    rewrite rate_value.
    destruct (Z.eqb_spec (idx + 1) 168) as [E | N]; [lia |].
    fold (absorb_bytes (mkF (xor_byte st idx (Z_of_byte b)) (idx + 1)) bs).
    rewrite IH by lia. f_equal. lia.
Qed.

(** Bytes that fill the block exactly. *)
Lemma absorb_bytes_fill st idx bs :
  0 <= idx -> bs <> [] -> idx + Z.of_nat (length bs) = K12_rateInBytes ->
  absorb_bytes (mkF st idx) bs
  = mkF (KeccakP1600_Permute_12rounds (xor_bytes st idx bs)) 0.
Proof.
  rewrite rate_value.
  revert st idx. induction bs as [| b bs IH]; intros st idx Hi Hn Hl;
    [contradiction |].
  cbn [length] in Hl. unfold absorb_bytes. cbn [fold_left xor_bytes].
  unfold absorb_byte at 2. cbv zeta. cbn [state byteIOIndex].
  rewrite rate_value.
  destruct bs as [| b' bs].
  - cbn [length] in Hl.
    destruct (Z.eqb_spec (idx + 1) 168) as [E | N]; [| lia].
    reflexivity.
  - cbn [length] in Hl.
    destruct (Z.eqb_spec (idx + 1) 168) as [E | N]; [lia |].
    fold (absorb_bytes (mkF (xor_byte st idx (Z_of_byte b)) (idx + 1)) (b' :: bs)).
    apply IH; [lia | discriminate | cbn [length]; lia].
Qed.

(** ** The three ways the source XORs a partial block *)

Lemma le_int_firstn_bound (k : nat) (data : list Byte.byte) :
  0 <= le_int (firstn k data) < 256 ^ Z.of_nat k.
Proof.
  pose proof (le_int_range (firstn k data)) as H.
  assert (Hl : (length (firstn k data) <= k)%nat)
    by (rewrite length_firstn; apply Nat.le_min_l).
  assert (256 ^ Z.of_nat (length (firstn k data)) <= 256 ^ Z.of_nat k)
    by (apply Z.pow_le_mono_r; lia).
  lia.
Qed.

(** Lane by lane from the middle of a lane. *)
Lemma absorb_unaligned_spec (fuel : nat) st size (lane : nat) off data :
  0 <= off < 8 -> 0 <= size <= Z.of_nat (length data) ->
  size <= Z.of_nat fuel ->
  absorb_unaligned fuel st size lane off data
  = xor_bytes st (8 * Z.of_nat lane + off) (firstn (Z.to_nat size) data).
Proof.
  revert st size lane off data.
  induction fuel as [| fuel IH]; intros st size lane off data Ho Hs Hf.
  - assert (size = 0) by lia. subst size. reflexivity.
  - cbn [absorb_unaligned].
    destruct (Z.ltb_spec 0 size) as [Hpos | Hz].
    2:{ assert (size = 0) by lia. subst size. reflexivity. }
    cbv zeta.
    set (k := if size <? 8 - off then size else 8 - off).
    assert (Hk : 1 <= k <= size /\ k <= 8 - off /\ (k = 8 - off \/ k = size)).
    { unfold k. destruct (Z.ltb_spec size (8 - off)); lia. }
    destruct Hk as (Hk1 & Hk2 & Hk3).
    destruct (Z.eqb_spec k 0) as [? | _]; [lia |]. cbn [negb].
    assert (Hlen : length (firstn (Z.to_nat k) data) = Z.to_nat k).
    { rewrite length_firstn. apply Nat.min_l. lia. }
    assert (Hsh : shl64 (le_int (firstn (Z.to_nat k) data)) (Z.shiftl off 3)
                  = Z.shiftl (le_int (firstn (Z.to_nat k) data)) (8 * off)).
    { unfold shl64. rewrite (Z.shiftl_mul_pow2 off 3) by lia.
      replace (off * 2 ^ 3) with (8 * off) by lia.
      apply u64_small. unfold is_u64.
      pose proof (le_int_firstn_bound (Z.to_nat k) data) as Hb.
      rewrite Z2Nat.id in Hb by lia.
      rewrite Z.shiftl_mul_pow2 by lia.
      change 256 with (2 ^ 8) in Hb. rewrite <- Z.pow_mul_r in Hb by lia.
      assert (Hp : 2 ^ (8 * k) * 2 ^ (8 * off) <= 2 ^ 64).
      { rewrite <- Z.pow_add_r by lia. apply Z.pow_le_mono_r; lia. }
      assert (0 < 2 ^ (8 * off)) by (apply Z.pow_pos_nonneg; lia).
      nia. }
    rewrite Hsh.
    replace (Z.to_nat size) with (Z.to_nat k + Z.to_nat (size - k))%nat by lia.
    rewrite firstn_plus, xor_bytes_app, Hlen.
    rewrite (xor_bytes_lane st lane off) by (rewrite ?Hlen; lia).
    destruct Hk3 as [Hfull | Hlast].
    + rewrite IH.
      * f_equal. rewrite Z2Nat.id by lia. rewrite Nat2Z.inj_succ. lia.
      * lia.
      * rewrite length_skipn. lia.
      * lia.
    + replace (size - k) with 0 by lia. cbn [Z.to_nat firstn xor_bytes].
      destruct fuel as [| fuel']; reflexivity.
Qed.

(** Whole lanes from the start of the block. *)
Lemma sub_bytes_plus data off (k m : nat) :
  sub_bytes data off (k + m) = sub_bytes data off k ++ sub_bytes data (off + k) m.
Proof.
  unfold sub_bytes. rewrite firstn_plus, skipn_skipn.
  replace (k + off)%nat with (off + k)%nat by lia. reflexivity.
Qed.

Lemma length_sub_bytes_exact data off len :
  (off + len <= length data)%nat -> length (sub_bytes data off len) = len.
Proof.
  intros H. unfold sub_bytes. rewrite length_firstn, length_skipn.
  apply Nat.min_l. lia.
Qed.

Lemma xor_whole_lanes_spec (n j : nat) st data :
  (8 * (j + n) <= length data)%nat ->
  xor_whole_lanes n j st data
  = xor_bytes st (8 * Z.of_nat j) (sub_bytes data (8 * j) (8 * n)).
Proof.
  revert j st. induction n as [| n IH]; intros j st Hl.
  - unfold sub_bytes. cbn [Nat.mul firstn xor_whole_lanes xor_bytes]. reflexivity.
  - cbn [xor_whole_lanes]. rewrite IH by lia.
    replace (8 * S n)%nat with (8 + 8 * n)%nat by lia.
    rewrite sub_bytes_plus, xor_bytes_app.
    rewrite length_sub_bytes_exact by lia.
    rewrite (xor_bytes_lane0 st j) by (rewrite length_sub_bytes_exact; lia).
    unfold word_at.
    replace (8 * j + 8)%nat with (8 * S j)%nat by lia.
    f_equal. lia.
Qed.

Lemma small_bits pb :
  0 <= pb < 256 ->
  Z.shiftr pb 3 = pb / 8 /\ Z.land pb 7 = pb mod 8 /\
  Z.land pb 0xFFFFFFF8 = 8 * (pb / 8).
Proof.
  intros H. split; [| split].
  - rewrite Z.shiftr_div_pow2 by lia. reflexivity.
  - exact (Z.land_ones pb 3 ltac:(lia)).
  - assert (Hall : forallb (fun n => Z.land (Z.of_nat n) 0xFFFFFFF8
                                     =? 8 * (Z.of_nat n / 8)) (seq 0 256) = true)
      by (vm_compute; reflexivity).
    rewrite forallb_forall in Hall.
    specialize (Hall (Z.to_nat pb)). rewrite Z2Nat.id in Hall by lia.
    apply Z.eqb_eq. apply Hall. apply in_seq. lia.
Qed.

Lemma absorb_aligned_spec st data pb :
  0 <= pb < 256 -> pb <= Z.of_nat (length data) ->
  absorb_aligned st data pb = xor_bytes st 0 (firstn (Z.to_nat pb) data).
Proof.
  intros Hp Hl. unfold absorb_aligned. cbv zeta.
  destruct (small_bits pb Hp) as (E1 & E2 & E3). rewrite E1, E2, E3.
  pose proof (Z.div_mod pb 8 ltac:(lia)) as Hdm.
  pose proof (Z.mod_pos_bound pb 8 ltac:(lia)) as Hm.
  assert (Hq : 0 <= pb / 8) by (apply Z.div_pos; lia).
  rewrite xor_whole_lanes_spec by lia.
  change (8 * Z.of_nat 0) with 0. change (8 * 0)%nat with 0%nat.
  replace (Z.to_nat pb) with (8 * Z.to_nat (pb / 8) + Z.to_nat (pb mod 8))%nat by lia.
  rewrite firstn_plus, xor_bytes_app.
  change (firstn (8 * Z.to_nat (pb / 8)) data)
    with (sub_bytes data 0 (8 * Z.to_nat (pb / 8))).
  rewrite length_sub_bytes_exact by lia.
  destruct (Z.eqb_spec (pb mod 8) 0) as [Hz | Hnz]; cbn [negb].
  - rewrite Hz. cbn [Z.to_nat firstn xor_bytes]. reflexivity.
  - replace (Z.to_nat (8 * (pb / 8))) with (8 * Z.to_nat (pb / 8))%nat by lia.
    change (firstn (Z.to_nat (pb mod 8)) (skipn (8 * Z.to_nat (pb / 8)) data))
      with (sub_bytes data (8 * Z.to_nat (pb / 8)) (Z.to_nat (pb mod 8))).
    replace (0 + Z.of_nat (8 * Z.to_nat (pb / 8)))
      with (8 * Z.of_nat (Z.to_nat (pb / 8))) by lia.
    rewrite xor_bytes_lane0 by (rewrite length_sub_bytes_exact; lia).
    reflexivity.
Qed.

(** ** Full blocks *)

Lemma copyFromState_copyToState A : copyFromState (copyToState A) = A.
Proof. destruct A. reflexivity. Qed.

Lemma copyToState_copyFromState st :
  length st = 25%nat -> copyToState (copyFromState st) = st.
Proof.
  intros H.
  do 25 (destruct st as [| ? st]; [discriminate H |]).
  destruct st; [reflexivity | discriminate H].
Qed.

(** The 21 lanes of a block XORed into the lanes of a state. *)
Lemma full_block_lanes st data :
  length st = 25%nat -> (168 <= length data)%nat ->
  let A := copyFromState st in
  let d i := word_at data i in
  copyFromState (xor_bytes st 0 (firstn 168 data))
  = mkLanes
      (Z.lxor (l_ba A) (d 0%nat)) (Z.lxor (l_be A) (d 1%nat))
      (Z.lxor (l_bi A) (d 2%nat)) (Z.lxor (l_bo A) (d 3%nat))
      (Z.lxor (l_bu A) (d 4%nat)) (Z.lxor (l_ga A) (d 5%nat))
      (Z.lxor (l_ge A) (d 6%nat)) (Z.lxor (l_gi A) (d 7%nat))
      (Z.lxor (l_go A) (d 8%nat)) (Z.lxor (l_gu A) (d 9%nat))
      (Z.lxor (l_ka A) (d 10%nat)) (Z.lxor (l_ke A) (d 11%nat))
      (Z.lxor (l_ki A) (d 12%nat)) (Z.lxor (l_ko A) (d 13%nat))
      (Z.lxor (l_ku A) (d 14%nat)) (Z.lxor (l_ma A) (d 15%nat))
      (Z.lxor (l_me A) (d 16%nat)) (Z.lxor (l_mi A) (d 17%nat))
      (Z.lxor (l_mo A) (d 18%nat)) (Z.lxor (l_mu A) (d 19%nat))
      (Z.lxor (l_sa A) (d 20%nat))
      (l_se A) (l_si A) (l_so A) (l_su A).
Proof.
  intros Hl Hd. cbv zeta.
  change (firstn 168 data) with (sub_bytes data (8 * 0) (8 * 21)).
  change 0 with (8 * Z.of_nat 0) at 1.
  rewrite <- xor_whole_lanes_spec by (cbn [Nat.add Nat.mul]; lia).
  do 25 (destruct st as [| ? st]; [discriminate Hl |]).
  destruct st; [| discriminate Hl].
  reflexivity.
Qed.

Lemma absorb_full_blocks_spec (fuel : nat) st data :
  length st = 25%nat -> (length data <= fuel)%nat ->
  exists prefix rest st',
    absorb_full_blocks fuel (copyFromState st) data = (copyFromState st', rest) /\
    data = prefix ++ rest /\
    length st' = 25%nat /\
    absorb_bytes (mkF st 0) prefix = mkF st' 0 /\
    ((168 <= length data)%nat -> prefix <> []).
Proof.
  revert st data. induction fuel as [| fuel IH]; intros st data Hl Hf.
  - exists [], data, st. cbn [absorb_full_blocks app].
    repeat split; try assumption; try reflexivity. intros H. lia.
  - cbn [absorb_full_blocks]. rewrite rate_value.
    destruct (Z.leb_spec 168 (Z.of_nat (length data))) as [Hge | Hlt].
    + cbv zeta.
      rewrite <- (full_block_lanes st data Hl ltac:(lia)).
      change (Z.to_nat 168) with 168%nat.
      set (st1 := KeccakP1600_Permute_12rounds (xor_bytes st 0 (firstn 168 data))).
      assert (E1 : rounds12 (copyFromState (xor_bytes st 0 (firstn 168 data)))
                   = copyFromState st1).
      { unfold st1, KeccakP1600_Permute_12rounds.
        rewrite copyFromState_copyToState. reflexivity. }
      rewrite E1.
      destruct (IH st1 (skipn 168 data) (Permute_length _)) as
        (prefix & rest & st' & E & Hd & Hl' & Ha & _).
      { rewrite length_skipn. lia. }
      exists (firstn 168 data ++ prefix), rest, st'.
      split; [exact E |].
      split; [rewrite <- app_assoc, <- Hd, firstn_skipn; reflexivity |].
      split; [exact Hl' |].
      split.
      * rewrite absorb_bytes_app.
        rewrite absorb_bytes_fill.
        -- exact Ha.
        -- lia.
        -- intros Hn. apply (f_equal (@length _)) in Hn.
           rewrite length_firstn in Hn. cbn [length] in Hn. lia.
        -- rewrite length_firstn, rate_value. lia.
      * intros _ Hn. apply (f_equal (@length _)) in Hn.
        rewrite length_app, length_firstn in Hn. cbn [length] in Hn. lia.
    + exists [], data, st. cbn [app].
      repeat split; try assumption; try reflexivity. intros H. lia.
Qed.

(** ** One turn of the loop, and the loop *)

Lemma Absorb_step_spec inst data :
  node_ok inst -> data <> [] ->
  exists prefix rest,
    Absorb_step inst data = (absorb_bytes inst prefix, rest) /\
    data = prefix ++ rest /\ prefix <> [].
Proof.
  destruct inst as [st idx]. intros [Hl Hi] Hne.
  cbn [state byteIOIndex] in Hl, Hi. rewrite rate_value in Hi.
  assert (Hlen : 1 <= Z.of_nat (length data)).
  { destruct data; [contradiction | cbn [length]; lia]. }
  unfold Absorb_step. cbn [state byteIOIndex]. cbv zeta. rewrite rate_value.
  destruct ((idx =? 0) && (168 <=? Z.of_nat (length data))) eqn:Hfast.
  - apply andb_true_iff in Hfast. destruct Hfast as [H0 Hge].
    apply Z.eqb_eq in H0. apply Z.leb_le in Hge. subst idx.
    destruct (absorb_full_blocks_spec (length data) st data Hl (Nat.le_refl _))
      as (prefix & rest & st' & E & Hd & Hl' & Ha & Hp).
    rewrite E. exists prefix, rest.
    rewrite copyToState_copyFromState by exact Hl'.
    rewrite Ha. split; [reflexivity |]. split; [exact Hd |]. apply Hp. lia.
  - set (left := Z.of_nat (length data)) in *.
    set (pb := if 168 <? left + idx then (168 - idx) mod 256 else left mod 256).
    assert (Hpb : 1 <= pb <= left /\ idx + pb <= 168 /\
                  (idx + pb < 168 -> pb = left)).
    { unfold pb. destruct (Z.ltb_spec 168 (left + idx)) as [H | H].
      - rewrite Z.mod_small by lia. lia.
      - rewrite Z.mod_small by lia. lia. }
    destruct Hpb as (Hp1 & Hp2 & Hp3).
    assert (Hidx : (idx + pb) mod 256 = idx + pb) by (apply Z.mod_small; lia).
    rewrite Hidx.
    set (st2 := if idx =? 0 then absorb_aligned st data pb
                else absorb_unaligned (Z.to_nat pb) st pb
                       (Z.to_nat (Z.shiftr idx 3)) (Z.land idx 7) data).
    assert (Est : st2 = xor_bytes st idx (firstn (Z.to_nat pb) data)).
    { unfold st2. destruct (Z.eqb_spec idx 0) as [-> | Hnz].
      - apply absorb_aligned_spec; lia.
      - destruct (small_bits idx ltac:(lia)) as (E1 & E2 & _).
        rewrite E1, E2.
        pose proof (Z.div_mod idx 8 ltac:(lia)) as Hdm.
        pose proof (Z.mod_pos_bound idx 8 ltac:(lia)) as Hm.
        assert (0 <= idx / 8) by (apply Z.div_pos; lia).
        rewrite absorb_unaligned_spec by lia.
        f_equal. rewrite Z2Nat.id by lia. lia. }
    rewrite Est.
    assert (Hfl : length (firstn (Z.to_nat pb) data) = Z.to_nat pb).
    { rewrite length_firstn. apply Nat.min_l. lia. }
    exists (firstn (Z.to_nat pb) data), (skipn (Z.to_nat pb) data).
    split; [| split; [symmetry; apply firstn_skipn |]].
    + destruct (Z.eqb_spec (idx + pb) 168) as [Hfull | Hpart].
      * rewrite absorb_bytes_fill; [reflexivity | lia | | rewrite Hfl, rate_value; lia].
        intros Hn. rewrite Hn in Hfl. cbn [length] in Hfl. lia.
      * rewrite absorb_bytes_run by (rewrite ?Hfl, ?rate_value; lia).
        rewrite Hfl. f_equal. f_equal. lia.
    + intros Hn. rewrite Hn in Hfl. cbn [length] in Hfl. lia.
Qed.

Lemma Absorb_loop_spec (fuel : nat) inst data :
  node_ok inst -> (length data <= fuel)%nat ->
  Absorb_loop fuel inst data = absorb_bytes inst data.
Proof.
  revert inst data. induction fuel as [| fuel IH]; intros inst data Hok Hf.
  - destruct data; [reflexivity | cbn [length] in Hf; lia].
  - cbn [Absorb_loop]. destruct data as [| b data]; [reflexivity |].
    destruct (Absorb_step_spec inst (b :: data) Hok ltac:(discriminate))
      as (prefix & rest & E & Hd & Hp).
    rewrite E, Hd, absorb_bytes_app.
    apply IH; [apply absorb_bytes_ok; exact Hok |].
    apply (f_equal (@length _)) in Hd. rewrite length_app in Hd.
    destruct prefix; [contradiction |]. cbn [length] in Hd, Hf. lia.
Qed.

Lemma Absorb_bytewise inst data :
  node_ok inst -> KangarooTwelve_F_Absorb inst data = absorb_bytes inst data.
Proof.
  intros Hok. unfold KangarooTwelve_F_Absorb. apply Absorb_loop_spec; [exact Hok | lia].
Qed.

Lemma zero_node_ok : node_ok zero_node.
Proof. split; [reflexivity | cbn [zero_node byteIOIndex]; rewrite rate_value; lia]. Qed.

Lemma xor_byte_0 st i : xor_byte st i 0 = st.
Proof. unfold xor_byte. rewrite Z.shiftl_0_l. apply xor_lane_0. Qed.

Lemma Absorb_app inst a b :
  node_ok inst ->
  KangarooTwelve_F_Absorb (KangarooTwelve_F_Absorb inst a) b
  = KangarooTwelve_F_Absorb inst (a ++ b).
Proof.
  intros Hok.
  rewrite (Absorb_bytewise inst a Hok).
  rewrite (Absorb_bytewise _ b (absorb_bytes_ok inst a Hok)).
  rewrite (Absorb_bytewise inst (a ++ b) Hok).
  symmetry. apply absorb_bytes_app.
Qed.

(** ** The tree of KangarooTwelve *)

Local Notation B := (Z.to_nat 8192).
Local Notation CV := (fun c : list Byte.byte => sponge_bytes c K12_suffixLeaf 32).

Lemma byteIOIndex_absorb_bytes inst data :
  node_ok inst ->
  byteIOIndex (absorb_bytes inst data)
  = (byteIOIndex inst + Z.of_nat (length data)) mod 168.
Proof.
  revert inst. induction data as [| b data IH]; intros inst Hok.
  - destruct Hok as [_ Hi]. rewrite rate_value in Hi.
    cbn [absorb_bytes fold_left length]. rewrite Z.add_0_r, Z.mod_small by lia.
    reflexivity.
  - unfold absorb_bytes. cbn [fold_left].
    fold (absorb_bytes (absorb_byte inst b) data).
    rewrite IH by (apply absorb_byte_ok; exact Hok).
    destruct Hok as [_ Hi]. rewrite rate_value in Hi.
    unfold absorb_byte. cbv zeta. rewrite rate_value.
    cbn [length]. rewrite Nat2Z.inj_succ.
    destruct (Z.eqb_spec (byteIOIndex inst + 1) 168) as [E | N]; cbn [byteIOIndex].
    + replace (byteIOIndex inst + Z.succ (Z.of_nat (length data)))
        with (Z.of_nat (length data) + 1 * 168) by lia.
      rewrite Z.mod_add by lia. reflexivity.
    + f_equal. lia.
Qed.

(** Closing the first chunk is absorbing 03 00 00 00 00 00 00 00. *)
Lemma close_first_chunk_spec (chunk : list Byte.byte) :
  Z.of_nat (length chunk) = 8192 ->
  close_first_chunk (absorb_bytes zero_node chunk)
  = absorb_bytes zero_node (chunk ++ Byte.x03 :: repeat Byte.x00 7).
Proof.
  intros Hl. rewrite absorb_bytes_app.
  pose proof (byteIOIndex_absorb_bytes zero_node chunk zero_node_ok) as Hi.
  rewrite Hl in Hi. cbn [zero_node byteIOIndex] in Hi.
  change ((0 + 8192) mod 168) with 128 in Hi.
  destruct (absorb_bytes zero_node chunk) as [st idx].
  cbn [byteIOIndex] in Hi. subst idx.
  rewrite absorb_bytes_run by (cbn [length repeat]; rewrite ?rate_value; lia).
  unfold close_first_chunk. cbn [state byteIOIndex]. cbv zeta.
  cbn [xor_bytes repeat length].
  change (Z_of_byte Byte.x00) with 0. rewrite !xor_byte_0.
  reflexivity.
Qed.

(** Closing a leaf is absorbing its chaining value. *)
Lemma close_leaf_spec F (c : list Byte.byte) :
  node_ok F ->
  fst (close_leaf F (absorb_bytes zero_node c)) = absorb_bytes F (CV c).
Proof.
  intros Hok. unfold close_leaf, sponge_bytes. cbv zeta. cbn [fst].
  apply Absorb_bytewise. exact Hok.
Qed.

Lemma chunk_loop_nil fuel F Q bn ql :
  chunk_loop fuel F Q bn ql [] = (F, Q, bn, ql).
Proof. destruct fuel; reflexivity. Qed.

Lemma chunks_short (fuel : nat) (l : list Byte.byte) :
  l <> [] -> Z.of_nat (length l) <= 8192 -> chunks (S fuel) B l = [l].
Proof.
  intros Hn Hl. cbn [chunks]. destruct l as [| x l]; [contradiction |].
  rewrite firstn_all2 by lia.
  rewrite skipn_all2 by lia.
  destruct fuel; reflexivity.
Qed.

Lemma chunks_long (fuel : nat) (l : list Byte.byte) :
  8192 <= Z.of_nat (length l) ->
  chunks (S fuel) B (l ++ [Byte.x00])
  = firstn B l :: chunks fuel B (skipn B l ++ [Byte.x00]).
Proof.
  intros Hl. cbn [chunks].
  destruct (l ++ [Byte.x00]) as [| x l'] eqn:E.
  { destruct l; discriminate E. }
  rewrite <- E.
  rewrite firstn_app, skipn_app.
  replace (B - length l)%nat with 0%nat by lia.
  rewrite firstn_O, skipn_O, app_nil_r. reflexivity.
Qed.

(** The loop over the chunks after the first.  It leaves the final node
    that has absorbed the chaining values of all the chunks of the rest
    followed by one zero byte, except the last one, which is pending: it
    is the single zero byte, or the queue node holds it without its zero
    byte. *)
Lemma chunk_loop_spec (fuel : nat) :
  forall F Q bn (rest : list Byte.byte),
    node_ok F -> (length rest <= fuel)%nat ->
    exists F' Q' ql' lv t,
      chunk_loop fuel F Q bn 0 rest = (F', Q', bn + Z.of_nat (length lv), ql') /\
      chunks (S fuel) B (rest ++ [Byte.x00]) = lv ++ [t ++ [Byte.x00]] /\
      F' = absorb_bytes F (flat_map CV lv) /\
      ql' = Z.of_nat (length t) /\ Z.of_nat (length t) < 8192 /\
      (t <> [] -> Q' = absorb_bytes zero_node t).
Proof.
  induction fuel as [| fuel IH]; intros F Q bn rest Hok Hf.
  - destruct rest; [| cbn [length] in Hf; lia].
    exists F, Q, 0, [], []. cbn [chunk_loop length flat_map app].
    rewrite Z.add_0_r. unfold absorb_bytes. cbn [fold_left].
    split; [reflexivity |]. split; [reflexivity |]. split; [reflexivity |].
    split; [reflexivity |]. split; [lia |]. intros H. contradiction.
  - destruct rest as [| x rest'].
    { exists F, Q, 0, [], []. rewrite chunk_loop_nil.
      cbn [length flat_map app]. rewrite Z.add_0_r.
      unfold absorb_bytes. cbn [fold_left].
      split; [reflexivity |]. split; [destruct fuel; reflexivity |].
      split; [reflexivity |].
      split; [reflexivity |]. split; [lia |]. intros H. contradiction. }
    set (rest := x :: rest') in *.
    assert (Hpos : 0 < Z.of_nat (length rest)) by (unfold rest; cbn [length]; lia).
    cbn [chunk_loop]. cbv zeta.
    destruct (Z.ltb_spec 0 (Z.of_nat (length rest))) as [_ | ?]; [| lia].
    change K12_chunkSize with 8192.
    destruct (Z.ltb_spec (Z.of_nat (length rest)) 8192) as [Hshort | Hlong].
    + (* the last chunk, shorter than a chunk *)
      destruct (Z.eqb_spec (Z.of_nat (length rest)) 8192) as [? | _]; [lia |].
      rewrite Nat2Z.id, firstn_all, skipn_all, chunk_loop_nil.
      exists F, (KangarooTwelve_F_Absorb zero_node rest), (Z.of_nat (length rest)),
             [], rest.
      cbn [length flat_map app]. rewrite Z.add_0_r.
      split; [reflexivity |].
      split.
      { apply chunks_short; [destruct rest; discriminate |].
        rewrite length_app. cbn [length]. lia. }
      split; [reflexivity |]. split; [reflexivity |]. split; [lia |].
      intros _. apply Absorb_bytewise. exact zero_node_ok.
    + (* a full chunk *)
      destruct (Z.eqb_spec 8192 8192) as [_ | ?]; [| lia].
      rewrite (Absorb_bytewise zero_node _ zero_node_ok).
      pose proof (close_leaf_spec F (firstn B rest) Hok) as HF.
      destruct (close_leaf F (absorb_bytes zero_node (firstn B rest)))
        as [F1 qst] eqn:Ecl.
      cbn [fst] in HF.
      destruct (IH F1 (mkF qst K12_capacityInBytes) (bn + 1) (skipn B rest))
        as (F' & Q' & ql' & lv & t & E & Hch & HF' & Hql & Ht & HQ).
      { rewrite HF. apply absorb_bytes_ok. exact Hok. }
      { rewrite length_skipn. unfold rest in *. cbn [length] in *. lia. }
      exists F', Q', ql', (firstn B rest :: lv), t.
      split.
      { rewrite E. f_equal. f_equal. cbn [length]. lia. }
      split.
      { rewrite chunks_long by lia. rewrite Hch. reflexivity. }
      split.
      { rewrite HF'. cbn [flat_map]. rewrite absorb_bytes_app, HF. reflexivity. }
      split; [exact Hql |]. split; [exact Ht | exact HQ].
Qed.

Lemma chunks_nil fuel n : chunks fuel n [] = [].
Proof. destruct fuel; reflexivity. Qed.

Lemma chunks_fuel (f1 : nat) :
  forall (f2 : nat) (l : list Byte.byte),
    (length l <= f1)%nat -> (length l <= f2)%nat ->
    chunks f1 B l = chunks f2 B l.
Proof.
  induction f1 as [| f1 IH]; intros f2 l H1 H2.
  - destruct l; [| cbn [length] in H1; lia]. rewrite !chunks_nil. reflexivity.
  - destruct l as [| x l]; [rewrite !chunks_nil; reflexivity |].
    destruct f2 as [| f2]; [cbn [length] in H2; lia |].
    cbn [chunks]. f_equal. 
    assert (Hs : (length (skipn B (x :: l)) <= length l)%nat).
    { rewrite length_skipn. cbn [length]. lia. }
    cbn [length] in H1, H2.
    apply IH; lia.
Qed.

Lemma absorb_zero_byte Q :
  node_ok Q ->
  (if (byteIOIndex Q + 1) mod 256 =? K12_rateInBytes
   then mkF (KeccakP1600_Permute_12rounds (state Q)) 0
   else mkF (state Q) ((byteIOIndex Q + 1) mod 256))
  = absorb_bytes Q [Byte.x00].
Proof.
  intros [Hl Hi]. rewrite rate_value in *.
  unfold absorb_bytes. cbn [fold_left]. unfold absorb_byte. cbv zeta.
  change (Z_of_byte Byte.x00) with 0. rewrite xor_byte_0, rate_value.
  rewrite (Z.mod_small (byteIOIndex Q + 1) 256) by lia.
  reflexivity.
Qed.

Lemma zero_leaf : mkF zero_state 1 = absorb_bytes zero_node [Byte.x00].
Proof. reflexivity. Qed.

Lemma sponge_bytes_eq data G suffix n :
  absorb_bytes zero_node data = G ->
  sponge_bytes data suffix n
  = firstn n (state_bytes (KeccakP1600_Permute_12rounds
      (xor_byte (xor_byte (state G) (byteIOIndex G) suffix)
                (K12_rateInBytes - 1) 128))).
Proof. intros <-. reflexivity. Qed.

(** The end of the tree path, from the final node [F] that has absorbed
    the chaining values of the leaves [lv]: the last leaf is closed, the
    number of leaves is absorbed and the suffix 0x06 closes the node. *)
Lemma tree_end (c0 : list Byte.byte) lv (last : list Byte.byte) F G bnf n :
  F = absorb_bytes zero_node
        (c0 ++ (Byte.x03 :: repeat Byte.x00 7) ++ flat_map CV lv) ->
  bnf = Z.of_nat (length (lv ++ [last])) ->
  G = KangarooTwelve_F_Absorb
        (fst (close_leaf F (absorb_bytes zero_node last))) (encbuf bnf) ->
  firstn n (state_bytes (KeccakP1600_Permute_12rounds
     (xor_byte (xor_byte (state G) (byteIOIndex G) 6) (K12_rateInBytes - 1) 128)))
  = sponge_bytes
      (c0 ++ (Byte.x03 :: repeat Byte.x00 7) ++ flat_map CV (lv ++ [last])
       ++ encbuf (Z.of_nat (length (lv ++ [last]))))
      6 n.
Proof.
  intros HF Hb HG.
  assert (Hok : node_ok F) by (rewrite HF; apply absorb_bytes_ok; exact zero_node_ok).
  rewrite (close_leaf_spec F last Hok) in HG.
  rewrite (Absorb_bytewise _ _ (absorb_bytes_ok F _ Hok)) in HG.
  symmetry. apply sponge_bytes_eq.
  rewrite HG, HF, Hb, <- !absorb_bytes_app.
  f_equal. rewrite flat_map_app. cbn [flat_map]. rewrite app_nil_r.
  rewrite <- !app_assoc. reflexivity.
Qed.

Lemma KangarooTwelve_tree_long input n :
  8192 <= Z.of_nat (length input) ->
  KangarooTwelve input n = K12_tree input n.
Proof.
  intros Hlong.
  unfold KangarooTwelve, K12_tree. cbv zeta.
  change K12_chunkSize with 8192.
  set (L := Z.of_nat (length input)) in *.
  assert (Hlen : (if 8192 <? L then 8192 else L) = 8192).
  { destruct (Z.ltb_spec 8192 L); lia. }
  rewrite Hlen. rewrite Z.eqb_refl. cbn [andb].
  rewrite (Absorb_bytewise zero_node _ zero_node_ok).
  assert (Hc0 : Z.of_nat (length (firstn B input)) = 8192).
  { rewrite length_firstn. unfold L in Hlong. lia. }
  rewrite (close_first_chunk_spec _ Hc0).
  (* the reference side *)
  assert (Hleb : (length (input ++ [Byte.x00]) <=? B)%nat = false).
  { apply Nat.leb_gt. rewrite length_app. cbn [length]. unfold L in Hlong. lia. }
  rewrite Hleb.
  rewrite firstn_app, skipn_app.
  replace (B - length input)%nat with 0%nat by (unfold L in Hlong; lia).
  rewrite firstn_O, skipn_O, app_nil_r.
  set (c0 := firstn B input) in *. set (rest := skipn B input) in *.
  rewrite (chunks_fuel (length (input ++ [Byte.x00])) (S (length rest))
             (rest ++ [Byte.x00])).
  2:{ unfold rest. rewrite !length_app, length_skipn. cbn [length]. lia. }
  2:{ rewrite length_app. cbn [length]. lia. }
  set (F1 := absorb_bytes zero_node (c0 ++ Byte.x03 :: repeat Byte.x00 7)).
  assert (Hok1 : node_ok F1) by (apply absorb_bytes_ok; exact zero_node_ok).
  destruct (chunk_loop_spec (length rest) F1 zero_node 1 rest Hok1 (Nat.le_refl _))
    as (F' & Q' & ql' & lv & t & E & Hch & HF' & Hql & Ht & HQ).
  rewrite Hch.
  assert (HF : F' = absorb_bytes zero_node
                      (c0 ++ (Byte.x03 :: repeat Byte.x00 7) ++ flat_map CV lv)).
  { rewrite HF'. unfold F1. rewrite <- absorb_bytes_app, <- app_assoc. reflexivity. }
  assert (Hok' : node_ok F') by (rewrite HF; apply absorb_bytes_ok; exact zero_node_ok).
  assert (Hbn : 1 + Z.of_nat (length lv) = Z.of_nat (length (lv ++ [t ++ [Byte.x00]]))).
  { rewrite length_app. cbn [length]. lia. }
  assert (Hlv : 1 + Z.of_nat (length lv) <> 0) by lia.
  destruct (Z.eqb_spec (L - 8192) 0) as [Hone | Hmore]; cbn [negb].
  - (* exactly one chunk: the only leaf is the zero byte *)
    assert (Hr : rest = []).
    { apply length_zero_iff_nil. unfold rest. rewrite length_skipn.
      unfold L in Hone. lia. }
    rewrite Hr in Hch. cbn [app length chunks] in Hch.
    rewrite (firstn_all2 (n := B) [Byte.x00]) in Hch by (cbn [length]; lia).
    apply (app_inj_tail [] lv) in Hch. destruct Hch as [<- Ht0].
    assert (t = []).
    { apply (f_equal (@length _)) in Ht0. rewrite length_app in Ht0.
      cbn [length] in Ht0. apply length_zero_iff_nil. lia. }
    subst t. cbn [app] in *.
    change (negb (1 =? 0)) with true. cbv beta iota.
    cbn [state byteIOIndex].
    apply (tree_end c0 [] [Byte.x00] F1 _ (1 + 1 - 1) n).
    + unfold F1. cbn [flat_map]. rewrite app_nil_r. reflexivity.
    + reflexivity.
    + rewrite zero_leaf. reflexivity.
  - (* more than one chunk *)
    rewrite E. cbv beta iota.
    destruct (Z.eqb_spec ql' 0) as [Hq0 | Hq1]; cbn [negb].
    + (* the rest is a whole number of chunks: the last leaf is the zero byte *)
      assert (t = []) by (apply length_zero_iff_nil; lia). subst t. cbn [app] in *.
      cbv beta iota.
      destruct (Z.eqb_spec (1 + Z.of_nat (length lv)) 0) as [? | _]; [lia |].
      change (negb (1 =? 0)) with true. cbn [negb]. cbv beta iota.
      cbn [state byteIOIndex].
      apply (tree_end c0 lv [Byte.x00] F' _ (1 + Z.of_nat (length lv) + 1 - 1) n HF).
      * rewrite <- Hbn. lia.
      * rewrite zero_leaf. reflexivity.
    + (* the queue node holds the last leaf without its zero byte *)
      assert (Htn : t <> []).
      { intros ->. cbn [length] in Hql. lia. }
      specialize (HQ Htn).
      assert (HokQ : node_ok Q')
        by (rewrite HQ; apply absorb_bytes_ok; exact zero_node_ok).
      rewrite (absorb_zero_byte Q' HokQ).
      assert (HQ2 : absorb_bytes Q' [Byte.x00] = absorb_bytes zero_node (t ++ [Byte.x00])).
      { rewrite HQ, <- absorb_bytes_app. reflexivity. }
      rewrite HQ2.
      destruct (Z.eqb_spec (ql' + 1) 8192) as [Hfull | Hpart].
      * destruct (close_leaf F' (absorb_bytes zero_node (t ++ [Byte.x00])))
          as [f0 qst] eqn:Ecl.
        cbv beta iota.
        destruct (Z.eqb_spec (1 + Z.of_nat (length lv) + 1) 0) as [? | _]; [lia |].
        change (negb (0 =? 0)) with false. cbn [negb]. cbv beta iota.
        cbn [state byteIOIndex].
        apply (tree_end c0 lv (t ++ [Byte.x00]) F' _
                 (1 + Z.of_nat (length lv) + 1 - 1) n HF).
        -- rewrite <- Hbn. lia.
        -- rewrite Ecl. reflexivity.
      * cbv beta iota.
        destruct (Z.eqb_spec (1 + Z.of_nat (length lv)) 0) as [? | _]; [lia |].
        destruct (Z.eqb_spec (ql' + 1) 0) as [? | _]; [lia |].
        cbn [negb]. cbv beta iota. cbn [state byteIOIndex].
        apply (tree_end c0 lv (t ++ [Byte.x00]) F' _
                 (1 + Z.of_nat (length lv) + 1 - 1) n HF).
        -- rewrite <- Hbn. lia.
        -- reflexivity.
Qed.

(** On an input shorter than one chunk, the byte position that the source
    skips after the input is a zero byte absorbed. *)
Lemma KangarooTwelve_short_sponge (input : list Byte.byte) (outputByteLen : nat) :
  Z.of_nat (length input) < K12_chunkSize ->
  KangarooTwelve input outputByteLen
  = sponge_bytes (input ++ [Byte.x00]) 0x07 outputByteLen.
Proof.
  intros Hlen. rewrite (K12Claims.KangarooTwelve_short input outputByteLen Hlen).
  unfold K12_single_node, sponge_bytes. cbv zeta.
  rewrite (Absorb_bytewise zero_node input zero_node_ok).
  rewrite absorb_bytes_app.
  pose proof (absorb_bytes_ok zero_node input zero_node_ok) as [Hl Hi].
  set (node := absorb_bytes zero_node input) in *. clearbody node.
  unfold absorb_bytes. cbn [fold_left]. unfold absorb_byte. cbv zeta.
  change (Z_of_byte Byte.x00) with 0. rewrite xor_byte_0.
  rewrite rate_value in *.
  rewrite (Z.mod_small (byteIOIndex node + 1) 256) by lia.
  destruct (byteIOIndex node + 1 =? 168); reflexivity.
Qed.

Lemma KangarooTwelve_tree_eq input n : KangarooTwelve input n = K12_tree input n.
Proof.
  destruct (Z.lt_ge_cases (Z.of_nat (length input)) 8192) as [Hshort | Hlong].
  - rewrite (KangarooTwelve_short_sponge input n Hshort).
    unfold K12_tree. cbv zeta.
    assert (Hleb : (length (input ++ [Byte.x00]) <=? Z.to_nat K12_chunkSize)%nat = true).
    { apply Nat.leb_le. rewrite length_app. cbn [length].
      change K12_chunkSize with 8192. lia. }
    rewrite Hleb. reflexivity.
  - apply KangarooTwelve_tree_long. exact Hlong.
Qed.

(** ** The output *)

Lemma length_bytes_of_words ws : length (bytes_of_words ws) = (8 * length ws)%nat.
Proof.
  unfold bytes_of_words. induction ws as [| w ws IH]; [reflexivity |].
  cbn [flat_map]. rewrite length_app, IH, length_le_bytes. cbn [length]. lia.
Qed.

Lemma sponge_bytes_prefix data suffix (n m : nat) :
  (n <= m)%nat ->
  sponge_bytes data suffix n = firstn n (sponge_bytes data suffix m).
Proof.
  intros H. unfold sponge_bytes. cbv zeta.
  rewrite firstn_firstn, Nat.min_l by exact H. reflexivity.
Qed.

Lemma sponge_bytes_length data suffix (n : nat) :
  length (sponge_bytes data suffix n) = Nat.min n 200.
Proof.
  unfold sponge_bytes, state_bytes. cbv zeta.
  rewrite length_firstn, length_bytes_of_words, Permute_length. reflexivity.
Qed.

Lemma KangarooTwelve_prefix input (n m : nat) :
  (n <= m)%nat ->
  KangarooTwelve input n = firstn n (KangarooTwelve input m) /\
  length (KangarooTwelve input n) = Nat.min n 200.
Proof.
  intros H. rewrite !KangarooTwelve_tree_eq. unfold K12_tree. cbv zeta.
  destruct (length (input ++ [Byte.x00]) <=? Z.to_nat K12_chunkSize)%nat.
  - split; [apply sponge_bytes_prefix; exact H | apply sponge_bytes_length].
  - split; [apply sponge_bytes_prefix; exact H | apply sponge_bytes_length].
Qed.

End SpongeFacts.


Module Sponge.
Import SpongeFacts.

(** [KangarooTwelve_F_Absorb] is the byte-wise absorption of a sponge: on
    a node with 25 lanes and an index inside the block, its three ways of
    XORing data (whole blocks on the lanes, whole lanes of a partial block,
    lane pieces from the middle of a lane) give the state and the index
    that XORing one byte at a time at [byteIOIndex], with a permutation
    each time the block is full, gives; the node returned has 25 lanes and
    an index inside the block again. *)
Theorem KangarooTwelve_F_Absorb_bytewise
  (instance : KangarooTwelve_F) (data : list Byte.byte) :
  node_ok instance ->
  KangarooTwelve_F_Absorb instance data = absorb_bytes instance data /\
  node_ok (KangarooTwelve_F_Absorb instance data).
Proof.
  intros Hok. rewrite (Absorb_bytewise instance data Hok).
  split; [reflexivity | apply absorb_bytes_ok; exact Hok].
Qed.

Lemma KangarooTwelve_F_Absorb_bytewise_witness :
  node_ok zero_node /\
  KangarooTwelve_F_Absorb zero_node [Byte.x01; Byte.x02]
  = absorb_bytes zero_node [Byte.x01; Byte.x02].
Proof.
  split; [exact zero_node_ok |].
  exact (proj1 (KangarooTwelve_F_Absorb_bytewise zero_node [Byte.x01; Byte.x02]
                  zero_node_ok)).
Defined.

(** Absorbing is incremental: two calls of [KangarooTwelve_F_Absorb] on
    [a] and then on [b] leave the node that one call on [a ++ b]
    leaves. *)
Theorem KangarooTwelve_F_Absorb_incremental
  (instance : KangarooTwelve_F) (a b : list Byte.byte) :
  node_ok instance ->
  KangarooTwelve_F_Absorb (KangarooTwelve_F_Absorb instance a) b
  = KangarooTwelve_F_Absorb instance (a ++ b).
Proof. exact (Absorb_app instance a b). Qed.

Lemma KangarooTwelve_F_Absorb_incremental_witness :
  node_ok zero_node /\
  KangarooTwelve_F_Absorb (KangarooTwelve_F_Absorb zero_node [Byte.x01]) [Byte.x02]
  = KangarooTwelve_F_Absorb zero_node ([Byte.x01] ++ [Byte.x02]).
Proof.
  split; [exact zero_node_ok |].
  exact (KangarooTwelve_F_Absorb_incremental zero_node [Byte.x01] [Byte.x02]
           zero_node_ok).
Defined.

(** [KangarooTwelve] is the tree of sponges of its reference notion
    [K12_tree], for every input: with S the input followed by one zero
    byte, one sponge with suffix 0x07 when S fits in one chunk of 8192
    bytes; otherwise the final node absorbs the first chunk, the bytes
    03 00 00 00 00 00 00 00, the 32-byte chaining values of the other
    chunks of S (sponges with suffix 0x0B), the encoding of their number
    followed by FF FF, and is closed with suffix 0x06. *)
Theorem KangarooTwelve_is_tree (input : list Byte.byte) (outputByteLen : nat) :
  KangarooTwelve input outputByteLen = K12_tree input outputByteLen.
Proof. exact (KangarooTwelve_tree_eq input outputByteLen). Qed.

(** The outputs of [KangarooTwelve] of different lengths are prefixes of
    one another: for n <= m <= 200, the size of the state that the output
    is copied from, the n bytes asked for are the first n of the m bytes,
    and exactly n bytes are returned. *)
Theorem KangarooTwelve_output_prefix (input : list Byte.byte) (n m : nat) :
  (n <= m)%nat -> (m <= 200)%nat ->
  KangarooTwelve input n = firstn n (KangarooTwelve input m) /\
  length (KangarooTwelve input n) = n.
Proof.
  intros Hn Hm. destruct (KangarooTwelve_prefix input n m Hn) as [E L].
  split; [exact E |]. rewrite L. apply Nat.min_l. lia.
Qed.

Lemma KangarooTwelve_output_prefix_witness :
  (32 <= 64)%nat /\ (64 <= 200)%nat /\
  KangarooTwelve zero32 32 = firstn 32 (KangarooTwelve zero32 64).
Proof.
  assert (H : (32 <= 64)%nat) by lia.
  assert (H' : (64 <= 200)%nat) by lia.
  split; [exact H |]. split; [exact H' |].
  exact (proj1 (KangarooTwelve_output_prefix zero32 32 64 H H')).
Defined.

End Sponge.

(** * The product of two four-word integers *)

Module MultiplyFacts.
Import WordFacts.

(** A product of two words, as its high and low words. *)
Lemma umul128_words x y :
  is_u64 x -> is_u64 y ->
  exists hi lo,
    _umul128 x y = (hi, lo) /\
    lo + 2 ^ 64 * hi = x * y /\
    0 <= lo < 2 ^ 64 /\ 0 <= hi /\
    lo + 2 ^ 64 * hi <= (2 ^ 64 - 1) * (2 ^ 64 - 1).
Proof.
  intros Hx Hy. pose proof (umul128_spec x y Hx Hy) as H.
  destruct (_umul128 x y) as [hi lo]. destruct H as (E & Hlo & Hhi).
  exists hi, lo. unfold is_u64 in *.
  assert (Hp : 0 <= x * y <= (2 ^ 64 - 1) * (2 ^ 64 - 1)) by nia.
  split; [reflexivity |]. split; [exact E |]. split; [exact Hlo |].
  split; lia.
Qed.

(** [_addcarry_u64] adds exactly unless the second operand is 2^64 - 1 and
    a carry comes in. *)
Lemma addcarry_words c x y :
  is_u64 x -> is_u64 y -> 0 <= c <= 1 -> y + c < 2 ^ 64 ->
  exists cy s,
    _addcarry_u64 c x y = (cy, s) /\
    s + 2 ^ 64 * cy = x + y + c /\ 0 <= s < 2 ^ 64 /\ 0 <= cy <= 1.
Proof.
  intros Hx Hy Hc Hs. pose proof (addcarry_spec c x y Hx Hy Hc Hs) as H.
  destruct (_addcarry_u64 c x y) as [cy s]. destruct H as (E & Hr & Hcy).
  exists cy, s. unfold is_u64 in Hr. auto.
Qed.

Ltac word_range := unfold is_u64; lia.

Ltac mul_products :=
  repeat lazymatch goal with
  | |- context [_umul128 ?x ?y] =>
    let hi := fresh "hi" in
    let lo := fresh "lo" in
    let E := fresh "E" in
    destruct (umul128_words x y ltac:(word_range) ltac:(word_range))
      as (hi & lo & E & ? & ? & ? & ?);
    rewrite !E; clear E
  end.

(** One step through the chain of additions of [multiply]. *)
Ltac mul_step :=
  cbv beta iota;
  first
    [ match goal with
      | |- context [u64 ?e] => rewrite (u64_small e) by word_range
      end
    | match goal with
      | |- context [_addcarry_u64 ?c ?x ?y] =>
        let cy := fresh "cy" in
        let s := fresh "s" in
        let E := fresh "E" in
        destruct (addcarry_words c x y ltac:(word_range) ltac:(word_range)
                    ltac:(lia) ltac:(lia))
          as (cy & s & E & ? & ? & ?);
        rewrite !E; clear E
      end ].

Lemma multiply_value a0 a1 a2 a3 b0 b1 b2 b3 :
  is_u64 a0 -> is_u64 a1 -> is_u64 a2 -> is_u64 a3 ->
  is_u64 b0 -> is_u64 b1 -> is_u64 b2 -> is_u64 b3 ->
  words_val (multiply [a0; a1; a2; a3] [b0; b1; b2; b3])
  = words_val [a0; a1; a2; a3] * words_val [b0; b1; b2; b3] /\
  Forall is_u64 (multiply [a0; a1; a2; a3] [b0; b1; b2; b3]).
Proof.
  intros A0 A1 A2 A3 B0 B1 B2 B3.
  unfold multiply, sw. cbn [nth]. cbv zeta.
  unfold is_u64 in *.
  mul_products.
  repeat mul_step.
  cbv beta iota.
  assert (Hv : words_val [a0; a1; a2; a3] * words_val [b0; b1; b2; b3]
               = a0 * b0 + 2 ^ 64 * (a0 * b1 + a1 * b0)
                 + 2 ^ 128 * (a0 * b2 + a1 * b1 + a2 * b0)
                 + 2 ^ 192 * (a0 * b3 + a1 * b2 + a2 * b1 + a3 * b0)
                 + 2 ^ 256 * (a1 * b3 + a2 * b2 + a3 * b1)
                 + 2 ^ 320 * (a2 * b3 + a3 * b2)
                 + 2 ^ 384 * (a3 * b3)).
  { cbn [words_val]. ring. }
  rewrite Hv. clear Hv.
  repeat match goal with
         | H : _ = ?x * ?y |- _ => rewrite <- H in *; clear H
         end.
  cbn [words_val].
  split; [lia |].
  repeat (constructor; [lia |]). constructor.
Qed.

(** At the wrap of [src2 + b_in] the carry, or the borrow, is lost. *)
Lemma carry_lost a :
  is_u64 a ->
  _addcarry_u64 1 a 0xFFFFFFFFFFFFFFFF = (0, a) /\
  _subborrow_u64 1 a 0xFFFFFFFFFFFFFFFF = (0, a).
Proof.
  intros Ha. unfold _addcarry_u64, _subborrow_u64, UINT64_MAX.
  change (u64 (0xFFFFFFFFFFFFFFFF + (if 1 =? 0 then 0 else 1))) with 0.
  rewrite Z.add_0_r, Z.sub_0_r, (u64_small a Ha).
  unfold is_u64 in Ha.
  destruct (Z.ltb_spec (0xFFFFFFFFFFFFFFFF - a) 0) as [? | _]; [lia |].
  destruct (Z.ltb_spec a 0) as [? | _]; [lia |].
  split; reflexivity.
Qed.

End MultiplyFacts.

Module ScalarProduct.
Import WordFacts MultiplyFacts.

(** [_addcarry_u64] and [_subborrow_u64], as the source defines them, are a
    full adder and a full subtractor on 64-bit words as long as
    [src2 + b_in] does not wrap; when [src2] is 2^64 - 1 and a carry or
    borrow comes in, they return [src1] with no carry and no borrow, where
    the exact result has the same word with a carry or borrow of 1. *)
Theorem carry_primitives (b_in a b : Z) :
  is_u64 a -> is_u64 b -> 0 <= b_in <= 1 ->
  (b + b_in < 2 ^ 64 ->
   (let '(c, s) := _addcarry_u64 b_in a b in
    s + 2 ^ 64 * c = a + b + b_in /\ is_u64 s /\ 0 <= c <= 1) /\
   (let '(c, s) := _subborrow_u64 b_in a b in
    s - 2 ^ 64 * c = a - b - b_in /\ is_u64 s /\ 0 <= c <= 1)) /\
  (b + b_in = 2 ^ 64 ->
   _addcarry_u64 b_in a b = (0, a) /\ _subborrow_u64 b_in a b = (0, a)).
Proof.
  intros Ha Hb Hc. split.
  - intros Hs. split.
    + exact (addcarry_spec b_in a b Ha Hb Hc Hs).
    + exact (subborrow_spec b_in a b Ha Hb Hc Hs).
  - intros Hw. unfold is_u64 in Hb.
    assert (b_in = 1) by lia. assert (b = 0xFFFFFFFFFFFFFFFF) by lia.
    subst b_in b. exact (carry_lost a Ha).
Qed.

Lemma carry_primitives_witness :
  is_u64 5 /\ is_u64 0xFFFFFFFFFFFFFFFF /\ 0 <= 1 <= 1 /\
  _addcarry_u64 1 5 0xFFFFFFFFFFFFFFFF = (0, 5).
Proof.
  assert (H5 : is_u64 5) by (unfold is_u64; lia).
  assert (HM : is_u64 0xFFFFFFFFFFFFFFFF) by (unfold is_u64; lia).
  assert (Hc : 0 <= 1 <= 1) by lia.
  split; [exact H5 |]. split; [exact HM |]. split; [exact Hc |].
  exact (proj1 (proj2 (carry_primitives 1 5 0xFFFFFFFFFFFFFFFF H5 HM Hc) eq_refl)).
Defined.

(** [multiply] returns the eight 64-bit words of the exact product of two
    four-word integers: no carry of its chains of [_addcarry_u64] is ever
    lost, whatever the operands. *)
Theorem multiply_exact (a0 a1 a2 a3 b0 b1 b2 b3 : Z) :
  is_u64 a0 -> is_u64 a1 -> is_u64 a2 -> is_u64 a3 ->
  is_u64 b0 -> is_u64 b1 -> is_u64 b2 -> is_u64 b3 ->
  words_val (multiply [a0; a1; a2; a3] [b0; b1; b2; b3])
  = words_val [a0; a1; a2; a3] * words_val [b0; b1; b2; b3] /\
  Forall is_u64 (multiply [a0; a1; a2; a3] [b0; b1; b2; b3]).
Proof. exact (multiply_value a0 a1 a2 a3 b0 b1 b2 b3). Qed.

Lemma multiply_exact_witness :
  is_u64 UINT64_MAX /\
  words_val (multiply [UINT64_MAX; UINT64_MAX; UINT64_MAX; UINT64_MAX]
                      [UINT64_MAX; UINT64_MAX; UINT64_MAX; UINT64_MAX])
  = words_val [UINT64_MAX; UINT64_MAX; UINT64_MAX; UINT64_MAX]
    * words_val [UINT64_MAX; UINT64_MAX; UINT64_MAX; UINT64_MAX].
Proof.
  assert (H : is_u64 UINT64_MAX) by (unfold is_u64, UINT64_MAX; lia).
  split; [exact H |].
  exact (proj1 (multiply_exact UINT64_MAX UINT64_MAX UINT64_MAX UINT64_MAX
                  UINT64_MAX UINT64_MAX UINT64_MAX UINT64_MAX H H H H H H H H)).
Defined.

End ScalarProduct.

(** * How the point operations compose *)

Module ComposeFacts.
Import Stdlib.Zmod.ZmodDef Stdlib.Zmod.ZmodBase Stdlib.Zmod.ZmodInv.
Import Stdlib.nsatz.NsatzTactic.
Import FieldFacts Primality FpFacts DecodeFacts Fp2Facts AffineFacts TableFacts.
Import GFp2.

Local Notation frep a v := (f2_ok a /\ of_f2elm a = v).

(** Canonical words are determined by the element of GF(p^2). *)
Lemma f2_canon_inj (a b : f2elm_t) :
  fcanon (fst a) -> fcanon (snd a) -> fcanon (fst b) -> fcanon (snd b) ->
  of_f2elm a = of_f2elm b -> a = b.
Proof.
  destruct a as [a0 a1], b as [b0 b1]. cbn [fst snd].
  intros A0 A1 B0 B1 E. unfold of_f2elm in E. cbn [fst snd] in E.
  pose proof (f_equal fst E) as E0. pose proof (f_equal snd E) as E1.
  cbn [fst snd] in E0, E1.
  rewrite (fe_inj_canon a0 b0 A0 B0 E0), (fe_inj_canon a1 b1 A1 B1 E1).
  reflexivity.
Qed.

Lemma eccnorm_setup (P : point_t) :
  point_canon P -> eccnorm (point_setup P) = P.
Proof.
  intros (Cx0 & Cx1 & Cy0 & Cy1).
  assert (HX : f2_ok (a_x P)) by (split; apply fcanon_fe127; assumption).
  assert (HY : f2_ok (a_y P)) by (split; apply fcanon_fe127; assumption).
  destruct (point_setup_ok P HX HY) as (O1 & O2 & O3 & _).
  destruct (eccnorm_sound (point_setup P) O1 O2 O3) as ((Nx0 & Nx1 & Ny0 & Ny1) & Hnz & _).
  assert (Hz : of_f2elm (e_z (point_setup P)) = GFp2.one) by exact (proj2 frep_one).
  destruct Hnz as (Ex & Ey & _).
  { rewrite Hz. intros H. pose proof (f_equal fst H) as H0.
    cbn [fst GFp2.one GFp2.zero] in H0. exact (F_one_nz H0). }
  rewrite Hz in Ex, Ey. rewrite Fp2_mul_1_r in Ex, Ey.
  cbn [point_setup e_x e_y] in Ex, Ey.
  destruct (eccnorm (point_setup P)) as [nx ny]. destruct P as [px py].
  cbn [a_x a_y] in *.
  rewrite (f2_canon_inj nx px Nx0 Nx1 Cx0 Cx1 Ex).
  rewrite (f2_canon_inj ny py Ny0 Ny1 Cy0 Cy1 Ey).
  reflexivity.
Qed.

(** [eccadd] on a second operand given in the form (X+Y, Y-X, 2Z, 2dT). *)
Lemma eccadd_any_rep (Q : point_extproj_precomp_t) P QXY QYX QZ2 QT2
      X1 Y1 Z1 Ta1 Tb1 :
  frep (ep_xy Q) QXY -> frep (ep_yx Q) QYX ->
  frep (ep_z2 Q) QZ2 -> frep (ep_t2 Q) QT2 ->
  frep (e_x P) X1 -> frep (e_y P) Y1 -> frep (e_z P) Z1 ->
  frep (e_ta P) Ta1 -> frep (e_tb P) Tb1 ->
  exists X3 Y3 Z3 Ta3 Tb3,
    frep (e_x (eccadd Q P)) X3 /\ frep (e_y (eccadd Q P)) Y3 /\
    frep (e_z (eccadd Q P)) Z3 /\
    frep (e_ta (eccadd Q P)) Ta3 /\ frep (e_tb (eccadd Q P)) Tb3 /\
    (let C := GFp2.mul QT2 (GFp2.mul Ta1 Tb1) in
     let D := GFp2.mul QZ2 Z1 in
     let B := GFp2.mul QXY (GFp2.add X1 Y1) in
     let A := GFp2.mul QYX (GFp2.sub Y1 X1) in
     Tb3 = GFp2.sub B A /\ Ta3 = GFp2.add B A /\
     X3 = GFp2.mul Tb3 (GFp2.sub D C) /\
     Z3 = GFp2.mul (GFp2.add D C) (GFp2.sub D C) /\
     Y3 = GFp2.mul Ta3 (GFp2.add D C)).
Proof.
  intros HQ1 HQ2 HQ3 HQ4 HX1 HY1 HZ1 HTa1 HTb1.
  unfold eccadd, eccadd_core, R1_to_R3. cbv zeta.
  cbn [e_x e_y e_z e_ta e_tb ep_xy ep_yx ep_z2 ep_t2].
  do 5 eexists.
  split; [frep_solve |]. split; [frep_solve |]. split; [frep_solve |].
  split; [frep_solve |]. split; [frep_solve |].
  cbv zeta. repeat split; reflexivity.
Qed.

Lemma eccdouble_eccadd (P : point_extproj_t) :
  extproj_ok P -> on_curve_ext P ->
  let D := eccdouble P in
  let A := eccadd (R1_to_R2 P) P in
  mul (of_f2elm (e_x D)) (of_f2elm (e_z A))
  = mul (of_f2elm (e_x A)) (of_f2elm (e_z D)) /\
  mul (of_f2elm (e_y D)) (of_f2elm (e_z A))
  = mul (of_f2elm (e_y A)) (of_f2elm (e_z D)).
Proof.
  intros (P1 & P2 & P3 & P4 & P5) HP. cbv zeta.
  destruct (eccdouble_rep P _ _ _ (frep_self _ P1) (frep_self _ P2) (frep_self _ P3))
    as (Xd & Yd & Zd & Tad & Tbd & D1 & D2 & D3 & _ & _ & Ed1 & Ed2 & Ed3 & Ed4 & Ed5).
  destruct (eccadd_rep P P _ _ _ _ _ _ _ _ _ _
              (frep_self _ P1) (frep_self _ P2) (frep_self _ P3)
              (frep_self _ P4) (frep_self _ P5)
              (frep_self _ P1) (frep_self _ P2) (frep_self _ P3)
              (frep_self _ P4) (frep_self _ P5))
    as (Xa & Ya & Za & Taa & Tba & A1 & A2 & A3 & _ & _ & Ea).
  rewrite (proj2 D1), (proj2 D2), (proj2 D3), (proj2 A1), (proj2 A2), (proj2 A3).
  unfold on_curve_ext in HP. cbv zeta in HP, Ea.
  destruct HP as [HP1 HP2].
  clear D1 D2 D3 A1 A2 A3 P1 P2 P3 P4 P5.
  set (X := of_f2elm (e_x P)) in *. set (Y := of_f2elm (e_y P)) in *.
  set (Z := of_f2elm (e_z P)) in *.
  set (Ta := of_f2elm (e_ta P)) in *. set (Tb := of_f2elm (e_tb P)) in *.
  clearbody X Y Z Ta Tb.
  destruct Ea as (Ea1 & Ea2 & Ea3 & Ea4 & Ea5).
  subst Xd Zd Yd Tad Tbd Xa Za Ya Taa Tba.
  split; nsatz.
Qed.

Lemma eccmadd_eccadd (Q : point_precomp_t) (P : point_extproj_t) :
  precomp_ok Q -> extproj_ok P ->
  let M := eccmadd Q P in
  let A := eccadd (mk_extproj_precomp (p_xy Q) (p_yx Q)
                     (fp2add1271 f2_one f2_one) (p_t2 Q)) P in
  of_f2elm (e_x M) = of_f2elm (e_x A) /\
  of_f2elm (e_y M) = of_f2elm (e_y A) /\
  of_f2elm (e_z M) = of_f2elm (e_z A) /\
  of_f2elm (e_ta M) = of_f2elm (e_ta A) /\
  of_f2elm (e_tb M) = of_f2elm (e_tb A).
Proof.
  intros (Q1 & Q2 & Q3) (P1 & P2 & P3 & P4 & P5). cbv zeta.
  destruct (eccmadd_rep Q P _ _ _ _ _ _ _ _
              (frep_self _ Q1) (frep_self _ Q2) (frep_self _ Q3)
              (frep_self _ P1) (frep_self _ P2) (frep_self _ P3)
              (frep_self _ P4) (frep_self _ P5))
    as (Xm & Ym & Zm & Tam & Tbm & M1 & M2 & M3 & M4 & M5 & Em).
  pose proof (frep_add _ _ _ _ frep_one frep_one) as Htwo.
  destruct (eccadd_any_rep
              (mk_extproj_precomp (p_xy Q) (p_yx Q) (fp2add1271 f2_one f2_one) (p_t2 Q))
              P _ _ _ _ _ _ _ _ _
              (frep_self _ Q1) (frep_self _ Q2) Htwo (frep_self _ Q3)
              (frep_self _ P1) (frep_self _ P2) (frep_self _ P3)
              (frep_self _ P4) (frep_self _ P5))
    as (Xa & Ya & Za & Taa & Tba & A1 & A2 & A3 & A4 & A5 & Ea).
  rewrite (proj2 M1), (proj2 M2), (proj2 M3), (proj2 M4), (proj2 M5).
  rewrite (proj2 A1), (proj2 A2), (proj2 A3), (proj2 A4), (proj2 A5).
  cbv zeta in Em, Ea. cbn [ep_xy ep_yx ep_z2 ep_t2] in Ea.
  destruct Em as (Em1 & Em2 & Em3 & Em4 & Em5).
  destruct Ea as (Ea1 & Ea2 & Ea3 & Ea4 & Ea5).
  subst Xm Zm Ym Tam Tbm Xa Za Ya Taa Tba.
  repeat split; ring.
Qed.

(** The table of [ecc_precomp_double] holds points of the curve. *)
Lemma ecc_precomp_double_keeps (P : point_extproj_t) :
  extproj_ok P /\ on_curve_ext P ->
  Forall (fun T => exists R, (extproj_ok R /\ on_curve_ext R) /\ T = R1_to_R2 R)
         (ecc_precomp_double P).
Proof.
  intros HP. unfold ecc_precomp_double. cbv zeta.
  pose proof (eccdouble_keeps P HP) as H2.
  fold (eccadd (R1_to_R2 P) (eccdouble P)).
  pose proof (eccadd_keeps (eccdouble P) P HP H2) as H3.
  set (Q1 := eccadd (R1_to_R2 P) (eccdouble P)) in *.
  fold (eccadd (R1_to_R2 Q1) (eccdouble P)).
  pose proof (eccadd_keeps (eccdouble P) Q1 H3 H2) as H5.
  set (Q2 := eccadd (R1_to_R2 Q1) (eccdouble P)) in *.
  fold (eccadd (R1_to_R2 Q2) (eccdouble P)).
  pose proof (eccadd_keeps (eccdouble P) Q2 H5 H2) as H7.
  set (Q3 := eccadd (R1_to_R2 Q2) (eccdouble P)) in *.
  constructor; [exists P; split; [exact HP | reflexivity] |].
  constructor; [exists Q1; split; [exact H3 | reflexivity] |].
  constructor; [exists Q2; split; [exact H5 | reflexivity] |].
  constructor; [exists Q3; split; [exact H7 | reflexivity] |].
  constructor.
Qed.

End ComposeFacts.

Module Compose.
Import Stdlib.Zmod.ZmodDef.
Import FieldFacts Fp2Facts AffineFacts TableFacts ComposeFacts.
Import GFp2.

(** [eccnorm] undoes [point_setup]: on a point with canonical coordinates
    the round trip through extended coordinates returns the point. *)
Theorem eccnorm_point_setup (P : point_t) :
  point_canon P -> eccnorm (point_setup P) = P.
Proof. exact (eccnorm_setup P). Qed.

Lemma eccnorm_point_setup_witness :
  point_canon point_pk_zero /\ eccnorm (point_setup point_pk_zero) = point_pk_zero.
Proof.
  pose proof PointChecks.point_pk_zero_canon as Hc.
  split; [exact Hc |]. exact (eccnorm_point_setup point_pk_zero Hc).
Defined.

(** Doubling agrees with adding a point to itself: for a point of the curve
    in extended coordinates with 127-bit components, [eccdouble] and
    [eccadd] of the point with itself return the same projective point
    (X : Y : Z). *)
Theorem eccdouble_agrees_with_eccadd (P : point_extproj_t) :
  extproj_ok P -> on_curve_ext P ->
  let D := eccdouble P in
  let A := eccadd (R1_to_R2 P) P in
  mul (of_f2elm (e_x D)) (of_f2elm (e_z A))
  = mul (of_f2elm (e_x A)) (of_f2elm (e_z D)) /\
  mul (of_f2elm (e_y D)) (of_f2elm (e_z A))
  = mul (of_f2elm (e_y A)) (of_f2elm (e_z D)).
Proof. exact (eccdouble_eccadd P). Qed.

Lemma eccdouble_agrees_with_eccadd_witness :
  extproj_ok (point_setup point_pk_zero) /\
  on_curve_ext (point_setup point_pk_zero) /\
  mul (of_f2elm (e_x (eccdouble (point_setup point_pk_zero))))
      (of_f2elm (e_z (eccadd (R1_to_R2 (point_setup point_pk_zero))
                             (point_setup point_pk_zero))))
  = mul (of_f2elm (e_x (eccadd (R1_to_R2 (point_setup point_pk_zero))
                               (point_setup point_pk_zero))))
        (of_f2elm (e_z (eccdouble (point_setup point_pk_zero)))).
Proof.
  destruct point_pk_zero_setup as [Hok Hc].
  split; [exact Hok |]. split; [exact Hc |].
  exact (proj1 (eccdouble_agrees_with_eccadd (point_setup point_pk_zero) Hok Hc)).
Defined.

(** Mixed addition is addition with Z2 = 1: on 127-bit components,
    [eccmadd] of a precomputed point (xy, yx, t2) returns, coordinate by
    coordinate, the elements of GF(p^2) that [eccadd] returns on
    (xy, yx, 2, t2). *)
Theorem eccmadd_agrees_with_eccadd (Q : point_precomp_t) (P : point_extproj_t) :
  precomp_ok Q -> extproj_ok P ->
  let M := eccmadd Q P in
  let A := eccadd (mk_extproj_precomp (p_xy Q) (p_yx Q)
                     (fp2add1271 f2_one f2_one) (p_t2 Q)) P in
  of_f2elm (e_x M) = of_f2elm (e_x A) /\
  of_f2elm (e_y M) = of_f2elm (e_y A) /\
  of_f2elm (e_z M) = of_f2elm (e_z A) /\
  of_f2elm (e_ta M) = of_f2elm (e_ta A) /\
  of_f2elm (e_tb M) = of_f2elm (e_tb A).
Proof. exact (eccmadd_eccadd Q P). Qed.

Lemma eccmadd_agrees_with_eccadd_witness :
  precomp_ok (table_point FIXED_BASE_TABLE 0) /\
  extproj_ok (point_setup point_pk_zero) /\
  of_f2elm (e_x (eccmadd (table_point FIXED_BASE_TABLE 0) (point_setup point_pk_zero)))
  = of_f2elm (e_x (eccadd (mk_extproj_precomp
                             (p_xy (table_point FIXED_BASE_TABLE 0))
                             (p_yx (table_point FIXED_BASE_TABLE 0))
                             (fp2add1271 f2_one f2_one)
                             (p_t2 (table_point FIXED_BASE_TABLE 0)))
                          (point_setup point_pk_zero))).
Proof.
  destruct point_pk_zero_setup as [Hok _].
  destruct (table_check_sound _ _ 0%nat fixed_base_table_check ltac:(lia))
    as [HQ _].
  split; [exact HQ |]. split; [exact Hok |].
  exact (proj1 (eccmadd_agrees_with_eccadd (table_point FIXED_BASE_TABLE 0)
                  (point_setup point_pk_zero) HQ Hok)).
Defined.

(** [ecc_precomp_double] builds its table inside the curve: from a point of
    the curve in extended coordinates with 127-bit components, each of the
    four entries is the form (X+Y, Y-X, 2Z, 2dT), by [R1_to_R2], of a point
    of the curve in extended coordinates with 127-bit components. *)
Theorem ecc_precomp_double_on_curve (P : point_extproj_t) :
  extproj_ok P -> on_curve_ext P ->
  length (ecc_precomp_double P) = 4%nat /\
  Forall (fun T => exists R, (extproj_ok R /\ on_curve_ext R) /\ T = R1_to_R2 R)
         (ecc_precomp_double P).
Proof.
  intros Hok Hc. split; [reflexivity |].
  exact (ecc_precomp_double_keeps P (conj Hok Hc)).
Qed.

Lemma ecc_precomp_double_on_curve_witness :
  extproj_ok (point_setup point_pk_zero) /\
  on_curve_ext (point_setup point_pk_zero) /\
  length (ecc_precomp_double (point_setup point_pk_zero)) = 4%nat.
Proof.
  destruct point_pk_zero_setup as [Hok Hc].
  split; [exact Hok |]. split; [exact Hc |].
  exact (proj1 (ecc_precomp_double_on_curve (point_setup point_pk_zero) Hok Hc)).
Defined.

End Compose.

(** * Montgomery multiplication modulo the group order *)

Module MontgomeryFacts.
Import WordFacts ByteFacts MultiplyFacts.

(** The sum word of [_addcarry_u64] is exact modulo 2^64 in every case. *)
Lemma addcarry_sum c x y :
  is_u64 x -> is_u64 y -> 0 <= c <= 1 ->
  exists cy s q,
    _addcarry_u64 c x y = (cy, s) /\
    s + 2 ^ 64 * q = x + y + c /\ 0 <= s < 2 ^ 64 /\ 0 <= q <= 1.
Proof.
  intros Hx Hy Hc. unfold is_u64 in *.
  destruct (Z_lt_ge_dec (y + c) (2 ^ 64)) as [Hs | Hs].
  - destruct (addcarry_words c x y Hx Hy Hc Hs) as (cy & s & E & H1 & H2 & H3).
    exists cy, s, cy. auto.
  - assert (c = 1) by lia. assert (y = 0xFFFFFFFFFFFFFFFF) by lia. subst c y.
    destruct (carry_lost x Hx) as [E _]. exists 0, x, 1. rewrite E.
    split; [reflexivity |]. lia.
Qed.

(** A truncated product, with the quotient that the truncation drops. *)
Lemma u64_quot z :
  0 <= z -> exists q, u64 z + 2 ^ 64 * q = z /\ 0 <= u64 z < 2 ^ 64 /\ 0 <= q.
Proof.
  intros Hz. rewrite u64_mod. exists (z / 2 ^ 64).
  pose proof (Z.div_mod z (2 ^ 64) ltac:(lia)).
  pose proof (Z.mod_pos_bound z (2 ^ 64) ltac:(lia)).
  pose proof (Z.div_pos z (2 ^ 64) Hz ltac:(lia)). lia.
Qed.

(** ** Sequences of words *)

Lemma words_val_range ws :
  Forall is_u64 ws -> 0 <= words_val ws < 2 ^ (64 * Z.of_nat (length ws)).
Proof.
  induction 1 as [| w ws Hw _ IH]; cbn [words_val length].
  - change (2 ^ (64 * Z.of_nat 0)) with 1. lia.
  - replace (64 * Z.of_nat (S (length ws))) with (64 + 64 * Z.of_nat (length ws)) by lia.
    rewrite Z.pow_add_r by lia. unfold is_u64 in Hw. nia.
Qed.

(** A chain of [_addcarry_u64] that keeps its carries adds exactly. *)
Lemma addcarry_chain_exact a : forall b c,
  length a = length b -> Forall is_u64 a -> Forall is_u64 b -> 0 <= c <= 1 ->
  carries_kept c a b = true ->
  exists c' s,
    addcarry_chain c a b = (c', s) /\
    words_val s + 2 ^ (64 * Z.of_nat (length a)) * c'
    = words_val a + words_val b + c /\
    Forall is_u64 s /\ length s = length a /\ 0 <= c' <= 1.
Proof.
  induction a as [| x a IH]; intros [| y b] c Hl Ha Hb Hc Hk;
    try discriminate Hl.
  - exists c, []. cbn [addcarry_chain words_val length].
    change (2 ^ (64 * Z.of_nat 0)) with 1.
    split; [reflexivity |]. split; [lia |]. split; [constructor |].
    split; [reflexivity | exact Hc].
  - inversion Ha as [| ? ? Hx Ha']. inversion Hb as [| ? ? Hy Hb']. subst.
    cbn [carries_kept] in Hk. apply andb_true_iff in Hk. destruct Hk as [Hs Hk].
    apply Z.ltb_lt in Hs.
    assert (Hbin : (if c =? 0 then 0 else 1) = c)
      by (destruct (Z.eqb_spec c 0); lia).
    rewrite Hbin in Hs.
    destruct (addcarry_words c x y Hx Hy Hc Hs) as (cy & s & E & Hv & Hr & Hcy).
    rewrite E in Hk. cbn [fst] in Hk.
    injection Hl as Hl.
    destruct (IH b cy Hl Ha' Hb' Hcy Hk) as (c' & r & E' & Hv' & Hr' & Hl' & Hc').
    exists c', (s :: r). cbn [addcarry_chain]. rewrite E, E'.
    split; [reflexivity |]. cbn [words_val length].
    replace (64 * Z.of_nat (S (length a))) with (64 + 64 * Z.of_nat (length a)) by lia.
    rewrite Z.pow_add_r by lia.
    split; [nia |]. split; [constructor; [exact Hr | exact Hr'] |].
    split; [rewrite Hl'; reflexivity | exact Hc'].
Qed.

(** No word of the second operand is 2^64 - 1: no carry can be lost. *)
Lemma carries_kept_below a : forall b c,
  Forall (fun y => 0 <= y < 2 ^ 64 - 1) b -> carries_kept c a b = true.
Proof.
  induction a as [| x a IH]; intros [| y b] c Hb; try reflexivity.
  inversion Hb as [| ? ? Hy Hb']. subst. cbn [carries_kept].
  apply andb_true_iff. split.
  - apply Z.ltb_lt. destruct (c =? 0); lia.
  - apply IH. exact Hb'.
Qed.

(** A chain of [_subborrow_u64] whose second operand has no word 2^64 - 1
    subtracts exactly. *)
Lemma subborrow_chain_exact a : forall b c,
  length a = length b -> Forall is_u64 a ->
  Forall (fun y => 0 <= y < 2 ^ 64 - 1) b -> 0 <= c <= 1 ->
  exists c' s,
    subborrow_chain c a b = (c', s) /\
    words_val s - 2 ^ (64 * Z.of_nat (length a)) * c'
    = words_val a - words_val b - c /\
    Forall is_u64 s /\ length s = length a /\ 0 <= c' <= 1.
Proof.
  induction a as [| x a IH]; intros [| y b] c Hl Ha Hb Hc;
    try discriminate Hl.
  - exists c, []. cbn [subborrow_chain words_val length].
    change (2 ^ (64 * Z.of_nat 0)) with 1.
    split; [reflexivity |]. split; [lia |]. split; [constructor |].
    split; [reflexivity | exact Hc].
  - inversion Ha as [| ? ? Hx Ha']. inversion Hb as [| ? ? Hy Hb']. subst.
    assert (Hy' : is_u64 y) by (unfold is_u64; lia).
    pose proof (subborrow_spec c x y Hx Hy' Hc ltac:(lia)) as H.
    destruct (_subborrow_u64 c x y) as [cy s] eqn:E.
    destruct H as (Hv & Hr & Hcy).
    injection Hl as Hl.
    destruct (IH b cy Hl Ha' Hb' Hcy) as (c' & r & E' & Hv' & Hr' & Hl' & Hc').
    exists c', (s :: r). cbn [subborrow_chain]. rewrite E, E'.
    split; [reflexivity |]. cbn [words_val length].
    replace (64 * Z.of_nat (S (length a))) with (64 + 64 * Z.of_nat (length a)) by lia.
    rewrite Z.pow_add_r by lia.
    split; [nia |]. split; [constructor; [exact Hr | exact Hr'] |].
    split; [rewrite Hl'; reflexivity | exact Hc'].
Qed.

Lemma curve_order_words : Forall (fun y => 0 <= y < 2 ^ 64 - 1) curve_order.
Proof.
  unfold curve_order, CURVE_ORDER_0, CURVE_ORDER_1, CURVE_ORDER_2, CURVE_ORDER_3.
  repeat (constructor; [lia |]). constructor.
Qed.

(** ** The operands of the eight-word addition *)

Ltac split_pairs :=
  repeat match goal with
         | |- context [match ?e with pair _ _ => _ end] => destruct e
         end.

(** [Montgomery_multiply_mod_order] adds the two operands of
    [Montgomery_sum_operands], subtracts the order from the high half and
    adds it back when the two final bits differ. *)
Lemma Montgomery_split ma mb :
  Montgomery_multiply_mod_order ma mb =
  let '(P, temp) := Montgomery_sum_operands ma mb in
  let '(c, temp) := addcarry_chain 0 P temp in
  let '(b, mc) := subborrow_chain 0 (skipn 4 temp) curve_order in
  if negb (c - b =? 0) then snd (addcarry_chain 0 mc curve_order) else mc.
Proof.
  unfold Montgomery_multiply_mod_order, Montgomery_sum_operands. cbv zeta.
  match goal with
  | |- context [sw ?P 0] => let P' := fresh "P" in generalize P; intros P'
  end.
  split_pairs. reflexivity.
Qed.

Lemma multiply_words a b :
  exists c0 c1 c2 c3 c4 c5 c6 c7,
    multiply a b = [c0; c1; c2; c3; c4; c5; c6; c7].
Proof.
  unfold multiply. cbv zeta. split_pairs.
  do 8 eexists. reflexivity.
Qed.

Lemma multiply_sw a b :
  multiply a b = multiply (low4 a) (low4 b).
Proof. reflexivity. Qed.


Lemma rprime_order :
  exists M, rprime_value * order_value = 2 ^ 256 * M - 1.
Proof.
  exists ((rprime_value * order_value + 1) / 2 ^ 256).
  vm_compute. reflexivity.
Qed.

(** Adding [Q * order] clears the low half of [P] when [Q] is
    [P * r'] modulo 2^256. *)
Lemma low_half_cleared Pl Ph Qv K :
  Qv + 2 ^ 256 * K = Pl * rprime_value ->
  (Pl + 2 ^ 256 * Ph + Qv * order_value) mod 2 ^ 256 = 0.
Proof.
  intros HQ. destruct rprime_order as [M HM].
  generalize dependent rprime_value. generalize order_value.
  intros o r HQ HM.
  replace (Pl + 2 ^ 256 * Ph + Qv * o)
    with ((Ph + Pl * M - K * o) * 2 ^ 256).
  - apply Z.mod_mul. lia.
  - replace Qv with (Pl * r - 2 ^ 256 * K) by lia.
    replace ((Pl * r - 2 ^ 256 * K) * o)
      with (Pl * (r * o) - 2 ^ 256 * K * o) by ring.
    rewrite HM. ring.
Qed.

(** One step through the computation of [Q]: an exact addition where the
    carry is used, the sum word alone where it is dropped. *)
Ltac q_step :=
  cbv beta iota;
  first
    [ match goal with
      | |- context [u64 (?a * ?b)] =>
        let q := fresh "q" in
        let w := fresh "w" in
        let E := fresh "E" in
        destruct (u64_quot (a * b) ltac:(nia)) as (q & ? & ? & ?);
        remember (u64 (a * b)) as w eqn:E; clear E
      end
    | match goal with
      | |- context [u64 ?e] => rewrite (u64_small e) by word_range
      end
    | match goal with
      | |- context [_addcarry_u64 ?c ?x ?y] =>
        let cy := fresh "cy" in
        let s := fresh "s" in
        let E := fresh "E" in
        destruct (addcarry_words c x y ltac:(word_range) ltac:(word_range)
                    ltac:(lia) ltac:(lia))
          as (cy & s & E & ? & ? & ?);
        rewrite !E; clear E
      end
    | match goal with
      | |- context [_addcarry_u64 ?c ?x ?y] =>
        let cy := fresh "cy" in
        let s := fresh "s" in
        let q := fresh "q" in
        let E := fresh "E" in
        destruct (addcarry_sum c x y ltac:(word_range) ltac:(word_range)
                    ltac:(lia))
          as (cy & s & q & E & ? & ? & ?);
        rewrite !E; clear E
      end ].

(** The product [P], with its eight words. *)
Lemma Montgomery_product ma mb :
  Forall is_u64 (low4 ma) -> Forall is_u64 (low4 mb) ->
  exists p0 p1 p2 p3 p4 p5 p6 p7,
    (if (sw mb 0 =? 1) && (sw mb 1 =? 0) && (sw mb 2 =? 0) && (sw mb 3 =? 0)
     then [sw ma 0; sw ma 1; sw ma 2; sw ma 3; 0; 0; 0; 0]
     else multiply ma mb) = [p0; p1; p2; p3; p4; p5; p6; p7] /\
    Forall is_u64 [p0; p1; p2; p3; p4; p5; p6; p7] /\
    words_val [p0; p1; p2; p3; p4; p5; p6; p7]
    = words_val (low4 ma) * words_val (low4 mb).
Proof.
  intros Ha Hb. unfold low4 in *.
  inversion Ha as [| ? ? A0 Ha1]; inversion Ha1 as [| ? ? A1 Ha2];
    inversion Ha2 as [| ? ? A2 Ha3]; inversion Ha3 as [| ? ? A3 _]; subst.
  inversion Hb as [| ? ? B0 Hb1]; inversion Hb1 as [| ? ? B1 Hb2];
    inversion Hb2 as [| ? ? B2 Hb3]; inversion Hb3 as [| ? ? B3 _]; subst.
  destruct ((sw mb 0 =? 1) && (sw mb 1 =? 0) && (sw mb 2 =? 0) && (sw mb 3 =? 0))
    eqn:E.
  - apply andb_true_iff in E. destruct E as [E E3].
    apply andb_true_iff in E. destruct E as [E E2].
    apply andb_true_iff in E. destruct E as [E0 E1].
    apply Z.eqb_eq in E0, E1, E2, E3.
    exists (sw ma 0), (sw ma 1), (sw ma 2), (sw ma 3), 0, 0, 0, 0.
    split; [reflexivity |]. split.
    + assert (Z0 : is_u64 0) by (unfold is_u64; lia).
      repeat (constructor; [assumption |]). constructor.
    + rewrite E0, E1, E2, E3. cbn [words_val]. ring.
  - destruct (multiply_words ma mb) as (c0 & c1 & c2 & c3 & c4 & c5 & c6 & c7 & Em).
    exists c0, c1, c2, c3, c4, c5, c6, c7.
    split; [exact Em |]. rewrite <- Em, multiply_sw. unfold low4.
    destruct (multiply_value (sw ma 0) (sw ma 1) (sw ma 2) (sw ma 3)
                (sw mb 0) (sw mb 1) (sw mb 2) (sw mb 3)
                A0 A1 A2 A3 B0 B1 B2 B3) as [V F].
    split; [exact F | exact V].
Qed.

Lemma Montgomery_sum_operands_spec ma mb :
  Forall is_u64 (low4 ma) -> Forall is_u64 (low4 mb) ->
  exists P temp Q,
    Montgomery_sum_operands ma mb = (P, temp) /\
    length P = 8%nat /\ length temp = 8%nat /\
    Forall is_u64 P /\ Forall is_u64 temp /\
    words_val P = words_val (low4 ma) * words_val (low4 mb) /\
    0 <= Q < 2 ^ 256 /\ words_val temp = Q * order_value /\
    (words_val P + Q * order_value) mod 2 ^ 256 = 0.
Proof.
  intros Ha Hb. unfold Montgomery_sum_operands. cbv zeta.
  destruct (Montgomery_product ma mb Ha Hb)
    as (p0 & p1 & p2 & p3 & p4 & p5 & p6 & p7 & EP & FP & VP).
  rewrite EP. cbn [sw nth]. rewrite <- VP. clear EP VP Ha Hb.
  inversion FP as [| ? ? A0 F1]; inversion F1 as [| ? ? A1 F2];
    inversion F2 as [| ? ? A2 F3]; inversion F3 as [| ? ? A3 _]; subst.
  clear F1 F2 F3.
  unfold MONTGOMERY_SMALL_R_PRIME_0, MONTGOMERY_SMALL_R_PRIME_1,
    MONTGOMERY_SMALL_R_PRIME_2, MONTGOMERY_SMALL_R_PRIME_3.
  unfold is_u64 in A0, A1, A2, A3.
  mul_products.
  repeat q_step.
  cbv beta iota.
  assert (HQ : words_val [lo; s2; s7; s10]
               + 2 ^ 256 * (p1 * 17520976163906895988 + p2 * 13611014889324010273
                            + p3 * 15518974101157633267
                            + 2 ^ 64 * (p2 * 17520976163906895988
                                        + p3 * 13611014889324010273)
                            + 2 ^ 128 * (p3 * 17520976163906895988)
                            + q + q0 + q1 + q2 + cy1 + cy5 + cy6 + cy8 + cy9 + cy10)
               = words_val [p0; p1; p2; p3] * rprime_value).
  { unfold rprime_value, MONTGOMERY_SMALL_R_PRIME_0, MONTGOMERY_SMALL_R_PRIME_1,
      MONTGOMERY_SMALL_R_PRIME_2, MONTGOMERY_SMALL_R_PRIME_3.
    cbn [words_val]. lia. }
  match type of HQ with
  | _ + 2 ^ 256 * ?K = _ => remember K as K0 eqn:EK; clear EK
  end.
  assert (FQ : Forall is_u64 [lo; s2; s7; s10]).
  { unfold is_u64. repeat (constructor; [lia |]). constructor. }
  pose proof (words_val_range _ FQ) as RQ. cbn [length] in RQ.
  change (64 * Z.of_nat 4) with 256 in RQ.
  destruct (multiply_words [lo; s2; s7; s10] curve_order)
    as (c0 & c1 & c2 & c3 & c4 & c5 & c6 & c7 & Em).
  destruct (multiply_value lo s2 s7 s10
              CURVE_ORDER_0 CURVE_ORDER_1 CURVE_ORDER_2 CURVE_ORDER_3)
    as [V F]; try word_range;
    try (unfold is_u64, CURVE_ORDER_0, CURVE_ORDER_1, CURVE_ORDER_2, CURVE_ORDER_3; lia).
  change [CURVE_ORDER_0; CURVE_ORDER_1; CURVE_ORDER_2; CURVE_ORDER_3]
    with curve_order in V, F.
  exists [p0; p1; p2; p3; p4; p5; p6; p7], (multiply [lo; s2; s7; s10] curve_order),
    (words_val [lo; s2; s7; s10]).
  split; [reflexivity |]. split; [reflexivity |].
  split; [rewrite Em; reflexivity |]. split; [exact FP |]. split; [exact F |].
  split; [reflexivity |]. split; [exact RQ |]. split; [exact V |].
  assert (EP : words_val [p0; p1; p2; p3; p4; p5; p6; p7]
               = words_val [p0; p1; p2; p3] + 2 ^ 256 * words_val [p4; p5; p6; p7]).
  { cbn [words_val]. ring. }
  rewrite EP. exact (low_half_cleared _ _ _ _ HQ).
Qed.

Lemma order_value_eq :
  order_value = 0x0029CBC14E5E0A72F05397829CBC14E5DFBD004DFE0F79992FB2540EC7768CE7.
Proof. reflexivity. Qed.

(** ** The Montgomery product *)

(** When the eight-word addition keeps its carries and the product of the
    operands is below 2^256 * order, the result is the reduced residue [mc]
    with 2^256 * mc = ma * mb modulo the order. *)
Lemma Montgomery_multiply_value ma mb :
  Forall is_u64 (low4 ma) -> Forall is_u64 (low4 mb) ->
  words_val (low4 ma) * words_val (low4 mb) < 2 ^ 256 * order_value ->
  Montgomery_carries_kept ma mb = true ->
  length (Montgomery_multiply_mod_order ma mb) = 4%nat /\
  Forall is_u64 (Montgomery_multiply_mod_order ma mb) /\
  0 <= words_val (Montgomery_multiply_mod_order ma mb) < order_value /\
  (2 ^ 256 * words_val (Montgomery_multiply_mod_order ma mb)) mod order_value
  = (words_val (low4 ma) * words_val (low4 mb)) mod order_value.
Proof.
  intros Ha Hb Hlt Hk. rewrite Montgomery_split.
  unfold Montgomery_carries_kept in Hk.
  destruct (Montgomery_sum_operands_spec ma mb Ha Hb)
    as (P & temp & Q & E & LP & LT & FP & FT & VP & RQ & VT & HM).
  rewrite E in *. rewrite <- VP in *. clear E VP Ha Hb.
  destruct (addcarry_chain_exact P temp 0 ltac:(lia) FP FT ltac:(lia) Hk)
    as (c & s & Ec & Vs & Fs & Ls & Hc).
  rewrite Ec. rewrite LP in Vs, Ls. change (64 * Z.of_nat 8) with 512 in Vs.
  pose proof (words_val_range P FP) as RP.
  pose proof (words_val_range s Fs) as RS. rewrite Ls in RS.
  change (64 * Z.of_nat 8) with 512 in RS.
  pose proof order_value_eq as EO.
  assert (c = 0) by nia. subst c.
  destruct s as [| s0 [| s1 [| s2 [| s3 [| s4 [| s5 [| s6 [| s7 [| ? ?]]]]]]]]];
    try discriminate Ls.
  cbn [skipn].
  inversion Fs as [| ? ? S0 F1]; inversion F1 as [| ? ? S1 F2];
    inversion F2 as [| ? ? S2 F3]; inversion F3 as [| ? ? S3 F4]; subst.
  pose proof (words_val_range [s0; s1; s2; s3]
                ltac:(repeat (constructor; [assumption |]); constructor)) as RL.
  cbn [length] in RL. change (64 * Z.of_nat 4) with 256 in RL.
  pose proof (words_val_range _ F4) as RH.
  cbn [length] in RH. change (64 * Z.of_nat 4) with 256 in RH.
  assert (ES : words_val [s0; s1; s2; s3; s4; s5; s6; s7]
               = words_val [s0; s1; s2; s3] + 2 ^ 256 * words_val [s4; s5; s6; s7]).
  { cbn [words_val]. ring. }
  set (lowv := words_val [s0; s1; s2; s3]) in *.
  set (t := words_val [s4; s5; s6; s7]) in *.
  rewrite VT in Vs.
  assert (Hlow : lowv = 0).
  { assert (Hm : (lowv + 2 ^ 256 * t) mod 2 ^ 256 = 0).
    { rewrite <- ES, <- HM. f_equal. lia. }
    rewrite Z.mul_comm, Z.mod_add, Z.mod_small in Hm by lia. exact Hm. }
  assert (Ht : 2 ^ 256 * t = words_val P + Q * order_value) by lia.
  assert (Ht2 : 0 <= t < 2 * order_value) by nia.
  destruct (subborrow_chain_exact [s4; s5; s6; s7] curve_order 0
              ltac:(reflexivity) F4 curve_order_words ltac:(lia))
    as (bo & d & Eb & Vd & Fd & Ld & Hbo).
  rewrite Eb. cbn [length] in Vd, Ld. change (64 * Z.of_nat 4) with 256 in Vd.
  fold t in Vd. fold order_value in Vd.
  pose proof (words_val_range d Fd) as RD. rewrite Ld in RD.
  change (64 * Z.of_nat 4) with 256 in RD.
  assert (Hmod : forall v, v - t = 0 \/ v - t = - order_value ->
                 (2 ^ 256 * v) mod order_value = words_val P mod order_value).
  { intros v [Hv | Hv].
    - replace v with t by lia. rewrite Ht. apply Z.mod_add. lia.
    - replace (2 ^ 256 * v) with (words_val P + (Q - 2 ^ 256) * order_value) by lia.
      apply Z.mod_add. lia. }
  destruct (Z.eqb_spec (0 - bo) 0) as [Hz | Hz]; cbn [negb].
  - assert (bo = 0) by lia. subst bo.
    split; [exact Ld |]. split; [exact Fd |]. split; [lia |].
    apply Hmod. right. lia.
  - assert (bo = 1) by lia. subst bo.
    destruct (addcarry_chain_exact d curve_order 0 ltac:(rewrite Ld; reflexivity)
                Fd ltac:(apply (Forall_impl is_u64 (P := fun y => 0 <= y < 2 ^ 64 - 1));
                         [unfold is_u64; intros; lia | exact curve_order_words])
                ltac:(lia) (carries_kept_below d curve_order 0 curve_order_words))
      as (c2 & r & Er & Vr & Fr & Lr & Hc2).
    rewrite Er. cbn [snd]. rewrite Ld in Vr, Lr.
    change (64 * Z.of_nat 4) with 256 in Vr. fold order_value in Vr.
    pose proof (words_val_range r Fr) as RR. rewrite Lr in RR.
    change (64 * Z.of_nat 4) with 256 in RR.
    split; [exact Lr |]. split; [exact Fr |].
    assert (c2 = 1) by lia. subst c2.
    split; [lia |].
    apply Hmod. left. lia.
Qed.

(** ** The reduction of a 256-bit value *)

(** 2^512 is invertible modulo the order. *)
Lemma radix_inverse :
  exists i, (i * 2 ^ 512) mod order_value = 1.
Proof.
  exists 0x2624492be10fe5fd337441973479a03eb7111bcbf043ba8169d7c311d50560.
  vm_compute. reflexivity.
Qed.

Lemma radix_cancel a b :
  (2 ^ 512 * a) mod order_value = (2 ^ 512 * b) mod order_value ->
  a mod order_value = b mod order_value.
Proof.
  intros H. destruct radix_inverse as [i Hi].
  assert (E : forall x, x mod order_value
                        = (i * ((2 ^ 512 * x) mod order_value)) mod order_value).
  { intros x. rewrite Z.mul_mod_idemp_r by (rewrite order_value_eq; lia).
    rewrite Z.mul_assoc, <- Z.mul_mod_idemp_l by (rewrite order_value_eq; lia).
    rewrite Hi, Z.mul_1_l. reflexivity. }
  rewrite (E a), (E b), H. reflexivity.
Qed.

Lemma low4_length4 (x : scalar_t) : length x = 4%nat -> low4 x = x.
Proof.
  destruct x as [| x0 [| x1 [| x2 [| x3 [| ? ?]]]]]; try discriminate.
  reflexivity.
Qed.

(** The two Montgomery multiplications by [Montgomery_Rprime] and [ONE]
    reduce a four-word value modulo the order when they keep their
    carries. *)
Lemma reduction_arith vh vx vy :
  0 <= vy < order_value ->
  (2 ^ 256 * vy) mod order_value = vx mod order_value ->
  (2 ^ 256 * vx) mod order_value
  = (vh * words_val (low4 Montgomery_Rprime)) mod order_value ->
  vy = vh mod order_value.
Proof.
  intros R2 M2 M1.
  assert (ER : words_val (low4 Montgomery_Rprime) mod order_value
               = 2 ^ 512 mod order_value)
    by (vm_compute; reflexivity).
  pose proof order_value_eq as EO.
  generalize dependent (words_val (low4 Montgomery_Rprime)).
  intros rp M1 ER.
  rewrite <- (Z.mod_small vy order_value) by lia.
  assert (Ho : order_value <> 0) by lia.
  apply radix_cancel.
  replace (2 ^ 512 * vy) with (2 ^ 256 * (2 ^ 256 * vy)) by ring.
  rewrite <- Z.mul_mod_idemp_r, M2, Z.mul_mod_idemp_r, M1 by exact Ho.
  rewrite <- Z.mul_mod_idemp_r, ER, Z.mul_mod_idemp_r by exact Ho.
  f_equal. ring.
Qed.

Lemma reduction_value h :
  Forall is_u64 (low4 h) ->
  Montgomery_carries_kept h Montgomery_Rprime = true ->
  Montgomery_carries_kept
    (Montgomery_multiply_mod_order h Montgomery_Rprime) ONE = true ->
  length (Montgomery_multiply_mod_order
            (Montgomery_multiply_mod_order h Montgomery_Rprime) ONE) = 4%nat /\
  Forall is_u64 (Montgomery_multiply_mod_order
                   (Montgomery_multiply_mod_order h Montgomery_Rprime) ONE) /\
  words_val (Montgomery_multiply_mod_order
               (Montgomery_multiply_mod_order h Montgomery_Rprime) ONE)
  = words_val (low4 h) mod order_value.
Proof.
  intros Hh K1 K2.
  pose proof (words_val_range (low4 h) Hh) as Rh. cbn [length low4] in Rh.
  change (64 * Z.of_nat 4) with 256 in Rh. fold (low4 h) in Rh.
  assert (FR : Forall is_u64 (low4 Montgomery_Rprime)).
  { unfold is_u64. repeat (constructor; [cbn; lia |]). constructor. }
  assert (FO : Forall is_u64 (low4 ONE)).
  { unfold is_u64. repeat (constructor; [cbn; lia |]). constructor. }
  assert (VO : words_val (low4 ONE) = 1) by reflexivity.
  assert (B1 : words_val (low4 h) * words_val (low4 Montgomery_Rprime)
               < 2 ^ 256 * order_value).
  { apply Z.mul_lt_mono_nonneg;
      [lia | lia | vm_compute; discriminate | vm_compute; reflexivity]. }
  destruct (Montgomery_multiply_value h Montgomery_Rprime Hh FR B1 K1)
    as (L1 & F1 & R1 & M1).
  revert K2 L1 F1 R1 M1.
  generalize (Montgomery_multiply_mod_order h Montgomery_Rprime).
  intros x K2 L1 F1 R1 M1.
  assert (Fx : Forall is_u64 (low4 x)) by (rewrite (low4_length4 x L1); exact F1).
  assert (Vx : words_val (low4 x) = words_val x)
    by (rewrite (low4_length4 x L1); reflexivity).
  assert (B2 : words_val (low4 x) * words_val (low4 ONE) < 2 ^ 256 * order_value).
  { rewrite Vx, VO, Z.mul_1_r.
    apply Z.lt_le_trans with (1 * order_value); [lia |].
    apply Z.mul_le_mono_nonneg_r; lia. }
  destruct (Montgomery_multiply_value x ONE Fx FO B2 K2)
    as (L2 & F2 & R2 & M2).
  revert L2 F2 R2 M2.
  generalize (Montgomery_multiply_mod_order x ONE).
  intros y L2 F2 R2 M2.
  split; [exact L2 |]. split; [exact F2 |].
  rewrite Vx, VO, Z.mul_1_r in M2.
  exact (reduction_arith _ _ _ R2 M2 M1).
Qed.

(** The hypothesis on the carries is needed: in the multiplication of 5 by
    [ONE] the second word of [Q * order] is 2^64 - 1 and meets a carry,
    which is lost, and the result is not the Montgomery product. *)
Example Montgomery_lost_carry :
  Montgomery_carries_kept [5; 0; 0; 0] ONE = false /\
  (2 ^ 256 * words_val (Montgomery_multiply_mod_order [5; 0; 0; 0] ONE))
    mod order_value <> 5 mod order_value.
Proof. split; [vm_compute; reflexivity | vm_compute; discriminate]. Qed.

End MontgomeryFacts.

Module MontgomeryProduct.
Import WordFacts MontgomeryFacts.

(** [Montgomery_multiply_mod_order(ma, mb, mc)] returns four words that hold
    a value mc in [0, order) with 2^256 * mc = ma * mb modulo the order,
    whenever ma * mb is below 2^256 * order and no call of the eight-word
    addition of P and Q * order meets src2 + b_in = 2^64, the case in which
    [_addcarry_u64] as the source defines it returns no carry. *)
Theorem Montgomery_multiply_mod_order_correct (ma mb : scalar_t) :
  Forall is_u64 (low4 ma) -> Forall is_u64 (low4 mb) ->
  words_val (low4 ma) * words_val (low4 mb) < 2 ^ 256 * order_value ->
  Montgomery_carries_kept ma mb = true ->
  length (Montgomery_multiply_mod_order ma mb) = 4%nat /\
  Forall is_u64 (Montgomery_multiply_mod_order ma mb) /\
  0 <= words_val (Montgomery_multiply_mod_order ma mb) < order_value /\
  (2 ^ 256 * words_val (Montgomery_multiply_mod_order ma mb)) mod order_value
  = (words_val (low4 ma) * words_val (low4 mb)) mod order_value.
Proof. exact (Montgomery_multiply_value ma mb). Qed.

Lemma Montgomery_multiply_mod_order_correct_witness :
  (2 ^ 256 * words_val (Montgomery_multiply_mod_order curve_order Montgomery_Rprime))
    mod order_value
  = (words_val (low4 curve_order) * words_val (low4 Montgomery_Rprime))
    mod order_value.
Proof.
  apply (Montgomery_multiply_mod_order_correct curve_order Montgomery_Rprime).
  - repeat (constructor; [vm_compute; split; [discriminate | reflexivity] |]).
    constructor.
  - repeat (constructor; [vm_compute; split; [discriminate | reflexivity] |]).
    constructor.
  - vm_compute. reflexivity.
  - vm_compute. reflexivity.
Defined.

End MontgomeryProduct.


(** * The challenge scalar of a signature *)

Module ChallengeFacts.
Import WordFacts ByteFacts DecodeFacts SignatureClaims CommitFacts SpongeFacts.
Import MontgomeryFacts.

(** The words of a buffer hold its little-endian integer. *)
Lemma words_val_word_at bs (n : nat) : forall i : nat,
  (8 * (i + n) <= length bs)%nat ->
  words_val (map (word_at bs) (seq i n)) = le_int (sub_bytes bs (8 * i) (8 * n)).
Proof.
  induction n as [| n IH]; intros i Hl.
  - reflexivity.
  - cbn [seq map words_val]. rewrite (IH (S i)) by lia.
    replace (8 * S n)%nat with (8 + 8 * n)%nat by lia.
    rewrite sub_bytes_plus, le_int_app.
    rewrite length_sub_bytes_exact by lia.
    replace (8 * i + 8)%nat with (8 * S i)%nat by lia.
    unfold word_at. change (256 ^ Z.of_nat 8) with (2 ^ 64). reflexivity.
Qed.

Lemma low4_words_of_bytes bs :
  (32 <= length bs)%nat ->
  Forall is_u64 (low4 (words_of_bytes 8 bs)) /\
  words_val (low4 (words_of_bytes 8 bs)) = le_int (firstn 32 bs).
Proof.
  intros Hl.
  change (low4 (words_of_bytes 8 bs)) with (map (word_at bs) (seq 0 4)).
  split.
  - cbn [seq map]. repeat (constructor; [apply word_at_range |]). constructor.
  - rewrite (words_val_word_at bs 4 0) by (cbn; lia). reflexivity.
Qed.

Lemma sub_bytes_tail (a b : list Byte.byte) :
  sub_bytes (a ++ b) (length a) (length b) = b.
Proof.
  unfold sub_bytes. rewrite skipn_app, skipn_all, Nat.sub_diag.
  cbn [skipn app]. apply firstn_all.
Qed.

(** The nonce words depend on the second half of [k] and on the digest
    alone. *)
Lemma sign_r_eq temp0 k d :
  length temp0 = 96%nat -> length k = 64%nat -> length d = 32%nat ->
  sign_r temp0 k d
  = words_of_bytes 8 (KangarooTwelve (sub_bytes k 32 32 ++ d) 64).
Proof.
  intros Ht Hk Hd. unfold sign_r. cbv zeta.
  rewrite sign_temp_nonce_eq by assumption.
  do 2 f_equal.
  pose proof (length_sub_bytes k 32 32 ltac:(lia)) as LK.
  assert (LT : length (firstn 32 temp0) = 32%nat) by (rewrite length_firstn; lia).
  assert (LB : length (sub_bytes k 32 32 ++ d) = 64%nat)
    by (rewrite length_app; lia).
  pose proof (sub_bytes_tail (firstn 32 temp0) (sub_bytes k 32 32 ++ d)) as E.
  rewrite LT, LB in E. exact E.
Qed.

Lemma sign_commitment_eq temp0 k d :
  length temp0 = 96%nat -> length k = 64%nat -> length d = 32%nat ->
  sign_commitment temp0 k d
  = encode (ecc_mul_fixed
              (words_of_bytes 8 (KangarooTwelve (sub_bytes k 32 32 ++ d) 64))).
Proof.
  intros Ht Hk Hd. unfold sign_commitment. do 2 f_equal.
  apply sign_r_eq; assumption.
Qed.

Lemma firstn_head32 (a tail : list Byte.byte) :
  length a = 32%nat -> firstn 32 (a ++ tail) = a.
Proof.
  intros Hl. rewrite firstn_app, Hl.
  replace (32 - 32)%nat with 0%nat by lia.
  rewrite firstn_O, app_nil_r. apply firstn_all2. lia.
Qed.

(** The challenge is the pair of Montgomery multiplications of the hash of
    the bytes hashed. *)
Lemma sign_challenge_eq temp0 k pk d input :
  sign_challenge_input temp0 k pk d = input ->
  sign_challenge temp0 k pk d
  = Montgomery_multiply_mod_order
      (Montgomery_multiply_mod_order
         (words_of_bytes 8 (KangarooTwelve input 64)) Montgomery_Rprime)
      ONE.
Proof. intros <-. reflexivity. Qed.

End ChallengeFacts.

Module Challenge.
Import WordFacts ByteFacts DecodeFacts SignatureClaims CommitFacts SpongeFacts.
Import MontgomeryFacts ChallengeFacts.

(** C3, amended.  In [signWithNonceK], and so in [sign], the bytes hashed
    for the challenge are the 96 bytes commitment || public key || message
    digest, where the commitment, the first 32 bytes of the signature, is
    the encoding of the nonce point: nothing of what the buffer held before
    enters the hash.  The challenge scalar is the first 32 bytes of the
    hash, a little-endian integer, reduced modulo the order of the group,
    on every run in which the eight-word additions of the two Montgomery
    multiplications by [Montgomery_Rprime] and [ONE] lose no carry. *)
Theorem C3_challenge_scalar (temp0 k pk d : list Byte.byte) :
  length temp0 = 96%nat -> length k = 64%nat ->
  length pk = 32%nat -> length d = 32%nat ->
  let commitment :=
    encode (ecc_mul_fixed
              (words_of_bytes 8 (KangarooTwelve (sub_bytes k 32 32 ++ d) 64))) in
  let hash := KangarooTwelve (commitment ++ pk ++ d) 64 in
  firstn 32 (signWithNonceK_from temp0 k pk d) = commitment /\
  sign_challenge_input temp0 k pk d = commitment ++ pk ++ d /\
  (Montgomery_carries_kept (words_of_bytes 8 hash) Montgomery_Rprime = true ->
   Montgomery_carries_kept
     (Montgomery_multiply_mod_order (words_of_bytes 8 hash) Montgomery_Rprime)
     ONE = true ->
   length (sign_challenge temp0 k pk d) = 4%nat /\
   Forall is_u64 (sign_challenge temp0 k pk d) /\
   words_val (sign_challenge temp0 k pk d)
   = le_int (firstn 32 hash) mod order_value).
Proof.
  intros Ht Hk Hp Hd commitment hash.
  assert (EC : sign_commitment temp0 k d = commitment)
    by (apply sign_commitment_eq; assumption).
  assert (LC : length commitment = 32%nat) by apply length_encode.
  clearbody commitment.
  assert (EI : sign_challenge_input temp0 k pk d = commitment ++ pk ++ d)
    by (rewrite <- EC; apply sign_challenge_input_eq; assumption).
  assert (LH : length hash = 64%nat)
    by exact (proj2 (KangarooTwelve_prefix (commitment ++ pk ++ d) 64 64 (le_n 64))).
  assert (ES := sign_challenge_eq temp0 k pk d _ EI). fold hash in ES.
  clearbody hash.
  split.
  - destruct (signWithNonceK_from_head temp0 k pk d) as [tail ->].
    rewrite EC. apply firstn_head32. exact LC.
  - split; [exact EI |]. intros K1 K2. rewrite ES.
    destruct (low4_words_of_bytes hash ltac:(lia)) as [Fh Vh].
    destruct (reduction_value (words_of_bytes 8 hash) Fh K1 K2) as (L & F & V).
    split; [exact L |]. split; [exact F |]. rewrite V, Vh. reflexivity.
Qed.

Lemma C3_challenge_scalar_witness :
  Montgomery_carries_kept
    (words_of_bytes 8
       (KangarooTwelve
          (encode (ecc_mul_fixed
                     (words_of_bytes 8
                        (KangarooTwelve
                           (sub_bytes (repeat Byte.x00 64) 32 32 ++ zero32) 64)))
           ++ zero32 ++ zero32) 64))
    Montgomery_Rprime = true /\
  words_val (sign_challenge (repeat Byte.x00 96) (repeat Byte.x00 64) zero32 zero32)
  = le_int
      (firstn 32
         (KangarooTwelve
            (encode (ecc_mul_fixed
                       (words_of_bytes 8
                          (KangarooTwelve
                             (sub_bytes (repeat Byte.x00 64) 32 32 ++ zero32) 64)))
             ++ zero32 ++ zero32) 64))
    mod order_value.
Proof.
  assert (K1 :
    Montgomery_carries_kept
      (words_of_bytes 8
         (KangarooTwelve
            (encode (ecc_mul_fixed
                       (words_of_bytes 8
                          (KangarooTwelve
                             (sub_bytes (repeat Byte.x00 64) 32 32 ++ zero32) 64)))
             ++ zero32 ++ zero32) 64))
      Montgomery_Rprime = true) by (vm_compute; reflexivity).
  assert (K2 :
    Montgomery_carries_kept
      (Montgomery_multiply_mod_order
         (words_of_bytes 8
            (KangarooTwelve
               (encode (ecc_mul_fixed
                          (words_of_bytes 8
                             (KangarooTwelve
                                (sub_bytes (repeat Byte.x00 64) 32 32 ++ zero32) 64)))
                ++ zero32 ++ zero32) 64))
         Montgomery_Rprime)
      ONE = true) by (vm_compute; reflexivity).
  split; [exact K1 |].
  exact (proj2 (proj2 (proj2 (proj2
           (C3_challenge_scalar (repeat Byte.x00 96) (repeat Byte.x00 64)
              zero32 zero32 eq_refl eq_refl eq_refl eq_refl)) K1 K2))).
Defined.

End Challenge.
